(* ===== verification/_CoqProject ===== *)
-Q . S2P
Prelude.v
Checksum.v
Packet.v
Bitfield.v
PioCopy.v
Vi.v
Ring.v
Tx.v
Rx.v
Event.v
Timestamp.v
PackedStream.v
ViInit.v
Falcon.v
FalconEvent.v
Dllist.v
Tiling.v
Buddy.v
BuddySystem.v
ViAlloc.v
TimerWheel.v
Iptimer.v
TimerClock.v
OnloadHash.v
NetifTable.v
NetifTableInv.v
NetifTableSystem.v
PrevSeq.v
PrevSeqTable.v
PrevSeqSystem.v
PrevSeqClock.v
Eplock.v
EplockLogic.v
EplockInv.v
EplockCode.v
EplockSystem.v
Filter.v
