(* ===== verification/Prelude.v ===== *)
(** Verification of the C code of the sfc virtual device plugin: its packet
    library (src/lib/citools.c) and the parts of OpenOnload it is built on, in
    src/contrib/onload-7.1.2.141/src.  Paths below are relative to the latter
    unless they start with src/.

    * The program

    An application (the client of src/lib) builds Ethernet/IP/UDP frames and
    hands them to ef_vi, the user-level driver of Solarflare NICs
    (lib/ciul).  A VI is a transmit ring, a receive ring and an event queue
    shared with the NIC: [ef_vi_transmitv_init] writes DMA descriptors and
    remembers one id per packet, a push writes the doorbell, the NIC writes
    events, [ef_eventq_poll] turns them into completions, and
    [ef_vi_transmit_unbundle] and [ef_vi_receive_unbundle] give the ids back.
    Packets may also be written straight to NIC memory (PIO, CTPIO), received
    in packed streams, and carry hardware timestamps.  Filters steer packets to
    a VI.  The resource driver (lib/efrm) hands out VI instances from buddy
    allocators, whose free lists are intrusive linked lists; the TCP/IP stack
    (lib/transport/ip) uses the same lists for its timer wheel and the same
    kind of allocator for the PIO region.

    * The files

    - Prelude: machine integers, byte order, errno values, arrays, record
      update, the tactics and the generic lemmas.
    - Checksum: lib/ciul/checksum.c, lib/citools/ip_csum_partial.c, ipcsum.c,
      udp_checksum.c, tcp_checksum.c, icmp_checksum.c, against ones'
      complement sums of 16-bit words.
    - Packet: src/lib/citools.c and lib/citools/ippacket.c, the headers of the
      client's frames as bytes of memory.
    - Bitfield: the CI_QWORD/CI_DWORD field macros of
      include/ci/tools/bitfield.h.
    - PioCopy: lib/ciul/memcpy_to_io.h, copies of iovecs to write-combined
      memory in words of 8 bytes.
    - Vi, Ring: struct ef_vi, its rings and accessors
      (include/etherfabric/ef_vi.h) and the arithmetic of free-running indices.
    - Tx, Rx: lib/ciul/ef10_vi.c, pt_tx.c, pt_rx.c.
    - Event: lib/ciul/ef10_event.c and ef10_evtimer.c; Timestamp and
      PackedStream: the parts of ef10_event.c on receive timestamps and packed
      streams.
    - ViInit: lib/ciul/vi_init.c, vi_discard.c and the layout of a VI in
      pt_endpoint.c.
    - Dllist: include/ci/tools/dllist.h and include/onload/oo_p_dllist.h, at
      the level of the pointers.
    - Tiling, Buddy, BuddySystem: lib/efrm/buddy.c, lib/citools/buddy.c,
      lib/transport/ip/pio_buddy.c.
    - Filter: lib/ciul/filter.c.
    - ViAlloc: lib/efrm/vi_allocator.c, VI sets on top of efrm's allocator.
    - TimerWheel, Iptimer, TimerClock: lib/transport/ip/iptimer.c,
      include/ci/internal/iptimer.h and the time functions of
      include/ci/internal/ip.h: the timing wheels of the TCP/IP stack.
    - OnloadHash, NetifTable, NetifTableInv, NetifTableSystem:
      include/onload/hash.h and lib/transport/ip/netif_table.c, the
      open-addressed table that finds the socket of a packet.
    - PrevSeq, PrevSeqTable, PrevSeqSystem, PrevSeqClock: the [prev_seq]
      routines of lib/transport/ip/tcp_connect.c and the initial sequence
      numbers of include/ci/internal/ip.h.
    - Eplock, EplockLogic, EplockInv, EplockCode, EplockSystem:
      include/onload/eplock.h, lib/transport/ip/eplock_slow.c,
      lib/efthrm/eplock_resource_manager.c and the code that releases the lock
      in lib/transport/ip/netif.c and lib/efthrm/tcp_helper_resource.c: the
      lock of a stack, its waiters and the work left to its holder.
    - Falcon, FalconEvent: lib/ciul/falcon_vi.c, falcon_event.c and
      falcon_evtimer.c, the data path of older NICs.

    * How the code is modelled

    A C function is a Rocq function of the same name with the state it reads
    and writes passed explicitly.  Structs are records, updated with
    [r <| f := v |>]; an unsigned integer of width w is a [Z] wrapped by [u8],
    [u16], [u32], [u64] where the code computes with it, and an [int] by
    [s32].  Errors are the negated errno values the code returns.  Loops that
    are not structural take fuel and return [None] when it runs out; theorems
    show that the fuel the callers pass is enough: the buddy loops get
    [loop_fuel] = 300 turns and need at most order + 1 <= 31; ring and event
    loops get the size of the ring or the number of events; list traversals
    the number of links; other loops a bound computed from their arguments.
    Calls into the kernel, memory the code does not initialise and the
    contents of memory written by the NIC are arguments.  The build modelled is
    the release build at user level (assertions compiled out) on a
    little-endian 64-bit machine; where a routine is built for the kernel only
    its file says so.

    * What the theorems show

    - The event queue of EF10 is refined by a queue of events: what the NIC
      writes is delivered once, in order, whatever the interleaving of writes,
      polls and wraps of the ring (Event: eventq_system_refines,
      eventq_poll_refines); a poll returns unless a time stamp is pending for
      which the transmit ring holds no packet; a packet split over several buffers is reassembled
      (rx_packet_reassembly).
    - Transmit and receive rings: descriptors written are those asked for, a
      request that does not fit changes nothing, ids come back first in first
      out, and the unbundle loops end (Tx, Rx).
    - Timestamps: the full time is rebuilt from the low bits the NIC stamps and
      the time-sync events, and a call fails exactly when the stamp is missing
      or too far from the last of these (Timestamp); packed-stream credits are conserved and
      bounded (PackedStream).
    - Initialisation: the rings of a fresh or reset VI satisfy the invariants
      the data path needs; events already in the event ring are kept (ViInit).
    - Checksums agree with their RFCs on every input (Checksum), the frames of
      the packet library verify (Packet), the copies to the NIC write exactly
      the bytes of the iovecs, within their staging buffer, and end for every
      destination aligned as the code requires (PioCopy), fields written are the fields read
      (Bitfield, Rx).
    - Any sequence of list calls on pointers does what it does on plain lists
      (Dllist); in every state the buddy allocators reach, blocks handed out
      are aligned, in range and disjoint, and a request fails only if no place
      is left (BuddySystem).
    - A filter request is what the specification's criteria say, or the
      documented error (Filter).
    - In every state reachable by allocating and freeing VI sets, the sets are
      aligned, in range and disjoint (across the two allocators: when their
      ranges are), and a request fails exactly when it must (ViAlloc).
    - The timing wheels fire what a plain map from timers to expiry ticks says
      must fire, in order of time and whatever the callbacks set or clear
      (Iptimer); the estimate of the next expiry is never late within its
      horizon, and the conversions between milliseconds and ticks are exact
      up to the stated rounding (TimerClock).  The cascade and fire loops get
      the number of timers + 1 turns, the poll loop the ticks to go + 1.
    - The software filter table answers as a map from sockets to tuples, in any
      order of insertions and removals (NetifTableSystem); the comments of
      hash.h on the hash functions hold (OnloadHash).  The walks get as many
      turns as the table has slots.
    - The cache of old TCP sequence numbers is a bag of records from which only
      expired or oldest ones are dropped (PrevSeqSystem), and a connection that
      relies on the clock, or on a record dropped before its 2 MSL, starts
      beyond the old numbers (PrevSeqClock).  A call recurses at most once, so two rounds of
      fuel are enough; the walks have the code's own limit of 16 probes.
    - The stack lock excludes, wakes its waiters, and has the alerts that a
      job answers and all deferred work seen to before it is free, for any number of threads in any
      interleaving (EplockSystem).  Functions are trees of atomic actions whose
      loops need no fuel; each is checked once against the rules of file
      EplockInv, which the logic of EplockLogic shows to be enough.
    - The rings of Falcon NICs are refined as those of EF10 (Falcon,
      FalconEvent); a lost receive event is made up for, at the price of an
      overrun of the caller's array, which a lemma shows.
    Several theorems state that the code departs from its documentation or
      from its purpose; each such theorem says so in its comment.

    * Not modelled

    The TCP and UDP protocol code (lib/transport/ip apart from what is named
    above), the kernel drivers (driver/, lib/efthrm, most of lib/efrm) and the
    sockets layer: they act on the state of the kernel and of the whole stack,
    and only self-contained parts of them are taken.  The routines of lib/ciul
    that only fill in and issue an ioctl (pd.c, pio.c, memreg.c, most of
    pt_endpoint.c), logging and the text of statistics: input and output.  The
    Go and C++ parts of the plugin. *)

From stdpp Require Import base list numbers.
From Stdlib Require Export ZArith Lia.

Open Scope Z_scope.

(** * Machine integers

    A C unsigned integer of width w is a [Z] in [0, 2^w); the conversions
    below are what an assignment, a cast or an arithmetic operation of that
    type does to a mathematical integer. *)

Definition u8 (z : Z) : Z := z `mod` 256.
Definition u16 (z : Z) : Z := z `mod` 65536.
Definition u32 (z : Z) : Z := z `mod` 4294967296.
Definition u64 (z : Z) : Z := z `mod` 18446744073709551616.

(** [int]: the value of the low 32 bits read as two's complement. *)
Definition s32 (z : Z) : Z :=
  let r := u32 z in if r <? 2147483648 then r else r - 4294967296.

(** C truth of an integer. *)
Definition nz (z : Z) : bool := negb (z =? 0).

Definition b2z (b : bool) : Z := if b then 1 else 0.

(** The byte swaps of a little-endian host: [htons]/[ntohs]/[CI_BSWAP_BE16]
    and [htonl]/[ntohl]/[CI_BSWAP_BE32]. *)
Definition bswap16 (v : Z) : Z :=
  Z.lor (Z.shiftl (Z.land v 255) 8) (Z.land (Z.shiftr v 8) 255).

Definition bswap32 (v : Z) : Z :=
  Z.lor (Z.shiftl (bswap16 (Z.land v 65535)) 16) (bswap16 (Z.land (Z.shiftr v 16) 65535)).

(** Linux errno values the code returns negated. *)
Definition EAGAIN := 11.
Definition ENOMEM := 12.
Definition EBUSY := 16.
Definition EINVAL := 22.
Definition ENOTTY := 25.
Definition ENOMSG := 42.
Definition EL2NSYNC := 45.
Definition ENODATA := 61.
Definition EPROTONOSUPPORT := 93.
Definition EOPNOTSUPP := 95.

(** ** Automation *)

Create HintDb word.
Create Rewrite HintDb word.

(** Arithmetic with the wrap-arounds written out. *)
Ltac word_lia :=
  unfold u8, u16, u32, u64 in *; Z.div_mod_to_equations; lia.

Lemma u8_range z : 0 <= u8 z < 256.
Proof. apply Z.mod_pos_bound; lia. Qed.

Lemma u16_range z : 0 <= u16 z < 65536.
Proof. apply Z.mod_pos_bound; lia. Qed.

Lemma u32_range z : 0 <= u32 z < 4294967296.
Proof. apply Z.mod_pos_bound; lia. Qed.

Lemma u64_range z : 0 <= u64 z < 18446744073709551616.
Proof. apply Z.mod_pos_bound; lia. Qed.

#[export] Hint Resolve u8_range u16_range u32_range u64_range : word.

Lemma u8_small z : 0 <= z < 256 -> u8 z = z.
Proof. apply Z.mod_small. Qed.

Lemma u16_small z : 0 <= z < 65536 -> u16 z = z.
Proof. apply Z.mod_small. Qed.

Lemma u32_small z : 0 <= z < 4294967296 -> u32 z = z.
Proof. apply Z.mod_small. Qed.

Lemma s32_small z : -2147483648 <= z < 2147483648 -> s32 z = z.
Proof.
  intros H. unfold s32. destruct (Z.ltb_spec (u32 z) 2147483648); word_lia.
Qed.

Lemma u64_small z : 0 <= z < 18446744073709551616 -> u64 z = z.
Proof. apply Z.mod_small. Qed.

Lemma u32_idemp z : u32 (u32 z) = u32 z.
Proof. apply Z.mod_mod; lia. Qed.

Lemma u32_add_l a b : u32 (u32 a + b) = u32 (a + b).
Proof. apply Zplus_mod_idemp_l. Qed.

Lemma u32_add_r a b : u32 (a + u32 b) = u32 (a + b).
Proof. apply Zplus_mod_idemp_r. Qed.

Lemma u32_sub_l a b : u32 (u32 a - b) = u32 (a - b).
Proof. apply Zminus_mod_idemp_l. Qed.

Lemma u32_sub_r a b : u32 (a - u32 b) = u32 (a - b).
Proof. apply Zminus_mod_idemp_r. Qed.

#[export] Hint Rewrite u32_idemp u32_add_l u32_add_r u32_sub_l u32_sub_r : word.

(** ** Masks *)

(** [x & (2^k - 1)] is reduction modulo [2^k]. *)
Lemma land_mask x k : 0 <= k -> Z.land x (2 ^ k - 1) = x `mod` 2 ^ k.
Proof. intros. rewrite <- Z.land_ones by lia. by rewrite Z.ones_equiv, Z.sub_1_r. Qed.

Lemma pow2_pos k : 0 <= k -> 0 < 2 ^ k.
Proof. intros. apply Z.pow_pos_nonneg; lia. Qed.

#[export] Hint Resolve pow2_pos : word.

(** Reducing modulo [2^32] does not change the ring slot of a counter. *)
Lemma u32_mod_pow2 x k : 0 <= k <= 32 -> (u32 x) `mod` 2 ^ k = x `mod` 2 ^ k.
Proof.
  intros. unfold u32. change 4294967296 with (2 ^ 32).
  apply Z.mod_mod_divide.
  exists (2 ^ (32 - k)). rewrite <- Z.pow_add_r by lia. f_equal. lia.
Qed.

Lemma land_mask_range x k : 0 <= k -> 0 <= Z.land x (2 ^ k - 1) < 2 ^ k.
Proof. intros. rewrite land_mask by lia. apply Z.mod_pos_bound. by apply pow2_pos. Qed.

(** Joining a shifted value with one that fits below it is an addition. *)
Lemma lor_shiftl_add a b n : 0 <= n -> 0 <= b < 2 ^ n -> Z.lor (Z.shiftl a n) b = a * 2 ^ n + b.
Proof.
  intros Hn Hb. rewrite Z.shiftl_mul_pow2 by lia.
  rewrite <- Z.lxor_lor.
  - rewrite <- Z.add_nocarry_lxor; [done|].
    apply Z.bits_inj'. intros i Hi. rewrite Z.land_spec, Z.bits_0.
    rewrite <- Z.shiftl_mul_pow2, Z.shiftl_spec by lia.
    destruct (decide (i < n)); [by rewrite Z.testbit_neg_r by lia|].
    rewrite <- (Z.mod_small b (2 ^ n)), Z.mod_pow2_bits_high by lia. by rewrite andb_false_r.
  - apply Z.bits_inj'. intros i Hi. rewrite Z.land_spec, Z.bits_0.
    rewrite <- Z.shiftl_mul_pow2, Z.shiftl_spec by lia.
    destruct (decide (i < n)); [by rewrite Z.testbit_neg_r by lia|].
    rewrite <- (Z.mod_small b (2 ^ n)), Z.mod_pow2_bits_high by lia. by rewrite andb_false_r.
Qed.

Lemma bswap16_eq v : bswap16 v = (v `mod` 256) * 256 + (v / 256) `mod` 256.
Proof.
  unfold bswap16. rewrite !(land_mask _ 8) by lia. change (2 ^ 8) with 256.
  rewrite Z.shiftr_div_pow2 by lia. apply lor_shiftl_add; [lia|].
  apply Z.mod_pos_bound. lia.
Qed.

Lemma bswap16_range v : 0 <= bswap16 v < 65536.
Proof. rewrite bswap16_eq. Z.div_mod_to_equations. lia. Qed.

Lemma bswap16_invol v : 0 <= v < 65536 -> bswap16 (bswap16 v) = v.
Proof. intros. rewrite !bswap16_eq. Z.div_mod_to_equations. lia. Qed.

Lemma bswap32_eq v :
  bswap32 v = bswap16 (v `mod` 65536) * 65536 + bswap16 ((v / 65536) `mod` 65536).
Proof.
  unfold bswap32. rewrite !(land_mask _ 16) by lia. change (2 ^ 16) with 65536.
  rewrite Z.shiftr_div_pow2 by lia. apply lor_shiftl_add; [lia|]. apply bswap16_range.
Qed.

(** * Field update

    [r <| f := v |>] is [r] with field [f] replaced, the assignment
    [r->f = v] of the sources.  A record supports it once [eta] rebuilds it
    field by field. *)

Class Eta (R : Type) := { eta : R -> R; eta_ok : forall r, eta r = r }.

Class Setter {R E : Type} (proj : R -> E) := fset : (E -> E) -> R -> R.
Arguments fset {R E} proj {_} _ _ /.

Ltac solve_eta := intros []; reflexivity.

Ltac derive_setter proj :=
  match type of proj with
  | ?R -> ?E =>
    let e := eval cbv [eta] in (@eta R _) in
    let e := eval hnf in e in
    exact (fun (f : E -> E) (r : R) => ltac:(
      let b := eval cbv beta in (e r) in
      match b with
      | context C [proj r] => let b' := context C [f (proj r)] in exact b'
      end))
  end.

#[export] Hint Extern 1 (Setter ?proj) => derive_setter proj : typeclass_instances.

Declare Scope field_scope.
#[warnings="-postfix-notation-not-level-1"]
Notation "r <| p := v |>" := (fset p (fun _ => v) r)
  (at level 12, left associativity, format "r  <| p  :=  v |>") : field_scope.
#[warnings="-postfix-notation-not-level-1"]
Notation "r <| p ::= f |>" := (fset p f r)
  (at level 12, left associativity, format "r  <| p  ::=  f |>") : field_scope.
Open Scope field_scope.

(** * Byte buffers

    A C buffer is the list of its bytes; multi-byte accesses are the
    little-endian ones of the host.  An access past the end is undefined in
    C; here a read past the end gives 0 and a write does nothing, and the
    theorems carry the length hypotheses that exclude both. *)

Definition byte_ok (b : Z) : Prop := 0 <= b < 256.

Definition get8 (buf : list Z) (i : nat) : Z := default 0 (buf !! i).
Definition get16 (buf : list Z) (i : nat) : Z := get8 buf i + 256 * get8 buf (S i).
Definition get32 (buf : list Z) (i : nat) : Z := get16 buf i + 65536 * get16 buf (S (S i)).

Definition put8 (buf : list Z) (i : nat) (v : Z) : list Z := <[i := u8 v]> buf.
Definition put16 (buf : list Z) (i : nat) (v : Z) : list Z :=
  put8 (put8 buf i v) (S i) (Z.shiftr v 8).
Definition put32 (buf : list Z) (i : nat) (v : Z) : list Z :=
  put16 (put16 buf i v) (S (S i)) (Z.shiftr v 16).

(** [memcpy(buf + i, src, |src|)]. *)
Fixpoint memcpy (buf : list Z) (i : nat) (src : list Z) : list Z :=
  match src with
  | [] => buf
  | b :: src' => memcpy (put8 buf i b) (S i) src'
  end.

(** Testing one bit of a word. *)
Lemma nz_land_pow2 z n : 0 <= n -> nz (Z.land z (2 ^ n)) = Z.testbit z n.
Proof.
  intros Hn. unfold nz. destruct (Z.testbit z n) eqn:E.
  - apply negb_true_iff, Z.eqb_neq. intros H. apply (f_equal (fun x => Z.testbit x n)) in H.
    by rewrite Z.land_spec, Z.pow2_bits_true, E, Z.bits_0 in H by lia.
  - apply negb_false_iff, Z.eqb_eq, Z.bits_inj'. intros i Hi.
    rewrite Z.land_spec, Z.bits_0, Z.pow2_bits_eqb by lia.
    destruct (Z.eqb_spec n i) as [<-|]; [by rewrite E|apply andb_false_r].
Qed.

(** ** Bits above a bound *)

Lemma lt_pow2_bits v n : 0 <= v -> 0 <= n -> (forall i, n <= i -> Z.testbit v i = false) -> v < 2 ^ n.
Proof.
  intros Hv Hn Hb. destruct (decide (v = 0)) as [->|]; [apply Z.pow_pos_nonneg; lia|].
  apply Z.log2_lt_pow2; [lia|]. destruct (decide (n <= Z.log2 v)) as [Hle|]; [|lia].
  specialize (Hb _ Hle). rewrite Z.bit_log2 in Hb by lia. done.
Qed.

Lemma pow2_bits_above v n i : 0 <= v < 2 ^ n -> 0 <= n <= i -> Z.testbit v i = false.
Proof.
  intros Hv Hi. destruct (decide (v = 0)) as [->|]; [apply Z.testbit_0_l|].
  apply Z.bits_above_log2; [lia|]. apply Z.lt_le_trans with n; [|lia]. apply Z.log2_lt_pow2; lia.
Qed.

(** ** Reads after writes *)

Lemma length_put8 m i v : length (put8 m i v) = length m.
Proof. apply length_insert. Qed.
Lemma length_put16 m i v : length (put16 m i v) = length m.
Proof. unfold put16. by rewrite !length_put8. Qed.
Lemma length_put32 m i v : length (put32 m i v) = length m.
Proof. unfold put32. by rewrite !length_put16. Qed.

Lemma get8_put8_eq m i v : (i < length m)%nat -> get8 (put8 m i v) i = u8 v.
Proof. intros H. unfold get8, put8. by rewrite list_lookup_insert_eq. Qed.
Lemma get8_put8_ne m i j v : i <> j -> get8 (put8 m i v) j = get8 m j.
Proof. intros H. unfold get8, put8. by rewrite list_lookup_insert_ne. Qed.
Lemma get8_put16_ne m i j v : (j < i \/ i + 2 <= j)%nat -> get8 (put16 m i v) j = get8 m j.
Proof. intros H. unfold put16. by rewrite !get8_put8_ne by lia. Qed.
Lemma get8_put32_ne m i j v : (j < i \/ i + 4 <= j)%nat -> get8 (put32 m i v) j = get8 m j.
Proof. intros H. unfold put32. by rewrite !get8_put16_ne by lia. Qed.

Lemma get16_put16_eq m i v : (i + 1 < length m)%nat -> get16 (put16 m i v) i = u16 v.
Proof.
  intros H. unfold get16, put16. rewrite get8_put8_ne, !get8_put8_eq by (rewrite ?length_put8; lia).
  rewrite Z.shiftr_div_pow2 by lia. word_lia.
Qed.
Lemma get32_put32_eq m i v : (i + 3 < length m)%nat -> get32 (put32 m i v) i = u32 v.
Proof.
  intros H. unfold get32, put32. rewrite (get16_put16_eq _ (S (S i))) by (rewrite length_put16; lia).
  assert (E : forall w, get16 (put16 (put16 m i v) (S (S i)) w) i = get16 (put16 m i v) i).
  { intros w. unfold get16. by rewrite !(get8_put16_ne (put16 m i v)) by lia. }
  rewrite E, get16_put16_eq by lia. rewrite Z.shiftr_div_pow2 by lia. word_lia.
Qed.

Lemma get16_put8_ne m i j v : (j + 1 < i \/ i < j)%nat -> get16 (put8 m i v) j = get16 m j.
Proof. intros H. unfold get16. by rewrite !get8_put8_ne by lia. Qed.
Lemma get16_put16_ne m i j v : (j + 1 < i \/ i + 2 <= j)%nat -> get16 (put16 m i v) j = get16 m j.
Proof. intros H. unfold get16. by rewrite !get8_put16_ne by lia. Qed.
Lemma get16_put32_ne m i j v : (j + 1 < i \/ i + 4 <= j)%nat -> get16 (put32 m i v) j = get16 m j.
Proof. intros H. unfold get16. by rewrite !get8_put32_ne by lia. Qed.
Lemma get32_put8_ne m i j v : (j + 3 < i \/ i < j)%nat -> get32 (put8 m i v) j = get32 m j.
Proof. intros H. unfold get32. by rewrite !get16_put8_ne by lia. Qed.
Lemma get32_put16_ne m i j v : (j + 3 < i \/ i + 2 <= j)%nat -> get32 (put16 m i v) j = get32 m j.
Proof. intros H. unfold get32. by rewrite !get16_put16_ne by lia. Qed.
Lemma get32_put32_ne m i j v : (j + 3 < i \/ i + 4 <= j)%nat -> get32 (put32 m i v) j = get32 m j.
Proof. intros H. unfold get32. by rewrite !get16_put32_ne by lia. Qed.

(** Evaluate reads of a memory after a sequence of writes. *)
Ltac mem_lia :=
  repeat first [rewrite length_put8 | rewrite length_put16 | rewrite length_put32]; lia.
Ltac mem_read :=
  repeat first
    [ rewrite get8_put8_ne by lia | rewrite get8_put16_ne by lia | rewrite get8_put32_ne by lia
    | rewrite get16_put8_ne by lia | rewrite get16_put16_ne by lia | rewrite get16_put32_ne by lia
    | rewrite get32_put8_ne by lia | rewrite get32_put16_ne by lia | rewrite get32_put32_ne by lia
    | rewrite get8_put8_eq by mem_lia | rewrite get16_put16_eq by mem_lia
    | rewrite get32_put32_eq by mem_lia ].

Lemma get8_range m i : Forall byte_ok m -> 0 <= get8 m i < 256.
Proof.
  intros H. unfold get8. destruct (m !! i) as [b|] eqn:E; [|cbn; lia].
  exact (Forall_lookup_1 _ _ _ _ H E).
Qed.
Lemma get16_range m i : Forall byte_ok m -> 0 <= get16 m i < 65536.
Proof.
  intros H. unfold get16. pose proof (get8_range m i H). pose proof (get8_range m (S i) H). lia.
Qed.

Lemma put8_ok m i v : Forall byte_ok m -> Forall byte_ok (put8 m i v).
Proof. intros H. apply Forall_insert; [done|]. apply u8_range. Qed.
Lemma put16_ok m i v : Forall byte_ok m -> Forall byte_ok (put16 m i v).
Proof. intros H. by do 2 apply put8_ok. Qed.
Lemma put32_ok m i v : Forall byte_ok m -> Forall byte_ok (put32 m i v).
Proof. intros H. by do 2 apply put16_ok. Qed.

(** * Arrays of integers

    [a[i]] and [a[i] = v], with the conventions of byte buffers out of range. *)

Definition aget (l : list Z) (i : Z) : Z := default 0 (l !! Z.to_nat i).
Definition aset (l : list Z) (i v : Z) : list Z := <[Z.to_nat i := v]> l.

Lemma length_aset l i v : length (aset l i v) = length l.
Proof. apply length_insert. Qed.

Lemma aget_aset_eq l i v : 0 <= i < Z.of_nat (length l) -> aget (aset l i v) i = v.
Proof. intros. unfold aget, aset. rewrite list_lookup_insert_eq; [done|lia]. Qed.

Lemma aget_aset_ne l i j v : 0 <= i -> 0 <= j -> i <> j -> aget (aset l i v) j = aget l j.
Proof. intros. unfold aget, aset. rewrite list_lookup_insert_ne; [done|lia]. Qed.

#[export] Hint Rewrite length_aset : word.
