(* ===== verification/Checksum.v ===== *)
(** Internet checksums: lib/ciul/checksum.c and the lib/citools wrappers. *)

From stdpp Require Import base list numbers.
From S2P Require Import Prelude.

Open Scope Z_scope.


(** * The RFC 1071 reference *)

Definition le16b (b0 b1 : Z) : Z := b0 + 256 * b1.
Definition le32b (b0 b1 b2 b3 : Z) : Z := le16b b0 b1 + 65536 * le16b b2 b3.

(** The 16-bit words of a byte string, padded with a zero byte. *)
Fixpoint words16 (bs : list Z) : list Z :=
  match bs with
  | b0 :: b1 :: bs' => le16b b0 b1 :: words16 bs'
  | [b0] => [b0]
  | [] => []
  end.

(** Ones' complement addition: the carry out of bit 15 is added back. *)
Definition add1c (a b : Z) : Z :=
  if a + b <? 65536 then a + b else a + b - 65535.

Definition ones_sum (ws : list Z) : Z := fold_left add1c ws 0.

(** The checksum of a byte string. *)
Definition rfc1071 (bs : list Z) : Z := 65535 - ones_sum (words16 bs).

(** * ciul/checksum.c *)

(** The [bytes] bytes at [buf], 32 bits at a time and then 16.  The source
    asserts that their number is even. *)
Fixpoint ip_csum64_partial (csum64 : Z) (buf : list Z) : Z :=
  match buf with
  | b0 :: b1 :: b2 :: b3 :: buf' =>
      ip_csum64_partial (u64 (csum64 + le32b b0 b1 b2 b3)) buf'
  | b0 :: b1 :: _ => u64 (csum64 + le16b b0 b1)
  | _ => csum64
  end.

(** One fragment of the I/O vector: [carry] and [carried.u8[0]] are the
    odd byte the previous fragments left over. *)
Definition ip_csum64_partialv_step (st : Z * option Z) (data : list Z) : Z * option Z :=
  let '(csum64, carried) := st in
  match data with
  | [] => st
  | d0 :: rest =>
      let '(csum64, data) :=
        match carried with
        | Some c0 => (u64 (csum64 + le16b c0 d0), rest)
        | None => (csum64, data)
        end in
      let bytes := length data in
      let csum64 := ip_csum64_partial csum64 (take (bytes - bytes `mod` 2) data) in
      if (bytes `mod` 2 =? 0)%nat then (csum64, None)
      else (csum64, Some (get8 data (bytes - 1)))
  end.

Definition ip_csum64_partialv (csum64 : Z) (iov : list (list Z)) : Z :=
  let '(csum64, carried) := fold_left ip_csum64_partialv_step iov (csum64, None) in
  match carried with
  | Some c0 => u64 (csum64 + c0)
  | None => csum64
  end.

Definition ip_proto_csum64_finish (csum64 : Z) : Z :=
  let sum := u32 (Z.land (Z.shiftr csum64 32) 65535 + Z.land (Z.shiftr csum64 16) 65535
                  + Z.land csum64 65535) in
  let sum := u32 (Z.shiftr sum 16 + Z.land sum 65535) in
  let sum := u32 (sum + Z.shiftr sum 16) in
  Z.land (u32 (Z.lnot sum)) 65535.

Definition ip_hdr_csum32_finish (csum32 : Z) : Z :=
  let sum := u32 (Z.shiftr csum32 16 + Z.land csum32 65535) in
  let sum := u32 (sum + Z.shiftr sum 16) in
  Z.land (u32 (Z.lnot sum)) 65535.

(** Fields of [struct iphdr], [ipv6hdr], [udphdr] and [tcphdr], read from
    the header's bytes. *)
Definition iph_ihl (ip : list Z) : Z := Z.land (get8 ip 0) 15.
Definition iph_tot_len (ip : list Z) : Z := get16 ip 2.
Definition iph_saddr (ip : list Z) : Z := get32 ip 12.
Definition iph_daddr (ip : list Z) : Z := get32 ip 16.
Definition udph_len (udp : list Z) : Z := get16 udp 4.
Definition tcph_doff (tcp : list Z) : Z := Z.shiftr (get8 tcp 12) 4.
Definition tcph_check (tcp : list Z) : Z := get16 tcp 16.
Definition ip6h_payload_len (ip6 : list Z) : Z := get16 ip6 4.

Definition IPPROTO_TCP := 6.
Definition IPPROTO_UDP := 17.
Definition IPPROTO_ICMPV6 := 58.

(** The [do ... while(bytes)] loop over the 16-bit words of the options. *)
Fixpoint sum_words (csum32 : Z) (p : list Z) (n : nat) : Z :=
  match n with
  | O => csum32
  | S n' => sum_words (u32 (csum32 + get16 p 0)) (drop 2 p) n'
  end.

Definition ef_ip_checksum (ip : list Z) : Z :=
  let p i := get16 ip (2 * i) in
  let csum32 := u32 (p 0%nat) in
  let csum32 := u32 (csum32 + p 1%nat) in
  let csum32 := u32 (csum32 + p 2%nat) in
  let csum32 := u32 (csum32 + p 3%nat) in
  let csum32 := u32 (csum32 + p 4%nat) in
  (* omit ip_check_be16 *)
  let csum32 := u32 (csum32 + p 6%nat) in
  let csum32 := u32 (csum32 + p 7%nat) in
  let csum32 := u32 (csum32 + p 8%nat) in
  let csum32 := u32 (csum32 + p 9%nat) in
  let bytes := iph_ihl ip * 4 in
  let csum32 :=
    if 20 <? bytes
    then sum_words csum32 (drop 20 ip) (Z.to_nat ((bytes - 20) / 2))
    else csum32 in
  ip_hdr_csum32_finish csum32.

Definition ef_ip6_pseudo_hdr_checksum (ip6 : list Z) (protocol : Z) : Z :=
  let csum64 := ip_csum64_partial 0 (take 32 (drop 8 ip6)) in
  let csum64 := u64 (csum64 + ip6h_payload_len ip6) in
  u64 (csum64 + bswap32 protocol).

Definition ef_udp_checksum (ip udp : list Z) (iov : list (list Z)) : Z :=
  let csum64 := u64 (iph_saddr ip + iph_daddr ip + bswap16 IPPROTO_UDP + udph_len udp) in
  let csum64 := ip_csum64_partial csum64 (take 6 udp) in
  let csum64 := ip_csum64_partialv csum64 iov in
  let csum := ip_proto_csum64_finish csum64 in
  if nz csum then csum else 65535.

Definition ef_udp_checksum_ip6 (ip6 udp : list Z) (iov : list (list Z)) : Z :=
  let csum64 := ef_ip6_pseudo_hdr_checksum ip6 IPPROTO_UDP in
  let csum64 := ip_csum64_partial csum64 (take 6 udp) in
  let csum64 := ip_csum64_partialv csum64 iov in
  let csum := ip_proto_csum64_finish csum64 in
  if nz csum then csum else 65535.

Definition AF_INET6 := 10.

Definition ef_udp_checksum_ipx (af : Z) (ipx udp : list Z) (iov : list (list Z)) : Z :=
  if af =? AF_INET6 then ef_udp_checksum_ip6 ipx udp iov else ef_udp_checksum ipx udp iov.

Definition ef_tcp_checksum (ip tcp : list Z) (iov : list (list Z)) : Z :=
  let paylen := u16 (bswap16 (iph_tot_len ip) - iph_ihl ip * 4) in
  let csum64 := u64 (iph_saddr ip + iph_daddr ip
                     + bswap32 (Z.lor (Z.shiftl IPPROTO_TCP 16) paylen)) in
  let csum64 := ip_csum64_partial csum64 (take (Z.to_nat (tcph_doff tcp * 4)) tcp) in
  let csum64 := u64 (csum64 - tcph_check tcp) in
  let csum64 := ip_csum64_partialv csum64 iov in
  ip_proto_csum64_finish csum64.

Definition ef_tcp_checksum_ip6 (ip6 tcp : list Z) (iov : list (list Z)) : Z :=
  let csum64 := ef_ip6_pseudo_hdr_checksum ip6 IPPROTO_TCP in
  let csum64 := ip_csum64_partial csum64 (take (Z.to_nat (tcph_doff tcp * 4)) tcp) in
  let csum64 := u64 (csum64 - tcph_check tcp) in
  let csum64 := ip_csum64_partialv csum64 iov in
  ip_proto_csum64_finish csum64.

Definition ef_tcp_checksum_ipx (af : Z) (ipx tcp : list Z) (iov : list (list Z)) : Z :=
  if af =? AF_INET6 then ef_tcp_checksum_ip6 ipx tcp iov else ef_tcp_checksum ipx tcp iov.

Definition ef_icmpv6_checksum (ip6 icmp : list Z) (iov : list (list Z)) : Z :=
  let csum64 := ef_ip6_pseudo_hdr_checksum ip6 IPPROTO_ICMPV6 in
  let csum64 := ip_csum64_partial csum64 (take 2 icmp) in
  let csum64 := ip_csum64_partialv csum64 iov in
  ip_proto_csum64_finish csum64.

(** * citools: ip_csum_partial.c, ipcsum.c and the other wrappers *)

Fixpoint ci_ip_csum_partial (sum : Z) (in_buf : list Z) : Z :=
  match in_buf with
  | b0 :: b1 :: buf => ci_ip_csum_partial (u32 (sum + le16b b0 b1)) buf
  | [b0] => u32 (sum + b0)
  | [] => sum
  end.

Definition ci_ip_csum_fold (sum : Z) : Z := u32 (Z.shiftr sum 16 + Z.land sum 65535).

Definition ci_ip_hdr_csum_finish (sum : Z) : Z :=
  let sum := u32 (Z.shiftr sum 16 + Z.land sum 65535) in
  let sum := u32 (sum + Z.shiftr sum 16) in
  Z.land (u32 (Z.lnot sum)) 65535.

Definition ci_udp_csum_finish (sum : Z) : Z :=
  let sum := u32 (Z.shiftr sum 16 + Z.land sum 65535) in
  let sum := u32 (sum + Z.shiftr sum 16) in
  let sum := Z.land (u32 (Z.lnot sum)) 65535 in
  if nz sum then sum else 65535.

Definition ci_tcp_csum_finish (csum : Z) : Z := ci_ip_hdr_csum_finish csum.
Definition ci_icmp_csum_finish (csum : Z) : Z := ci_ip_hdr_csum_finish csum.

(** [CI_IP4_IHL] and [CI_TCP_HDR_LEN]: header lengths in bytes. *)
Definition CI_IP4_IHL (ip : list Z) : Z := Z.shiftl (Z.land (get8 ip 0) 15) 2.
Definition CI_TCP_HDR_LEN (tcp : list Z) : Z := Z.shiftr (Z.land (get8 tcp 12) 240) 2.

Definition ci_ip_checksum (ip : list Z) : Z :=
  let p i := get16 ip (2 * i) in
  let csum := u32 (p 0%nat) in
  let csum := u32 (csum + p 1%nat) in
  let csum := u32 (csum + p 2%nat) in
  let csum := u32 (csum + p 3%nat) in
  let csum := u32 (csum + p 4%nat) in
  (* omit ip_check_be16 *)
  let csum := u32 (csum + p 6%nat) in
  let csum := u32 (csum + p 7%nat) in
  let csum := u32 (csum + p 8%nat) in
  let csum := u32 (csum + p 9%nat) in
  let bytes := CI_IP4_IHL ip in
  let csum :=
    if 20 <? bytes
    then sum_words csum (drop 20 ip) (Z.to_nat ((bytes - 20) / 2))
    else csum in
  ci_ip_hdr_csum_finish csum.

Definition ci_udp_checksum (ip udp : list Z) (iov : list (list Z)) : Z :=
  ef_udp_checksum ip udp iov.

Definition ci_ip6_udp_checksum (ip6 udp : list Z) (iov : list (list Z)) : Z :=
  ef_udp_checksum_ip6 ip6 udp iov.

(** [payload] is the memory at the payload pointer; [iov_len] bytes of it
    are summed. *)
Definition ci_tcp_checksum (ip tcp payload : list Z) : Z :=
  let iov_len := bswap16 (get16 ip 2) - CI_IP4_IHL ip - CI_TCP_HDR_LEN tcp in
  ef_tcp_checksum ip tcp [take (Z.to_nat iov_len) payload].

Definition ci_ip6_tcp_checksum (ip6 tcp payload : list Z) : Z :=
  let iov_len := bswap16 (ip6h_payload_len ip6) - CI_TCP_HDR_LEN tcp in
  ef_tcp_checksum_ip6 ip6 tcp [take (Z.to_nat iov_len) payload].

(** The memory at [icmp] is the whole ICMP message. *)
Definition ci_icmp_checksum (ip icmp : list Z) : Z :=
  let csum := get16 icmp 0 in
  let n := bswap16 (get16 ip 2) - CI_IP4_IHL ip - 4 in
  let csum := ci_ip_csum_partial csum (take (Z.to_nat n) icmp) in
  ci_icmp_csum_finish csum.

Definition ci_icmpv6_checksum (ip6 icmp : list Z) : Z :=
  let iov_len := bswap16 (ip6h_payload_len ip6) - 4 in
  ef_icmpv6_checksum ip6 icmp [take (Z.to_nat iov_len) (drop 4 icmp)].

Definition ci_ip_csum_precompute (ip : list Z) : Z :=
  let p i := get16 ip (2 * i) in
  let csum := u32 (p 0%nat) in
  let csum := u32 (csum + p 3%nat) in
  let csum := u32 (csum + p 4%nat) in
  let csum := u32 (csum + p 6%nat) in
  let csum := u32 (csum + p 7%nat) in
  let csum := u32 (csum + p 8%nat) in
  u32 (csum + p 9%nat).

Definition ci_udp_csum_precompute (ip udp : list Z) : Z :=
  let p i := get16 ip (2 * i) in
  let csum := u32 (p 6%nat) in
  let csum := u32 (csum + p 7%nat) in
  let csum := u32 (csum + p 8%nat) in
  let csum := u32 (csum + p 9%nat) in
  let csum := u32 (csum + le16b 0 IPPROTO_UDP) in
  let csum := u32 (csum + get16 udp 0) in
  u32 (csum + get16 udp 2).

Definition ci_tcp_csum_precompute (ip tcp : list Z) : Z :=
  let p i := get16 ip (2 * i) in
  let csum := u32 (p 6%nat) in
  let csum := u32 (csum + p 7%nat) in
  let csum := u32 (csum + p 8%nat) in
  let csum := u32 (csum + p 9%nat) in
  let csum := u32 (csum + le16b 0 IPPROTO_TCP) in
  let csum := u32 (csum + get16 tcp 0) in
  let csum := u32 (csum + get16 tcp 2) in
  u32 (csum + get16 tcp 18).

(** * Sums up to ones' complement

    [x ≃ y]: two non-negative sums that fold to the same 16-bit ones'
    complement value, zero being told apart from its other representation. *)

Definition csum_eq (x y : Z) : Prop :=
  0 <= x /\ 0 <= y /\ (x = 0 <-> y = 0) /\ x `mod` 65535 = y `mod` 65535.

Declare Scope csum_scope.
Infix "≃" := csum_eq (at level 70) : csum_scope.
Open Scope csum_scope.

#[export] Instance csum_eq_sym : Symmetric csum_eq.
Proof. unfold csum_eq. intros x y. lia. Qed.

#[export] Instance csum_eq_trans : Transitive csum_eq.
Proof. unfold csum_eq. intros x y z. lia. Qed.

Lemma csum_eq_refl x : 0 <= x -> x ≃ x.
Proof. unfold csum_eq. lia. Qed.

#[export] Instance csum_eq_add : Proper (csum_eq ==> csum_eq ==> csum_eq) Z.add.
Proof.
  intros x x' (? & ? & ? & Ex) y y' (? & ? & ? & Ey).
  split; [lia|]. split; [lia|]. split; [lia|].
  rewrite Z.add_mod, Ex, Ey, <- Z.add_mod; lia.
Qed.

Create HintDb csum.
#[export] Hint Resolve csum_eq_refl : csum.

(** A sum known to be non-negative may stay in place when its neighbours are
    rewritten with [≃]. *)
#[export] Hint Extern 2 (Proper csum_eq _) =>
  apply csum_eq_refl; first [lia | auto with csum] : typeclass_instances.
#[export] Hint Extern 2 (ProperProxy csum_eq _) =>
  apply csum_eq_refl; first [lia | auto with csum] : typeclass_instances.

(** The 16-bit representative is unique. *)
Lemma csum_eq_unique x y : x ≃ y -> x <= 65535 -> y <= 65535 -> x = y.
Proof.
  intros (? & ? & ? & E) ??. Z.div_mod_to_equations. lia.
Qed.

(** Moving the high half down by 16 bits, the folding step. *)
Lemma csum_eq_fold lo hi : 0 <= lo -> 0 <= hi -> lo + 65536 * hi ≃ lo + hi.
Proof.
  intros. split; [lia|]. split; [lia|]. split; [lia|].
  replace (lo + 65536 * hi) with (lo + hi + hi * 65535) by lia.
  apply Z.mod_add. lia.
Qed.

Definition sumZ (ws : list Z) : Z := foldr Z.add 0 ws.

Abbreviation bytes_ok := (Forall byte_ok).
Abbreviation words_ok := (Forall (fun w => 0 <= w < 65536)).

Lemma sumZ_app ws1 ws2 : sumZ (ws1 ++ ws2) = sumZ ws1 + sumZ ws2.
Proof. induction ws1 as [|w ws1 IH]; simpl; [done|]. rewrite IH. lia. Qed.

Lemma sumZ_nonneg ws : words_ok ws -> 0 <= sumZ ws.
Proof. induction 1; simpl; lia. Qed.

#[export] Hint Resolve sumZ_nonneg : csum.

Lemma add1c_spec a b :
  0 <= a < 65536 -> 0 <= b < 65536 -> add1c a b ≃ a + b /\ 0 <= add1c a b < 65536.
Proof.
  intros. unfold add1c. destruct (Z.ltb_spec (a + b) 65536).
  - split; [apply csum_eq_refl|]; lia.
  - split; [|lia]. split; [lia|]. split; [lia|]. split; [lia|].
    replace (a + b) with (a + b - 65535 + 1 * 65535) at 2 by lia.
    symmetry. apply Z.mod_add. lia.
Qed.

(** Ones' complement accumulation computes the residue of the plain sum. *)
Lemma ones_sum_spec ws :
  words_ok ws -> ones_sum ws ≃ sumZ ws /\ 0 <= ones_sum ws < 65536.
Proof.
  assert (Hgen : forall ws a, words_ok ws -> 0 <= a < 65536 ->
    fold_left add1c ws a ≃ a + sumZ ws /\ 0 <= fold_left add1c ws a < 65536).
  { clear. induction ws as [|w ws IH]; intros a Hws Ha; simpl.
    - split; [|done]. rewrite Z.add_0_r. apply csum_eq_refl. lia.
    - apply Forall_cons_1 in Hws as [Hw Hws].
      destruct (add1c_spec a w) as [He Hr]; [done..|].
      destruct (IH (add1c a w)) as [He' Hr']; [done..|]. split; [|done].
      pose proof (sumZ_nonneg ws Hws).
      rewrite He', He, Z.add_assoc. apply csum_eq_refl. lia. }
  intros Hws. apply (Hgen ws 0); [done|lia].
Qed.

Lemma ones_sum_eq ws x : words_ok ws -> x ≃ sumZ ws -> x <= 65535 -> ones_sum ws = x.
Proof.
  intros Hws Hx ?. destruct (ones_sum_spec ws Hws) as [He ?].
  apply csum_eq_unique; [|lia..]. by rewrite He.
Qed.

(** ** Words of byte strings *)

Lemma words16_ok bs : bytes_ok bs -> words_ok (words16 bs).
Proof.
  revert bs. fix IH 1. intros [|b0 [|b1 bs]] Hbs; simpl.
  - constructor.
  - repeat apply Forall_cons_1 in Hbs as [? Hbs]. unfold byte_ok in *. 
    constructor; [lia|constructor].
  - apply Forall_cons_1 in Hbs as [? Hbs]. apply Forall_cons_1 in Hbs as [? Hbs].
    constructor; [unfold byte_ok, le16b in *; lia|by apply IH].
Qed.

Lemma words16_app bs1 bs2 :
  Nat.Even (length bs1) -> words16 (bs1 ++ bs2) = words16 bs1 ++ words16 bs2.
Proof.
  revert bs1. fix IH 1. intros [|b0 [|b1 bs1]] He; simpl.
  - done.
  - destruct He as [n He]. simpl in He. lia.
  - f_equal. apply IH. destruct He as [n He]. exists (n - 1)%nat. simpl in He. lia.
Qed.

#[export] Hint Resolve words16_ok : csum.

(** ** Folding *)

Lemma land_ffff x : Z.land x 65535 = x `mod` 65536.
Proof. apply (land_mask x 16). lia. Qed.

(** One folding step, and the two steps that bring a 32-bit sum to 16 bits. *)
Lemma fold_step x : 0 <= x -> x / 65536 + x `mod` 65536 ≃ x.
Proof.
  intros. symmetry. etrans.
  - rewrite (Z.div_mod x 65536) at 1 by lia. rewrite Z.add_comm.
    apply csum_eq_fold; Z.div_mod_to_equations; lia.
  - rewrite Z.add_comm. apply csum_eq_refl. Z.div_mod_to_equations; lia.
Qed.

Definition fold16 (x : Z) : Z :=
  let s := x / 65536 + x `mod` 65536 in
  (s + s / 65536) `mod` 65536.

Lemma fold16_spec x : 0 <= x < 4294967296 -> fold16 x ≃ x /\ 0 <= fold16 x < 65536.
Proof.
  intros. unfold fold16. set (s := x / 65536 + x `mod` 65536).
  assert (Hs : s ≃ x) by (apply fold_step; lia).
  assert (0 <= s <= 131070) by (unfold s; Z.div_mod_to_equations; lia).
  split; [|apply Z.mod_pos_bound; lia]. rewrite <- Hs.
  destruct (decide (s < 65536)).
  - rewrite Z.div_small, Z.add_0_r, Z.mod_small by lia. apply csum_eq_refl. lia.
  - replace (s / 65536) with 1 by (Z.div_mod_to_equations; lia).
    rewrite <- (fold_step s) at 2 by lia.
    replace ((s + 1) `mod` 65536) with (s / 65536 + s `mod` 65536)
      by (Z.div_mod_to_equations; lia).
    apply csum_eq_refl. Z.div_mod_to_equations; lia.
Qed.

Lemma hdr_finish_fold16 x :
  0 <= x < 4294967296 -> ip_hdr_csum32_finish x = 65535 - fold16 x.
Proof.
  intros. unfold ip_hdr_csum32_finish, fold16. cbv zeta.
  rewrite !Z.shiftr_div_pow2, !land_ffff by lia. change (2 ^ 16) with 65536.
  set (s := x / 65536 + x `mod` 65536).
  assert (0 <= s <= 131070) by (unfold s; Z.div_mod_to_equations; lia).
  rewrite (u32_small s) by lia.
  rewrite (u32_small (s + s / 65536)) by (Z.div_mod_to_equations; lia).
  unfold u32, Z.lnot. Z.div_mod_to_equations. lia.
Qed.

Lemma proto_finish_fold16 x :
  0 <= x < 281474976710656 ->
  exists y, y ≃ x /\ 0 <= y < 4294967296 /\ ip_proto_csum64_finish x = 65535 - fold16 y.
Proof.
  intros.
  assert (exists a b c, x = a + 65536 * (b + 65536 * c) /\ a = x `mod` 65536 /\
    b = (x / 65536) `mod` 65536 /\ c = (x / 4294967296) `mod` 65536 /\
    0 <= a < 65536 /\ 0 <= b < 65536 /\ 0 <= c < 65536)
    as (a & b & c & Ex & Ea & Eb & Ec & Ha & Hb & Hc).
  { do 3 eexists. split; [|do 3 (split; [reflexivity|])];
      Z.div_mod_to_equations; lia. }
  exists (c + b + a). split; [|split].
  - rewrite Ex. rewrite csum_eq_fold, csum_eq_fold by lia.
    rewrite <- Z.add_assoc, (Z.add_comm c), (Z.add_comm b a), Z.add_assoc.
    apply csum_eq_refl. lia.
  - lia.
  - rewrite <- hdr_finish_fold16 by lia.
    unfold ip_proto_csum64_finish, ip_hdr_csum32_finish.
    rewrite (land_ffff x), !(land_ffff (Z.shiftr x _)), !(Z.shiftr_div_pow2 x) by lia.
    change (2 ^ 16) with 65536. change (2 ^ 32) with 4294967296.
    rewrite <- Ea, <- Eb, <- Ec. rewrite (u32_small (c + b + a)) by lia. done.
Qed.

(** ** Accumulation *)

#[local] Coercion Z.of_nat : nat >-> Z.

Abbreviation GIB := 1073741824.

(** A 64-bit accumulation that cannot wrap adds the 16-bit words of the
    buffer, up to ones' complement, and grows by at most [GIB] per byte. *)
Lemma partial_spec csum buf :
  bytes_ok buf -> Nat.Even (length buf) -> 0 <= csum ->
  csum + GIB * length buf < 18446744073709551616 ->
  ip_csum64_partial csum buf ≃ csum + sumZ (words16 buf) /\
  csum <= ip_csum64_partial csum buf <= csum + GIB * length buf.
Proof.
  revert buf csum. fix IH 1. intros [|b0 [|b1 buf]] csum Hok He Hc Hb.
  - simpl in *. rewrite Z.add_0_r. split; [by apply csum_eq_refl|lia].
  - destruct He as [n He]. simpl in He. lia.
  - apply Forall_cons_1 in Hok as [H0 Hok]. apply Forall_cons_1 in Hok as [H1 Hok].
    destruct buf as [|b2 [|b3 buf]].
    + simpl in *. unfold byte_ok, le16b in *. rewrite u64_small by lia.
      split; [|lia]. rewrite Z.add_0_r. apply csum_eq_refl. lia.
    + destruct He as [n He]. simpl in He. lia.
    + apply Forall_cons_1 in Hok as [H2 Hok]. apply Forall_cons_1 in Hok as [H3 Hok].
      assert (He' : Nat.Even (length buf)).
      { destruct He as [n He]. exists (n - 2)%nat. simpl in He. lia. }
      cbn [ip_csum64_partial words16 sumZ foldr]. fold (sumZ (words16 buf)).
      rewrite !length_cons in Hb.
      pose proof (sumZ_nonneg _ (words16_ok _ Hok)).
      unfold byte_ok in *. unfold le32b.
      set (w0 := le16b b0 b1). set (w1 := le16b b2 b3).
      assert (0 <= w0 < 65536 /\ 0 <= w1 < 65536) as [Hw0 Hw1]
        by (unfold w0, w1, le16b; lia).
      rewrite u64_small by lia.
      destruct (IH buf (csum + (w0 + 65536 * w1))) as [E B]; [done..|lia|lia|].
      rewrite !length_cons. split; [|lia]. rewrite E, csum_eq_fold by lia.
      rewrite !Z.add_assoc. apply csum_eq_refl. lia.
Qed.

(** The odd byte waiting for the next fragment. *)
Definition pend (carried : option Z) : list Z :=
  match carried with Some c => [c] | None => [] end.

(** Splitting a fragment at its even length: what is summed now and what is
    carried. *)
Lemma even_split (data : list Z) :
  let n := (length data - length data `mod` 2)%nat in
  let carried := if (length data `mod` 2 =? 0)%nat then None
                 else Some (get8 data (length data - 1)) in
  data = take n data ++ pend carried /\ Nat.Even (length (take n data)) /\
  length (take n data) = n.
Proof.
  intros n carried.
  pose proof (Nat.div_mod_eq (length data) 2). pose proof (Nat.mod_upper_bound (length data) 2).
  assert (Hn : length (take n data) = n) by (rewrite length_take; unfold n; lia).
  split; [|split; [|done]].
  - unfold carried. rewrite <- (take_drop n data) at 1. f_equal.
    destruct (Nat.eqb_spec (length data `mod` 2) 0) as [E|E].
    + apply drop_ge. unfold n. lia.
    + unfold get8.
      destruct (lookup_lt_is_Some_2 data (length data - 1)) as [b Hb]; [lia|].
      rewrite Hb. simpl.
      replace (length data - 1)%nat with n in Hb by (unfold n; lia).
      rewrite (drop_S _ b n Hb), (drop_ge _ (S n)) by (unfold n; lia). done.
  - rewrite Hn. exists (length data / 2)%nat. unfold n. lia.
Qed.

(** Accumulating the even part of [d] leaves the odd byte to be carried. *)
Lemma csum64_even_spec c d tail csum' carried' :
  (if (length d `mod` 2 =? 0)%nat
   then (ip_csum64_partial c (take (length d - length d `mod` 2) d), None)
   else (ip_csum64_partial c (take (length d - length d `mod` 2) d),
         Some (get8 d (length d - 1)))) = (csum', carried') ->
  bytes_ok d -> bytes_ok tail -> 0 <= c ->
  c + GIB * length d < 18446744073709551616 ->
  c + sumZ (words16 (d ++ tail)) ≃ csum' + sumZ (words16 (pend carried' ++ tail)) /\
  c <= csum' /\
  csum' + GIB * length (pend carried') <= c + GIB * length d /\
  bytes_ok (pend carried').
Proof.
  intros Hst Hd Ht Hc Hb. destruct (even_split d) as (Ed & Hev & Hlen).
  set (n := (length d - length d `mod` 2)%nat) in *.
  assert (csum' = ip_csum64_partial c (take n d) /\
          carried' = if (length d `mod` 2 =? 0)%nat then None
                     else Some (get8 d (length d - 1))) as [-> Hcar]
    by (destruct (_ =? 0)%nat; by simplify_eq).
  rewrite <- Hcar in Ed. clear Hst Hcar.
  assert (Hok : bytes_ok (take n d ++ pend carried')) by (by rewrite <- Ed).
  apply Forall_app in Hok as [Hok1 Hok2].
  assert (Hl : length d = (length (take n d) + length (pend carried'))%nat)
    by (rewrite Ed at 1; apply length_app).
  destruct (partial_spec c (take n d)) as [E B]; [done..|lia|].
  pose proof (sumZ_nonneg _ (words16_ok _ Hok1)).
  pose proof (sumZ_nonneg _ (words16_ok (pend carried' ++ tail) ltac:(by apply Forall_app))).
  split; [|split; [lia|split; [lia|done]]].
  rewrite Ed at 1. rewrite <- app_assoc, words16_app, sumZ_app by done.
  rewrite E, Z.add_assoc. apply csum_eq_refl. lia.
Qed.

Lemma csum64_step_spec csum carried data csum' carried' tail :
  ip_csum64_partialv_step (csum, carried) data = (csum', carried') ->
  bytes_ok (pend carried) -> bytes_ok data -> bytes_ok tail -> 0 <= csum ->
  csum + GIB * (length (pend carried) + length data) < 18446744073709551616 ->
  csum + sumZ (words16 (pend carried ++ data ++ tail))
    ≃ csum' + sumZ (words16 (pend carried' ++ tail)) /\
  csum <= csum' /\
  csum' + GIB * length (pend carried') <= csum + GIB * (length (pend carried) + length data) /\
  bytes_ok (pend carried').
Proof.
  intros Hstep Hc Hd Ht H0 Hb.
  unfold ip_csum64_partialv_step in Hstep. destruct data as [|d0 rest].
  - simplify_eq. simpl. split; [apply csum_eq_refl|split; [lia|split; [lia|done]]].
    pose proof (sumZ_nonneg _ (words16_ok (pend carried' ++ tail) ltac:(by apply Forall_app))).
    lia.
  - destruct carried as [c0|]; simpl pend in *; cbn [app] in *.
    + apply Forall_cons_1 in Hc as [Hc0 _]. apply Forall_cons_1 in Hd as [Hd0 Hrest].
      unfold byte_ok in Hc0, Hd0. rewrite !length_cons in *.
      assert (0 <= le16b c0 d0 < 65536) by (unfold le16b; lia).
      simpl length in Hb. rewrite u64_small in Hstep by lia.
      destruct (csum64_even_spec _ _ tail _ _ Hstep) as (E & ? & ? & ?); [done|done|lia|lia|].
      simpl length. split; [|split; [lia|split; [lia|done]]].
      cbn [words16 sumZ foldr]. rewrite Z.add_assoc. exact E.
    + simpl length in *.
      destruct (csum64_even_spec _ _ tail _ _ Hstep) as (E & ? & ? & ?);
        [done|done|lia|simpl; lia|].
      split; [exact E|]. split; [lia|]. split; [simpl length in *; lia|done].
Qed.

(** The scatter-gather sum does not depend on how the payload is cut into
    fragments, odd cuts included. *)
Lemma partialv_spec csum iov :
  bytes_ok (concat iov) -> 0 <= csum ->
  csum + GIB * length (concat iov) < 18446744073709551616 ->
  ip_csum64_partialv csum iov ≃ csum + sumZ (words16 (concat iov)) /\
  csum <= ip_csum64_partialv csum iov <= csum + GIB * length (concat iov).
Proof.
  assert (Hgen : forall iov csum carried, bytes_ok (pend carried) -> bytes_ok (concat iov) ->
    0 <= csum -> csum + GIB * (length (pend carried) + length (concat iov)) < 18446744073709551616 ->
    exists csum' carried',
      fold_left ip_csum64_partialv_step iov (csum, carried) = (csum', carried') /\
      csum + sumZ (words16 (pend carried ++ concat iov)) ≃ csum' + sumZ (words16 (pend carried')) /\
      csum <= csum' /\ bytes_ok (pend carried') /\
      csum' + GIB * length (pend carried') <=
        csum + GIB * (length (pend carried) + length (concat iov))).
  { clear. induction iov as [|data iov IH]; intros csum carried Hc Hd H0 Hb;
      cbn [concat fold_left app] in *.
    - exists csum, carried. rewrite app_nil_r.
      pose proof (sumZ_nonneg _ (words16_ok _ Hc)).
      split_and!; [done|apply csum_eq_refl; lia|lia|done|lia].
    - apply Forall_app in Hd as [Hd Hds]. rewrite length_app in *.
      destruct (ip_csum64_partialv_step (csum, carried) data) as [c1 p1] eqn:Hs.
      destruct (csum64_step_spec _ _ _ _ _ (concat iov) Hs) as (E & ? & ? & ?); [done..|lia|].
      destruct (IH c1 p1) as (c2 & p2 & Hf & E2 & ? & ? & ?); [done|done|lia|lia|].
      exists c2, p2. split; [done|]. split; [etrans; [exact E|exact E2]|]. split; [lia|]. split; [done|lia]. }
  intros Hd H0 Hb. unfold ip_csum64_partialv.
  destruct (Hgen iov csum None) as (c & p & -> & E & ? & Hp & ?); [constructor|done|lia|simpl; lia|].
  simpl in *. destruct p as [c0|]; simpl in *.
  - apply Forall_cons_1 in Hp as [Hc0 _]. unfold byte_ok in Hc0.
    rewrite u64_small by lia. split; [|lia].
    rewrite E, Z.add_0_r. apply csum_eq_refl. lia.
  - split; [|lia]. rewrite E, Z.add_0_r. apply csum_eq_refl. lia.
Qed.

(** ** The protocol checksums *)

(** The finishing fold inverts the ones' complement sum of any word list the
    accumulated value stands for. *)
Lemma proto_finish_spec x ws :
  0 <= x < 281474976710656 -> words_ok ws -> x ≃ sumZ ws ->
  ip_proto_csum64_finish x = 65535 - ones_sum ws.
Proof.
  intros Hx Hws E. destruct (proto_finish_fold16 x Hx) as (y & Ey & Hy & ->).
  destruct (fold16_spec y Hy) as [Ef ?]. f_equal. symmetry.
  apply ones_sum_eq; [done| |lia]. by rewrite Ef, Ey.
Qed.

Lemma hdr_finish_spec x ws :
  0 <= x < 4294967296 -> words_ok ws -> x ≃ sumZ ws ->
  ip_hdr_csum32_finish x = 65535 - ones_sum ws.
Proof.
  intros Hx Hws E. rewrite hdr_finish_fold16 by done.
  destruct (fold16_spec x Hx) as [Ef ?]. f_equal. symmetry.
  apply ones_sum_eq; [done| |lia]. by rewrite Ef.
Qed.

(** Destruct a list known to have at least as many elements as there are
    hypotheses to name. *)
Ltac explode l n :=
  lazymatch n with
  | O => idtac
  | S ?n' =>
      let b := fresh "b" in let l' := fresh l in
      destruct l as [|b l']; [simpl in *; lia|]; explode l' n'
  end.

Lemma get16_ok buf i : bytes_ok buf -> 0 <= get16 buf i < 65536.
Proof.
  intros Hb. unfold get16, get8.
  assert (H : forall j, 0 <= default 0 (buf !! j) < 256).
  { intros j. destruct (buf !! j) as [b|] eqn:E; simpl; [|lia].
    by apply (Forall_lookup_1 _ _ _ _ Hb E). }
  pose proof (H i). pose proof (H (S i)). lia.
Qed.

#[export] Hint Resolve get16_ok : csum.

(** The RFC 768 pseudo header of a datagram. *)
Definition udp_pseudo (ip udp : list Z) : list Z :=
  take 8 (drop 12 ip) ++ [0; IPPROTO_UDP] ++ take 2 (drop 4 udp).

Lemma get32_csum buf i : bytes_ok buf -> get32 buf i ≃ get16 buf i + get16 buf (S (S i)).
Proof.
  intros Hb. unfold get32. apply csum_eq_fold; apply get16_ok; done.
Qed.

Lemma udp_pseudo_sum ip udp :
  (20 <= length ip)%nat -> (8 <= length udp)%nat ->
  length (udp_pseudo ip udp) = 12%nat /\
  sumZ (words16 (udp_pseudo ip udp)) =
    get16 ip 12 + get16 ip 14 + (get16 ip 16 + get16 ip 18) + bswap16 IPPROTO_UDP + udph_len udp.
Proof.
  intros Hip Hudp. explode ip 20%nat. explode udp 8%nat.
  change (bswap16 IPPROTO_UDP) with 4352.
  split; [done|].
  cbv [udp_pseudo take drop app words16 sumZ foldr get16 get8 lookup list_lookup default
    udph_len le16b IPPROTO_UDP from_option]. simpl. lia.
Qed.

Lemma udp_pseudo_ok ip udp : bytes_ok ip -> bytes_ok udp -> bytes_ok (udp_pseudo ip udp).
Proof.
  intros. unfold udp_pseudo. apply Forall_app_2; [by apply Forall_take, Forall_drop|].
  unfold IPPROTO_UDP. do 2 (apply Forall_cons; [unfold byte_ok; lia|]).
  by apply Forall_take, Forall_drop.
Qed.

(** The value accumulated over the pseudo header and the first six bytes of
    the UDP header. *)
Lemma udp_hdr_sum ip udp :
  bytes_ok ip -> bytes_ok udp -> (20 <= length ip)%nat -> (8 <= length udp)%nat ->
  let s := ip_csum64_partial
             (u64 (iph_saddr ip + iph_daddr ip + bswap16 IPPROTO_UDP + udph_len udp))
             (take 6 udp) in
  s ≃ sumZ (words16 (udp_pseudo ip udp ++ take 6 udp)) /\
  0 <= s <= 32 * GIB.
Proof.
  intros Hip Hudp Hlip Hludp.
  destruct (udp_pseudo_sum ip udp Hlip Hludp) as [Hlen Hsum].
  pose proof (get16_ok ip 12 Hip). pose proof (get16_ok ip 14 Hip).
  pose proof (get16_ok ip 16 Hip). pose proof (get16_ok ip 18 Hip).
  pose proof (get16_ok udp 4 Hudp) as Hul. fold (udph_len udp) in Hul.
  change (bswap16 IPPROTO_UDP) with 4352 in *.
  unfold iph_saddr, iph_daddr.
  assert (Hs0 : get32 ip 12 + get32 ip 16 + 4352 + udph_len udp
                ≃ sumZ (words16 (udp_pseudo ip udp))).
  { assert (0 <= get32 ip 12 /\ 0 <= get32 ip 16) by (unfold get32; lia).
    rewrite Hsum, !get32_csum by done. apply csum_eq_refl. lia. }
  unfold get32 in *. rewrite u64_small by lia.
  assert (Hl6 : length (take 6 udp) = 6%nat) by (rewrite length_take; lia).
  destruct (partial_spec (get16 ip 12 + 65536 * get16 ip 14 + (get16 ip 16 + 65536 * get16 ip 18)
    + 4352 + udph_len udp) (take 6 udp)) as [E B].
  - by apply Forall_take.
  - rewrite Hl6. by exists 3%nat.
  - lia.
  - rewrite Hl6. lia.
  - rewrite Hl6 in B. split; [|lia].
    assert (Hw6 : bytes_ok (take 6 udp)) by (by apply Forall_take).
    pose proof (sumZ_nonneg _ (words16_ok _ Hw6)).
    rewrite words16_app by (rewrite Hlen; by exists 6%nat).
    rewrite sumZ_app, E, Hs0. apply csum_eq_refl.
    pose proof (sumZ_nonneg _ (words16_ok _ (udp_pseudo_ok _ _ Hip Hudp))). lia.
Qed.

(** Everything the UDP checksum covers before the payload. *)
Definition udp_prefix (ip udp : list Z) : list Z := udp_pseudo ip udp ++ take 6 udp.

Lemma udp_prefix_ok ip udp :
  bytes_ok ip -> bytes_ok udp -> (20 <= length ip)%nat -> (8 <= length udp)%nat ->
  bytes_ok (udp_prefix ip udp) /\ Nat.Even (length (udp_prefix ip udp)).
Proof.
  intros Hip Hudp Hlip Hludp. unfold udp_prefix. split.
  - apply Forall_app_2; [by apply udp_pseudo_ok|by apply Forall_take].
  - rewrite length_app, length_take_le by lia.
    destruct (udp_pseudo_sum ip udp Hlip Hludp) as [-> _]. by exists 9%nat.
Qed.

Lemma udp_checksum_words ip udp iov :
  bytes_ok ip -> bytes_ok udp -> bytes_ok (concat iov) ->
  (20 <= length ip)%nat -> (8 <= length udp)%nat ->
  Z.of_nat (length (concat iov)) <= 65535 ->
  ef_udp_checksum ip udp iov =
    let c := 65535 - ones_sum (words16 (udp_prefix ip udp) ++ words16 (concat iov)) in
    if c =? 0 then 65535 else c.
Proof.
  intros Hip Hudp Hiov Hlip Hludp Hliov.
  destruct (udp_hdr_sum ip udp) as [Es Bs]; [done..|].
  destruct (udp_prefix_ok ip udp) as [Hpre _]; [done..|].
  unfold ef_udp_checksum. cbv zeta. fold (udp_prefix ip udp) in Es.
  set (s := ip_csum64_partial _ _) in *.
  destruct (partialv_spec s iov) as [Ev Bv]; [done|lia|lia|].
  pose proof (sumZ_nonneg _ (words16_ok _ Hiov)).
  pose proof (sumZ_nonneg _ (words16_ok _ Hpre)).
  rewrite (proto_finish_spec _ (words16 (udp_prefix ip udp) ++ words16 (concat iov))).
  - unfold nz. by destruct (_ =? 0).
  - lia.
  - apply Forall_app_2; by apply words16_ok.
  - rewrite sumZ_app, Ev, Es. apply csum_eq_refl. lia.
Qed.

(** C22: [ef_udp_checksum] is the RFC 768 checksum: the ones' complement of
    the ones' complement sum of the pseudo header, the UDP header without its
    checksum field and the payload, with 0 sent as 0xffff.  It holds for every
    scatter-gather cut of a payload of at most 65535 bytes: the 64-bit
    accumulation never wraps and odd fragments are carried over. *)
Theorem ef_udp_checksum_rfc768 ip udp iov :
  bytes_ok ip -> bytes_ok udp -> bytes_ok (concat iov) ->
  (20 <= length ip)%nat -> (8 <= length udp)%nat ->
  Z.of_nat (length (concat iov)) <= 65535 ->
  ef_udp_checksum ip udp iov =
    let c := rfc1071 (udp_pseudo ip udp ++ take 6 udp ++ concat iov) in
    if c =? 0 then 65535 else c.
Proof.
  intros. rewrite udp_checksum_words by done. destruct (udp_prefix_ok ip udp); [done..|].
  unfold rfc1071. rewrite app_assoc. fold (udp_prefix ip udp). by rewrite words16_app.
Qed.

(** The two bytes of a 16-bit value as the host stores them. *)
Definition bytes16 (v : Z) : list Z := [v `mod` 256; v / 256].

(** A receiver accepts when the ones' complement sum over the data with its
    checksum in place is 0xffff. *)
Definition csum_verifies (bs : list Z) : Prop := ones_sum (words16 bs) = 65535.

(** Either representation of the complement makes the sum verify. *)
Lemma csum_verify_words ws1 ws2 c :
  words_ok ws1 -> words_ok ws2 ->
  c = 65535 - ones_sum (ws1 ++ ws2) \/ (ones_sum (ws1 ++ ws2) = 65535 /\ c = 65535) ->
  ones_sum (ws1 ++ [c] ++ ws2) = 65535.
Proof.
  intros H1 H2 Hc.
  assert (H12 : words_ok (ws1 ++ ws2)) by (by apply Forall_app_2).
  destruct (ones_sum_spec _ H12) as [E B].
  pose proof (sumZ_nonneg _ H1). pose proof (sumZ_nonneg _ H2).
  rewrite sumZ_app in E.
  apply ones_sum_eq; [|rewrite !sumZ_app; simpl|lia].
  - apply Forall_app_2; [done|]. apply Forall_cons; [lia|done].
  - destruct E as (_ & _ & E0 & Em).
    split; [lia|]. split; [lia|]. split; [lia|].
    destruct Hc as [->|[Hs ->]]; Z.div_mod_to_equations; lia.
Qed.

Lemma bytes16_words c bs : words16 (bytes16 c ++ bs) = c :: words16 bs.
Proof.
  cbn [bytes16 app words16]. unfold le16b. by rewrite Z.add_comm, <- Z.div_mod by lia.
Qed.

Lemma udp_verifies ip udp iov :
  bytes_ok ip -> bytes_ok udp -> bytes_ok (concat iov) ->
  (20 <= length ip)%nat -> (8 <= length udp)%nat ->
  Z.of_nat (length (concat iov)) <= 65535 ->
  csum_verifies (udp_prefix ip udp ++ bytes16 (ef_udp_checksum ip udp iov) ++ concat iov).
Proof.
  intros Hip Hudp Hiov Hlip Hludp Hliov.
  destruct (udp_prefix_ok ip udp) as [Hpre Hev]; [done..|].
  unfold csum_verifies. rewrite words16_app, bytes16_words by done.
  apply (csum_verify_words (words16 (udp_prefix ip udp)) (words16 (concat iov)));
    [by apply words16_ok..|].
  rewrite udp_checksum_words by done. cbv zeta.
  destruct (Z.eqb_spec (65535 - ones_sum (words16 (udp_prefix ip udp) ++ words16 (concat iov))) 0);
    [right; lia|by left].
Qed.

(** C23: a datagram carrying the checksum [ef_udp_checksum] returns passes
    verification at the receiver, whatever the fragmentation at the sender. *)
Theorem ef_udp_checksum_verifies ip udp iov :
  bytes_ok ip -> bytes_ok udp -> bytes_ok (concat iov) ->
  (20 <= length ip)%nat -> (8 <= length udp)%nat ->
  Z.of_nat (length (concat iov)) <= 65535 ->
  csum_verifies (udp_pseudo ip udp ++ take 6 udp ++
                 bytes16 (ef_udp_checksum ip udp iov) ++ concat iov).
Proof. intros. rewrite app_assoc. by apply udp_verifies. Qed.

(** ** IP header *)

Lemma sumZ_words16_bound bs :
  bytes_ok bs -> 0 <= sumZ (words16 bs) <= 65535 * length bs.
Proof.
  revert bs. fix IH 1. intros [|b0 [|b1 bs]] Hok.
  - simpl. lia.
  - apply Forall_cons_1 in Hok as [? _]. unfold byte_ok in *. simpl. lia.
  - apply Forall_cons_1 in Hok as [? Hok]. apply Forall_cons_1 in Hok as [? Hok].
    specialize (IH bs Hok). unfold byte_ok in *. cbn [words16 sumZ foldr].
    fold (sumZ (words16 bs)). rewrite !length_cons. unfold le16b. lia.
Qed.

Lemma sum_words_spec n p csum :
  bytes_ok p -> (2 * n <= length p)%nat -> 0 <= csum -> csum + 65536 * n < 4294967296 ->
  sum_words csum p n = csum + sumZ (words16 (take (2 * n) p)).
Proof.
  revert p csum. induction n as [|n IH]; intros p csum Hok Hl Hc Hb; simpl.
  - lia.
  - destruct p as [|b0 [|b1 p]]; [simpl in Hl; lia..|].
    apply Forall_cons_1 in Hok as [H0 Hok]. apply Forall_cons_1 in Hok as [H1 Hok].
    unfold byte_ok in *. simpl in Hl.
    replace (n + S (n + 0))%nat with (S (2 * n)) by lia.
    unfold get16, get8. simpl. rewrite u32_small by lia.
    rewrite (IH p) by (done || lia). simpl. unfold le16b. lia.
Qed.

(** The header an IPv4 checksum covers: its checksum field reads as zero. *)
Definition ip_hdr_zeroed (ip : list Z) : list Z :=
  take 10 ip ++ [0; 0] ++ drop 12 (take (Z.to_nat (iph_ihl ip * 4)) ip).

Lemma iph_ihl_range ip : 0 <= iph_ihl ip <= 15.
Proof.
  unfold iph_ihl. pose proof (land_mask_range (get8 ip 0) 4) as H.
  change (2 ^ 4 - 1) with 15 in H. lia.
Qed.

(** The sum [ef_ip_checksum] and [ci_ip_checksum] hand to the final fold. *)
Lemma ip_hdr_words_sum ip :
  bytes_ok ip -> 5 <= iph_ihl ip -> iph_ihl ip * 4 <= Z.of_nat (length ip) ->
  let s := get16 ip 0 + get16 ip 2 + get16 ip 4 + get16 ip 6 + get16 ip 8 + get16 ip 12
           + get16 ip 14 + get16 ip 16 + get16 ip 18 in
  let c := if 20 <? iph_ihl ip * 4
           then sum_words s (drop 20 ip) (Z.to_nat ((iph_ihl ip * 4 - 20) / 2)) else s in
  c = sumZ (words16 (ip_hdr_zeroed ip)) /\ 0 <= s < 1048576 /\ 0 <= c < 4194304.
Proof.
  intros Hok Hihl Hlen. pose proof (iph_ihl_range ip).
  set (n := Z.to_nat ((iph_ihl ip * 4 - 20) / 2)).
  assert (Hn : iph_ihl ip * 4 = 20 + 2 * n) by (unfold n; Z.div_mod_to_equations; lia).
  intros s c.
  assert (Hs : 0 <= s < 1048576).
  { unfold s. pose proof (get16_ok ip 0 Hok). pose proof (get16_ok ip 2 Hok).
    pose proof (get16_ok ip 4 Hok). pose proof (get16_ok ip 6 Hok).
    pose proof (get16_ok ip 8 Hok). pose proof (get16_ok ip 12 Hok).
    pose proof (get16_ok ip 14 Hok). pose proof (get16_ok ip 16 Hok).
    pose proof (get16_ok ip 18 Hok). lia. }
  assert (Hc : c = s + sumZ (words16 (take (2 * n) (drop 20 ip)))).
  { unfold c. destruct (Z.ltb_spec 20 (iph_ihl ip * 4)).
    - apply sum_words_spec; [by apply Forall_drop|rewrite length_drop; lia|lia..].
    - replace n with 0%nat by lia. simpl. lia. }
  split; [|split; [done|]].
  - rewrite Hc. unfold ip_hdr_zeroed, s. clear c Hc s Hs.
    replace (Z.to_nat (iph_ihl ip * 4)) with (20 + 2 * n)%nat by lia.
    clearbody n. clear Hihl. generalize dependent (iph_ihl ip). intros.
    explode ip 20%nat. cbn [take drop app Nat.add words16 sumZ foldr].
    unfold get16, get8. simpl. unfold le16b, sumZ. rewrite drop_0. lia.
  - rewrite Hc.
    pose proof (sumZ_words16_bound (take (2 * n) (drop 20 ip))
      ltac:(by apply Forall_take, Forall_drop)) as B.
    rewrite length_take in B. lia.
Qed.

Lemma ip_hdr_zeroed_ok ip : bytes_ok ip -> bytes_ok (ip_hdr_zeroed ip).
Proof.
  intros. unfold ip_hdr_zeroed. apply Forall_app_2; [by apply Forall_take|].
  do 2 (apply Forall_cons; [unfold byte_ok; lia|]). by apply Forall_drop, Forall_take.
Qed.

(** The word-by-word additions of the header are exact: 29 words cannot
    overflow 32 bits. *)
Lemma ip_checksum_words ip :
  bytes_ok ip -> 5 <= iph_ihl ip -> iph_ihl ip * 4 <= Z.of_nat (length ip) ->
  ef_ip_checksum ip = 65535 - ones_sum (words16 (ip_hdr_zeroed ip)) /\
  ci_ip_checksum ip = ef_ip_checksum ip.
Proof.
  intros Hok Hihl Hlen.
  destruct (ip_hdr_words_sum ip Hok Hihl Hlen) as (Hc & Hs & Hcb).
  assert (Hci : ci_ip_checksum ip = ef_ip_checksum ip).
  { unfold ci_ip_checksum, ef_ip_checksum, CI_IP4_IHL, iph_ihl.
    rewrite Z.shiftl_mul_pow2 by lia. done. }
  split; [|done].
  pose proof (get16_ok ip 0 Hok). pose proof (get16_ok ip 2 Hok).
  pose proof (get16_ok ip 4 Hok). pose proof (get16_ok ip 6 Hok).
  pose proof (get16_ok ip 8 Hok). pose proof (get16_ok ip 12 Hok).
  pose proof (get16_ok ip 14 Hok). pose proof (get16_ok ip 16 Hok).
  pose proof (get16_ok ip 18 Hok).
  unfold ef_ip_checksum. cbn [Nat.mul Nat.add]. cbv zeta.
  rewrite !(u32_small (get16 ip 0)) by lia.
  do 8 (match goal with |- context [u32 (?a + get16 ip ?i)] =>
    rewrite !(u32_small (a + get16 ip i)) by lia end).
  apply hdr_finish_spec; [lia|apply words16_ok; by apply ip_hdr_zeroed_ok|].
  rewrite <- Hc. apply csum_eq_refl. lia.
Qed.

Lemma ip_verifies ip :
  bytes_ok ip -> 5 <= iph_ihl ip -> iph_ihl ip * 4 <= Z.of_nat (length ip) ->
  csum_verifies (take 10 ip ++ bytes16 (ci_ip_checksum ip) ++
                 drop 12 (take (Z.to_nat (iph_ihl ip * 4)) ip)).
Proof.
  intros Hok Hihl Hlen. destruct (ip_checksum_words ip) as [He Hci]; [done..|].
  rewrite Hci, He. unfold csum_verifies, ip_hdr_zeroed.
  assert (Hev : Nat.Even (length (take 10 ip))) by (rewrite length_take; exists 5%nat; lia).
  rewrite !(words16_app (take 10 ip)), bytes16_words by done.
  set (ws1 := words16 (take 10 ip)). set (ws2 := words16 (drop 12 _)).
  assert (H1 : words_ok ws1) by (by apply words16_ok, Forall_take).
  assert (H2 : words_ok ws2) by (by apply words16_ok, Forall_drop, Forall_take).
  apply csum_verify_words; [done..|]. left. f_equal.
  change (words16 ([0; 0] ++ ?l)) with (0 :: words16 l).
  assert (H12 : words_ok (ws1 ++ ws2)) by (by apply Forall_app_2).
  destruct (ones_sum_spec _ H12) as [E ?].
  apply ones_sum_eq; [apply Forall_app_2; [done|by apply Forall_cons; [lia|]]| |lia].
  assert (Hz : sumZ (ws1 ++ 0 :: ws2) = sumZ (ws1 ++ ws2)).
  { rewrite !sumZ_app. change (sumZ (0 :: ws2)) with (0 + sumZ ws2). lia. }
  fold ws2. rewrite Hz. exact E.
Qed.

(** C24: the IPv4 header checksum, options included: [ef_ip_checksum] is the
    RFC 1071 checksum of the header with its checksum field taken as zero, and
    the citools copy [ci_ip_checksum] computes the same value. *)
Theorem ef_ip_checksum_rfc791 ip :
  bytes_ok ip -> 5 <= iph_ihl ip -> iph_ihl ip * 4 <= Z.of_nat (length ip) ->
  ef_ip_checksum ip = rfc1071 (ip_hdr_zeroed ip) /\ ci_ip_checksum ip = rfc1071 (ip_hdr_zeroed ip).
Proof.
  intros Hok Hihl Hlen. destruct (ip_checksum_words ip) as [He Hci]; [done..|].
  rewrite Hci, He. done.
Qed.

(** ** TCP *)

(** The exact value of an accumulation that does not wrap. *)
Fixpoint sum32 (buf : list Z) : Z :=
  match buf with
  | b0 :: b1 :: b2 :: b3 :: buf' => le32b b0 b1 b2 b3 + sum32 buf'
  | b0 :: b1 :: _ => le16b b0 b1
  | _ => 0
  end.

Lemma partial_exact csum buf :
  bytes_ok buf -> 0 <= csum -> csum + GIB * length buf < 18446744073709551616 ->
  ip_csum64_partial csum buf = csum + sum32 buf /\ 0 <= sum32 buf <= GIB * length buf.
Proof.
  revert buf csum. fix IH 1. intros [|b0 [|b1 [|b2 [|b3 buf]]]] csum Hok Hc Hb.
  - simpl. lia.
  - simpl in *. lia.
  - apply Forall_cons_1 in Hok as [? Hok]. apply Forall_cons_1 in Hok as [? Hok].
    unfold byte_ok in *. simpl in *. unfold le16b. rewrite u64_small by lia. lia.
  - apply Forall_cons_1 in Hok as [? Hok]. apply Forall_cons_1 in Hok as [? Hok].
    unfold byte_ok in *. simpl in *. unfold le16b. rewrite u64_small by lia. lia.
  - do 4 apply Forall_cons_1 in Hok as [? Hok]. unfold byte_ok in *.
    cbn [ip_csum64_partial sum32]. rewrite !length_cons in *. unfold le32b, le16b in *.
    rewrite u64_small by lia.
    destruct (IH buf (csum + (b0 + 256 * b1 + 65536 * (b2 + 256 * b3)))) as [-> ?];
      [done|lia|lia|lia].
Qed.

(** The header the TCP checksum covers: its checksum field reads as zero. *)
Definition tcp_hdr_zeroed (tcp : list Z) : list Z :=
  take 16 tcp ++ [0; 0] ++ drop 18 (take (Z.to_nat (tcph_doff tcp * 4)) tcp).

(** The RFC 793 pseudo header; the TCP length is that of the datagram less
    its IP header. *)
Definition tcp_pseudo (ip : list Z) : list Z :=
  let paylen := u16 (bswap16 (iph_tot_len ip) - iph_ihl ip * 4) in
  take 8 (drop 12 ip) ++ [0; IPPROTO_TCP] ++ bytes16 (bswap16 paylen).

Lemma bytes16_ok v : 0 <= v < 65536 -> bytes_ok (bytes16 v).
Proof.
  intros. unfold bytes16.
  do 2 (apply Forall_cons; [unfold byte_ok; Z.div_mod_to_equations; lia|]). constructor.
Qed.

Lemma tcp_pseudo_ok ip : bytes_ok ip -> bytes_ok (tcp_pseudo ip).
Proof.
  intros. unfold tcp_pseudo. apply Forall_app_2; [by apply Forall_take, Forall_drop|].
  unfold IPPROTO_TCP. do 2 (apply Forall_cons; [unfold byte_ok; lia|]).
  apply bytes16_ok, bswap16_range.
Qed.

Lemma tcp_pseudo_sum ip :
  bytes_ok ip -> (20 <= length ip)%nat ->
  let paylen := u16 (bswap16 (iph_tot_len ip) - iph_ihl ip * 4) in
  let s := iph_saddr ip + iph_daddr ip + bswap32 (Z.lor (Z.shiftl IPPROTO_TCP 16) paylen) in
  s ≃ sumZ (words16 (tcp_pseudo ip)) /\ 0 <= s < 16 * GIB /\ length (tcp_pseudo ip) = 12%nat.
Proof.
  intros Hok Hlen paylen s.
  assert (Hp : 0 <= paylen < 65536) by apply u16_range.
  assert (Hb : bswap32 (Z.lor (Z.shiftl IPPROTO_TCP 16) paylen)
               = 1536 + 65536 * bswap16 paylen).
  { rewrite lor_shiftl_add by (simpl; lia). unfold IPPROTO_TCP. rewrite bswap32_eq.
    change (2 ^ 16) with 65536. rewrite (Z.add_comm (6 * 65536)), Z.mod_add, Z.div_add by lia.
    rewrite (Z.mod_small paylen), (Z.div_small paylen) by lia.
    change (bswap16 ((0 + 6) `mod` 65536)) with 1536. lia. }
  pose proof (bswap16_range paylen).
  pose proof (get16_ok ip 12 Hok). pose proof (get16_ok ip 14 Hok).
  pose proof (get16_ok ip 16 Hok). pose proof (get16_ok ip 18 Hok).
  assert (sumZ (words16 (tcp_pseudo ip)) = get16 ip 12 + get16 ip 14
            + (get16 ip 16 + get16 ip 18) + (1536 + bswap16 paylen) /\
            length (tcp_pseudo ip) = 12%nat) as [Hsum Hl].
  { unfold tcp_pseudo. fold paylen. clearbody paylen. clear - Hlen Hp.
    pose proof (bswap16_range paylen) as Hr. revert Hr. generalize (bswap16 paylen). intros.
    explode ip 20%nat. split; [|done]. cbn [take drop app bytes16 words16 sumZ foldr].
    unfold get16, get8. simpl. unfold le16b, IPPROTO_TCP. Z.div_mod_to_equations. lia. }
  unfold s, iph_saddr, iph_daddr in *. rewrite Hb. split; [|unfold get32; split; [lia|done]].
  assert (0 <= get32 ip 12 /\ 0 <= get32 ip 16) by (unfold get32; lia).
  rewrite Hsum, !get32_csum, csum_eq_fold by (done || lia). apply csum_eq_refl. lia.
Qed.

(** Summing the whole header and taking the checksum field away again is
    summing the header with that field zero. *)
Lemma tcp_hdr_sum s tcp :
  bytes_ok tcp -> 5 <= tcph_doff tcp -> tcph_doff tcp * 4 <= Z.of_nat (length tcp) ->
  tcph_doff tcp <= 15 -> 0 <= s < 16 * GIB ->
  let s' := u64 (ip_csum64_partial s (take (Z.to_nat (tcph_doff tcp * 4)) tcp) - tcph_check tcp) in
  s' ≃ s + sumZ (words16 (tcp_hdr_zeroed tcp)) /\ 0 <= s' < 128 * GIB /\
  Nat.Even (length (tcp_hdr_zeroed tcp)) /\ bytes_ok (tcp_hdr_zeroed tcp).
Proof.
  intros Hok Hd Hl Hd15 Hs.
  set (n := Z.to_nat (tcph_doff tcp * 4 - 20)).
  assert (Hn : Z.to_nat (tcph_doff tcp * 4) = (20 + n)%nat) by (unfold n; lia).
  assert (Hz : bytes_ok (tcp_hdr_zeroed tcp)).
  { unfold tcp_hdr_zeroed. apply Forall_app_2; [by apply Forall_take|].
    do 2 (apply Forall_cons; [unfold byte_ok; lia|]). by apply Forall_drop, Forall_take. }
  assert (Hlz : length (tcp_hdr_zeroed tcp) = (20 + n)%nat).
  { unfold tcp_hdr_zeroed. rewrite !length_app, length_drop, !length_take, Hn. cbn [length]. lia. }
  assert (He : Nat.Even (20 + n)) by (exists (Z.to_nat (tcph_doff tcp * 2)); lia).
  assert (Hlt : length (take (20 + n) tcp) = (20 + n)%nat) by (rewrite length_take; lia).
  rewrite Hn. intros s'.
  destruct (partial_exact s (take (20 + n) tcp)) as [E1 B1];
    [by apply Forall_take|lia|lia|].
  destruct (partial_exact s (tcp_hdr_zeroed tcp)) as [E2 B2]; [done|lia|lia|].
  destruct (partial_spec s (tcp_hdr_zeroed tcp)) as [E3 _]; [done|by rewrite Hlz|lia|lia|].
  assert (Hdiff : sum32 (take (20 + n) tcp) - tcph_check tcp = sum32 (tcp_hdr_zeroed tcp)).
  { unfold tcp_hdr_zeroed. rewrite Hn. clear - Hl Hd Hn.
    unfold tcph_check. assert (20 <= length tcp)%nat by lia. clear Hl Hd Hn.
    explode tcp 20%nat. cbn [Nat.add take drop app sum32].
    unfold le32b, le16b, get16, get8. simpl. lia. }
  assert (Hs' : s' = ip_csum64_partial s (tcp_hdr_zeroed tcp)).
  { unfold s'. rewrite E1, E2. rewrite <- Hdiff. rewrite u64_small by lia. lia. }
  rewrite Hs'. split; [done|]. rewrite Hlz. split; [|done]. rewrite E2. lia.
Qed.

(** [ef_tcp_checksum] is the RFC 793 checksum of the pseudo header, the
    TCP header (options included, checksum field as zero) and the payload in
    any scatter-gather cut. *)
Theorem ef_tcp_checksum_rfc793 ip tcp iov :
  bytes_ok ip -> bytes_ok tcp -> bytes_ok (concat iov) ->
  (20 <= length ip)%nat -> 5 <= tcph_doff tcp <= 15 ->
  tcph_doff tcp * 4 <= Z.of_nat (length tcp) -> Z.of_nat (length (concat iov)) <= 65535 ->
  ef_tcp_checksum ip tcp iov = rfc1071 (tcp_pseudo ip ++ tcp_hdr_zeroed tcp ++ concat iov).
Proof.
  intros Hip Htcp Hiov Hlip Hdoff Hltcp Hliov.
  destruct (tcp_pseudo_sum ip) as (Ep & Bp & Lp); [done..|].
  pose proof (tcp_pseudo_ok ip Hip) as Hpo.
  unfold ef_tcp_checksum. cbv zeta in *.
  set (s := iph_saddr ip + _ + _) in *. rewrite (u64_small s) by lia.
  destruct (tcp_hdr_sum s tcp) as (Eh & Bh & Hev & Hho); [done|lia|lia|lia|lia|].
  cbv zeta in *. set (s1 := u64 _) in *.
  destruct (partialv_spec s1 iov) as [Ev Bv]; [done|lia|lia|].
  pose proof (sumZ_nonneg _ (words16_ok _ Hiov)).
  pose proof (sumZ_nonneg _ (words16_ok _ Hpo)).
  pose proof (sumZ_nonneg _ (words16_ok _ Hho)).
  apply proto_finish_spec; [lia| |].
  - apply words16_ok. apply Forall_app_2; [done|by apply Forall_app_2].
  - rewrite words16_app by (rewrite Lp; by exists 6%nat).
    rewrite words16_app by done. rewrite !sumZ_app, Ev, Eh, Ep, Z.add_assoc.
    apply csum_eq_refl. lia.
Qed.

(** ** Incremental checksums *)

Lemma ci_partial_spec sum buf :
  bytes_ok buf -> 0 <= sum -> sum + 65535 * length buf < 4294967296 ->
  ci_ip_csum_partial sum buf = sum + sumZ (words16 buf).
Proof.
  revert buf sum. fix IH 1. intros [|b0 [|b1 buf]] sum Hok Hs Hb.
  - simpl. lia.
  - apply Forall_cons_1 in Hok as [? _]. unfold byte_ok in *. simpl in *.
    rewrite u32_small by lia. lia.
  - apply Forall_cons_1 in Hok as [? Hok]. apply Forall_cons_1 in Hok as [? Hok].
    unfold byte_ok in *. cbn [ci_ip_csum_partial words16 sumZ foldr].
    fold (sumZ (words16 buf)). rewrite !length_cons in Hb. unfold le16b in *.
    rewrite u32_small by lia. rewrite IH by (done || lia). lia.
Qed.

Lemma udp_precompute_value ip udp :
  bytes_ok ip -> bytes_ok udp ->
  ci_udp_csum_precompute ip udp =
    get16 ip 12 + get16 ip 14 + get16 ip 16 + get16 ip 18 + 4352 + get16 udp 0 + get16 udp 2
  /\ 0 <= ci_udp_csum_precompute ip udp < 65536 * 7.
Proof.
  intros Hip Hudp.
  pose proof (get16_ok ip 12 Hip). pose proof (get16_ok ip 14 Hip).
  pose proof (get16_ok ip 16 Hip). pose proof (get16_ok ip 18 Hip).
  pose proof (get16_ok udp 0 Hudp). pose proof (get16_ok udp 2 Hudp).
  unfold ci_udp_csum_precompute. cbn [Nat.mul Nat.add]. cbv zeta.
  change (le16b 0 IPPROTO_UDP) with 4352.
  rewrite (u32_small (get16 ip 12)) by lia.
  do 6 (match goal with |- context [u32 (?a + ?b)] =>
    rewrite !(u32_small (a + b)) by lia end). lia.
Qed.

Lemma ci_udp_finish_eq x :
  ci_udp_csum_finish x =
    if nz (ip_hdr_csum32_finish x) then ip_hdr_csum32_finish x else 65535.
Proof. reflexivity. Qed.

(** the incremental UDP checksum agrees with the direct one: completing
    the per-connection sum of [ci_udp_csum_precompute] with the two length
    fields and the payload, 16 bits at a time in 32-bit arithmetic, gives
    what the 64-bit routine behind [ci_udp_checksum] returns. *)
Theorem udp_precompute_completes ip udp payload :
  bytes_ok ip -> bytes_ok udp -> bytes_ok payload ->
  (20 <= length ip)%nat -> (8 <= length udp)%nat ->
  Z.of_nat (length payload) <= 65507 ->
  ci_udp_csum_finish
    (ci_ip_csum_partial (ci_udp_csum_precompute ip udp + 2 * udph_len udp) payload)
  = ci_udp_checksum ip udp [payload].
Proof.
  intros Hip Hudp Hpay Hlip Hludp Hlpay.
  destruct (udp_precompute_value ip udp) as [Hv Hb]; [done..|].
  pose proof (get16_ok udp 4 Hudp) as Hul. fold (udph_len udp) in Hul.
  destruct (udp_prefix_ok ip udp) as [Hpre Hev]; [done..|].
  pose proof (sumZ_words16_bound payload Hpay).
  rewrite ci_partial_spec by (done || lia).
  unfold ci_udp_checksum. rewrite udp_checksum_words; cbn [concat]; rewrite ?app_nil_r; [|done..|lia].
  rewrite ci_udp_finish_eq.
  set (x := ci_udp_csum_precompute ip udp + _ + _).
  assert (Hx : x = sumZ (words16 (udp_prefix ip udp) ++ words16 payload)).
  { rewrite sumZ_app. unfold x, udp_prefix. rewrite Hv.
    rewrite words16_app by (destruct (udp_pseudo_sum ip udp Hlip Hludp) as [-> _]; by exists 6%nat).
    rewrite sumZ_app. destruct (udp_pseudo_sum ip udp Hlip Hludp) as [_ ->].
    change (bswap16 IPPROTO_UDP) with 4352. clear - Hludp.
    explode udp 8%nat. cbn [take words16 sumZ foldr].
    unfold udph_len, le16b, get16, get8. simpl. lia. }
  rewrite (hdr_finish_spec x (words16 (udp_prefix ip udp) ++ words16 payload)).
  - unfold nz. by destruct (_ =? 0).
  - unfold x. lia.
  - apply Forall_app_2; by apply words16_ok.
  - rewrite Hx at 1. apply csum_eq_refl. rewrite <- Hx. unfold x. lia.
Qed.

(** ** ICMP *)

(** [ci_icmp_checksum] does not cover the last four bytes of the message:
    it starts summing at the ICMP header instead of behind it, so two messages
    that differ only in their last four bytes get the same checksum. *)
Theorem ci_icmp_checksum_ignores_tail ip msg t1 t2 :
  (2 <= length msg)%nat ->
  bswap16 (get16 ip 2) - CI_IP4_IHL ip = Z.of_nat (length msg) + 4 ->
  ci_icmp_checksum ip (msg ++ t1) = ci_icmp_checksum ip (msg ++ t2).
Proof.
  intros Hl Hn. unfold ci_icmp_checksum.
  replace (Z.to_nat (bswap16 (get16 ip 2) - CI_IP4_IHL ip - 4)) with (length msg) by lia.
  rewrite !take_app_length. explode msg 2%nat. done.
Qed.

(** * Witnesses *)

Ltac solve_bytes :=
  repeat (apply Forall_cons; [unfold byte_ok; lia|]); apply Forall_nil.

(** A 33-byte datagram from 172.16.133.100:8080 to 172.1.2.3:8080, cut into
    an odd fragment, a single byte and an empty fragment. *)
Definition ex_ip : list Z :=
  [69; 0; 0; 33; 0; 0; 0; 0; 64; 17; 0; 0; 172; 16; 133; 100; 172; 1; 2; 3].
Definition ex_udp : list Z := [31; 144; 31; 144; 0; 13; 0; 0].
Definition ex_iov : list (list Z) := [[1; 2; 3]; [4]; []; [255]].
Definition ex_tcp : list Z :=
  [31; 144; 31; 144; 0; 0; 0; 1; 0; 0; 0; 2; 80; 16; 255; 255; 7; 9; 0; 0].

Lemma ef_udp_checksum_rfc768_witness :
  ef_udp_checksum ex_ip ex_udp ex_iov =
    let c := rfc1071 (udp_pseudo ex_ip ex_udp ++ take 6 ex_udp ++ concat ex_iov) in
    if c =? 0 then 65535 else c.
Proof. apply (ef_udp_checksum_rfc768 ex_ip ex_udp ex_iov); [solve_bytes..|simpl; lia|simpl; lia|simpl; lia]. Defined.

Lemma ef_udp_checksum_verifies_witness :
  csum_verifies (udp_pseudo ex_ip ex_udp ++ take 6 ex_udp ++
                 bytes16 (ef_udp_checksum ex_ip ex_udp ex_iov) ++ concat ex_iov).
Proof. apply (ef_udp_checksum_verifies ex_ip ex_udp ex_iov); [solve_bytes..|simpl; lia|simpl; lia|simpl; lia]. Defined.

Lemma ef_ip_checksum_rfc791_witness :
  ef_ip_checksum ex_ip = rfc1071 (ip_hdr_zeroed ex_ip) /\
  ci_ip_checksum ex_ip = rfc1071 (ip_hdr_zeroed ex_ip).
Proof. apply (ef_ip_checksum_rfc791 ex_ip); [solve_bytes|vm_compute; discriminate..]. Defined.

Lemma ef_tcp_checksum_rfc793_witness :
  ef_tcp_checksum ex_ip ex_tcp ex_iov =
    rfc1071 (tcp_pseudo ex_ip ++ tcp_hdr_zeroed ex_tcp ++ concat ex_iov).
Proof.
  apply (ef_tcp_checksum_rfc793 ex_ip ex_tcp ex_iov);
    [solve_bytes..|simpl; lia|split; vm_compute; discriminate|vm_compute; discriminate|simpl; lia].
Defined.

Lemma udp_precompute_completes_witness :
  ci_udp_csum_finish
    (ci_ip_csum_partial (ci_udp_csum_precompute ex_ip ex_udp + 2 * udph_len ex_udp) [1; 2; 3; 4; 255])
  = ci_udp_checksum ex_ip ex_udp [[1; 2; 3; 4; 255]].
Proof.
  apply (udp_precompute_completes ex_ip ex_udp [1; 2; 3; 4; 255]);
    [solve_bytes..|simpl; lia|simpl; lia|simpl; lia].
Defined.

(** An echo request whose data is its last four bytes: 13 bytes follow the
    header in [ex_ip], nine of which are summed. *)
Lemma ci_icmp_checksum_ignores_tail_witness :
  ci_icmp_checksum ex_ip ([8; 0; 0; 0; 1; 2; 3; 4; 5] ++ [9; 9; 9; 9]) =
  ci_icmp_checksum ex_ip ([8; 0; 0; 0; 1; 2; 3; 4; 5] ++ [0; 0; 0; 0]) /\
  rfc1071 ([8; 0; 0; 0; 1; 2; 3; 4; 5] ++ [9; 9; 9; 9]) <>
  rfc1071 ([8; 0; 0; 0; 1; 2; 3; 4; 5] ++ [0; 0; 0; 0]).
Proof.
  split; [|vm_compute; discriminate].
  apply (ci_icmp_checksum_ignores_tail ex_ip [8; 0; 0; 0; 1; 2; 3; 4; 5]); [simpl; lia|].
  vm_compute. reflexivity.
Defined.
