(* ===== verification/Packet.v ===== *)
(** Packet construction of the plugin's client library: src/lib/citools.c and
    the header initialisers of lib/citools/ippacket.c it calls.

    A packet buffer is the list of its bytes and a pointer into it is an
    offset.  [sizeof] of a pointer is 8 (x86_64). *)

From stdpp Require Import base list numbers.
From S2P Require Import Prelude Checksum.

Open Scope Z_scope.

(** * lib/citools/ippacket.c *)

(** [CI_IP4_IHL_VERSION(ihl)]. *)
Definition CI_IP4_IHL_VERSION (ihl : Z) : Z := Z.lor (Z.shiftl 4 4) (Z.shiftr ihl 2).

(** The header at offset [ip] of [buf]. *)
Definition ci_ip4_hdr_init (buf : list Z) (ip : nat) (opts_len tot_len id_be16 protocol
    saddr_be32 daddr_be32 checksum : Z) : list Z :=
  let buf := put8 buf ip (CI_IP4_IHL_VERSION (20 + opts_len)) in
  let buf := put8 buf (ip + 1) 0 in
  let buf := put16 buf (ip + 2) (bswap16 tot_len) in
  let buf := put16 buf (ip + 4) id_be16 in
  let buf := put16 buf (ip + 6) 0 in
  let buf := put8 buf (ip + 8) 64 in
  let buf := put8 buf (ip + 9) protocol in
  let buf := put32 buf (ip + 12) saddr_be32 in
  let buf := put32 buf (ip + 16) daddr_be32 in
  if nz checksum then put16 buf (ip + 10) (ci_ip_checksum (drop ip buf))
  else put16 buf (ip + 10) 0.

Definition ci_udp_hdr_init (buf : list Z) (udp ip : nat) (sport_be16 dport_be16 : Z)
    (payload : nat) (payload_len checksum : Z) : list Z :=
  let buf := put16 buf udp sport_be16 in
  let buf := put16 buf (udp + 2) dport_be16 in
  let buf := put16 buf (udp + 4) (payload_len + 8) in
  let buf := put16 buf (udp + 4) (bswap16 (get16 buf (udp + 4))) in
  if nz checksum then
    let iov := [take (Z.to_nat payload_len) (drop payload buf)] in
    put16 buf (udp + 6) (ci_udp_checksum (drop ip buf) (drop udp buf) iov)
  else put16 buf (udp + 6) 0.

Definition ci_tcp_hdr_init (buf : list Z) (tcp ip : nat) (opts_len tcp_flags sport_be16
    dport_be16 : Z) (payload : nat) (payload_len checksum : Z) : list Z :=
  let buf := put16 buf tcp sport_be16 in
  let buf := put16 buf (tcp + 2) dport_be16 in
  let buf := put8 buf (tcp + 13) tcp_flags in
  let buf := put8 buf (tcp + 12) (Z.shiftl (20 + opts_len) 2) in
  let buf := put32 buf (tcp + 4) 0 in
  let buf := put32 buf (tcp + 8) 0 in
  let buf := put16 buf (tcp + 14) 0 in
  let buf := put16 buf (tcp + 18) 0 in
  if nz checksum
  then put16 buf (tcp + 16) (ci_tcp_checksum (drop ip buf) (drop tcp buf) (drop payload buf))
  else put16 buf (tcp + 16) 0.

(** [_ip_csum]: the number of bytes is kept in 16 bits. *)
Definition _ip_csum (partial_sum : Z) (in_buf : list Z) (in_bytes : Z) : Z :=
  ci_ip_csum_partial partial_sum (take (Z.to_nat (u16 in_bytes)) in_buf).

Definition __ip_csum (sum : Z) : Z :=
  let sum := u32 (Z.shiftr sum 16 + Z.land sum 65535) in
  let sum := u32 (sum + Z.shiftr sum 16) in
  let answer := u16 (Z.land (u32 (Z.lnot sum)) 65535) in
  if answer =? 0 then 65535 else answer.

Definition ip_csum (in_buf : list Z) (in_bytes : Z) : Z := __ip_csum (_ip_csum 0 in_buf in_bytes).

(** The echo request at offset [hdr]; [hdr] and [msg] are the same address
    and [sizeof(ci_icmp_msg)] is 8. *)
Definition ci_icmp_echo_init (buf : list Z) (hdr : nat) (seq : Z) : list Z :=
  let buf := put8 buf hdr 8 in
  let buf := put8 buf (hdr + 1) 0 in
  let buf := put16 buf (hdr + 4) (bswap16 57005) in
  let buf := put16 buf (hdr + 6) seq in
  let buf := put16 buf (hdr + 2) 0 in
  put16 buf (hdr + 2) (ip_csum (drop hdr buf) 8).

(** * src/lib/citools.c *)

(** [udp_pkt]: the two header pointers and the payload's [struct iovec]. *)
Record udp_pkt := mk_udp_pkt {
  pkt_ip4 : nat;
  pkt_udp : nat;
  pkt_iov_base : nat;
  pkt_iov_len : Z
}.

Definition ETH_P_IP := 2048.

(** [shost] and [dhost] are array parameters, hence pointers: each [memcpy]
    copies [sizeof(uint8_t * )] = 8 bytes of the memory they point to. *)
Definition init_eth_hdr (pkt_buf shost dhost : list Z) : list Z * nat :=
  let buf := memcpy pkt_buf 6 (take 8 shost) in
  let buf := memcpy buf 0 (take 8 dhost) in
  let buf := put16 buf 12 (bswap16 ETH_P_IP) in
  (buf, 14%nat).

Definition init_udp_pkt (pkt_buf data : list Z) (paylen laddr_he raddr_he sport_he dport_he : Z)
    : list Z * udp_pkt :=
  let ip_len := 20 + 8 + paylen in
  let ip4 := 14%nat in
  let udp := (ip4 + 20)%nat in
  let buf := ci_ip4_hdr_init pkt_buf ip4 0 ip_len 0 IPPROTO_UDP (bswap32 laddr_he)
               (bswap32 raddr_he) 0 in
  let buf := ci_udp_hdr_init buf udp ip4 (bswap16 sport_he) (bswap16 dport_he) (udp + 8)%nat
               paylen 0 in
  let pkt := mk_udp_pkt ip4 udp (udp + 8) paylen in
  (memcpy buf (pkt_iov_base pkt) (take (Z.to_nat paylen) data), pkt).

Definition checksum_udp_pkt (buf : list Z) (pkt : udp_pkt) : list Z :=
  let buf := put16 buf (pkt_ip4 pkt + 10) (ci_ip_checksum (drop (pkt_ip4 pkt) buf)) in
  let io := [take (Z.to_nat (pkt_iov_len pkt)) (drop (pkt_iov_base pkt) buf)] in
  put16 buf (pkt_udp pkt + 6)
    (ci_udp_checksum (drop (pkt_ip4 pkt) buf) (drop (pkt_udp pkt) buf) io).

(** * Frame layout *)

(** Network-order fields. *)
Definition be16 (v : Z) : list Z := [(v / 256) `mod` 256; v `mod` 256].
Definition be32 (v : Z) : list Z := be16 (v / 65536) ++ be16 v.

(** The 28 header bytes of an IPv4/UDP datagram without options: checksum
    fields [ipck] and [udpck] as they lie in memory. *)
Definition ip_hdr_bytes (tot_len protocol laddr raddr : Z) (ipck : list Z) : list Z :=
  [69; 0] ++ be16 tot_len ++ [0; 0; 0; 0; 64; protocol] ++ ipck ++ be32 laddr ++ be32 raddr.

Definition udp_hdr_bytes (sport dport len : Z) (udpck : list Z) : list Z :=
  be16 sport ++ be16 dport ++ be16 len ++ udpck.

Lemma u8_byte b : byte_ok b -> u8 b = b.
Proof. apply u8_small. Qed.

Lemma memcpy_app buf i src :
  bytes_ok src -> (i + length src <= length buf)%nat ->
  memcpy buf i src = take i buf ++ src ++ drop (i + length src) buf.
Proof.
  revert buf i. induction src as [|b src IH]; intros buf i Hok Hlen; cbn [memcpy length app].
  - by rewrite Nat.add_0_r, take_drop.
  - apply Forall_cons_1 in Hok as [Hb Hok]. cbn [length] in Hlen.
    rewrite IH by (try done; unfold put8; rewrite length_insert; lia).
    unfold put8. rewrite u8_byte by done.
    rewrite drop_insert_lt by lia.
    rewrite (take_S_r _ i b) by (rewrite list_lookup_insert_eq; [done|lia]).
    rewrite take_insert_ge by lia. rewrite <- app_assoc. cbn [app].
    by rewrite Nat.add_succ_r.
Qed.

Lemma length_memcpy buf i src : length (memcpy buf i src) = length buf.
Proof.
  revert buf i. induction src as [|b src IH]; intros; cbn [memcpy]; [done|].
  rewrite IH. apply length_insert.
Qed.

(** The bytes a 16 bit store of a byte-swapped value leaves. *)
Lemma bswap16_lo v : u8 (bswap16 v) = (v / 256) `mod` 256.
Proof. rewrite bswap16_eq. word_lia. Qed.

Lemma bswap16_hi v : u8 (Z.shiftr (bswap16 v) 8) = v `mod` 256.
Proof. rewrite Z.shiftr_div_pow2, bswap16_eq by lia. change (2 ^ 8) with 256. word_lia. Qed.

Lemma bswap32_lo v : u8 (bswap32 v) = (v / 65536 / 256) `mod` 256.
Proof.
  rewrite bswap32_eq, !bswap16_eq. word_lia.
Qed.
Lemma bswap32_b1 v : u8 (Z.shiftr (bswap32 v) 8) = (v / 65536) `mod` 256.
Proof.
  rewrite Z.shiftr_div_pow2, bswap32_eq, !bswap16_eq by lia. change (2 ^ 8) with 256. word_lia.
Qed.
Lemma bswap32_b2 v : u8 (Z.shiftr (bswap32 v) 16) = (v / 256) `mod` 256.
Proof.
  rewrite Z.shiftr_div_pow2, bswap32_eq, !bswap16_eq by lia. change (2 ^ 16) with 65536. word_lia.
Qed.
Lemma bswap32_b3 v : u8 (Z.shiftr (Z.shiftr (bswap32 v) 16) 8) = v `mod` 256.
Proof.
  rewrite !Z.shiftr_div_pow2, bswap32_eq, !bswap16_eq by lia.
  change (2 ^ 16) with 65536. change (2 ^ 8) with 256. word_lia.
Qed.

(** ** Ethernet header *)

(** The header is built from 8 bytes of each MAC argument, the destination
    copied last: the first two bytes of the source address field hold the two
    bytes that follow the destination MAC in the caller's memory. *)
Lemma init_eth_hdr_bytes pkt_buf shost dhost :
  bytes_ok shost -> bytes_ok dhost -> (8 <= length shost)%nat -> (8 <= length dhost)%nat ->
  (14 <= length pkt_buf)%nat ->
  init_eth_hdr pkt_buf shost dhost =
    (take 8 dhost ++ take 4 (drop 2 shost) ++ be16 ETH_P_IP ++ drop 14 pkt_buf, 14%nat).
Proof.
  intros Hs Hd Ls Ld Lb. explode shost 8%nat. explode dhost 8%nat. explode pkt_buf 14%nat.
  unfold init_eth_hdr. f_equal. cbn -[u8 bswap16]. rewrite !take_0, drop_0. cbn -[u8 bswap16].
  repeat match goal with H : Forall byte_ok (_ :: _) |- _ =>
    apply Forall_cons_1 in H as [? H] end.
  rewrite !u8_byte by done. reflexivity.
Qed.

(** ** UDP datagrams *)

Lemma init_udp_pkt_headers pkt_buf paylen laddr raddr sport dport :
  (42 <= length pkt_buf)%nat -> 0 <= paylen <= 65507 ->
  ci_udp_hdr_init (ci_ip4_hdr_init pkt_buf 14 0 (28 + paylen) 0 IPPROTO_UDP (bswap32 laddr)
      (bswap32 raddr) 0) 34 14 (bswap16 sport) (bswap16 dport) 42 paylen 0 =
    take 14 pkt_buf ++
    ip_hdr_bytes (28 + paylen) IPPROTO_UDP laddr raddr [0; 0] ++
    udp_hdr_bytes sport dport (8 + paylen) [0; 0] ++ drop 42 pkt_buf.
Proof.
  intros Lb Hp. explode pkt_buf 42%nat.
  unfold ci_udp_hdr_init, ci_ip4_hdr_init, put32, put16, put8, get16, get8.
  cbn [nz Z.eqb negb]. cbn -[u8 bswap16 bswap32 Z.shiftr Z.mul Z.add Z.modulo Z.div].
  rewrite !bswap32_lo, !bswap32_b1, !bswap32_b2, !bswap32_b3, !bswap16_lo, !bswap16_hi.
  assert (E : u8 (paylen + 8) + 256 * u8 (Z.shiftr (paylen + 8) 8) = 8 + paylen).
  { rewrite Z.shiftr_div_pow2 by lia. change (2 ^ 8) with 256. word_lia. }
  rewrite !E. reflexivity.
Qed.

Lemma be16_ok v : bytes_ok (be16 v).
Proof. repeat (apply Forall_cons; [apply Z.mod_pos_bound; lia|]). apply Forall_nil_2. Qed.

Lemma be32_ok v : bytes_ok (be32 v).
Proof. apply Forall_app_2; apply be16_ok. Qed.

Lemma ip_hdr_bytes_ok tot laddr raddr ck :
  bytes_ok ck -> bytes_ok (ip_hdr_bytes tot IPPROTO_UDP laddr raddr ck).
Proof.
  intros. unfold ip_hdr_bytes, IPPROTO_UDP.
  repeat (first [apply Forall_app_2 | apply be16_ok | apply be32_ok | done
                |apply Forall_cons; [unfold byte_ok; lia|] | apply Forall_nil_2]).
Qed.

Lemma udp_hdr_bytes_ok sport dport len ck :
  bytes_ok ck -> bytes_ok (udp_hdr_bytes sport dport len ck).
Proof.
  intros. unfold udp_hdr_bytes. repeat (apply Forall_app_2); by try apply be16_ok.
Qed.

Lemma init_udp_pkt_bytes pkt_buf data paylen laddr raddr sport dport :
  bytes_ok data -> 0 <= paylen <= 65507 -> paylen <= Z.of_nat (length data) ->
  (42 + Z.to_nat paylen <= length pkt_buf)%nat ->
  init_udp_pkt pkt_buf data paylen laddr raddr sport dport =
    (take 14 pkt_buf ++
     ip_hdr_bytes (28 + paylen) IPPROTO_UDP laddr raddr [0; 0] ++
     udp_hdr_bytes sport dport (8 + paylen) [0; 0] ++
     take (Z.to_nat paylen) data ++ drop (42 + Z.to_nat paylen) pkt_buf,
     mk_udp_pkt 14 34 42 paylen).
Proof.
  intros Hd Hp Hl Hb. unfold init_udp_pkt. f_equal. cbn [pkt_iov_base Nat.add].
  change (20 + 8 + paylen) with (28 + paylen).
  rewrite init_udp_pkt_headers by lia.
  assert (Hpre : length (take 14 pkt_buf ++ ip_hdr_bytes (28 + paylen) IPPROTO_UDP laddr raddr
     [0; 0] ++ udp_hdr_bytes sport dport (8 + paylen) [0; 0]) = 42%nat).
  { rewrite !length_app, length_take, Nat.min_l by lia. done. }
  match goal with |- memcpy (?a ++ ?b ++ ?c ++ ?d) _ _ = _ =>
    replace (a ++ b ++ c ++ d) with ((a ++ b ++ c) ++ d) by (by rewrite <- !app_assoc) end.
  rewrite memcpy_app.
  - rewrite length_take, Nat.min_l by lia.
    rewrite take_app_length' by done.
    rewrite drop_app_ge by lia. rewrite Hpre.
    replace (42 + Z.to_nat paylen - 42)%nat with (Z.to_nat paylen) by lia.
    rewrite drop_drop. by rewrite <- !app_assoc.
  - by apply Forall_take.
  - rewrite length_app, Hpre, length_take, length_drop. lia.
Qed.

(** A 16 bit store over two bytes of a buffer. *)
Lemma put16_app a x y b v :
  0 <= v < 65536 -> put16 (a ++ x :: y :: b) (length a) v = a ++ bytes16 v ++ b.
Proof.
  intros. unfold put16, put8.
  rewrite insert_app_r_alt by lia. rewrite Nat.sub_diag.
  rewrite insert_app_r_alt by lia. replace (S (length a) - length a)%nat with 1%nat by lia.
  cbn. rewrite Z.shiftr_div_pow2 by lia. change (2 ^ 8) with 256.
  unfold bytes16. rewrite (u8_small (v / 256)) by word_lia. done.
Qed.

Lemma ci_ip_checksum_range ip : 0 <= ci_ip_checksum ip < 65536.
Proof.
  unfold ci_ip_checksum, ip_hdr_csum32_finish, ci_ip_hdr_csum_finish. cbv zeta.
  rewrite land_ffff. apply Z.mod_pos_bound. lia.
Qed.

Lemma ef_udp_checksum_range ip udp iov : 0 <= ef_udp_checksum ip udp iov < 65536.
Proof.
  unfold ef_udp_checksum, ip_proto_csum64_finish. cbv zeta. rewrite !land_ffff.
  match goal with |- context [nz ?x] => destruct (nz x) end; [apply Z.mod_pos_bound|]; lia.
Qed.

(** The bytes a UDP receiver sums for a datagram: pseudo header, header and
    payload. *)
Definition udp_csum_bytes (sport dport laddr raddr : Z) (udpck pay : list Z) : list Z :=
  let len := 8 + Z.of_nat (length pay) in
  be32 laddr ++ be32 raddr ++ [0; IPPROTO_UDP] ++ be16 len ++
  udp_hdr_bytes sport dport len udpck ++ pay.

(** The two checksum fields are stored in place. *)
Lemma store_ip_check eth tot laddr raddr ck l :
  length eth = 14%nat -> 0 <= ck < 65536 ->
  put16 (eth ++ ip_hdr_bytes tot IPPROTO_UDP laddr raddr [0; 0] ++ l) (14 + 10) ck =
  eth ++ ip_hdr_bytes tot IPPROTO_UDP laddr raddr (bytes16 ck) ++ l.
Proof.
  intros Le R.
  pose proof (put16_app (eth ++ [69; 0] ++ be16 tot ++ [0; 0; 0; 0; 64; IPPROTO_UDP])
    0 0 (be32 laddr ++ be32 raddr ++ l) ck R) as P.
  rewrite length_app, Le in P. unfold ip_hdr_bytes. rewrite <- !app_assoc in *. exact P.
Qed.

Lemma store_udp_check pre sport dport len ck l :
  length pre = 34%nat -> 0 <= ck < 65536 ->
  put16 (pre ++ udp_hdr_bytes sport dport len [0; 0] ++ l) (34 + 6) ck =
  pre ++ udp_hdr_bytes sport dport len (bytes16 ck) ++ l.
Proof.
  intros Le R.
  pose proof (put16_app (pre ++ be16 sport ++ be16 dport ++ be16 len) 0 0 l ck R) as P.
  rewrite length_app, Le in P. unfold udp_hdr_bytes. rewrite <- !app_assoc in *. exact P.
Qed.

(** Both checksums over a frame laid out as [init_udp_pkt] leaves it. *)
Lemma checksum_udp_pkt_bytes eth sport dport laddr raddr pay rest :
  let len := Z.of_nat (length pay) in
  length eth = 14%nat -> bytes_ok pay -> bytes_ok rest -> len <= 65507 ->
  exists ipck udpck,
    checksum_udp_pkt
      (eth ++ ip_hdr_bytes (28 + len) IPPROTO_UDP laddr raddr [0; 0] ++
       udp_hdr_bytes sport dport (8 + len) [0; 0] ++ pay ++ rest) (mk_udp_pkt 14 34 42 len) =
    eth ++ ip_hdr_bytes (28 + len) IPPROTO_UDP laddr raddr ipck ++
    udp_hdr_bytes sport dport (8 + len) udpck ++ pay ++ rest /\
    csum_verifies (ip_hdr_bytes (28 + len) IPPROTO_UDP laddr raddr ipck) /\
    csum_verifies (udp_csum_bytes sport dport laddr raddr udpck pay) /\
    length ipck = 2%nat /\ length udpck = 2%nat.
Proof.
  intros len Le Hp Hr Hlen. unfold checksum_udp_pkt. cbn [pkt_ip4 pkt_udp pkt_iov_base pkt_iov_len].
  set (ip0 := ip_hdr_bytes (28 + len) IPPROTO_UDP laddr raddr [0; 0] ++
              udp_hdr_bytes sport dport (8 + len) [0; 0] ++ pay ++ rest).
  assert (D14 : forall l, drop 14 (eth ++ l) = l) by (intros; by rewrite drop_app_length').
  rewrite D14.
  assert (Hok0 : bytes_ok ip0).
  { apply Forall_app_2; [apply ip_hdr_bytes_ok; by repeat constructor|].
    apply Forall_app_2; [apply udp_hdr_bytes_ok; by repeat constructor|].
    by apply Forall_app_2. }
  pose proof (ip_verifies ip0 Hok0) as V1.
  assert (L0 : (28 <= length ip0)%nat) by (unfold ip0; rewrite !length_app; cbn; lia).
  change (iph_ihl ip0) with 5 in V1. specialize (V1 ltac:(lia) ltac:(lia)).
  pose proof (ci_ip_checksum_range ip0) as R1. set (ck1 := ci_ip_checksum ip0) in *.
  assert (E1 : put16 (eth ++ ip0) (14 + 10) ck1 =
    eth ++ ip_hdr_bytes (28 + len) IPPROTO_UDP laddr raddr (bytes16 ck1) ++
    udp_hdr_bytes sport dport (8 + len) [0; 0] ++ pay ++ rest).
  { by apply store_ip_check. }
  rewrite E1, D14.
  set (ip1 := ip_hdr_bytes (28 + len) IPPROTO_UDP laddr raddr (bytes16 ck1) ++ _).
  set (udp1 := udp_hdr_bytes sport dport (8 + len) [0; 0] ++ pay ++ rest) in *.
  set (eth1 := eth ++ ip_hdr_bytes (28 + len) IPPROTO_UDP laddr raddr (bytes16 ck1)).
  assert (Le1 : length eth1 = 34%nat) by (unfold eth1; rewrite length_app, Le; done).
  unfold ip1. rewrite app_assoc. fold eth1.
  assert (D34 : drop 34 (eth1 ++ udp1) = udp1) by (by rewrite drop_app_length').
  assert (D42 : take (Z.to_nat len) (drop 42 (eth1 ++ udp1)) = pay).
  { unfold udp1. rewrite (app_assoc eth1), drop_app_length'.
    - by rewrite take_app_length' by lia.
    - rewrite length_app, Le1. done. }
  fold ip1. rewrite D34, D42.
  assert (Hokb : bytes_ok (bytes16 ck1)) by (by apply bytes16_ok).
  assert (Hok1 : bytes_ok udp1).
  { apply Forall_app_2; [apply udp_hdr_bytes_ok; by repeat constructor|].
    by apply Forall_app_2. }
  assert (Hoki : bytes_ok ip1).
  { apply Forall_app_2; [|done]. by apply ip_hdr_bytes_ok. }
  pose proof (udp_verifies ip1 udp1 [pay] Hoki Hok1) as V2.
  cbn [concat] in V2. rewrite app_nil_r in V2.
  specialize (V2 Hp ltac:(unfold ip1; rewrite length_app; cbn; lia)
    ltac:(unfold udp1; rewrite length_app; cbn; lia) ltac:(lia)).
  pose proof (ef_udp_checksum_range ip1 udp1 [pay]) as R2. unfold ci_udp_checksum.
  set (ck2 := ef_udp_checksum ip1 udp1 [pay]) in *.
  exists (bytes16 ck1), (bytes16 ck2). split; [|split; [|split; [|done]]].
  - unfold udp1. rewrite store_udp_check by done. unfold eth1. by rewrite <- !app_assoc.
  - exact V1.
  - exact V2.
Qed.

(** * Properties *)

(** C25: building a datagram and checksumming it: for any payload that fits an
    IPv4 datagram and any buffer it fits in, [init_udp_pkt] then
    [checksum_udp_pkt] leave exactly the IPv4 and UDP headers of the given
    addresses, ports and length (network order) followed by the payload, touch
    no other byte of the buffer, and both checksums verify at a receiver. *)
Theorem udp_pkt_end_to_end pkt_buf data paylen laddr raddr sport dport :
  bytes_ok pkt_buf -> bytes_ok data -> 0 <= paylen <= 65507 ->
  paylen <= Z.of_nat (length data) -> (42 + Z.to_nat paylen <= length pkt_buf)%nat ->
  let '(buf, pkt) := init_udp_pkt pkt_buf data paylen laddr raddr sport dport in
  let pay := take (Z.to_nat paylen) data in
  exists ipck udpck,
    checksum_udp_pkt buf pkt =
      take 14 pkt_buf ++ ip_hdr_bytes (28 + paylen) IPPROTO_UDP laddr raddr ipck ++
      udp_hdr_bytes sport dport (8 + paylen) udpck ++ pay ++
      drop (42 + Z.to_nat paylen) pkt_buf /\
    csum_verifies (ip_hdr_bytes (28 + paylen) IPPROTO_UDP laddr raddr ipck) /\
    csum_verifies (udp_csum_bytes sport dport laddr raddr udpck pay) /\
    length ipck = 2%nat /\ length udpck = 2%nat.
Proof.
  intros Hb Hd Hp Hl Hfit. rewrite init_udp_pkt_bytes by done. cbv zeta.
  assert (El : paylen = Z.of_nat (length (take (Z.to_nat paylen) data))).
  { rewrite length_take. lia. }
  pose proof (checksum_udp_pkt_bytes (take 14 pkt_buf) sport dport laddr raddr
    (take (Z.to_nat paylen) data) (drop (42 + Z.to_nat paylen) pkt_buf)) as H.
  cbv zeta in H. rewrite <- El in H. apply H.
  - rewrite length_take. lia.
  - by apply Forall_take.
  - by apply Forall_drop.
  - lia.
Qed.

(** C40: [init_eth_hdr] copies [sizeof] of a pointer, 8 bytes, from each MAC
    argument, destination last.  The frame it leaves has the destination MAC
    and the source MAC in place only from the third byte of the source on:
    the first two bytes of the source address are the two bytes that follow the
    destination MAC in the caller's memory, whatever the source MAC is. *)
Theorem init_eth_hdr_clobbers_source pkt_buf shost dhost :
  bytes_ok shost -> bytes_ok dhost -> (8 <= length shost)%nat -> (8 <= length dhost)%nat ->
  (14 <= length pkt_buf)%nat ->
  let '(frame, next) := init_eth_hdr pkt_buf shost dhost in
  take 6 frame = take 6 dhost /\
  take 2 (drop 6 frame) = take 2 (drop 6 dhost) /\
  take 4 (drop 8 frame) = take 4 (drop 2 shost) /\
  drop 12 frame = be16 ETH_P_IP ++ drop 14 pkt_buf /\ next = 14%nat.
Proof.
  intros Hs Hd Ls Ld Lb. rewrite init_eth_hdr_bytes by done.
  explode shost 8%nat. explode dhost 8%nat. done.
Qed.

(** ** Witnesses *)

Definition ex_buf : list Z := replicate 64 170.
Definition ex_data : list Z := [104; 101; 108; 108; 111].

Lemma udp_pkt_end_to_end_witness :
  let '(buf, pkt) := init_udp_pkt ex_buf ex_data 5 3232235777 3232235778 8080 8081 in
  exists ipck udpck,
    checksum_udp_pkt buf pkt =
      take 14 ex_buf ++ ip_hdr_bytes 33 IPPROTO_UDP 3232235777 3232235778 ipck ++
      udp_hdr_bytes 8080 8081 13 udpck ++ ex_data ++ drop 47 ex_buf /\
    csum_verifies (ip_hdr_bytes 33 IPPROTO_UDP 3232235777 3232235778 ipck) /\
    csum_verifies (udp_csum_bytes 8080 8081 3232235777 3232235778 udpck ex_data) /\
    length ipck = 2%nat /\ length udpck = 2%nat.
Proof.
  apply (udp_pkt_end_to_end ex_buf ex_data 5); [| |lia|vm_compute; congruence|vm_compute; lia].
  - by apply Forall_replicate.
  - by repeat (apply Forall_cons; [unfold byte_ok; lia|]).
Defined.

Lemma init_eth_hdr_clobbers_source_witness :
  let '(frame, _) := init_eth_hdr ex_buf [1; 2; 3; 4; 5; 6; 7; 8] [11; 12; 13; 14; 15; 16; 17; 18] in
  take 2 (drop 6 frame) = [17; 18].
Proof.
  apply (init_eth_hdr_clobbers_source ex_buf [1; 2; 3; 4; 5; 6; 7; 8]
    [11; 12; 13; 14; 15; 16; 17; 18]); [| |vm_compute; lia..];
    by repeat (apply Forall_cons; [unfold byte_ok; lia|]).
Defined.
