(* ===== verification/Bitfield.v ===== *)
(** Hardware bit fields: the macros of include/ci/tools/bitfield.h on a
    64-bit little-endian host, and the field positions of the EF10 hardware
    headers the data path uses.

    A field is its lowest bit number and its width.  [CI_POPULATE_QWORD]
    shifts each value to its position and joins them with a bitwise or; it
    does not mask the values, so the fields stay apart only when the values
    fit (theorem [populate_extract]). *)

From stdpp Require Import base list numbers.
From S2P Require Import Prelude.

Open Scope Z_scope.

Record field := Field { LBN : Z; WIDTH : Z }.

Definition HIGH_BIT (f : field) : Z := LBN f + WIDTH f - 1.

(** [CI_BITFIELD_MASK64] *)
Definition CI_BITFIELD_MASK64 (width : Z) : Z :=
  if width =? 64 then u64 (Z.lnot 0) else u64 (u64 (Z.shiftl 1 width) - 1).

(** [CI_BITFIELD_EXTRACT_NATIVE] of a 64-bit element. *)
Definition CI_BITFIELD_EXTRACT_NATIVE (element min max low high : Z) : Z :=
  if (max <? low) || (high <? min) then 0
  else if min <? low then Z.shiftr element (low - min)
  else u64 (Z.shiftl element (min - low)).

(** [CI_QWORD_FIELD64] *)
Definition CI_QWORD_FIELD (qword : Z) (f : field) : Z :=
  Z.land (CI_BITFIELD_EXTRACT_NATIVE qword 0 63 (LBN f) (HIGH_BIT f))
         (CI_BITFIELD_MASK64 (HIGH_BIT f + 1 - LBN f)).

(** [QWORD_GET_U] and [QWORD_TEST_BIT] *)
Definition QWORD_GET_U (f : field) (val : Z) : Z := u32 (CI_QWORD_FIELD val f).
Definition QWORD_TEST_BIT (f : field) (val : Z) : bool := nz (CI_QWORD_FIELD val f).

(** [CI_BITFIELD_INSERT_NATIVE64] *)
Definition CI_BITFIELD_INSERT_NATIVE64 (min max low value : Z) : Z :=
  if (max <? low) || (low <? min) then 0
  else if min <? low then u64 (Z.shiftl (u64 value) (low - min))
  else Z.shiftr (u64 value) (min - low).

(** [CI_POPULATE_QWORD_n]: the or of the fields given; the macro pads the
    list with dummy fields of value 0. *)
Definition CI_POPULATE_QWORD (fields : list (field * Z)) : Z :=
  foldr (fun '(f, v) acc => Z.lor (CI_BITFIELD_INSERT_NATIVE64 0 63 (LBN f) v) acc) 0 fields.

(** [CI_POPULATE_DWORD_n]: the 64-bit construction stored into 32 bits. *)
Definition CI_POPULATE_DWORD (fields : list (field * Z)) : Z :=
  u32 (foldr (fun '(f, v) acc => Z.lor (CI_BITFIELD_INSERT_NATIVE64 0 31 (LBN f) v) acc) 0 fields).

(** * Field positions *)

Definition ESF_DZ_TX_USR_BUF_ID_OFFSET := Field 0 44.
Definition ESF_DZ_TX_USR_BUF_PAGE_SIZE := Field 44 4.
Definition ESF_DZ_TX_USR_BYTE_CNT := Field 48 14.
Definition ESF_DZ_TX_USR_CONT := Field 62 1.
Definition ESF_DZ_TX_KER_CONT := Field 62 1.
Definition ESF_DZ_TX_KER_BYTE_CNT := Field 48 14.
Definition ESF_DZ_TX_KER_BUF_ADDR := Field 0 48.
Definition ESF_DZ_RX_KER_BYTE_CNT := Field 48 14.
Definition ESF_DZ_RX_KER_BUF_ADDR := Field 0 48.
Definition ESF_DZ_RX_USR_BUF_ID_OFFSET := Field 0 44.
Definition ESF_DZ_RX_USR_BUF_PAGE_SIZE := Field 44 4.
Definition ESF_DZ_RX_USR_BYTE_CNT := Field 48 14.
Definition ESF_DZ_TX_PIO_TYPE := Field 63 1.
Definition ESF_DZ_TX_PIO_OPT := Field 60 3.
Definition ESF_DZ_TX_PIO_BYTE_CNT := Field 32 12.
Definition ESF_DZ_TX_PIO_BUF_ADDR := Field 0 12.
Definition ESF_DZ_TX_DESC_IS_OPT := Field 63 1.
Definition ESF_DZ_TX_OPTION_TYPE := Field 60 3.
Definition ALT_OP_VFIFO_ID := Field 48 5.
Definition ALT_OP_IS_SELECT := Field 59 1.
Definition ESF_FZ_USER_THRESHOLD := Field 16 12.
Definition ESF_FZ_TIME_STAMP_REQ := Field 12 1.
Definition ESF_FZ_FRAME_LENGTH := Field 0 12.

Definition ESF_DZ_EV_CODE := Field 60 4.
Definition ESF_DZ_RX_BYTES := Field 0 14.
Definition ESF_DZ_RX_CONT := Field 14 1.
Definition ESF_DZ_RX_MAC_CLASS := Field 35 1.
Definition ESF_DZ_RX_QLABEL := Field 16 5.
Definition ESF_DZ_RX_DSC_PTR_LBITS := Field 48 4.
Definition ESF_DZ_RX_EV_ROTATE := Field 53 1.
Definition ESF_DZ_RX_ECC_ERR := Field 29 1.
Definition ESF_DZ_RX_ECRC_ERR := Field 24 1.
Definition ESF_DZ_RX_TCPUDP_CKSUM_ERR := Field 26 1.
Definition ESF_DZ_RX_IPCKSUM_ERR := Field 25 1.
Definition ESF_DZ_RX_INNER_TCPUDP_CKSUM_ERR := Field 57 1.
Definition ESF_DZ_RX_INNER_IPCKSUM_ERR := Field 56 1.
Definition ESF_DZ_TX_DESCR_INDX := Field 0 16.
Definition ESF_DZ_TX_SOFT2 := Field 32 16.
Definition ESF_EZ_TX_SOFT1 := Field 24 7.
Definition ESF_DZ_TX_QLABEL := Field 16 5.
Definition ESF_DZ_DRV_SUB_CODE := Field 56 4.
Definition MCDI_EVENT_CODE := Field 44 8.
Definition MCDI_EVENT_PTP_TIME_MAJOR := Field 0 32.
Definition MCDI_EVENT_PTP_TIME_MINOR_26_21 := Field 38 6.
Definition MCDI_EVENT_PTP_TIME_NIC_CLOCK_VALID := Field 36 1.
Definition MCDI_EVENT_PTP_TIME_HOST_NIC_IN_SYNC := Field 37 1.

(** * Extraction and construction *)

(** A field of a 64-bit word. *)
Definition field_ok (f : field) : Prop := 0 <= LBN f /\ 0 < WIDTH f /\ LBN f + WIDTH f <= 64.

Lemma mask64_ones w : 0 < w <= 64 -> CI_BITFIELD_MASK64 w = Z.ones w.
Proof.
  intros. unfold CI_BITFIELD_MASK64. destruct (Z.eqb_spec w 64) as [->|]; [reflexivity|].
  rewrite Z.shiftl_1_l, Z.ones_equiv.
  assert (1 <= 2 ^ w <= 2 ^ 63).
  { split; [pose proof (pow2_pos w); lia|apply Z.pow_le_mono_r; lia]. }
  rewrite (u64_small (2 ^ w)) by lia. rewrite u64_small; lia.
Qed.

(** The bits of an extracted field are bits of the word. *)
Lemma qword_field_testbit q f i :
  field_ok f -> 0 <= q < 2 ^ 64 -> 0 <= i ->
  Z.testbit (CI_QWORD_FIELD q f) i = (i <? WIDTH f) && Z.testbit q (i + LBN f).
Proof.
  intros (Hl & Hw & Hh) Hq Hi. unfold CI_QWORD_FIELD, CI_BITFIELD_EXTRACT_NATIVE, HIGH_BIT.
  replace (LBN f + WIDTH f - 1 + 1 - LBN f) with (WIDTH f) by lia.
  rewrite mask64_ones, Z.land_spec by lia. rewrite Z.testbit_ones by lia.
  rewrite (proj2 (Z.leb_le 0 i)) by done. rewrite andb_true_l, andb_comm. f_equal.
  destruct (Z.ltb_spec 63 (LBN f)); [lia|]. destruct (Z.ltb_spec (LBN f + WIDTH f - 1) 0); [lia|].
  cbn [orb]. destruct (Z.ltb_spec 0 (LBN f)).
  - rewrite Z.shiftr_spec by lia. f_equal. lia.
  - replace (LBN f) with 0 by lia. rewrite Z.sub_0_r, Z.shiftl_0_r, u64_small, Z.add_0_r by done.
    done.
Qed.

Lemma qword_field_range q f : field_ok f -> 0 <= CI_QWORD_FIELD q f < 2 ^ WIDTH f.
Proof.
  intros (Hl & Hw & Hh). unfold CI_QWORD_FIELD, HIGH_BIT.
  replace (LBN f + WIDTH f - 1 + 1 - LBN f) with (WIDTH f) by lia.
  rewrite mask64_ones, Z.land_ones by lia. apply Z.mod_pos_bound. apply pow2_pos; lia.
Qed.

Lemma insert_testbit f v i :
  field_ok f -> 0 <= v < 2 ^ WIDTH f -> 0 <= i ->
  Z.testbit (CI_BITFIELD_INSERT_NATIVE64 0 63 (LBN f) v) i =
  (LBN f <=? i) && Z.testbit v (i - LBN f).
Proof.
  intros (Hl & Hw & Hh) Hv Hi. unfold CI_BITFIELD_INSERT_NATIVE64.
  assert (2 ^ WIDTH f <= 2 ^ (64 - LBN f)) by (apply Z.pow_le_mono_r; lia).
  assert (2 ^ (64 - LBN f) <= 2 ^ 64) by (apply Z.pow_le_mono_r; lia).
  rewrite (u64_small v) by lia.
  destruct (Z.ltb_spec 63 (LBN f)); [lia|]. destruct (Z.ltb_spec (LBN f) 0); [lia|].
  cbn [orb]. rewrite Z.sub_0_r.
  destruct (Z.ltb_spec 0 (LBN f)).
  - rewrite u64_small.
    + rewrite Z.shiftl_spec by lia. destruct (Z.leb_spec (LBN f) i); [done|].
      by rewrite Z.testbit_neg_r by lia.
    + rewrite Z.shiftl_mul_pow2 by lia. pose proof (pow2_pos (LBN f) Hl).
      assert (E : 2 ^ (64 - LBN f) * 2 ^ LBN f = 18446744073709551616).
      { rewrite <- Z.pow_add_r by lia. by replace (64 - LBN f + LBN f) with 64 by lia. }
      rewrite <- E. split; [lia|]. apply Z.mul_lt_mono_pos_r; lia.
  - replace (LBN f) with 0 by lia. change (0 - 0) with 0. rewrite Z.shiftr_0_r, Z.sub_0_r.
    rewrite (proj2 (Z.leb_le 0 i)) by lia. done.
Qed.

(** The value given to a field fits it. *)
Definition fits (fv : field * Z) : Prop := field_ok (fst fv) /\ 0 <= snd fv < 2 ^ WIDTH (fst fv).

(** Two fields share no bit. *)
Definition disjoint_fields (a b : field * Z) : Prop :=
  LBN (fst a) + WIDTH (fst a) <= LBN (fst b) \/ LBN (fst b) + WIDTH (fst b) <= LBN (fst a).

Lemma testbit_above v w i : 0 <= v < 2 ^ w -> 0 <= w <= i -> Z.testbit v i = false.
Proof.
  intros Hv Hi. rewrite <- (Z.mod_small v (2 ^ w)) by done.
  apply Z.mod_pow2_bits_high. lia.
Qed.

Lemma populate_cons f v fs :
  CI_POPULATE_QWORD ((f, v) :: fs) =
  Z.lor (CI_BITFIELD_INSERT_NATIVE64 0 63 (LBN f) v) (CI_POPULATE_QWORD fs).
Proof. reflexivity. Qed.

Lemma populate_testbit fs i :
  Forall fits fs -> 0 <= i ->
  Z.testbit (CI_POPULATE_QWORD fs) i =
  existsb (fun '(f, v) => (LBN f <=? i) && Z.testbit v (i - LBN f)) fs.
Proof.
  intros Hf Hi. induction fs as [|[f v] fs IH].
  - apply Z.bits_0.
  - apply Forall_cons_1 in Hf as [[Hok Hv] Hf]. rewrite populate_cons, Z.lor_spec.
    cbn [existsb]. by rewrite insert_testbit, IH.
Qed.

Lemma populate_range fs : Forall fits fs -> 0 <= CI_POPULATE_QWORD fs < 2 ^ 64.
Proof.
  intros Hf. assert (Hn : 0 <= CI_POPULATE_QWORD fs).
  { induction fs as [|[f v] fs IH]; [done|].
    apply Forall_cons_1 in Hf as [_ Hf]. rewrite populate_cons. apply Z.lor_nonneg. split; [|by apply IH].
    unfold CI_BITFIELD_INSERT_NATIVE64. repeat case_match; auto with word; try lia.
    - apply u64_range.
    - apply Z.shiftr_nonneg, u64_range. }
  split; [done|].
  destruct (Z.eq_dec (CI_POPULATE_QWORD fs) 0) as [->|]; [lia|].
  apply Z.log2_lt_pow2; [lia|]. apply Z.nle_gt. intros Hl.
  pose proof (Z.bit_log2 (CI_POPULATE_QWORD fs) ltac:(lia)) as Hb.
  set (i := Z.log2 _) in *. rewrite populate_testbit in Hb by (done || lia).
  apply existsb_exists in Hb as ([f v] & Hin & Hb).
  pose proof (proj1 (Forall_forall _ _) Hf _ Hin) as [(?&?&?) Hv]; cbn [fst snd] in *.
  apply andb_true_iff in Hb as [_ Hb].
  rewrite (testbit_above v (WIDTH f)) in Hb by lia. done.
Qed.

(** Every field of a constructed word reads back the value it was given. *)
Lemma populate_field fs f v :
  Forall fits fs -> ForallOrdPairs disjoint_fields fs -> In (f, v) fs ->
  CI_QWORD_FIELD (CI_POPULATE_QWORD fs) f = v.
Proof.
  intros Hf Hd Hin. pose proof (populate_range fs Hf) as Hr.
  assert (Hfv : fits (f, v)).
  { by apply (proj1 (Forall_forall _ _) Hf). }
  destruct Hfv as [Hok Hv]; cbn [fst snd] in *.
  apply Z.bits_inj'. intros i Hi. rewrite qword_field_testbit by done.
  destruct (Z.ltb_spec i (WIDTH f)); cbn [andb];
    [|symmetry; apply (testbit_above v (WIDTH f)); destruct Hok; lia].
  rewrite populate_testbit by (done || destruct Hok; lia).
  apply eq_true_iff_eq. rewrite existsb_exists. split.
  - intros ([f' v'] & Hin' & Hb). apply andb_true_iff in Hb as [Hle Hb].
    apply Z.leb_le in Hle.
    pose proof (proj1 (Forall_forall _ _) Hf (f', v')) as Hfv'.
    destruct Hfv' as [(?&?&?) Hv']; [done|]. cbn [fst snd] in *.
    assert (Hlt : i + LBN f < LBN f' + WIDTH f').
    { apply Z.nle_gt. intros ?. rewrite (testbit_above v' (WIDTH f')) in Hb by lia. done. }
    destruct (ForallOrdPairs_In Hd _ _ Hin Hin') as [E|[E|E]].
    + injection E as <- <-. by replace (i + LBN f - LBN f) with i in Hb by lia.
    + unfold disjoint_fields in E; cbn [fst snd] in E. lia.
    + unfold disjoint_fields in E; cbn [fst snd] in E. lia.
  - intros Hb. exists (f, v). split; [done|]. rewrite (proj2 (Z.leb_le _ _)) by lia.
    replace (i + LBN f - LBN f) with i by lia. done.
Qed.

(** a descriptor or event word built with [CI_POPULATE_QWORD] reads back,
    through [CI_QWORD_FIELD], the value given for each of its fields, when the
    fields are disjoint and each value fits its width. *)
Theorem populate_extract fs f v :
  Forall fits fs -> ForallOrdPairs disjoint_fields fs -> In (f, v) fs ->
  CI_QWORD_FIELD (CI_POPULATE_QWORD fs) f = v.
Proof. apply populate_field. Qed.

Lemma populate_extract_witness :
  CI_QWORD_FIELD (CI_POPULATE_QWORD
    [(ESF_DZ_TX_USR_BUF_ID_OFFSET, 4096); (ESF_DZ_TX_USR_BUF_PAGE_SIZE, 9);
     (ESF_DZ_TX_USR_BYTE_CNT, 1500); (ESF_DZ_TX_USR_CONT, 1)]) ESF_DZ_TX_USR_BYTE_CNT = 1500.
Proof.
  apply (populate_extract
    [(ESF_DZ_TX_USR_BUF_ID_OFFSET, 4096); (ESF_DZ_TX_USR_BUF_PAGE_SIZE, 9);
     (ESF_DZ_TX_USR_BYTE_CNT, 1500); (ESF_DZ_TX_USR_CONT, 1)]).
  - repeat (apply Forall_cons; [split; [split|]; cbn; lia|]). apply Forall_nil_2.
  - repeat (apply FOP_cons; [repeat (apply List.Forall_cons;
      [unfold disjoint_fields; cbn; lia|]); apply List.Forall_nil|]). apply FOP_nil.
  - right. right. left. reflexivity.
Defined.
