(* ===== verification/PioCopy.v ===== *)
(** Copies into the write-combined apertures of the NIC:
    lib/ciul/memcpy_to_io.h (the x86 half: 8-byte stores, 64-byte write
    buffers).

    A source [struct iovec] is its address, the memory that starts there (the
    data and whatever follows it, since the code may read past the end of the
    data) and its length.  The destination is the sequence of bytes stored, in
    the order of the 64-bit stores.  [__memcpy_iov_to_pio] keeps the length of an
    iovec in an [int]; the loop that pads to the end of a write buffer has fuel,
    and a result [None] is a loop that never ends. *)

From stdpp Require Import base list numbers.
From S2P Require Import Prelude.

Open Scope nat_scope.

Record src_iov := mk_iov {
  si_addr : Z;
  si_mem : list Z;
  si_len : nat
}.

Definition si_data (v : src_iov) : list Z := take (si_len v) (si_mem v).

Definition MEMCPY_TO_PIO_ALIGN := 8.
Definition EF_VI_WRITE_BUFFER_SIZE := 64.

Definition WB_ALIGNED (p : Z) : bool :=
  (Z.land p (Z.of_nat EF_VI_WRITE_BUFFER_SIZE - 1) =? 0)%Z.

(** [while( ! WB_ALIGNED(dst) ) *dst++ = 0], where [out] holds the bytes stored
    so far and [dst] is the address of the first of them. *)
Fixpoint wb_pad_loop (fuel : nat) (dst : Z) (out : list Z) : option (list Z) :=
  match fuel with
  | O => None
  | S fuel =>
    if WB_ALIGNED (dst + Z.of_nat (length out)) then Some out
    else wb_pad_loop fuel dst (out ++ replicate 8 0%Z)
  end.

(** A write buffer holds eight words, so the loop looks at most at eight
    addresses ([wb_pad_loop_fuel]). *)
Definition wb_pad (dst : Z) (out : list Z) : option (list Z) := wb_pad_loop 8 dst out.

(** [memcpy(w + at, src, |src|)]. *)
Definition splice (w : list Z) (at_ : nat) (src : list Z) : list Z :=
  take at_ w ++ src ++ drop (at_ + length src) w.

(** * [__memcpy_iov_to_pio] *)

Record pio_state := mk_pio_state {
  po_out : list Z;  (* bytes stored so far *)
  po_in_hand : list Z;  (* the union in_hand *)
  po_count : nat;  (* in_hand_count *)
  po_aligned : bool  (* aligned *)
}.

(** From "Emit as many aligned writes as we can" to the end of the body, at
    [data] with [len] bytes left, an [int]: [words] is negative when [len] is, and
    [while( data < data_end )] then copies nothing. *)
Definition pio_body_tail (overshoot_allowed : bool) (st : pio_state) (data : list Z) (len : Z)
    : pio_state :=
  let words := Z.shiftr (s32 (len + (if overshoot_allowed then 7 else 0))) 3 in
  let len := s32 (len - words * 8) in
  let out := po_out st ++ take (Z.to_nat words * 8) data in
  let data := drop (Z.to_nat words * 8) data in
  if negb (po_aligned st) && (0 <? len)%Z then
    mk_pio_state out (splice (po_in_hand st) 0 (take (Z.to_nat len) data)) (Z.to_nat len) false
  else mk_pio_state out (po_in_hand st) (po_count st) false.

(** One iteration of the loop over the iovecs; [last] is [i == iovcnt-1].
    [CI_MIN(needed_bytes, len)] compares as unsigned. *)
Definition pio_body (last : bool) (st : pio_state) (v : src_iov) : pio_state :=
  let len := s32 (Z.of_nat (si_len v)) in
  let aligned := po_aligned st in
  let src_aligned := aligned || (Z.land (si_addr v) 7 =? 0)%Z in
  let overshoot_allowed := src_aligned && last in
  if negb aligned && (0 <? po_count st) then
    let needed_bytes := MEMCPY_TO_PIO_ALIGN - po_count st in
    let avail_bytes := Z.to_nat (Z.min (Z.of_nat needed_bytes) (u32 len)) in
    let in_hand := splice (po_in_hand st) (po_count st) (take avail_bytes (si_mem v)) in
    let count := po_count st + avail_bytes in
    let len := s32 (len - Z.of_nat avail_bytes) in
    if count <? MEMCPY_TO_PIO_ALIGN then mk_pio_state (po_out st) in_hand count aligned
    else
      pio_body_tail overshoot_allowed (mk_pio_state (po_out st ++ in_hand) in_hand 0 aligned)
        (drop avail_bytes (si_mem v)) len
  else pio_body_tail overshoot_allowed st (si_mem v) len.

Fixpoint pio_loop (st : pio_state) (iov : list src_iov) : pio_state :=
  match iov with
  | [] => st
  | v :: iov' => pio_loop (pio_body (match iov' with [] => true | _ => false end) st v) iov'
  end.

(** The stores before the padding. *)
Definition pio_stores (iov : list src_iov) (aligned : bool) : list Z :=
  let st := pio_loop (mk_pio_state [] (replicate 8 0%Z) 0 aligned) iov in
  if negb (po_aligned st) && (0 <? po_count st) then po_out st ++ po_in_hand st
  else po_out st.

Definition __memcpy_iov_to_pio (dst : Z) (iov : list src_iov) (aligned end_pad : bool)
    : option (list Z) :=
  let out := pio_stores iov aligned in
  if end_pad then wb_pad dst out else Some out.

Definition memcpy_iov_to_pio_aligned (dst : Z) (iov : list src_iov) : option (list Z) :=
  __memcpy_iov_to_pio dst iov true true.

(** [memcpy_to_pio] and [memcpy_to_pio_aligned] *)
Definition __memcpy_to_pio (dst : Z) (src : src_iov) (aligned : bool) : option (list Z) :=
  __memcpy_iov_to_pio dst [src] aligned false.

(** * [memcpy_iov_to_ctpio] *)

Record ctpio_state := mk_ctpio_state {
  ct_out : list Z;  (* bytes stored so far *)
  ct_in_hand : list Z;
  ct_in_hand_len : nat;
  ct_first : bool;
  ct_copy_local : list Z;  (* copy_local up to copy_dst *)
  ct_fallback : list Z;  (* bytes already copied to the fallback buffer *)
  ct_peak : nat  (* the largest copy_dst - copy_local after a store so far *)
}.

Section ctpio.
Context (dst : Z) (copy : bool).

Definition CTPIO_COPY_FLUSH (st : ctpio_state) : ctpio_state :=
  if copy then
    mk_ctpio_state (ct_out st) (ct_in_hand st) (ct_in_hand_len st) (ct_first st) []
      (ct_fallback st ++ ct_copy_local st) (ct_peak st)
  else st.

(** [if( copy ) { *copy_dst = word; copy_dst += sizeof(word); }]: the store
    reaches the end of what [copy_local] then holds. *)
Definition ctpio_copy_store (word : list Z) (st : ctpio_state) : ctpio_state :=
  if copy then
    let copy_local := ct_copy_local st ++ word in
    mk_ctpio_state (ct_out st) (ct_in_hand st) (ct_in_hand_len st) (ct_first st) copy_local
      (ct_fallback st) (Nat.max (ct_peak st) (length copy_local))
  else st.

(** [*dst++ = word] *)
Definition ctpio_dst_store (word : list Z) (st : ctpio_state) : ctpio_state :=
  mk_ctpio_state (ct_out st ++ word) (ct_in_hand st) (ct_in_hand_len st) (ct_first st)
    (ct_copy_local st) (ct_fallback st) (ct_peak st).

(** The barriers and the pacing delay between write buffers do not change
    what is stored. *)
Definition CTPIO_EMIT_WORD (word : list Z) (st : ctpio_state) : ctpio_state :=
  let st :=
    if WB_ALIGNED (dst + Z.of_nat (length (ct_out st))) then CTPIO_COPY_FLUSH st else st in
  ctpio_copy_store word (ctpio_dst_store word st).

Definition ctpio_clear_first (st : ctpio_state) : ctpio_state :=
  mk_ctpio_state (ct_out st) (ct_in_hand st) (ct_in_hand_len st) false (ct_copy_local st)
    (ct_fallback st) (ct_peak st).

Definition CTPIO_EMIT_IN_HAND (st : ctpio_state) : ctpio_state :=
  if ct_first st then
    let st := ctpio_dst_store (ct_in_hand st) st in
    ctpio_clear_first (ctpio_copy_store (drop 4 (ct_in_hand st)) st)
  else CTPIO_EMIT_WORD (ct_in_hand st) st.

(** [while( n-- ) CTPIO_EMIT_WORD( *src_iov_p++)] *)
Fixpoint ctpio_emit_words (n : nat) (src : list Z) (st : ctpio_state) : ctpio_state :=
  match n with
  | O => st
  | S n' => ctpio_emit_words n' (drop 8 src) (CTPIO_EMIT_WORD (take 8 src) st)
  end.

Definition ctpio_set_in_hand (in_hand : list Z) (len : nat) (st : ctpio_state) : ctpio_state :=
  mk_ctpio_state (ct_out st) in_hand len (ct_first st) (ct_copy_local st) (ct_fallback st)
    (ct_peak st).

(** From the label [nothing_in_hand] to [next_iov]. *)
Definition ctpio_nothing_in_hand (src : list Z) (len : nat) (st : ctpio_state) : ctpio_state :=
  let n := len / 8 in
  let st := ctpio_emit_words n src st in
  let src := drop (n * 8) src in
  let len := len - n * 8 in
  if 0 <? len then ctpio_set_in_hand (splice (ct_in_hand st) 0 (take len src)) len st
  else ctpio_set_in_hand (ct_in_hand st) 0 st.

(** The loop body from its top, for one iovec. *)
Definition ctpio_merge (v : src_iov) (st : ctpio_state) : ctpio_state :=
  let in_hand_space := MEMCPY_TO_PIO_ALIGN - ct_in_hand_len st in
  let n := Nat.min in_hand_space (si_len v) in
  let st := ctpio_set_in_hand
    (splice (ct_in_hand st) (ct_in_hand_len st) (take n (si_mem v))) (ct_in_hand_len st + n) st in
  if ct_in_hand_len st <? MEMCPY_TO_PIO_ALIGN then st
  else ctpio_nothing_in_hand (drop n (si_mem v)) (si_len v - n) (CTPIO_EMIT_IN_HAND st).

(** One iovec: entered at the top of the loop or at [nothing_in_hand]. *)
Definition ctpio_iov (v : src_iov) (st : ctpio_state) : ctpio_state :=
  if ct_in_hand_len st =? 0 then ctpio_nothing_in_hand (si_mem v) (si_len v) st
  else ctpio_merge v st.

Definition ctpio_loop (st : ctpio_state) (iov : list src_iov) : ctpio_state :=
  fold_left (fun st v => ctpio_iov v st) iov st.

Record ctpio_result := mk_ctpio_result {
  cr_out : list Z;  (* the bytes stored to the aperture *)
  cr_fallback : list Z;  (* the bytes written to the fallback buffer *)
  cr_peak : nat  (* the most of copy_local that was in use *)
}.

(** [iov[0]] is read whatever [iovcnt] is: the code is called with at least one
    iovec, [iov0].  [junk] is the initial content of the upper half of the
    uninitialised union. *)
Definition memcpy_iov_to_ctpio (junk : list Z) (ctpio_control : Z) (iov0 : src_iov)
    (iov : list src_iov) : option ctpio_result :=
  let control := put32 (replicate 4 0%Z) 0 ctpio_control in
  let st := ctpio_loop (mk_ctpio_state [] (control ++ junk) 4 true [] [] 0) (iov0 :: iov) in
  let st := if 0 <? ct_in_hand_len st then CTPIO_EMIT_IN_HAND st else st in
  match wb_pad dst (ct_out st) with
  | None => None
  | Some out => Some (mk_ctpio_result out (ct_fallback (CTPIO_COPY_FLUSH st)) (ct_peak st))
  end.
End ctpio.

(** * The stores carry the data *)

(** The data and the seven bytes after it can be read. *)
Definition iov_ok (v : src_iov) : Prop := si_len v + 7 <= length (si_mem v).

(** The length, and the length with the overshoot, are an [int]. *)
Definition iov_int (v : src_iov) : Prop := (Z.of_nat (si_len v) + 7 < 2147483648)%Z.

Definition iov_data (iov : list src_iov) : list Z := concat (map si_data iov).

(** Whole 64-bit words. *)
Definition whole_words (l : list Z) : Prop := exists n, length l = n * 8.

Lemma whole_words_app l1 l2 : whole_words l1 -> whole_words l2 -> whole_words (l1 ++ l2).
Proof. intros [n ?] [m ?]. exists (n + m). rewrite length_app. lia. Qed.

Lemma whole_words_take n data : n * 8 <= length data -> whole_words (take (n * 8) data).
Proof. intros. exists n. rewrite length_take. lia. Qed.

Lemma length_splice w n src :
  length w = 8 -> n + length src <= 8 -> length (splice w n src) = 8.
Proof. intros. unfold splice. rewrite !length_app, length_take, length_drop. lia. Qed.

Lemma take_splice w n src :
  length w = 8 -> n + length src <= 8 ->
  take (n + length src) (splice w n src) = take n w ++ src.
Proof.
  intros. unfold splice. rewrite app_assoc, take_app_length'; [done|].
  rewrite length_app, length_take. lia.
Qed.

(** *** The padding loop *)

Lemma wb_aligned_mod p : WB_ALIGNED p = (p `mod` 64 =? 0)%Z.
Proof.
  unfold WB_ALIGNED, EF_VI_WRITE_BUFFER_SIZE. change (Z.of_nat 64 - 1)%Z with (Z.ones 6).
  by rewrite Z.land_ones by lia.
Qed.

Lemma length_pad_step (out : list Z) :
  Z.of_nat (length (out ++ replicate 8 0%Z)) = (Z.of_nat (length out) + 8)%Z.
Proof. rewrite length_app, length_replicate. lia. Qed.

(** From an address [k] words before a boundary, [k + 1] looks suffice. *)
Lemma wb_pad_loop_words k : forall fuel dst out,
  k < fuel -> k < 8 -> ((dst + Z.of_nat (length out) + Z.of_nat k * 8) `mod` 64 = 0)%Z ->
  wb_pad_loop fuel dst out = Some (out ++ replicate (k * 8) 0%Z).
Proof.
  induction k as [|k IH]; intros [|fuel] dst out Hf Hk Hm; try lia; cbn [wb_pad_loop];
    rewrite wb_aligned_mod.
  - rewrite Z.add_0_r in Hm. by rewrite Hm, app_nil_r.
  - destruct (Z.eqb_spec ((dst + Z.of_nat (length out)) `mod` 64) 0) as [E|E].
    { exfalso. clear IH. Z.div_mod_to_equations. lia. }
    rewrite IH; [|lia|lia|].
    + rewrite <- app_assoc, <- replicate_add. do 3 f_equal.
    + rewrite length_pad_step. rewrite <- Hm. f_equal. lia.
Qed.

(** At a 64-bit aligned address the loop ends, less than a write buffer on. *)
Lemma wb_pad_ends dst out :
  ((dst + Z.of_nat (length out)) `mod` 8 = 0)%Z ->
  exists zeros, wb_pad dst out = Some (out ++ replicate zeros 0%Z) /\ zeros < 64 /\
    ((dst + Z.of_nat (length out + zeros)) `mod` 64 = 0)%Z.
Proof.
  intros H8. set (p := (dst + Z.of_nat (length out))%Z) in *.
  exists (Z.to_nat (((- p) `mod` 64) / 8) * 8).
  assert (Hp : (0 <= ((- p) `mod` 64) / 8 < 8 /\ (p + ((- p) `mod` 64) / 8 * 8) `mod` 64 = 0)%Z)
    by (Z.div_mod_to_equations; lia).
  split; [|split; [lia|]].
  - apply wb_pad_loop_words; [lia|lia|]. rewrite Z2Nat.id by lia. apply Hp.
  - destruct Hp as [? <-]. f_equal. lia.
Qed.

(** At any other address it never ends, whatever the fuel: the code requires a
    64-bit aligned destination. *)
Lemma wb_pad_loop_misaligned fuel : forall dst out,
  ((dst + Z.of_nat (length out)) `mod` 8 <> 0)%Z -> wb_pad_loop fuel dst out = None.
Proof.
  induction fuel as [|fuel IH]; intros dst out H; [done|]. cbn [wb_pad_loop].
  rewrite wb_aligned_mod.
  destruct (Z.eqb_spec ((dst + Z.of_nat (length out)) `mod` 64) 0) as [E|E].
  { exfalso. apply H. clear IH H. Z.div_mod_to_equations. lia. }
  apply IH. rewrite length_pad_step. intros E'. apply H.
  clear IH H E. Z.div_mod_to_equations. lia.
Qed.

(** So the eight looks of [wb_pad] are enough: without a result there is none
    for any fuel. *)
Lemma wb_pad_loop_fuel dst out :
  wb_pad dst out = None -> forall fuel, wb_pad_loop fuel dst out = None.
Proof.
  intros E fuel. apply wb_pad_loop_misaligned. intros H.
  destruct (wb_pad_ends dst out H) as (? & ? & _). congruence.
Qed.

(** *** The gather loop *)

(** Between iovecs: whole words stored, less than a word in hand, and
    together they are the data copied so far. *)
Record pio_inv (st : pio_state) (done_ : list Z) : Prop := {
  pi_words : whole_words (po_out st);
  pi_hand : length (po_in_hand st) = 8;
  pi_count : po_count st < 8;
  pi_aligned : po_aligned st = true -> po_count st = 0;
  pi_data : po_out st ++ take (po_count st) (po_in_hand st) = done_
}.

Ltac pio_cbn := cbn [po_out po_in_hand po_count po_aligned].

(** The arithmetic on [len] does not wrap. *)
Lemma pio_tail_words (overshoot : bool) len :
  (Z.of_nat len + 7 < 2147483648)%Z ->
  let words := Z.shiftr (s32 (Z.of_nat len + (if overshoot then 7 else 0))) 3 in
  let k := (len + (if overshoot then 7 else 0)) / 8 in
  Z.to_nat words = k /\ s32 (Z.of_nat len - words * 8) = (Z.of_nat len - Z.of_nat k * 8)%Z.
Proof.
  intros Hl words k.
  assert (words = Z.of_nat k) as ->.
  { unfold words, k. rewrite s32_small by (destruct overshoot; lia).
    rewrite Z.shiftr_div_pow2 by lia. rewrite Nat2Z.inj_div. f_equal. destruct overshoot; lia. }
  split; [lia|]. apply s32_small. unfold k.
  pose proof (Nat.div_mod_eq (len + (if overshoot then 7 else 0)) 8).
  destruct overshoot; lia.
Qed.

(** The body's copy of whole words, with [pad] the bytes read past the end of
    the data when overshooting. *)
Lemma pio_body_tail_spec overshoot st data len :
  whole_words (po_out st) -> length (po_in_hand st) = 8 -> po_count st = 0 ->
  len + 7 <= length data -> (Z.of_nat len + 7 < 2147483648)%Z ->
  (po_aligned st = true -> overshoot = true \/ exists n, len = n * 8) ->
  let st' := pio_body_tail overshoot st data (Z.of_nat len) in
  exists pad,
    pio_inv st' (po_out st ++ take len data ++ pad) /\ po_aligned st' = false /\
    length pad < 8 /\ (overshoot = false -> pad = []) /\ (overshoot = true -> po_count st' = 0).
Proof.
  intros Hw Hh Hc Hl Hi Ha. unfold pio_body_tail.
  destruct (pio_tail_words overshoot len Hi) as [-> ->]. cbv zeta.
  set (k := (len + _) / 8).
  assert (Hk : k * 8 <= len + (if overshoot then 7 else 0) < k * 8 + 8).
  { unfold k. pose proof (Nat.div_mod_eq (len + (if overshoot then 7 else 0)) 8).
    pose proof (Nat.mod_upper_bound (len + (if overshoot then 7 else 0)) 8). lia. }
  assert (Hkd : k * 8 <= length data) by (destruct overshoot; lia).
  destruct (negb (po_aligned st) && (0 <? Z.of_nat len - Z.of_nat k * 8)%Z) eqn:E.
  - apply andb_true_iff in E as [E1 E2]. apply Z.ltb_lt in E2. apply negb_true_iff in E1.
    replace (Z.to_nat (Z.of_nat len - Z.of_nat k * 8)) with (len - k * 8) by lia.
    destruct overshoot; [lia|]. exists []. rewrite app_nil_r.
    assert (Hlen : length (take (len - k * 8) (drop (k * 8) data)) = len - k * 8).
    { rewrite length_take, length_drop. lia. }
    split; [split; pio_cbn|pio_cbn; repeat split; (done || cbn; lia)].
    + apply whole_words_app; [done|]. by apply whole_words_take.
    + by rewrite length_splice by (rewrite ?Hlen; lia || done).
    + lia.
    + done.
    + pose proof (take_splice (po_in_hand st) 0 _ Hh ltac:(rewrite Hlen; lia)) as T.
      rewrite Hlen in T. cbn [Nat.add take app] in T. rewrite T, <- app_assoc.
      f_equal. rewrite take_0, app_nil_l, take_take_drop. f_equal. lia.
  - exists (take (k * 8 - len) (drop len data)).
    assert (Hle : len <= k * 8).
    { apply andb_false_iff in E as [E|E]; [|apply Z.ltb_ge in E; lia].
      apply negb_false_iff in E. destruct (Ha E) as [->|[n ->]]; [lia|]. destruct overshoot; lia. }
    split; [split|]; pio_cbn.
    + apply whole_words_app; [done|]. by apply whole_words_take.
    + done.
    + lia.
    + done.
    + rewrite Hc, take_0, app_nil_r. f_equal. rewrite take_take_drop. f_equal. lia.
    + split; [done|]. split; [rewrite length_take; destruct overshoot; lia|].
      split; [|done]. intros ->. replace (k * 8 - len) with 0 by lia. apply take_0.
Qed.

(** One iovec. *)
Lemma pio_body_spec last st v d :
  pio_inv st d -> iov_ok v -> iov_int v ->
  (po_aligned st = true -> last = true \/ exists n, si_len v = n * 8) ->
  exists pad,
    pio_inv (pio_body last st v) (d ++ si_data v ++ pad) /\
    po_aligned (pio_body last st v) = false /\
    length pad < 8 /\ (last = false -> pad = []) /\
    (pad <> [] -> po_count (pio_body last st v) = 0).
Proof.
  intros [Hw Hh Hc Ha Hd] Hv Hint Hal. unfold iov_ok in Hv. unfold iov_int in Hint.
  unfold pio_body. rewrite (s32_small (Z.of_nat (si_len v))) by lia.
  rewrite (u32_small (Z.of_nat (si_len v))) by lia. rewrite <- Nat2Z.inj_min, Nat2Z.id.
  set (o := (po_aligned st || _) && last).
  assert (Ho : po_aligned st = true -> o = true \/ exists n, si_len v = n * 8).
  { intros E. unfold o. rewrite E. destruct (Hal E) as [->|?]; [by left|by right]. }
  assert (Hol : last = false -> o = false) by (intros ->; apply andb_false_r).
  destruct (negb (po_aligned st) && (0 <? po_count st)) eqn:E.
  - apply andb_true_iff in E as [E1 E2]. apply negb_true_iff in E1. apply Nat.ltb_lt in E2.
    unfold MEMCPY_TO_PIO_ALIGN. set (n := Nat.min _ _).
    assert (Hn : n <= si_len v /\ po_count st + n <= 8) by lia.
    assert (Hln : length (take n (si_mem v)) = n) by (rewrite length_take; lia).
    pose proof (take_splice (po_in_hand st) (po_count st) (take n (si_mem v)) Hh
      ltac:(rewrite Hln; lia)) as T. rewrite Hln in T.
    pose proof (length_splice (po_in_hand st) (po_count st) (take n (si_mem v)) Hh
      ltac:(rewrite Hln; lia)) as L.
    rewrite s32_small by lia. rewrite <- Nat2Z.inj_sub by lia.
    destruct (Nat.ltb_spec (po_count st + n) 8).
    + exists []. assert (n = si_len v) as Hn' by lia. split; [split; pio_cbn; try done|].
      * congruence.
      * rewrite T, app_assoc, Hd, app_nil_r. unfold si_data. by rewrite Hn'.
      * pio_cbn. repeat split; (done || cbn; lia).
    + destruct (pio_body_tail_spec o (mk_pio_state (po_out st ++ splice (po_in_hand st)
        (po_count st) (take n (si_mem v))) (splice (po_in_hand st) (po_count st)
        (take n (si_mem v))) 0 (po_aligned st)) (drop n (si_mem v)) (si_len v - n))
        as (pad & P1 & P2 & P3 & P4 & P5); pio_cbn.
      * apply whole_words_app; [done|]. by exists 1.
      * done.
      * done.
      * rewrite length_drop. lia.
      * lia.
      * congruence.
      * exists pad. cbn [po_out] in P1. split; [|split; [done|split; [done|split; [by auto|]]]].
        -- replace (po_count st + n) with 8 in T by lia. rewrite take_ge in T by lia.
           assert (E3 : (po_out st ++ splice (po_in_hand st) (po_count st)
             (take n (si_mem v))) ++ take (si_len v - n) (drop n (si_mem v)) ++ pad =
             d ++ si_data v ++ pad).
           { rewrite T, <- Hd, <- !app_assoc. do 2 f_equal.
             rewrite app_assoc, take_take_drop. unfold si_data. do 2 f_equal. lia. }
           by rewrite E3 in P1.
        -- intros. destruct o; [by apply P5|]. by destruct (H0 (P4 eq_refl)).
  - assert (Hc0 : po_count st = 0).
    { apply andb_false_iff in E as [E|E]; [apply Ha; by apply negb_false_iff|].
      apply Nat.ltb_ge in E. lia. }
    destruct (pio_body_tail_spec o st (si_mem v) (si_len v)) as (pad & P1 & P2 & P3 & P4 & P5);
      [done..|].
    exists pad. rewrite Hc0, take_0, app_nil_r in Hd. subst d.
    split; [exact P1|]. split; [done|]. split; [done|]. split; [by auto|].
    intros. destruct o; [by apply P5|]. by destruct (H (P4 eq_refl)).
Qed.

Lemma pio_loop_spec iov : forall st d,
  pio_inv st d -> Forall iov_ok iov -> Forall iov_int iov ->
  (po_aligned st = true ->
   match iov with v :: _ :: _ => exists n, si_len v = n * 8 | _ => True end) ->
  exists pad,
    pio_inv (pio_loop st iov) (d ++ iov_data iov ++ pad) /\ length pad < 8 /\
    (pad <> [] -> po_count (pio_loop st iov) = 0).
Proof.
  induction iov as [|v iov IH]; intros st d Hi Hok Hint Ha; cbn [pio_loop].
  - exists []. cbn. rewrite app_nil_r. by repeat split; try lia; destruct Hi.
  - apply Forall_cons_1 in Hok as [Hv Hok]. apply Forall_cons_1 in Hint as [Hvi Hint].
    destruct iov as [|v' iov].
    + destruct (pio_body_spec true st v d Hi Hv Hvi) as (pad & P1 & P2 & P3 & P4 & P5); [by left|].
      exists pad. cbn. rewrite app_nil_r. done.
    + destruct (pio_body_spec false st v d Hi Hv Hvi) as (pad & P1 & P2 & P3 & P4 & P5).
      { intros E. right. by apply Ha. }
      rewrite P4, app_nil_r in P1 by done.
      destruct (IH _ _ P1 Hok Hint) as (pad' & Q1 & Q2 & Q3); [by rewrite P2|].
      exists pad'. split; [|done]. rewrite <- app_assoc in Q1.
      unfold iov_data in *. cbn [map concat] in *. by rewrite <- !app_assoc in *.
Qed.

Lemma pio_stores_data iov aligned :
  Forall iov_ok iov -> Forall iov_int iov ->
  (aligned = true -> match iov with v :: _ :: _ => exists n, si_len v = n * 8 | _ => True end) ->
  exists pad, pio_stores iov aligned = iov_data iov ++ pad /\
    length pad < 8 /\ whole_words (iov_data iov ++ pad).
Proof.
  intros Hok Hint Ha. unfold pio_stores.
  set (st0 := mk_pio_state [] (replicate 8 0%Z) 0 aligned).
  assert (H0 : pio_inv st0 []) by (split; cbn; try done; [by exists 0|lia]).
  destruct (pio_loop_spec iov st0 [] H0 Hok Hint Ha) as (pad & [Hw Hh Hc Hal Hd] & Hp & Hz).
  set (st := pio_loop st0 iov) in *. cbn [app] in Hd.
  destruct (negb (po_aligned st) && (0 <? po_count st)) eqn:E.
  - apply andb_true_iff in E as [_ E]. apply Nat.ltb_lt in E.
    destruct pad as [|x pad]; [|specialize (Hz ltac:(done)); lia].
    rewrite app_nil_r in Hd. exists (drop (po_count st) (po_in_hand st)).
    rewrite <- Hd, <- app_assoc, take_drop. split; [done|]. split; [rewrite length_drop; lia|].
    apply whole_words_app; [done|]. by exists 1.
  - assert (po_count st = 0) as Hc0.
    { apply andb_false_iff in E as [E|E]; [apply Hal; by apply negb_false_iff|].
      apply Nat.ltb_ge in E. lia. }
    exists pad. rewrite Hc0, take_0, app_nil_r in Hd. rewrite <- Hd. done.
Qed.

(** ** CTPIO *)

Ltac ct_cbn :=
  unfold ctpio_set_in_hand, ctpio_clear_first, ctpio_copy_store, ctpio_dst_store;
  cbn [ct_out ct_in_hand ct_in_hand_len ct_first ct_copy_local ct_fallback ct_peak].

Section ctpio_proofs.
Context (dst : Z) (copy : bool) (control : list Z).
Hypothesis Hdst : (dst `mod` 64 = 0)%Z.
Hypothesis Hcontrol : length control = 4.

(** Bytes held in [copy_local] at most: those since the last write-buffer
    boundary. *)
Definition local_bound (n : nat) : nat :=
  if n mod 64 =? 0 then (if n =? 0 then 0 else 64) else n mod 64.

Record ct_core (st : ctpio_state) : Prop := {
  cc_words : whole_words (ct_out st);
  cc_hand : length (ct_in_hand st) = 8;
  cc_first : if ct_first st then ct_out st = [] /\ ct_copy_local st = [] /\ ct_fallback st = []
             else ct_out st <> [];
  cc_copy : copy = true -> ct_fallback st ++ ct_copy_local st = drop 4 (ct_out st);
  cc_local : copy = true -> length (ct_copy_local st) <= local_bound (length (ct_out st));
  cc_peak : ct_peak st <= EF_VI_WRITE_BUFFER_SIZE
}.

(** Between iovecs, with [d] the frame bytes copied so far. *)
Record ct_inv (st : ctpio_state) (d : list Z) : Prop := {
  ci_core : ct_core st;
  ci_len : ct_in_hand_len st < 8;
  ci_first : ct_first st = true -> 4 <= ct_in_hand_len st;
  ci_data : ct_out st ++ take (ct_in_hand_len st) (ct_in_hand st) = control ++ d
}.

Lemma local_bound_64 n : local_bound n <= 64.
Proof.
  unfold local_bound. pose proof (Nat.mod_upper_bound n 64).
  repeat case_match; lia.
Qed.

Lemma wb_aligned_iff st :
  WB_ALIGNED (dst + Z.of_nat (length (ct_out st))) = (length (ct_out st) mod 64 =? 0).
Proof.
  rewrite wb_aligned_mod, Zplus_mod, Hdst, Z.add_0_l, Z.mod_mod by lia.
  change 64%Z with (Z.of_nat 64). rewrite <- Nat2Z.inj_mod.
  apply eq_true_iff_eq. rewrite Z.eqb_eq, Nat.eqb_eq. lia.
Qed.

Lemma local_bound_step n :
  (exists m, n = m * 8) -> n <> 0 ->
  local_bound (n + 8) >= (if n mod 64 =? 0 then 8 else local_bound n + 8).
Proof.
  intros [m ->] Hn. unfold local_bound.
  destruct (Nat.eqb_spec ((m * 8) mod 64) 0); destruct (Nat.eqb_spec ((m * 8 + 8) mod 64) 0);
    destruct (Nat.eqb_spec (m * 8 + 8) 0); try lia;
    pose proof (Nat.div_mod_eq (m * 8) 64); pose proof (Nat.div_mod_eq (m * 8 + 8) 64);
    pose proof (Nat.mod_upper_bound (m * 8) 64 ltac:(done));
    pose proof (Nat.mod_upper_bound (m * 8 + 8) 64 ltac:(done)); lia.
Qed.

Lemma emit_word_core st w :
  ct_core st -> ct_first st = false -> length w = 8 ->
  let st' := CTPIO_EMIT_WORD dst copy w st in
  ct_core st' /\ ct_out st' = ct_out st ++ w /\ ct_in_hand st' = ct_in_hand st /\
  ct_in_hand_len st' = ct_in_hand_len st /\ ct_first st' = false.
Proof.
  intros [Hw Hh Hf Hc Hl Hp] Hfst Hlen. rewrite Hfst in Hf. unfold CTPIO_EMIT_WORD.
  rewrite wb_aligned_iff.
  assert (Hn0 : length (ct_out st) <> 0) by (by destruct (ct_out st)).
  assert (H8 : 8 <= length (ct_out st)) by (destruct Hw; lia).
  pose proof (local_bound_step (length (ct_out st)) Hw Hn0) as Hst.
  pose proof (local_bound_64 (length (ct_out st) + 8)) as H64.
  unfold CTPIO_COPY_FLUSH.
  destruct (length (ct_out st) mod 64 =? 0) eqn:E, copy eqn:Ec; ct_cbn;
    (split; [split; ct_cbn|done]);
    rewrite ?Hfst, ?length_app; try done; try congruence;
    try (by apply whole_words_app; [|exists 1]);
    try (intros; destruct (ct_out st); done);
    try (intros _; rewrite drop_app_le by lia; rewrite <- Hc by done; by rewrite ?app_assoc, ?app_nil_r);
    unfold EF_VI_WRITE_BUFFER_SIZE in *; cbn [length]; specialize (Hl eq_refl); rewrite Hlen; lia.
Qed.

Lemma emit_words_core n : forall src st,
  ct_core st -> ct_first st = false -> n * 8 <= length src ->
  let st' := ctpio_emit_words dst copy n src st in
  ct_core st' /\ ct_out st' = ct_out st ++ take (n * 8) src /\
  ct_in_hand st' = ct_in_hand st /\ ct_first st' = false.
Proof.
  induction n as [|n IH]; intros src st Hc Hf Hl; cbn [ctpio_emit_words].
  - cbn [Nat.mul]. by rewrite take_0, app_nil_r.
  - destruct (emit_word_core st (take 8 src) Hc Hf) as (C1 & C2 & C3 & C4 & C5).
    { rewrite length_take. lia. }
    destruct (IH (drop 8 src) _ C1 C5) as (D1 & D2 & D3 & D4).
    { rewrite length_drop. lia. }
    split; [done|]. rewrite D2, D3, C2, C3, <- app_assoc. split; [|done].
    by rewrite take_take_drop.
Qed.

Lemma emit_in_hand_core st :
  ct_core st ->
  let st' := CTPIO_EMIT_IN_HAND dst copy st in
  ct_core st' /\ ct_out st' = ct_out st ++ ct_in_hand st /\
  ct_in_hand st' = ct_in_hand st /\ ct_first st' = false.
Proof.
  intros Hcore. unfold CTPIO_EMIT_IN_HAND. destruct (ct_first st) eqn:Ef.
  - destruct Hcore as [Hw Hh Hf Hc Hl Hp]. rewrite Ef in Hf. destruct Hf as (Ho & Hcl & Hfb).
    assert (Hne : ct_in_hand st <> []) by (by intros E; rewrite E in Hh).
    unfold EF_VI_WRITE_BUFFER_SIZE in Hp.
    ct_cbn. destruct copy eqn:Ec; ct_cbn; rewrite Ho, ?Hcl, ?Hfb; cbn [app];
      (split; [|done]); split; ct_cbn; rewrite ?length_drop, ?Hh; cbn;
      unfold EF_VI_WRITE_BUFFER_SIZE;
      (done || lia || congruence || by exists 1).
  - destruct (emit_word_core st (ct_in_hand st) Hcore Ef) as (C1 & C2 & C3 & C4 & C5);
      [by destruct Hcore|]. done.
Qed.

(** The rest of an iovec once nothing is in hand. *)
Lemma nothing_in_hand_inv src len st d :
  ct_core st -> ct_first st = false -> ct_out st = control ++ d -> len <= length src ->
  ct_inv (ctpio_nothing_in_hand dst copy src len st) (d ++ take len src).
Proof.
  intros Hc Hf Ho Hl. unfold ctpio_nothing_in_hand.
  pose proof (Nat.div_mod_eq len 8). pose proof (Nat.mod_upper_bound len 8 ltac:(done)).
  set (n := len / 8) in *.
  destruct (emit_words_core n src st Hc Hf) as (C1 & C2 & C3 & C4); [lia|].
  set (st1 := ctpio_emit_words dst copy n src st) in *.
  destruct C1 as [Hw1 Hh1 Hf1 Hc1 Hl1 Hp1].
  assert (Hlen : length (take (len - n * 8) (drop (n * 8) src)) = len - n * 8).
  { rewrite length_take, length_drop. lia. }
  destruct (Nat.ltb_spec 0 (len - n * 8)).
  - split; [split|..]; ct_cbn; try done.
    + apply length_splice; [done|]. rewrite Hlen. lia.
    + lia.
    + congruence.
    + pose proof (take_splice (ct_in_hand st1) 0 _ Hh1 ltac:(rewrite Hlen; lia)) as T.
      rewrite Hlen, take_0 in T. cbn [Nat.add app] in T. rewrite T, C2, Ho, <- !app_assoc.
      rewrite take_take_drop. repeat f_equal. lia.
  - split; [split|..]; ct_cbn; try done.
    + lia.
    + congruence.
    + rewrite take_0, app_nil_r, C2, Ho, <- app_assoc. repeat f_equal. lia.
Qed.

Lemma ctpio_iov_inv v st d :
  ct_inv st d -> iov_ok v -> ct_inv (ctpio_iov dst copy v st) (d ++ si_data v).
Proof.
  intros [Hc Hl Hf Hd] Hv. unfold iov_ok in Hv. unfold ctpio_iov.
  destruct (Nat.eqb_spec (ct_in_hand_len st) 0) as [E|E].
  - rewrite E, take_0, app_nil_r in Hd. apply nothing_in_hand_inv; try done; [|lia].
    destruct (ct_first st) eqn:Ef; [|done]. specialize (Hf eq_refl). lia.
  - unfold ctpio_merge, MEMCPY_TO_PIO_ALIGN. set (n := Nat.min _ _). ct_cbn.
    assert (Hln : length (take n (si_mem v)) = n) by (rewrite length_take; lia).
    destruct Hc as [Hw Hh Hf0 Hc Hlo Hpk].
    pose proof (take_splice (ct_in_hand st) (ct_in_hand_len st) (take n (si_mem v)) Hh
      ltac:(rewrite Hln; lia)) as T. rewrite Hln in T.
    pose proof (length_splice (ct_in_hand st) (ct_in_hand_len st) (take n (si_mem v)) Hh
      ltac:(rewrite Hln; lia)) as L.
    destruct (Nat.ltb_spec (ct_in_hand_len st + n) 8).
    + assert (n = si_len v) as Hn by lia. split; [split|..]; ct_cbn; try done.
      * intros E'. specialize (Hf E'). lia.
      * rewrite T, app_assoc, Hd, Hn, <- app_assoc. done.
    + match goal with |- ct_inv (ctpio_nothing_in_hand _ _ _ _ (CTPIO_EMIT_IN_HAND _ _ ?s)) _ =>
        assert (Hs : ct_core s) by (by split); destruct (emit_in_hand_core s Hs) as (C1 & C2 & C3 & C4) end.
      cbn [ct_out ct_in_hand] in C2.
      replace (d ++ si_data v)
        with ((d ++ take n (si_mem v)) ++ take (si_len v - n) (drop n (si_mem v))).
      * apply nothing_in_hand_inv; try done.
        -- rewrite C2. cbn [ct_out ct_in_hand].
           replace (ct_in_hand_len st + n) with 8 in T by lia. rewrite take_ge in T by lia.
           by rewrite T, app_assoc, Hd, <- app_assoc.
        -- rewrite length_drop. lia.
      * rewrite <- app_assoc, take_take_drop. unfold si_data. repeat f_equal. lia.
Qed.

Lemma ctpio_loop_inv iov : forall st d,
  ct_inv st d -> Forall iov_ok iov ->
  ct_inv (ctpio_loop dst copy st iov) (d ++ iov_data iov).
Proof.
  induction iov as [|v iov IH]; intros st d Hi Hok; cbn.
  - by rewrite app_nil_r.
  - apply Forall_cons_1 in Hok as [Hv Hok]. rewrite app_assoc. apply IH; [|done].
    by apply ctpio_iov_inv.
Qed.
(** All the stores before the padding: fewer than 8 bytes follow the frame. *)
Lemma ctpio_emitted junk iov :
  length junk = 4 -> Forall iov_ok iov ->
  let st := ctpio_loop dst copy (mk_ctpio_state [] (control ++ junk) 4 true [] [] 0) iov in
  let st' := if 0 <? ct_in_hand_len st then CTPIO_EMIT_IN_HAND dst copy st else st in
  ct_core st' /\ exists pad, ct_out st' = control ++ iov_data iov ++ pad /\ length pad < 8.
Proof.
  intros Hj Hok. set (st0 := mk_ctpio_state _ _ _ _ _ _ _).
  assert (H0 : ct_inv st0 []).
  { split; [split|..]; unfold st0; ct_cbn; rewrite ?length_app; try done; try lia;
      try (by exists 0). by rewrite app_nil_r, app_nil_l, take_app_length'. }
  destruct (ctpio_loop_inv iov st0 [] H0 Hok) as [Hc Hl Hf Hd]. cbv zeta.
  set (st := ctpio_loop dst copy st0 iov) in *. cbn [app] in Hd.
  destruct (Nat.ltb_spec 0 (ct_in_hand_len st)).
  - destruct (emit_in_hand_core st Hc) as (C1 & C2 & _). split; [done|].
    exists (drop (ct_in_hand_len st) (ct_in_hand st)). rewrite C2, app_assoc, <- Hd, <- app_assoc.
    rewrite take_drop. split; [done|]. rewrite length_drop. destruct Hc. lia.
  - split; [done|]. exists []. replace (ct_in_hand_len st) with 0 in Hd by lia.
    rewrite take_0, app_nil_r in Hd. by rewrite Hd, app_nil_r; split; [|cbn; lia].
Qed.
End ctpio_proofs.

(** * Properties *)

(** C28: the gather copy into a 64-bit aligned PIO aperture returns, and stores
    exactly the bytes of the iovecs in order, whatever their lengths and
    alignments, in whole 64-bit words: fewer than 8 bytes follow the data, and,
    when padding is requested, zeros up to the next write-buffer boundary.  (The
    length of an iovec fits an [int]; with [aligned] set the first of several
    iovecs must be whole words, the contract of the parameter.) *)
Theorem memcpy_iov_to_pio_exact dst iov aligned end_pad :
  (dst `mod` 8 = 0)%Z -> Forall iov_ok iov -> Forall iov_int iov ->
  (aligned = true -> match iov with v :: _ :: _ => exists n, si_len v = n * 8 | _ => True end) ->
  exists pad zeros,
    __memcpy_iov_to_pio dst iov aligned end_pad =
      Some (iov_data iov ++ pad ++ replicate zeros 0%Z) /\
    length pad < 8 /\ whole_words (iov_data iov ++ pad) /\
    (if end_pad
     then zeros < 64 /\
       ((dst + Z.of_nat (length (iov_data iov ++ pad ++ replicate zeros 0%Z))) `mod` 64 = 0)%Z
     else zeros = 0).
Proof.
  intros Hdst Hok Hint Ha. destruct (pio_stores_data iov aligned Hok Hint Ha) as (pad & E & Hp & Hw).
  exists pad. unfold __memcpy_iov_to_pio. rewrite E. destruct end_pad.
  - destruct (wb_pad_ends dst (iov_data iov ++ pad)) as (zeros & E' & Hz & Hm).
    { destruct Hw as [n ->]. Z.div_mod_to_equations. lia. }
    exists zeros. rewrite E', app_assoc, (length_app _ (replicate _ _)), length_replicate. done.
  - exists 0. cbn [replicate]. by rewrite app_nil_r.
Qed.

(** C29: the CTPIO copy into an aperture aligned to the write buffers returns.
    It stores the 4-byte control word, then exactly the bytes of the frame in
    order, padded to the end of a write buffer; the fallback buffer receives the
    frame followed by at most 7 more bytes; and no store of the whole run reaches
    beyond the 64 bytes of the local staging buffer. *)
Theorem memcpy_iov_to_ctpio_exact dst copy junk ctpio_control iov0 iov :
  (dst `mod` 64 = 0)%Z -> length junk = 4 -> Forall iov_ok (iov0 :: iov) ->
  let control := put32 (replicate 4 0%Z) 0 ctpio_control in
  exists r, memcpy_iov_to_ctpio dst copy junk ctpio_control iov0 iov = Some r /\
  (exists pad, cr_out r = control ++ iov_data (iov0 :: iov) ++ pad /\ length pad < 72 /\
     ((dst + Z.of_nat (length (cr_out r))) `mod` 64 = 0)%Z) /\
  (copy = true ->
     exists pad, cr_fallback r = iov_data (iov0 :: iov) ++ pad /\ length pad < 8) /\
  cr_peak r <= EF_VI_WRITE_BUFFER_SIZE.
Proof.
  intros Hdst Hj Hok control. unfold memcpy_iov_to_ctpio. fold control.
  destruct (ctpio_emitted dst copy control Hdst eq_refl junk (iov0 :: iov) Hj Hok)
    as (Hc & pad & Ho & Hp).
  set (st := if 0 <? _ then _ else _) in *.
  destruct (wb_pad_ends dst (ct_out st)) as (zeros & E & Hz & Hm).
  { destruct Hc as [[n ->] _ _ _ _ _]. Z.div_mod_to_equations. lia. }
  rewrite E. eexists. split; [done|]. cbn [cr_out cr_fallback cr_peak]. split; [|split].
  - exists (pad ++ replicate zeros 0%Z).
    split; [by rewrite Ho, <- !app_assoc|]. split; [rewrite length_app, length_replicate; lia|].
    by rewrite length_app, length_replicate.
  - intros Ec. exists pad. split; [|done]. unfold CTPIO_COPY_FLUSH. rewrite Ec.
    cbn [ct_fallback]. destruct Hc as [_ _ _ Hcp _ _]. rewrite (Hcp Ec), Ho.
    by rewrite drop_app_length'.
  - apply Hc.
Qed.

(** a copy from several iovecs can read past the 64-bit word in which the
    last source buffer ends: with four bytes in hand and a last buffer of eight
    bytes at an 8-aligned address, the last store holds the four bytes that
    follow the buffer, because whether to overshoot is decided from the address the
    buffer starts at, not from the address reached after completing the word in
    hand. *)
Theorem pio_overshoot_past_word (dst t0 t1 t2 t3 : Z) :
  let first := mk_iov 0 [1; 2; 3; 4; 0; 0; 0; 0; 0; 0; 0]%Z 4 in
  let last := mk_iov 64 ([5; 6; 7; 8; 9; 10; 11; 12]%Z ++ [t0; t1; t2; t3]) 8 in
  __memcpy_iov_to_pio dst [first; last] false false =
    Some ([1; 2; 3; 4; 5; 6; 7; 8; 9; 10; 11; 12]%Z ++ [t0; t1; t2; t3]).
Proof. reflexivity. Qed.

(** ** Witnesses *)

Definition ex_v1 := mk_iov 3 [1; 2; 3; 4; 5; 0; 0; 0; 0; 0; 0; 0]%Z 5.
Definition ex_v2 := mk_iov 16 [6; 7; 8; 9; 10; 11; 12; 13; 14; 15; 0; 0; 0; 0; 0; 0; 0]%Z 10.

Lemma ex_iov_ok : Forall iov_ok [ex_v1; ex_v2].
Proof. repeat (apply Forall_cons; [unfold iov_ok; cbn; lia|]). apply Forall_nil_2. Qed.

Lemma ex_iov_int : Forall iov_int [ex_v1; ex_v2].
Proof. repeat (apply Forall_cons; [unfold iov_int; cbn; lia|]). apply Forall_nil_2. Qed.

Lemma memcpy_iov_to_pio_exact_witness :
  exists pad zeros,
    __memcpy_iov_to_pio 136 [ex_v1; ex_v2] false true =
      Some ([1; 2; 3; 4; 5; 6; 7; 8; 9; 10; 11; 12; 13; 14; 15]%Z ++ pad ++ replicate zeros 0%Z) /\
    length pad < 8.
Proof.
  destruct (memcpy_iov_to_pio_exact 136 [ex_v1; ex_v2] false true) as (pad & zeros & E & Hp & _).
  - reflexivity.
  - exact ex_iov_ok.
  - exact ex_iov_int.
  - discriminate.
  - exists pad, zeros. split; [exact E|exact Hp].
Defined.

(** The same destination four bytes further on: the padding never ends. *)
Example pio_misaligned_never_returns : __memcpy_iov_to_pio 140 [ex_v1; ex_v2] false true = None.
Proof. reflexivity. Qed.

Lemma memcpy_iov_to_ctpio_exact_witness :
  exists r, memcpy_iov_to_ctpio 128 true [0; 0; 0; 0]%Z 4111 ex_v1 [ex_v2] = Some r /\
  (exists pad, cr_out r = [15; 16; 0; 0]%Z ++
    [1; 2; 3; 4; 5; 6; 7; 8; 9; 10; 11; 12; 13; 14; 15]%Z ++ pad /\ length pad < 72) /\
  cr_peak r <= 64.
Proof.
  destruct (memcpy_iov_to_ctpio_exact 128 true [0; 0; 0; 0]%Z 4111 ex_v1 [ex_v2])
    as (r & E & (pad & E' & Hp & _) & _ & Hk).
  - reflexivity.
  - reflexivity.
  - exact ex_iov_ok.
  - exists r. split; [exact E|]. split; [|exact Hk]. exists pad. split; [exact E'|exact Hp].
Defined.
