(* ===== verification/Vi.v ===== *)
(** The virtual interface of include/etherfabric/ef_vi.h: events, the states
    of the three rings, the [ef_vi] structure, and the inline accessors.

    Correspondence with the C structures:
    - a pointer to a ring's memory ([descriptors], [ids], [evq_base]) is the
      list of the ring's words; a C index is the list's index;
    - [ep_state] and [vi_stats] are held by value ([vi_stats] is an option, the
      NULL test of the code);
    - [io] is the address of the register window, and the writes the code makes
      to it are appended to [io_log];
    - [vi_qs] holds the identities of the VIs attached to an event queue, so
      that a queue's VI and the VI it delivers to may be the same object (the
      store is in file Event);
    - [ops] is the driver's table of operations, as the choices the driver's
      [initialise_ops] makes. *)

From stdpp Require Import base list numbers.
From S2P Require Import Prelude.

Open Scope Z_scope.

(** * Constants *)

(** [EF_REQUEST_ID_MASK]: the value of an unused slot of a request-id ring. *)
Definition EF_REQUEST_ID_MASK := 4294967295.
Definition EF_VI_MAX_QS := 32.
Definition EF_VI_EV_SIZE := 8.
Definition EF_VI_TX_TIMESTAMP_TS_NSEC_INVALID := 1073741824.

(** [enum ef_vi_flags] *)
Definition EF_VI_ISCSI_TX_DDIG := 16.
Definition EF_VI_TX_PHYS_ADDR := 32.
Definition EF_VI_RX_PHYS_ADDR := 64.
Definition EF_VI_TX_PUSH_DISABLE := 16384.
Definition EF_VI_TX_PUSH_ALWAYS := 32768.
Definition EF_VI_RX_TIMESTAMPS := 65536.
Definition EF_VI_TX_TIMESTAMPS := 131072.
Definition EF_VI_RX_PACKED_STREAM := 524288.
Definition EF_VI_RX_EVENT_MERGE := 2097152.
Definition EF_VI_TX_ALT := 4194304.
Definition EF_VI_TX_CTPIO := 16777216.

(** [enum ef_vi_rx_discard_err_flags] *)
Definition EF_VI_DISCARD_RX_L4_CSUM_ERR := 1.
Definition EF_VI_DISCARD_RX_L3_CSUM_ERR := 2.
Definition EF_VI_DISCARD_RX_ETH_FCS_ERR := 4.
Definition EF_VI_DISCARD_RX_ETH_LEN_ERR := 8.
Definition EF_VI_DISCARD_RX_TOBE_DISC := 16.
Definition EF_VI_DISCARD_RX_INNER_L4_CSUM_ERR := 32.
Definition EF_VI_DISCARD_RX_INNER_L3_CSUM_ERR := 64.

(** [EF_EVENT_FLAG_*] *)
Definition EF_EVENT_FLAG_SOP := 1.
Definition EF_EVENT_FLAG_CONT := 2.
Definition EF_EVENT_FLAG_ISCSI_OK := 4.
Definition EF_EVENT_FLAG_MULTICAST := 8.
Definition EF_EVENT_FLAG_PS_NEXT_BUFFER := 16.
Definition EF_EVENT_FLAG_CTPIO := 1.
Definition EF_EVENT_TX_WITH_TIMESTAMP_SYNC_MASK := 3.

(** [enum ef_vi_arch] *)
Inductive ef_vi_arch := EF_VI_ARCH_FALCON | EF_VI_ARCH_EF10.

#[export] Instance ef_vi_arch_eq_dec : EqDecision ef_vi_arch.
Proof. solve_decision. Defined.

(** [enum ef_timestamp_format] *)
Inductive ef_timestamp_format := TS_FORMAT_SECONDS_27FRACTION | TS_FORMAT_SECONDS_QTR_NANOSECONDS.

#[export] Instance ef_timestamp_format_eq_dec : EqDecision ef_timestamp_format.
Proof. solve_decision. Defined.

(** * Events: the union [ef_event]

    One constructor per [EF_EVENT_TYPE_*] the library produces, with the
    members of that arm of the union.  The functions that build an event
    truncate each value to the width of its bit field. *)

Inductive ef_event :=
  | EV_RX (q_id rq_id len flags : Z)
  | EV_RX_DISCARD (q_id rq_id len flags subtype : Z)
  | EV_TX (q_id flags desc_id : Z)
  | EV_TX_ERROR (q_id flags desc_id subtype : Z)
  | EV_RX_NO_DESC_TRUNC (q_id : Z)
  | EV_SW (data : Z)
  | EV_OFLOW
  | EV_TX_WITH_TIMESTAMP (q_id flags rq_id ts_sec ts_nsec : Z)
  | EV_RX_PACKED_STREAM (q_id flags n_pkts ps_flags : Z)
  | EV_RX_MULTI (q_id n_descs flags : Z)
  | EV_RX_MULTI_DISCARD (q_id n_descs flags subtype : Z)
  | EV_TX_ALT (q_id alt_id : Z)
  | EV_RESET.

#[export] Instance ef_event_eq_dec : EqDecision ef_event.
Proof. solve_decision. Defined.

(** * Ring states *)

Record ef_vi_txq_state := mk_txq_state {
  tx_previous : Z;  (* uint32_t *)
  tx_added : Z;  (* uint32_t *)
  tx_removed : Z;  (* uint32_t *)
  tx_ts_nsec : Z  (* uint32_t *)
}.

Record ef_vi_rxq_state := mk_rxq_state {
  rx_posted : Z;
  rx_added : Z;
  rx_removed : Z;
  rx_in_jumbo : Z;
  rx_bytes_acc : Z;
  rx_last_desc_i : Z;  (* uint16_t *)
  rx_ps_credit_avail : Z  (* uint16_t *)
}.

Record ef_eventq_state := mk_eventq_state {
  evq_ptr : Z;  (* uint32_t *)
  evq_clear_stride : Z;  (* int32_t *)
  sync_timestamp_major : Z;
  sync_timestamp_minor : Z;
  sync_timestamp_minimum : Z;
  sync_timestamp_synchronised : Z;
  sync_flags : Z
}.

Record ef_vi_state := mk_vi_state {
  st_evq : ef_eventq_state;
  st_txq : ef_vi_txq_state;
  st_rxq : ef_vi_rxq_state
}.

(** [ef_vi_txq] and [ef_vi_rxq] have the same members. *)
Record ef_vi_ring := mk_ring {
  q_mask : Z;  (* uint32_t *)
  q_descriptors : list Z;  (* 64-bit words *)
  q_ids : list Z  (* uint32_t *)
}.

Record ef_vi_stats := mk_stats {
  rx_ev_lost : Z;
  rx_ev_bad_desc_i : Z;
  rx_ev_bad_q_label : Z;
  evq_gap : Z
}.

Record ef_vi_nic_type := mk_nic_type {
  arch : ef_vi_arch;
  variant : Z;
  revision : Z;
  nic_flags : Z
}.

(** [struct ef_pio]: the write-only region on the NIC and its copy. *)
Record ef_pio := mk_pio {
  pio_buffer : list Z;
  pio_io : list Z
}.

(** A write to the NIC: a dword at an address of the register window, the
    16-byte store of a pushed descriptor with its doorbell word (on EF10 the third
    dword, on Falcon the fourth, after a command), or the stores of a frame to the
    CTPIO aperture. *)
Inductive io_write :=
  | Writel (val addr : Z)
  | WritePush (desc dword2 addr : Z)
  | WriteOword (desc dword2 dword3 addr : Z)
  | WriteCtpio (addr : Z) (bytes : list Z).

(** The operation tables: the choices [ef10_vi_initialise_ops] makes. *)
Inductive ctpio_method :=
  | Ctpio_fast | Ctpio_paced | Ctpio_in_order | Ctpio_not_supp.

Inductive vi_ops :=
  | Ops_none
  | Ops_falcon
  | Ops_ef10 (ctpio : ctpio_method) (receive_init_ps : bool) (prime_bug35388 : bool).

(** * [ef_vi] *)

Record ef_vi := mk_vi {
  inited : Z;
  rx_buffer_len : Z;
  rx_prefix_len : Z;
  rx_discard_mask : Z;
  rx_ts_correction : Z;
  tx_ts_correction_ns : Z;
  ts_format : ef_timestamp_format;
  vi_ctpio_mmap_ptr : Z;
  vi_ctpio_wb_ticks : Z;
  vi_is_packed_stream : Z;
  vi_is_normal : Z;
  vi_ps_buf_size : Z;
  io : Z;
  io_log : list io_write;
  linked_pio : option ef_pio;
  evq_base : list Z;  (* event words *)
  evq_mask : Z;
  timer_quantum_ns : Z;
  tx_push_thresh : Z;
  vi_txq : ef_vi_ring;
  vi_rxq : ef_vi_ring;
  ep_state : ef_vi_state;
  vi_flags : Z;
  vi_out_flags : Z;
  vi_stats : option ef_vi_stats;
  vi_qs : list (option nat);
  vi_qs_n : Z;
  tx_alt_num : Z;
  tx_alt_id2hw : list Z;
  tx_alt_hw2id : list Z;
  nic_type : ef_vi_nic_type;
  ops : vi_ops
}.

#[export] Instance eta_txq_state : Eta ef_vi_txq_state := {|
  eta r := mk_txq_state (tx_previous r) (tx_added r) (tx_removed r) (tx_ts_nsec r);
  eta_ok := ltac:(solve_eta) |}.

#[export] Instance eta_rxq_state : Eta ef_vi_rxq_state := {|
  eta r := mk_rxq_state (rx_posted r) (rx_added r) (rx_removed r) (rx_in_jumbo r)
             (rx_bytes_acc r) (rx_last_desc_i r) (rx_ps_credit_avail r);
  eta_ok := ltac:(solve_eta) |}.

#[export] Instance eta_eventq_state : Eta ef_eventq_state := {|
  eta r := mk_eventq_state (evq_ptr r) (evq_clear_stride r) (sync_timestamp_major r)
             (sync_timestamp_minor r) (sync_timestamp_minimum r)
             (sync_timestamp_synchronised r) (sync_flags r);
  eta_ok := ltac:(solve_eta) |}.

#[export] Instance eta_vi_state : Eta ef_vi_state := {|
  eta r := mk_vi_state (st_evq r) (st_txq r) (st_rxq r); eta_ok := ltac:(solve_eta) |}.

#[export] Instance eta_ring : Eta ef_vi_ring := {|
  eta r := mk_ring (q_mask r) (q_descriptors r) (q_ids r); eta_ok := ltac:(solve_eta) |}.

#[export] Instance eta_stats : Eta ef_vi_stats := {|
  eta r := mk_stats (rx_ev_lost r) (rx_ev_bad_desc_i r) (rx_ev_bad_q_label r) (evq_gap r);
  eta_ok := ltac:(solve_eta) |}.

#[export] Instance eta_pio : Eta ef_pio := {|
  eta r := mk_pio (pio_buffer r) (pio_io r); eta_ok := ltac:(solve_eta) |}.

#[export] Instance eta_vi : Eta ef_vi := {|
  eta r := mk_vi (inited r) (rx_buffer_len r) (rx_prefix_len r) (rx_discard_mask r)
    (rx_ts_correction r) (tx_ts_correction_ns r) (ts_format r) (vi_ctpio_mmap_ptr r)
    (vi_ctpio_wb_ticks r) (vi_is_packed_stream r) (vi_is_normal r) (vi_ps_buf_size r) (io r)
    (io_log r) (linked_pio r) (evq_base r) (evq_mask r) (timer_quantum_ns r) (tx_push_thresh r)
    (vi_txq r) (vi_rxq r) (ep_state r) (vi_flags r) (vi_out_flags r) (vi_stats r) (vi_qs r)
    (vi_qs_n r) (tx_alt_num r) (tx_alt_id2hw r) (tx_alt_hw2id r) (nic_type r) (ops r);
  eta_ok := ltac:(solve_eta) |}.

(** ** Shorthand for the states reached through [ep_state] *)

Abbreviation txq_state vi := (st_txq (ep_state vi)).
Abbreviation rxq_state vi := (st_rxq (ep_state vi)).
Abbreviation evq_state vi := (st_evq (ep_state vi)).

Definition upd_txq (f : ef_vi_txq_state -> ef_vi_txq_state) (vi : ef_vi) : ef_vi :=
  vi <| ep_state ::= fun s => s <| st_txq ::= f |> |>.
Definition upd_rxq (f : ef_vi_rxq_state -> ef_vi_rxq_state) (vi : ef_vi) : ef_vi :=
  vi <| ep_state ::= fun s => s <| st_rxq ::= f |> |>.
Definition upd_evq (f : ef_eventq_state -> ef_eventq_state) (vi : ef_vi) : ef_vi :=
  vi <| ep_state ::= fun s => s <| st_evq ::= f |> |>.

(** A test of [vi->vi_flags]. *)
Definition vi_flag (vi : ef_vi) (flag : Z) : bool := nz (Z.land (vi_flags vi) flag).

(** [writel] to the register window. *)
Definition writel (val addr : Z) (vi : ef_vi) : ef_vi :=
  vi <| io_log ::= fun l => l ++ [Writel (u32 val) addr] |>.

(** * Accessors of ef_vi.h *)

(** The C [int] results are conversions of unsigned 32-bit values. *)
Definition ef_vi_receive_prefix_len (vi : ef_vi) : Z := s32 (rx_prefix_len vi).
Definition ef_vi_receive_buffer_len (vi : ef_vi) : Z := s32 (rx_buffer_len vi).
Definition ef_vi_receive_set_buffer_len (vi : ef_vi) (buf_len : Z) : ef_vi :=
  vi <| rx_buffer_len := u32 buf_len |>.

Definition ef_vi_receive_space (vi : ef_vi) : Z :=
  let qs := rxq_state vi in
  s32 (u32 (q_mask (vi_rxq vi) - u32 (rx_added qs - rx_removed qs))).
Definition ef_vi_receive_fill_level (vi : ef_vi) : Z :=
  let qs := rxq_state vi in s32 (u32 (rx_added qs - rx_removed qs)).
Definition ef_vi_receive_capacity (vi : ef_vi) : Z := s32 (q_mask (vi_rxq vi)).

Definition ef_vi_transmit_space (vi : ef_vi) : Z :=
  let qs := txq_state vi in
  s32 (u32 (q_mask (vi_txq vi) - u32 (tx_added qs - tx_removed qs))).
Definition ef_vi_transmit_fill_level (vi : ef_vi) : Z :=
  let qs := txq_state vi in s32 (u32 (tx_added qs - tx_removed qs)).
Definition ef_vi_transmit_capacity (vi : ef_vi) : Z := s32 (q_mask (vi_txq vi)).

Record ef_vi_transmit_alt_overhead := mk_alt_overhead {
  pre_round : Z;
  alt_mask : Z;
  post_round : Z
}.

Definition ef_vi_transmit_alt_usage (params : ef_vi_transmit_alt_overhead) (pkt_len : Z) : Z :=
  let pkt_len := u32 (pkt_len + pre_round params) in
  let pkt_len := Z.land pkt_len (alt_mask params) in
  u32 (pkt_len + post_round params).

Definition ef_eventq_current (evq : ef_vi) : Z := u32 (evq_ptr (evq_state evq)).

(** [memset(vi, 0, sizeof( *vi))]: null pointers are empty memories. *)
Definition vi_zero : ef_vi :=
  mk_vi 0 0 0 0 0 0 TS_FORMAT_SECONDS_27FRACTION 0 0 0 0 0 0 [] None [] 0 0 0
    (mk_ring 0 [] []) (mk_ring 0 [] [])
    (mk_vi_state (mk_eventq_state 0 0 0 0 0 0 0) (mk_txq_state 0 0 0 0)
       (mk_rxq_state 0 0 0 0 0 0 0))
    0 0 None (replicate (Z.to_nat EF_VI_MAX_QS) None) 0 0 [] []
    (mk_nic_type EF_VI_ARCH_FALCON 0 0 0) Ops_none.
