(* ===== verification/Ring.v ===== *)
(** The request-id rings of a VI as queues.

    Both descriptor rings keep, beside the descriptors, one request id per
    slot and two free-running 32-bit counters, [removed] and [added]; the
    slot of a counter is its value masked with [q_mask = 2^k - 1].  This file
    gives the abstract view, the ids from [removed] on read as a FIFO queue, and
    the lemmas that say what a store at [added & mask], at [removed & mask] and
    at [(added - 1) & mask] does to it, 32-bit wrap-around included. *)

From stdpp Require Import base list numbers.
From S2P Require Import Prelude Vi.

Open Scope Z_scope.

(** A ring of [2^k] slots. *)
Definition pow2_mask (mask : Z) : Prop := exists k, 0 <= k <= 31 /\ mask = 2 ^ k - 1.

(** The slots of the ring in order, starting from the slot of [base]. *)
Definition rview (mask : Z) (ids : list Z) (base : Z) : list Z :=
  map (fun j => aget ids (Z.land (base + j) mask)) (seqZ 0 (mask + 1)).

(** The ring holds the queue [q]: its entries are in the slots from [removed]
    on, every other slot is unused, and one slot at least is always unused. *)
Record ring_rep (mask : Z) (ids : list Z) (removed added : Z) (q : list Z) : Prop := {
  rr_mask : pow2_mask mask;
  rr_len : Z.of_nat (length ids) = mask + 1;
  rr_removed : 0 <= removed < 4294967296;
  rr_added : added = u32 (removed + Z.of_nat (length q));
  rr_fits : Z.of_nat (length q) <= mask;
  rr_view : rview mask ids removed =
            q ++ replicate (Z.to_nat (mask + 1) - length q) EF_REQUEST_ID_MASK
}.

(** ** Slots *)

Lemma pow2_mask_range mask : pow2_mask mask -> 0 <= mask < 2147483648.
Proof.
  intros (k & Hk & ->). pose proof (pow2_pos k). assert (2 ^ k <= 2 ^ 31); [|lia].
  apply Z.pow_le_mono_r; lia.
Qed.

Lemma slot_range mask x : pow2_mask mask -> 0 <= Z.land x mask <= mask.
Proof.
  intros (k & Hk & ->). pose proof (land_mask_range x k). lia.
Qed.

Lemma slot_mod mask x : pow2_mask mask -> Z.land x mask = x `mod` (mask + 1).
Proof.
  intros (k & Hk & ->). rewrite land_mask by lia. f_equal. lia.
Qed.

(** The wrap-around of a 32-bit counter does not move its slot. *)
Lemma slot_u32 mask x : pow2_mask mask -> Z.land (u32 x) mask = Z.land x mask.
Proof.
  intros (k & Hk & ->). rewrite !land_mask by lia. apply u32_mod_pow2. lia.
Qed.

Lemma slot_u32_add mask x y :
  pow2_mask mask -> Z.land (u32 x + y) mask = Z.land (x + y) mask.
Proof.
  intros H. rewrite <- (slot_u32 mask (u32 x + y)) by done.
  by rewrite u32_add_l, slot_u32.
Qed.

Lemma slot_inj mask base i j :
  pow2_mask mask -> 0 <= i <= mask -> 0 <= j <= mask ->
  Z.land (base + i) mask = Z.land (base + j) mask -> i = j.
Proof.
  intros Hm Hi Hj. rewrite !slot_mod by done. intros E.
  assert (E' : (i - j) `mod` (mask + 1) = 0).
  { replace (i - j) with ((base + i) - (base + j)) by lia.
    rewrite Zminus_mod, E, Z.sub_diag. apply Zmod_0_l. }
  apply Z.mod_divide in E' as [c Hc]; [|lia].
  assert (c = 0) by nia. lia.
Qed.

Lemma slot_add_size mask x : pow2_mask mask -> Z.land (x + (mask + 1)) mask = Z.land x mask.
Proof.
  intros H. rewrite !slot_mod by done. rewrite <- (Z.mul_1_l (mask + 1)) at 1.
  apply Z_mod_plus_full.
Qed.

(** ** The view *)

Lemma length_rview mask ids base : 0 <= mask -> length (rview mask ids base) = Z.to_nat (mask + 1).
Proof. intros. unfold rview. rewrite length_map, length_seqZ. done. Qed.

Lemma rview_lookup mask ids base j :
  0 <= j <= mask -> rview mask ids base !! Z.to_nat j = Some (aget ids (Z.land (base + j) mask)).
Proof.
  intros. unfold rview. rewrite list_lookup_fmap, lookup_seqZ_lt by lia.
  cbn. repeat f_equal. lia.
Qed.

(** Two views agree when they agree slot by slot. *)
Lemma rview_ext mask ids base l :
  0 <= mask -> length l = Z.to_nat (mask + 1) ->
  (forall j, 0 <= j <= mask -> l !! Z.to_nat j = Some (aget ids (Z.land (base + j) mask))) ->
  rview mask ids base = l.
Proof.
  intros Hm Hl Hj. apply list_eq_same_length with (Z.to_nat (mask + 1)); [done|by apply length_rview|].
  intros i x y Hi Hx Hy.
  replace i with (Z.to_nat (Z.of_nat i)) in * by lia.
  rewrite rview_lookup in Hx by lia. rewrite Hj in Hy by lia. congruence.
Qed.

Lemma rview_u32 mask ids base : pow2_mask mask -> rview mask ids (u32 base) = rview mask ids base.
Proof.
  intros Hm. unfold rview. apply map_ext. intros j. by rewrite slot_u32_add.
Qed.

(** A store to the slot of [base + j]. *)
Lemma rview_aset mask ids base j v :
  pow2_mask mask -> Z.of_nat (length ids) = mask + 1 -> 0 <= j <= mask ->
  rview mask (aset ids (Z.land (base + j) mask) v) base = <[Z.to_nat j := v]> (rview mask ids base).
Proof.
  intros Hm Hl Hj. pose proof (pow2_mask_range mask Hm).
  apply rview_ext; [lia|by rewrite length_insert, length_rview by lia|].
  intros i Hi. destruct (Z.eq_dec i j) as [->|Hne].
  - rewrite list_lookup_insert_eq by (rewrite length_rview; lia).
    pose proof (slot_range mask (base + j) Hm). by rewrite aget_aset_eq by lia.
  - rewrite list_lookup_insert_ne by lia. rewrite rview_lookup by lia.
    pose proof (slot_range mask (base + j) Hm). pose proof (slot_range mask (base + i) Hm).
    rewrite aget_aset_ne; [done|lia..|].
    intros E. apply Hne. symmetry. by apply (slot_inj mask base).
Qed.

(** Starting one slot later rotates the view. *)
Lemma rview_rotate mask ids base x l :
  pow2_mask mask -> rview mask ids base = x :: l -> rview mask ids (base + 1) = l ++ [x].
Proof.
  intros Hm E. pose proof (pow2_mask_range mask Hm).
  assert (Hl : length (x :: l) = Z.to_nat (mask + 1)) by (rewrite <- E; apply length_rview; lia).
  cbn [length] in Hl.
  apply rview_ext; [lia|rewrite length_app; cbn; lia|].
  intros j Hj. destruct (Z.eq_dec j mask) as [->|].
  - rewrite list_lookup_middle by lia.
    replace (base + 1 + mask) with (base + (mask + 1)) by lia. rewrite slot_add_size by done.
    pose proof (rview_lookup mask ids base 0 ltac:(lia)) as H0. rewrite E, Z.add_0_r in H0.
    exact H0.
  - rewrite lookup_app_l by lia.
    pose proof (rview_lookup mask ids base (j + 1) ltac:(lia)) as H1. rewrite E in H1.
    replace (Z.to_nat (j + 1)) with (S (Z.to_nat j)) in H1 by lia.
    etransitivity; [exact H1|]. do 3 f_equal. lia.
Qed.

(** ** Queue operations *)

Section ring_rep.
Context {mask : Z} {ids : list Z} {removed added : Z}.

(** The number of entries, as the code computes it. *)
Lemma ring_count q :
  ring_rep mask ids removed added q -> u32 (added - removed) = Z.of_nat (length q).
Proof.
  intros []. pose proof (pow2_mask_range mask rr_mask0). subst added.
  rewrite u32_sub_l. replace (removed + Z.of_nat (length q) - removed)
    with (Z.of_nat (length q)) by lia.
  apply u32_small. lia.
Qed.

(** A store at [added] appends to the queue. *)
Lemma ring_push q v :
  ring_rep mask ids removed added q -> Z.of_nat (length q) < mask ->
  ring_rep mask (aset ids (Z.land added mask) v) removed (u32 (added + 1)) (q ++ [v]).
Proof.
  intros [] Hlt. pose proof (pow2_mask_range mask rr_mask0).
  split; try done.
  - by rewrite length_aset.
  - subst added. rewrite u32_add_l, length_app. cbn. f_equal. lia.
  - rewrite length_app. cbn. lia.
  - subst added. rewrite slot_u32, rview_aset by (done || lia). rewrite rr_view0.
    rewrite insert_app_r_alt by lia. rewrite Nat2Z.id, Nat.sub_diag, length_app.
    replace (Z.to_nat (mask + 1) - length q)%nat
      with (S (Z.to_nat (mask + 1) - (length q + 1)))%nat by lia.
    cbn. by rewrite <- app_assoc.
Qed.

(** The slot of [added] is unused. *)
Lemma ring_next_free q :
  ring_rep mask ids removed added q ->
  aget ids (Z.land added mask) = EF_REQUEST_ID_MASK.
Proof.
  intros []. pose proof (pow2_mask_range mask rr_mask0). subst added. rewrite slot_u32 by done.
  pose proof (rview_lookup mask ids removed (Z.of_nat (length q)) ltac:(lia)) as E.
  rewrite rr_view0, lookup_app_r, lookup_replicate_2 in E by lia. congruence.
Qed.

(** The slot of [removed] holds the head of the queue. *)
Lemma ring_head x q :
  ring_rep mask ids removed added (x :: q) -> aget ids (Z.land removed mask) = x.
Proof.
  intros []. pose proof (pow2_mask_range mask rr_mask0).
  pose proof (rview_lookup mask ids removed 0 ltac:(lia)) as E.
  rewrite rr_view0, Z.add_0_r in E. by injection E.
Qed.

(** Freeing the slot of [removed] takes the head off. *)
Lemma ring_pop x q :
  ring_rep mask ids removed added (x :: q) ->
  ring_rep mask (aset ids (Z.land removed mask) EF_REQUEST_ID_MASK) (u32 (removed + 1)) added q.
Proof.
  intros []. pose proof (pow2_mask_range mask rr_mask0). cbn [length] in *.
  split; try done.
  - by rewrite length_aset.
  - apply u32_range.
  - subst added. rewrite u32_add_l. f_equal. lia.
  - lia.
  - rewrite rview_u32 by done.
    pose proof (rview_aset mask ids removed 0 EF_REQUEST_ID_MASK rr_mask0 rr_len0 ltac:(lia)) as E.
    rewrite Z.add_0_r, rr_view0 in E. cbn in E.
    apply rview_rotate in E; [|done]. rewrite E, <- app_assoc. f_equal.
    replace (Z.to_nat (mask + 1) - length q)%nat
      with (S (Z.to_nat (mask + 1) - S (length q)))%nat by lia.
    by rewrite replicate_S_end.
Qed.

(** Freeing the slot before [added] takes the last entry back. *)
Lemma ring_unpush q x :
  ring_rep mask ids removed added (q ++ [x]) ->
  ring_rep mask (aset ids (Z.land (u32 (added - 1)) mask) EF_REQUEST_ID_MASK) removed
    (u32 (added - 1)) q.
Proof.
  intros []. pose proof (pow2_mask_range mask rr_mask0). rewrite length_app in *. cbn in *.
  assert (E : u32 (added - 1) = u32 (removed + Z.of_nat (length q))).
  { subst added. rewrite u32_sub_l. f_equal. lia. }
  split; try done.
  - by rewrite length_aset.
  - lia.
  - rewrite E, slot_u32, rview_aset by (done || lia). rewrite rr_view0.
    rewrite Nat2Z.id, <- app_assoc, insert_app_r_alt, Nat.sub_diag by lia. cbn.
    f_equal. by replace (Z.to_nat (mask + 1) - length q)%nat
      with (S (Z.to_nat (mask + 1) - (length q + 1)))%nat by lia.
Qed.

(** A store to the slot before [added] replaces the last entry. *)
Lemma ring_set_last q x v :
  ring_rep mask ids removed added (q ++ [x]) ->
  ring_rep mask (aset ids (Z.land (u32 (added - 1)) mask) v) removed added (q ++ [v]).
Proof.
  intros []. pose proof (pow2_mask_range mask rr_mask0). rewrite length_app in *. cbn in *.
  assert (E : u32 (added - 1) = u32 (removed + Z.of_nat (length q))).
  { subst added. rewrite u32_sub_l. f_equal. lia. }
  split; try done; rewrite ?length_app; cbn; try done.
  - by rewrite length_aset.
  - rewrite E, slot_u32, rview_aset by (done || lia). rewrite rr_view0.
    rewrite Nat2Z.id, <- app_assoc, insert_app_r_alt, Nat.sub_diag by lia. cbn.
    by rewrite <- app_assoc.
Qed.

(** Moving [added] back over entries that are unused slots. *)
Lemma ring_shrink q n :
  ring_rep mask ids removed added (q ++ replicate n EF_REQUEST_ID_MASK) ->
  ring_rep mask ids removed (u32 (removed + Z.of_nat (length q))) q.
Proof.
  intros []. pose proof (pow2_mask_range mask rr_mask0). rewrite length_app, length_replicate in *.
  split; try done; [lia|].
  rewrite rr_view0, <- app_assoc, <- replicate_add. do 2 f_equal. lia.
Qed.

(** Pushing an entry whose id slot stays unused: only [added] moves. *)
Lemma ring_push_unused q :
  ring_rep mask ids removed added q -> Z.of_nat (length q) < mask ->
  ring_rep mask ids removed (u32 (added + 1)) (q ++ [EF_REQUEST_ID_MASK]).
Proof.
  intros [] Hlt. split; try done; rewrite ?length_app; cbn.
  - subst added. rewrite u32_add_l. f_equal. lia.
  - lia.
  - rewrite rr_view0, <- app_assoc. f_equal.
    by replace (Z.to_nat (mask + 1) - length q)%nat
      with (S (Z.to_nat (mask + 1) - (length q + 1)))%nat by lia.
Qed.
End ring_rep.

(** A ring of unused slots is empty, whatever the counters. *)
Lemma ring_empty mask removed :
  pow2_mask mask -> 0 <= removed < 4294967296 ->
  ring_rep mask (replicate (Z.to_nat (mask + 1)) EF_REQUEST_ID_MASK) removed removed [].
Proof.
  intros Hm Hr. pose proof (pow2_mask_range mask Hm). split; try done; cbn.
  - rewrite length_replicate. lia.
  - rewrite Z.add_0_r, u32_small; done.
  - lia.
  - rewrite Nat.sub_0_r. apply rview_ext; [lia|apply length_replicate|].
    intros j Hj. rewrite lookup_replicate_2 by lia. unfold aget.
    pose proof (slot_range mask (removed + j) Hm). by rewrite lookup_replicate_2 by lia.
Qed.
