(* ===== verification/Tx.v ===== *)
(** The EF10 transmit path: the transmit half of lib/ciul/ef10_vi.c and
    lib/ciul/pt_tx.c.

    The loop of [ef10_ef_vi_transmitv_init] runs once per descriptor; it stops
    with [-EAGAIN] when the ring is full, so it runs at most [mask + 1] times
    from any state and that is the fuel used ([transmitv_init_total]).  The loop
    of [ef_vi_transmit_unbundle] visits each slot at most once; its fuel is
    [mask + 1] as well. *)

From stdpp Require Import base list numbers.
From S2P Require Import Prelude Bitfield Vi Ring PioCopy.

Open Scope Z_scope.

(** * Descriptors *)

Definition EFVI_EF10_DMA_TX_FRAG := 1.
Definition EF10_BUF_VADDR_ORDER_SHIFT := 48.
Definition EF10_BUF_VADDR_2_ID_OFFSET (vaddr : Z) : Z := Z.land vaddr 281474976710655.
Definition EF10_BUF_VADDR_2_ORDER (vaddr : Z) : Z := Z.shiftr vaddr EF10_BUF_VADDR_ORDER_SHIFT.

Definition ef10_dma_tx_calc_ip_buf (buf_vaddr bytes frag : Z) : Z :=
  CI_POPULATE_QWORD
    [(ESF_DZ_TX_USR_BUF_ID_OFFSET, EF10_BUF_VADDR_2_ID_OFFSET buf_vaddr);
     (ESF_DZ_TX_USR_BUF_PAGE_SIZE, EF10_BUF_VADDR_2_ORDER buf_vaddr);
     (ESF_DZ_TX_USR_BYTE_CNT, bytes);
     (ESF_DZ_TX_USR_CONT, frag)].

Definition ef10_dma_tx_calc_ip_phys (src_dma_addr bytes frag : Z) : Z :=
  CI_POPULATE_QWORD
    [(ESF_DZ_TX_KER_CONT, frag);
     (ESF_DZ_TX_KER_BYTE_CNT, bytes);
     (ESF_DZ_TX_KER_BUF_ADDR, src_dma_addr)].

(** * [ef10_ef_vi_transmitv_init] *)

Record ef_iovec := mk_ef_iovec {
  iov_base : Z;  (* ef_addr: uint64_t *)
  iov_len : Z  (* unsigned *)
}.

(** [qs->added - qs->removed >= q->mask] *)
Definition tx_full (vi : ef_vi) : bool :=
  let qs := txq_state vi in
  q_mask (vi_txq vi) <=? u32 (tx_added qs - tx_removed qs).

(** [*dp = desc] for the descriptor of slot [di]. *)
Definition tx_set_desc (di desc : Z) (vi : ef_vi) : ef_vi :=
  vi <| vi_txq ::= fun q => q <| q_descriptors ::= fun d => aset d di desc |> |>.

(** [q->ids[di] = id] *)
Definition tx_set_id (di id : Z) (vi : ef_vi) : ef_vi :=
  vi <| vi_txq ::= fun q => q <| q_ids ::= fun l => aset l di id |> |>.

Definition tx_set_added (added : Z) (vi : ef_vi) : ef_vi :=
  upd_txq (fun qs => qs <| tx_added := u32 added |>) vi.

(** The [while( 1 )] loop: [iov] is what follows the current iovec, of which
    [len] bytes at [dma_addr] are left.  [None] is running out of fuel; the
    result is the return code so far and the last slot written. *)
Fixpoint transmitv_init_loop (fuel : nat) (added_save : Z) (vi : ef_vi) (dma_addr len : Z)
    (iov : list ef_iovec) : option (ef_vi * Z * Z) :=
  match fuel with
  | O => None
  | S fuel =>
    if tx_full vi then Some (tx_set_added added_save vi, - EAGAIN, 0)
    else
      let di := Z.land (tx_added (txq_state vi)) (q_mask (vi_txq vi)) in
      let vi := tx_set_added (tx_added (txq_state vi) + 1) vi in
      let last := match iov with [] => true | _ => false end in
      (* [if (--iov_len == 0) break; iov++; ...] *)
      let next vi :=
        match iov with
        | [] => Some (vi, 0, di)
        | v :: iov' => transmitv_init_loop fuel added_save vi (iov_base v) (iov_len v) iov'
        end in
      if vi_flag vi EF_VI_TX_PHYS_ADDR then
        next (tx_set_desc di (ef10_dma_tx_calc_ip_phys dma_addr len
                (if last then 0 else EFVI_EF10_DMA_TX_FRAG)) vi)
      else
        let dma_len := u32 (Z.land (u64 (Z.lnot dma_addr)) 4095 + 1) in
        let dma_len := if len <? dma_len then len else dma_len in
        let vi := tx_set_desc di (ef10_dma_tx_calc_ip_buf dma_addr dma_len
                    (if last && (dma_len =? len) then 0 else EFVI_EF10_DMA_TX_FRAG)) vi in
        let dma_addr := u64 (dma_addr + dma_len) in
        let len := u32 (len - dma_len) in
        if 0 <? len then transmitv_init_loop fuel added_save vi dma_addr len iov
        else next vi
  end.

(** [iov] and [iov_len] as the first iovec and the others. *)
Definition ef10_ef_vi_transmitv_init (vi : ef_vi) (iov0 : ef_iovec) (iov : list ef_iovec)
    (dma_id : Z) : option (ef_vi * Z) :=
  let added_save := tx_added (txq_state vi) in
  match transmitv_init_loop (S (Z.to_nat (q_mask (vi_txq vi)))) added_save vi
          (iov_base iov0) (iov_len iov0) iov with
  | None => None
  | Some (vi, rc, di) => if rc =? 0 then Some (tx_set_id di dma_id vi, 0) else Some (vi, rc)
  end.

(** * Doorbell and descriptor push *)

Definition ER_DZ_TX_DESC_UPD_REG := 2576.

Definition ef_vi_transmit_push_desc (vi : ef_vi) (dp : Z) : ef_vi :=
  vi <| io_log ::= fun l =>
    l ++ [WritePush dp (Z.land (tx_added (txq_state vi)) (q_mask (vi_txq vi)))
            (io vi + ER_DZ_TX_DESC_UPD_REG)] |>.

Definition ef_vi_transmit_push_doorbell (vi : ef_vi) : ef_vi :=
  writel (Z.land (tx_added (txq_state vi)) (q_mask (vi_txq vi)))
    (io vi + ER_DZ_TX_DESC_UPD_REG + 8) vi.

Definition ef10_tx_descriptor_can_push (dp : Z) : bool :=
  let is_opt := Z.shiftl 1 (LBN ESF_DZ_TX_DESC_IS_OPT) in
  let is_cont := Z.shiftl 1 (LBN ESF_DZ_TX_USR_CONT) in
  let is_pio := Z.shiftl 1 (LBN ESF_DZ_TX_PIO_OPT) in
  (Z.land dp (Z.lor is_opt is_cont) =? 0) ||
  (Z.land dp (Z.lor is_opt is_pio) =? Z.lor is_opt is_pio).

Definition ef10_ef_vi_transmit_push (vi : ef_vi) : ef_vi :=
  let qs := txq_state vi in
  let q := vi_txq vi in
  let di := Z.land (tx_previous qs) (q_mask q) in
  let dp := aget (q_descriptors q) di in
  let vi :=
    if (u32 (tx_previous qs - tx_removed qs) <? tx_push_thresh vi) && ef10_tx_descriptor_can_push dp
    then ef_vi_transmit_push_desc vi dp
    else ef_vi_transmit_push_doorbell vi in
  upd_txq (fun qs => qs <| tx_previous := tx_added qs |>) vi.

Definition ef10_ef_vi_transmitv (vi : ef_vi) (iov0 : ef_iovec) (iov : list ef_iovec) (dma_id : Z)
    : option (ef_vi * Z) :=
  match ef10_ef_vi_transmitv_init vi iov0 iov dma_id with
  | None => None
  | Some (vi, rc) => Some (if rc =? 0 then ef10_ef_vi_transmit_push vi else vi, rc)
  end.

Definition ef10_ef_vi_transmit (vi : ef_vi) (base len dma_id : Z) : option (ef_vi * Z) :=
  match ef10_ef_vi_transmitv_init vi (mk_ef_iovec base (u32 len)) [] dma_id with
  | None => None
  | Some (vi, rc) => Some (if rc =? 0 then ef10_ef_vi_transmit_push vi else vi, rc)
  end.

(** * Programmed I/O *)

Definition ef10_pio_set_desc (vi : ef_vi) (offset len dma_id : Z) : ef_vi :=
  let di := Z.land (tx_added (txq_state vi)) (q_mask (vi_txq vi)) in
  let desc := CI_POPULATE_QWORD
    [(ESF_DZ_TX_PIO_TYPE, 1); (ESF_DZ_TX_PIO_OPT, 1);
     (ESF_DZ_TX_PIO_BYTE_CNT, len); (ESF_DZ_TX_PIO_BUF_ADDR, offset)] in
  tx_set_id di dma_id (tx_set_desc di desc vi).

Definition ef10_pio_push (vi : ef_vi) : ef_vi :=
  let vi := tx_set_added (tx_added (txq_state vi) + 1) vi in
  ef10_ef_vi_transmit_push vi.

(** The common end of the PIO transmits: set the descriptor, push it if there
    is room, undo it if not. *)
Definition ef10_pio_send (vi : ef_vi) (offset len dma_id : Z) : ef_vi * Z :=
  let vi := ef10_pio_set_desc vi offset len dma_id in
  let qs := txq_state vi in
  if u32 (tx_added qs - tx_removed qs) <? q_mask (vi_txq vi) then (ef10_pio_push vi, 0)
  else
    (tx_set_id (Z.land (tx_added (txq_state vi)) (q_mask (vi_txq vi))) EF_REQUEST_ID_MASK vi,
     - EAGAIN).

Definition ef10_ef_vi_transmit_pio (vi : ef_vi) (offset len dma_id : Z) : ef_vi * Z :=
  if nz (Z.land offset 63) then (vi, - EINVAL) else ef10_pio_send vi offset len dma_id.

(** The stores to [pio->pio_io + offset]. *)
Definition pio_store (offset : Z) (bytes : list Z) (vi : ef_vi) : ef_vi :=
  vi <| linked_pio ::= option_map (fun pio =>
    pio <| pio_io ::= fun m => splice m (Z.to_nat offset) bytes |>) |>.

Section pio.
(** The address the PIO aperture is mapped at. *)
Context (pio_addr : Z).

Definition ef10_ef_vi_transmit_copy_pio (vi : ef_vi) (offset : Z) (src_buf : src_iov) (dma_id : Z)
    : option (ef_vi * Z) :=
  if nz (Z.land offset 63) then Some (vi, - EINVAL)
  else
    match __memcpy_to_pio (pio_addr + offset) src_buf false with
    | None => None
    | Some bytes =>
      let vi := pio_store offset bytes vi in
      Some (ef10_pio_send vi offset (Z.of_nat (si_len src_buf)) dma_id)
    end.

Definition ef10_ef_vi_transmitv_copy_pio (vi : ef_vi) (offset : Z) (iov0 : src_iov)
    (iov1 : option src_iov) (dma_id : Z) : option (ef_vi * Z) :=
  if nz (Z.land offset 63) then Some (vi, - EINVAL)
  else
    let len := s32 (Z.of_nat (si_len iov0)) in
    match memcpy_iov_to_pio_aligned (pio_addr + offset)
            (match iov1 with Some v => [iov0; v] | None => [iov0] end) with
    | None => None
    | Some bytes =>
      let vi := pio_store offset bytes vi in
      let len :=
        match iov1 with Some v => s32 (len + Z.of_nat (si_len v)) | None => len end in
      Some (ef10_pio_send vi offset len dma_id)
    end.

(** [ef_pio_memcpy] of pt_tx.c: copy into the host's image of the region,
    then rewrite the whole words touched.  [base] holds the [len] bytes. *)
Definition ef_pio_memcpy (vi : ef_vi) (base : list Z) (offset : nat) : option (ef_vi * Z) :=
  let len := length base in
  let lead := Nat.modulo offset MEMCPY_TO_PIO_ALIGN in
  let vi := vi <| linked_pio ::= option_map (fun pio =>
    pio <| pio_buffer ::= fun m => splice m offset base |>) |> in
  let len := (len + lead)%nat in
  let offset := (offset - lead)%nat in
  let len := ((len + 7) / 8 * 8)%nat in
  let src := match linked_pio vi with Some pio => drop offset (pio_buffer pio) | None => [] end in
  match __memcpy_to_pio (pio_addr + Z.of_nat offset) (mk_iov 0 src len) true with
  | None => None
  | Some bytes => Some (pio_store (Z.of_nat offset) bytes vi, 0)
  end.
End pio.

(** * Warming the transmit path *)

Record ef_vi_tx_warm_state := mk_warm_state {
  warm_removed : Z;
  warm_ctpio_mmap_ptr : Z
}.

Definition ef_vi_start_transmit_warm (vi : ef_vi) (warm_ctpio_ptr : Z)
    : ef_vi * ef_vi_tx_warm_state :=
  let qs := txq_state vi in
  let saved_state := mk_warm_state (tx_removed qs) (vi_ctpio_mmap_ptr vi) in
  let vi := upd_txq (fun qs => qs <| tx_removed := u32 (tx_added qs - q_mask (vi_txq vi)) |>) vi in
  (vi <| vi_ctpio_mmap_ptr := warm_ctpio_ptr |>, saved_state).

Definition ef_vi_stop_transmit_warm (vi : ef_vi) (state : ef_vi_tx_warm_state) : ef_vi :=
  let vi := upd_txq (fun qs => qs <| tx_removed := warm_removed state |>) vi in
  vi <| vi_ctpio_mmap_ptr := warm_ctpio_mmap_ptr state |>.

Definition ef10_ef_vi_transmit_pio_warm (vi : ef_vi) : ef_vi :=
  let '(vi, state) := ef_vi_start_transmit_warm vi 0 in
  let '(vi, _) := ef10_ef_vi_transmit_pio vi 0 0 0 in
  ef_vi_stop_transmit_warm vi state.

Definition ef10_ef_vi_transmit_copy_pio_warm (pio_addr : Z) (vi : ef_vi) (pio_offset : Z)
    (src_buf : src_iov) : option ef_vi :=
  let '(vi, state) := ef_vi_start_transmit_warm vi 0 in
  match ef10_ef_vi_transmit_copy_pio pio_addr vi pio_offset src_buf 0 with
  | None => None
  | Some (vi, _) => Some (ef_vi_stop_transmit_warm vi state)
  end.

(** * Cut-through PIO *)

(** The common implementation: the stores to the aperture and the fallback
    bytes.  [wb_flush] and [wb_ticks] only pace the stores.  At least one iovec
    is passed, [iov0]. *)
Definition ef10_ef_vi_transmitv_ctpio (vi : ef_vi) (junk : list Z) (frame_len : Z)
    (iov0 : src_iov) (iov : list src_iov) (threshold : Z) (copy_to_fallback : bool)
    : option (ef_vi * list Z) :=
  let time_stamp_req := b2z (vi_flag vi EF_VI_TX_TIMESTAMPS) in
  let header := CI_POPULATE_DWORD
    [(ESF_FZ_USER_THRESHOLD, threshold); (ESF_FZ_TIME_STAMP_REQ, time_stamp_req);
     (ESF_FZ_FRAME_LENGTH, frame_len)] in
  match memcpy_iov_to_ctpio (vi_ctpio_mmap_ptr vi) copy_to_fallback junk header iov0 iov with
  | None => None
  | Some r =>
    Some (vi <| io_log ::= fun l => l ++ [WriteCtpio (vi_ctpio_mmap_ptr vi) (cr_out r)] |>,
      cr_fallback r)
  end.

(** The entries [ops.transmitv_ctpio] and [ops.transmitv_ctpio_copy]: the
    three methods differ in pacing only, [not_supp] does nothing. *)
Definition transmitv_ctpio_op (m : ctpio_method) (vi : ef_vi) (junk : list Z) (frame_len : Z)
    (iov0 : src_iov) (iov : list src_iov) (threshold : Z) (copy_to_fallback : bool)
    : option (ef_vi * list Z) :=
  match m with
  | Ctpio_not_supp => Some (vi, [])
  | Ctpio_fast | Ctpio_paced | Ctpio_in_order =>
      ef10_ef_vi_transmitv_ctpio vi junk frame_len iov0 iov threshold copy_to_fallback
  end.

(** * TX alternatives *)

Definition ef10_ef_vi_transmit_alt_select (vi : ef_vi) (alt_id : Z) : ef_vi * Z :=
  if tx_full vi then (vi, - EAGAIN)
  else
    let di := Z.land (tx_added (txq_state vi)) (q_mask (vi_txq vi)) in
    let vi := tx_set_added (tx_added (txq_state vi) + 1) vi in
    let alt_id := aget (tx_alt_id2hw vi) alt_id in
    (tx_set_desc di (CI_POPULATE_QWORD
       [(ESF_DZ_TX_DESC_IS_OPT, 1); (ESF_DZ_TX_OPTION_TYPE, 2);
        (ALT_OP_IS_SELECT, 1); (ALT_OP_VFIFO_ID, alt_id)]) vi, 0).

Definition ef10_ef_vi_transmit_alt_select_normal (vi : ef_vi) : ef_vi * Z :=
  if tx_full vi then (vi, - EAGAIN)
  else
    let di := Z.land (tx_added (txq_state vi)) (q_mask (vi_txq vi)) in
    let vi := tx_set_added (tx_added (txq_state vi) + 1) vi in
    (tx_set_desc di (CI_POPULATE_QWORD
       [(ESF_DZ_TX_DESC_IS_OPT, 1); (ESF_DZ_TX_OPTION_TYPE, 2);
        (ALT_OP_IS_SELECT, 1); (ALT_OP_VFIFO_ID, 31)]) vi, 0).

Definition alt_doorbell (vi : ef_vi) (val : Z) : ef_vi :=
  writel val (io vi + ER_DZ_TX_DESC_UPD_REG + 8) vi.

Definition ef10_ef_vi_transmit_alt_stop (vi : ef_vi) (alt_id : Z) : ef_vi * Z :=
  let alt_id := aget (tx_alt_id2hw vi) alt_id in
  (alt_doorbell vi (Z.lor (Z.lor (Z.lor (Z.shiftl 1 11) (Z.shiftl 3 8)) (Z.shiftl 4 5)) alt_id), 0).

Definition ef10_ef_vi_transmit_alt_discard (vi : ef_vi) (alt_id : Z) : ef_vi * Z :=
  let alt_id := aget (tx_alt_id2hw vi) alt_id in
  (alt_doorbell vi (Z.lor (Z.lor (Z.shiftl 1 11) (Z.shiftl 3 8)) alt_id), 0).

Definition ef10_ef_vi_transmit_alt_go (vi : ef_vi) (alt_id : Z) : ef_vi * Z :=
  let alt_id := aget (tx_alt_id2hw vi) alt_id in
  (alt_doorbell vi (Z.lor (Z.lor (Z.shiftl 1 11) (Z.shiftl 2 8)) alt_id), 0).

(** * lib/ciul/pt_tx.c *)

Definition ef_vi_transmit_init (vi : ef_vi) (base len dma_id : Z) : option (ef_vi * Z) :=
  ef10_ef_vi_transmitv_init vi (mk_ef_iovec base (u32 len)) [] dma_id.

(** [while ( qs->added != qs->previous )]: runs [added - previous] times. *)
Fixpoint transmit_init_undo_loop (n : nat) (vi : ef_vi) : ef_vi :=
  match n with
  | O => vi
  | S n =>
    let added := u32 (tx_added (txq_state vi) - 1) in
    let vi := tx_set_added added vi in
    transmit_init_undo_loop n (tx_set_id (Z.land added (q_mask (vi_txq vi))) EF_REQUEST_ID_MASK vi)
  end.

Definition ef_vi_transmit_init_undo (vi : ef_vi) : ef_vi :=
  transmit_init_undo_loop
    (Z.to_nat (u32 (tx_added (txq_state vi) - tx_previous (txq_state vi)))) vi.

(** The [for] loop of [ef_vi_transmit_unbundle]; [ids] are the ids written so
    far. *)
Fixpoint transmit_unbundle_loop (fuel : nat) (vi : ef_vi) (stop : Z) (ids : list Z)
    : option (ef_vi * list Z) :=
  match fuel with
  | O => None
  | S fuel =>
    let i := Z.land (tx_removed (txq_state vi)) (q_mask (vi_txq vi)) in
    if i =? stop then Some (vi, ids)
    else
      let id := aget (q_ids (vi_txq vi)) i in
      let '(vi, ids) :=
        if negb (id =? EF_REQUEST_ID_MASK)
        then (tx_set_id i EF_REQUEST_ID_MASK vi, ids ++ [id]) else (vi, ids) in
      transmit_unbundle_loop fuel
        (upd_txq (fun qs => qs <| tx_removed := u32 (tx_removed qs + 1) |>) vi) stop ids
  end.

(** [desc_id] is the event's [tx.desc_id]. *)
Definition ef_vi_transmit_unbundle (vi : ef_vi) (desc_id : Z) : option (ef_vi * list Z) :=
  transmit_unbundle_loop (S (Z.to_nat (q_mask (vi_txq vi)))) vi
    (Z.land desc_id (q_mask (vi_txq vi))) [].

Definition ef_vi_transmit_alt_num_ids (vi : ef_vi) : Z := tx_alt_num vi.

Definition ef_vi_transmit_ctpio_fallback (vi : ef_vi) (dma_addr len dma_id : Z)
    : option (ef_vi * Z) :=
  if vi_flag vi EF_VI_TX_CTPIO then ef10_ef_vi_transmit vi dma_addr len dma_id
  else Some (vi, - EOPNOTSUPP).

Definition ef_vi_transmitv_ctpio_fallback (vi : ef_vi) (iov0 : ef_iovec) (iov : list ef_iovec)
    (dma_id : Z) : option (ef_vi * Z) :=
  if vi_flag vi EF_VI_TX_CTPIO then ef10_ef_vi_transmitv vi iov0 iov dma_id
  else Some (vi, - EOPNOTSUPP).

(** * The transmit ring as a queue *)

(** The ring holds [q] (an unused id marks a descriptor that is not the last
    of its packet), of which the first [p] entries have been pushed to the NIC. *)
Record tx_rep (vi : ef_vi) (q : list Z) (p : Z) : Prop := {
  tr_ring : ring_rep (q_mask (vi_txq vi)) (q_ids (vi_txq vi)) (tx_removed (txq_state vi))
              (tx_added (txq_state vi)) q;
  tr_desc : Z.of_nat (length (q_descriptors (vi_txq vi))) = q_mask (vi_txq vi) + 1;
  tr_prev : tx_previous (txq_state vi) = u32 (tx_removed (txq_state vi) + p);
  tr_pushed : 0 <= p <= Z.of_nat (length q)
}.

Ltac vi_cbn :=
  cbn [tx_set_added tx_set_desc tx_set_id upd_txq upd_rxq upd_evq fset vi_txq vi_rxq ep_state st_txq
       st_rxq st_evq q_mask q_ids q_descriptors tx_added tx_removed tx_previous tx_ts_nsec
       rx_posted rx_added rx_removed rx_in_jumbo rx_bytes_acc rx_last_desc_i rx_ps_credit_avail
       vi_flags io io_log].

Lemma tx_full_spec vi q p :
  tx_rep vi q p -> tx_full vi = (q_mask (vi_txq vi) <=? Z.of_nat (length q)).
Proof. intros []. unfold tx_full. by rewrite (ring_count q tr_ring0). Qed.

(** One descriptor written and counted. *)
Definition tx_post (vi : ef_vi) (desc : Z) : ef_vi :=
  tx_set_desc (Z.land (tx_added (txq_state vi)) (q_mask (vi_txq vi))) desc
    (tx_set_added (tx_added (txq_state vi) + 1) vi).

Definition tx_written (vi : ef_vi) (descs : list Z) : ef_vi := fold_left tx_post descs vi.

Lemma tx_post_rep vi q p desc :
  tx_rep vi q p -> Z.of_nat (length q) < q_mask (vi_txq vi) ->
  tx_rep (tx_post vi desc) (q ++ [EF_REQUEST_ID_MASK]) p.
Proof.
  intros [] Hlt. unfold tx_post. split; vi_cbn.
  - by apply ring_push_unused.
  - by rewrite length_aset.
  - done.
  - rewrite length_app. cbn. lia.
Qed.

Lemma tx_written_rep descs : forall vi q p,
  tx_rep vi q p -> Z.of_nat (length q) + Z.of_nat (length descs) <= q_mask (vi_txq vi) ->
  tx_rep (tx_written vi descs) (q ++ replicate (length descs) EF_REQUEST_ID_MASK) p /\
  q_mask (vi_txq (tx_written vi descs)) = q_mask (vi_txq vi) /\
  q_ids (vi_txq (tx_written vi descs)) = q_ids (vi_txq vi).
Proof.
  induction descs as [|x descs IH]; intros vi q p Hr Hlen; cbn [tx_written fold_left length replicate].
  - by rewrite app_nil_r.
  - cbn [length] in Hlen.
    destruct (IH (tx_post vi x) (q ++ [EF_REQUEST_ID_MASK]) p) as (H1 & H2 & H3).
    + apply tx_post_rep; [done|lia].
    + rewrite length_app. unfold tx_post. vi_cbn. cbn [length]. lia.
    + rewrite <- app_assoc in H1. done.
Qed.

Lemma tx_written_removed descs : forall vi,
  tx_removed (txq_state (tx_written vi descs)) = tx_removed (txq_state vi).
Proof.
  induction descs as [|x l IH]; intros vi; [done|]. exact (IH (tx_post vi x)).
Qed.

(** ** The fragments of a packet *)

(** Bytes from [addr] to the end of its 4K page. *)
Definition page_left (addr : Z) : Z := 4096 - addr `mod` 4096.

(** Pages touched by [len] bytes at [addr]; an empty buffer takes one
    descriptor. *)
Definition npages (addr len : Z) : nat :=
  Nat.max 1 (Z.to_nat ((addr `mod` 4096 + len + 4095) / 4096)).

Fixpoint pieces (n : nat) (addr len : Z) : list (Z * Z) :=
  match n with
  | O | 1%nat => [(addr, len)]
  | S n => (addr, page_left addr) :: pieces n (u64 (addr + page_left addr)) (len - page_left addr)
  end.

Definition tx_pieces (phys : bool) (addr len : Z) : list (Z * Z) :=
  if phys then [(addr, len)] else pieces (npages addr len) addr len.

Definition tx_frags (phys : bool) (iov : list ef_iovec) : list (Z * Z) :=
  concat (map (fun v => tx_pieces phys (iov_base v) (iov_len v)) iov).

Definition tx_desc (phys : bool) (frag : Z * Z) (cont : Z) : Z :=
  if phys then ef10_dma_tx_calc_ip_phys (fst frag) (snd frag) cont
  else ef10_dma_tx_calc_ip_buf (fst frag) (snd frag) cont.

(** The descriptors of a packet: every fragment but the last is marked as
    continued. *)
Fixpoint tx_descs (phys : bool) (frags : list (Z * Z)) : list Z :=
  match frags with
  | [] => []
  | [f] => [tx_desc phys f 0]
  | f :: frags => tx_desc phys f EFVI_EF10_DMA_TX_FRAG :: tx_descs phys frags
  end.

Lemma length_tx_descs phys frags : length (tx_descs phys frags) = length frags.
Proof.
  induction frags as [|f [|f' frags] IH]; cbn [tx_descs length] in *; congruence.
Qed.

Lemma page_left_range addr : 0 < page_left addr <= 4096.
Proof. unfold page_left. pose proof (Z.mod_pos_bound addr 4096). lia. Qed.

(** The code's computation of [page_left]. *)
Lemma page_left_bits addr :
  0 <= addr < 18446744073709551616 -> u32 (Z.land (u64 (Z.lnot addr)) 4095 + 1) = page_left addr.
Proof.
  intros Ha. change 4095 with (2 ^ 12 - 1). rewrite land_mask by lia. change (2 ^ 12) with 4096.
  unfold page_left, Z.lnot. rewrite u32_small; word_lia.
Qed.

Lemma npages_last addr len :
  0 <= len -> len <= page_left addr -> npages addr len = 1%nat.
Proof.
  intros. unfold npages, page_left in *. pose proof (Z.mod_pos_bound addr 4096 ltac:(lia)).
  assert ((addr `mod` 4096 + len + 4095) / 4096 < 2) by (apply Z.div_lt_upper_bound; lia). lia.
Qed.

Lemma npages_more addr len :
  0 <= addr -> page_left addr < len ->
  npages addr len = S (npages (u64 (addr + page_left addr)) (len - page_left addr)).
Proof.
  intros Ha Hl. unfold npages, page_left in *.
  assert (E : u64 (addr + (4096 - addr `mod` 4096)) `mod` 4096 = 0).
  { unfold u64. rewrite Z.mod_mod_divide by (by exists 4503599627370496).
    Z.div_mod_to_equations. lia. }
  rewrite E. pose proof (Z.mod_pos_bound addr 4096 ltac:(lia)).
  replace (addr `mod` 4096 + len + 4095)
    with ((0 + (len - (4096 - addr `mod` 4096)) + 4095) + 1 * 4096) by lia.
  rewrite Z.div_add by lia.
  assert (0 <= (0 + (len - (4096 - addr `mod` 4096)) + 4095) / 4096) by (apply Z.div_pos; lia).
  assert (1 <= (0 + (len - (4096 - addr `mod` 4096)) + 4095) / 4096) by
    (apply Z.div_le_lower_bound; lia).
  lia.
Qed.

Lemma pieces_last addr len :
  0 <= len -> len <= page_left addr -> tx_pieces false addr len = [(addr, len)].
Proof. intros. unfold tx_pieces. by rewrite npages_last. Qed.

Lemma pieces_more addr len :
  0 <= addr -> page_left addr < len ->
  tx_pieces false addr len =
  (addr, page_left addr) :: tx_pieces false (u64 (addr + page_left addr)) (len - page_left addr).
Proof.
  intros. unfold tx_pieces. rewrite npages_more by done.
  destruct (npages (u64 (addr + page_left addr)) (len - page_left addr)) eqn:E; [|done].
  unfold npages in E. lia.
Qed.

Lemma tx_pieces_nonempty phys addr len : tx_pieces phys addr len <> [].
Proof. unfold tx_pieces. destruct phys; [done|]. by destruct (npages addr len) as [|[]]. Qed.

Lemma tx_descs_cons phys f frags :
  frags <> [] -> tx_descs phys (f :: frags) = tx_desc phys f EFVI_EF10_DMA_TX_FRAG :: tx_descs phys frags.
Proof. by destruct frags. Qed.

(** ** The loop writes the descriptors of the fragments *)

Definition iov_wf (v : ef_iovec) : Prop :=
  0 <= iov_base v < 18446744073709551616 /\ 0 <= iov_len v < 4294967296.

Abbreviation tx_phys vi := (vi_flag vi EF_VI_TX_PHYS_ADDR).

(** The outcome of the loop on the descriptors [descs] still to write: all of
    them written, or the ring filled and [added] restored. *)
Definition tx_outcome (vi : ef_vi) (q descs : list Z) (added_save : Z) : ef_vi * Z * Z :=
  if Z.of_nat (length q) + Z.of_nat (length descs) <=? q_mask (vi_txq vi)
  then (tx_written vi descs, 0,
        Z.land (tx_added (txq_state vi) + Z.of_nat (length descs) - 1) (q_mask (vi_txq vi)))
  else (tx_set_added added_save
          (tx_written vi (take (Z.to_nat (q_mask (vi_txq vi) - Z.of_nat (length q))) descs)),
        - EAGAIN, 0).

Lemma tx_outcome_full vi q p x descs added_save :
  tx_rep vi q p -> tx_full vi = true ->
  tx_outcome vi q (x :: descs) added_save = (tx_set_added added_save vi, - EAGAIN, 0).
Proof.
  intros Hr Hf. rewrite (tx_full_spec vi q p Hr) in Hf. apply Z.leb_le in Hf.
  unfold tx_outcome. destruct (Z.leb_spec (Z.of_nat (length q) + Z.of_nat (length (x :: descs)))
    (q_mask (vi_txq vi))); [cbn [length] in *; lia|].
  replace (Z.to_nat (q_mask (vi_txq vi) - Z.of_nat (length q))) with 0%nat by lia. done.
Qed.

(** Writing one descriptor leaves the outcome of the others. *)
Lemma tx_outcome_step vi q p x descs added_save :
  tx_rep vi q p -> tx_full vi = false -> descs <> [] ->
  tx_outcome vi q (x :: descs) added_save =
  tx_outcome (tx_post vi x) (q ++ [EF_REQUEST_ID_MASK]) descs added_save.
Proof.
  intros Hr Hf Hne. rewrite (tx_full_spec vi q p Hr) in Hf. apply Z.leb_gt in Hf.
  destruct Hr as [[Hm _ _ _ _ _] _ _ _].
  assert (Hl : Z.of_nat (length (q ++ [EF_REQUEST_ID_MASK])) = Z.of_nat (length q) + 1)
    by (rewrite length_app; cbn; lia).
  unfold tx_outcome. rewrite Hl. cbn [length].
  change (q_mask (vi_txq (tx_post vi x))) with (q_mask (vi_txq vi)).
  change (tx_added (txq_state (tx_post vi x))) with (u32 (tx_added (txq_state vi) + 1)).
  replace (Z.of_nat (length q) + Z.of_nat (S (length descs)))
    with (Z.of_nat (length q) + 1 + Z.of_nat (length descs)) by lia.
  destruct (_ <=? _) eqn:E.
  - f_equal. rewrite <- !Z.add_sub_assoc, slot_u32_add by done. f_equal. lia.
  - do 2 f_equal.
    replace (Z.to_nat (q_mask (vi_txq vi) - Z.of_nat (length q)))
      with (S (Z.to_nat (q_mask (vi_txq vi) - (Z.of_nat (length q) + 1)))) by lia.
    reflexivity.
Qed.

Lemma tx_outcome_last vi q p x added_save :
  tx_rep vi q p -> tx_full vi = false ->
  tx_outcome vi q [x] added_save =
    (tx_post vi x, 0, Z.land (tx_added (txq_state vi)) (q_mask (vi_txq vi))).
Proof.
  intros Hr Hf. rewrite (tx_full_spec vi q p Hr) in Hf. apply Z.leb_gt in Hf.
  unfold tx_outcome. cbn [length]. destruct (Z.leb_spec (Z.of_nat (length q) + Z.of_nat 1)
    (q_mask (vi_txq vi))); [|lia].
  do 3 f_equal. lia.
Qed.

Lemma tx_frags_nonempty phys v iov : tx_frags phys (v :: iov) <> [].
Proof.
  unfold tx_frags. cbn [map concat]. intros E. apply app_nil in E as [E _].
  by apply tx_pieces_nonempty in E.
Qed.

Lemma tx_descs_next phys f iov :
  tx_descs phys (f :: tx_frags phys iov) =
  tx_desc phys f (if match iov with [] => true | _ => false end then 0 else EFVI_EF10_DMA_TX_FRAG)
    :: tx_descs phys (tx_frags phys iov).
Proof.
  destruct iov as [|v iov]; [done|]. apply tx_descs_cons, tx_frags_nonempty.
Qed.

Lemma transmitv_init_loop_spec fuel : forall vi q p added_save addr len iov,
  tx_rep vi q p -> 0 <= addr < 18446744073709551616 -> 0 <= len < 4294967296 ->
  Forall iov_wf iov -> q_mask (vi_txq vi) - Z.of_nat (length q) < Z.of_nat fuel ->
  transmitv_init_loop fuel added_save vi addr len iov =
  Some (tx_outcome vi q (tx_descs (tx_phys vi)
          (tx_pieces (tx_phys vi) addr len ++ tx_frags (tx_phys vi) iov)) added_save).
Proof.
  induction fuel as [|fuel IH]; intros vi q p added_save addr len iov Hr Ha Hl Hiov Hfuel.
  { destruct Hr as [[_ _ _ _ ? _] _ _ _]. lia. }
  cbn [transmitv_init_loop].
  set (phys := tx_phys vi).
  destruct (tx_full vi) eqn:Hfull.
  { destruct (tx_pieces phys addr len) as [|f l] eqn:Ep; [by destruct (tx_pieces_nonempty phys addr len)|].
    destruct (tx_descs phys ((f :: l) ++ tx_frags phys iov)) as [|x descs] eqn:Ed.
    - apply (f_equal length) in Ed. rewrite length_tx_descs in Ed. done.
    - by rewrite (tx_outcome_full vi q p). }
  assert (Hlt : Z.of_nat (length q) < q_mask (vi_txq vi)).
  { rewrite (tx_full_spec vi q p Hr) in Hfull. by apply Z.leb_gt. }
  (* the rest of the iovecs *)
  assert (Hnext : forall x,
    match iov with
    | [] => Some (tx_post vi x, 0, Z.land (tx_added (txq_state vi)) (q_mask (vi_txq vi)))
    | v :: iov' => transmitv_init_loop fuel added_save (tx_post vi x) (iov_base v) (iov_len v) iov'
    end = Some (tx_outcome vi q (x :: tx_descs phys (tx_frags phys iov)) added_save)).
  { intros x. destruct iov as [|v iov].
    - cbn [tx_frags map concat tx_descs]. by rewrite (tx_outcome_last vi q p).
    - apply Forall_cons_1 in Hiov as [[Hv1 Hv2] Hiov].
      rewrite (IH (tx_post vi x) (q ++ [EF_REQUEST_ID_MASK]) p); try done.
      + rewrite (tx_outcome_step vi q p); [done..|].
        intros E. apply (f_equal length) in E. rewrite length_tx_descs in E.
        destruct (tx_frags phys (v :: iov)) eqn:Ef; [|done]. by apply tx_frags_nonempty in Ef.
      + by apply tx_post_rep.
      + rewrite length_app. unfold tx_post. vi_cbn. cbn [length]. lia. }
  change (vi_flag (tx_set_added (tx_added (txq_state vi) + 1) vi) EF_VI_TX_PHYS_ADDR) with phys.
  destruct phys eqn:Ephys.
  { cbn [tx_pieces app]. rewrite tx_descs_next, <- Hnext. by destruct iov. }
  rewrite page_left_bits by done. cbv zeta.
  destruct (Z.ltb_spec len (page_left addr)) as [Hlp|Hlp].
  { rewrite Z.eqb_refl, andb_true_r, Z.sub_diag. cbn [u32 Z.modulo Z.ltb].
    rewrite pieces_last by lia. cbn [app]. rewrite tx_descs_next, <- Hnext. by destruct iov. }
  destruct (Z.eqb_spec (page_left addr) len) as [E|E].
  { rewrite andb_true_r, E, Z.sub_diag. cbn [u32 Z.modulo Z.ltb].
    rewrite pieces_last by lia. cbn [app]. rewrite tx_descs_next, <- Hnext. by destruct iov. }
  pose proof (page_left_range addr). rewrite andb_false_r, u32_small by lia.
  destruct (Z.ltb_spec 0 (len - page_left addr)); [|lia].
  rewrite pieces_more by lia. cbn [app].
  rewrite tx_descs_cons.
  2:{ intros E'. apply app_nil in E' as [E' _]. by apply tx_pieces_nonempty in E'. }
  etransitivity.
  { apply (IH (tx_post vi (tx_desc false (addr, page_left addr) EFVI_EF10_DMA_TX_FRAG))
      (q ++ [EF_REQUEST_ID_MASK]) p); try done; try lia.
    - by apply tx_post_rep.
    - apply u64_range.
    - rewrite length_app. unfold tx_post. vi_cbn. cbn [length]. lia. }
  rewrite (tx_outcome_step vi q p); [|done..|].
  { change (tx_phys (tx_post vi ?x)) with phys. by rewrite Ephys. }
  intros E'. apply (f_equal length) in E'. rewrite length_tx_descs, length_app in E'.
  destruct (tx_pieces false (u64 (addr + page_left addr)) (len - page_left addr)) eqn:Ep; [|done].
  by apply tx_pieces_nonempty in Ep.
Qed.

(** The descriptor ring after the writes, read from the slot of [b]. *)
Lemma tx_written_view b descs : forall vi j,
  let mask := q_mask (vi_txq vi) in
  let view := rview mask (q_descriptors (vi_txq vi)) b in
  pow2_mask mask -> Z.of_nat (length (q_descriptors (vi_txq vi))) = mask + 1 ->
  tx_added (txq_state vi) = u32 (b + Z.of_nat j) ->
  Z.of_nat j + Z.of_nat (length descs) <= mask + 1 ->
  rview mask (q_descriptors (vi_txq (tx_written vi descs))) b =
    take j view ++ descs ++ drop (j + length descs) view.
Proof.
  induction descs as [|x descs IH]; intros vi j mask view Hm Hl Hadd Hlen;
    pose proof (pow2_mask_range mask Hm).
  - cbn [length app]. rewrite Nat.add_0_r, take_drop. done.
  - cbn [length] in Hlen. cbn [tx_written fold_left].
    assert (Hlv : length view = Z.to_nat (mask + 1)) by (apply length_rview; lia).
    pose proof (rview_aset mask (q_descriptors (vi_txq vi)) b (Z.of_nat j) x Hm Hl ltac:(lia)) as Hv.
    rewrite Nat2Z.id in Hv. fold view in Hv.
    assert (Hd : q_descriptors (vi_txq (tx_post vi x)) =
      aset (q_descriptors (vi_txq vi)) (Z.land (b + Z.of_nat j) mask) x).
    { unfold tx_post. vi_cbn. by rewrite Hadd, slot_u32. }
    pose proof (IH (tx_post vi x) (S j)) as IH'. cbv zeta in IH'.
    change (q_mask (vi_txq (tx_post vi x))) with mask in IH'.
    change (tx_added (txq_state (tx_post vi x))) with (u32 (tx_added (txq_state vi) + 1)) in IH'.
    rewrite Hd, Hv, length_aset in IH'.
    unfold tx_written in IH'. rewrite IH'; [|done|done| |lia].
    + rewrite drop_insert_lt by lia.
      rewrite (take_S_r _ j x) by (rewrite list_lookup_insert_eq; [done|lia]).
      rewrite take_insert_ge by lia. rewrite <- app_assoc. cbn [app length].
      by rewrite Nat.add_succ_r.
    + rewrite Hadd, u32_add_l. f_equal. lia.
Qed.

(** ** [ef10_ef_vi_transmitv_init] *)

Lemma length_frags_pos phys iov0 iov : (0 < length (tx_frags phys (iov0 :: iov)))%nat.
Proof.
  destruct (tx_frags phys (iov0 :: iov)) eqn:E; [by apply tx_frags_nonempty in E|cbn; lia].
Qed.

(** The descriptors written and the packet's id stored on the last. *)
Lemma tx_outcome_fits vi q p descs dma_id : tx_rep vi q p -> descs <> [] ->
  let n := length descs in
  Z.of_nat (length q) + Z.of_nat n <= q_mask (vi_txq vi) ->
  let vi' := tx_set_id (Z.land (tx_added (txq_state vi) + Z.of_nat n - 1) (q_mask (vi_txq vi))) dma_id
               (tx_written vi descs) in
  tx_rep vi' (q ++ replicate (n - 1) EF_REQUEST_ID_MASK ++ [dma_id]) p /\
  take n (rview (q_mask (vi_txq vi)) (q_descriptors (vi_txq vi')) (tx_added (txq_state vi))) = descs.
Proof.
  intros Hr Hne n Hn vi'. unfold vi'. split.
  - assert (Hpos : (0 < n)%nat) by (unfold n; destruct descs; cbn [length]; [done|lia]).
    destruct (tx_written_rep descs vi q p Hr Hn) as (T1 & T2 & T3). fold n in T1.
    destruct T1 as [R D P S]. rewrite T2 in R, D.
    assert (Hrep : replicate n EF_REQUEST_ID_MASK =
      replicate (n - 1) EF_REQUEST_ID_MASK ++ [EF_REQUEST_ID_MASK]).
    { rewrite <- replicate_S_end. f_equal. lia. }
    rewrite Hrep, app_assoc in R. pose proof (ring_set_last _ _ dma_id R) as R'.
    assert (Hadd : tx_added (txq_state (tx_written vi descs)) = u32 (tx_added (txq_state vi) + Z.of_nat n)).
    { destruct R as [_ _ _ -> _ _]. destruct Hr as [[_ _ _ -> _ _] _ _ _].
      rewrite tx_written_removed, u32_add_l, !length_app, length_replicate. cbn [length]. f_equal. lia. }
    split; vi_cbn; rewrite ?T2; try done.
    + rewrite app_assoc. rewrite Hadd, u32_sub_l, slot_u32 in R' by (by destruct R).
      rewrite T3. rewrite T3 in R'. rewrite Hadd. exact R'.
    + rewrite !length_app, length_replicate in *. cbn [length] in *. lia.
  - vi_cbn. destruct Hr as [[Hm _ _ Ha _ _] Hd _ _]. pose proof (pow2_mask_range _ Hm).
    pose proof (tx_written_view (tx_added (txq_state vi)) descs vi 0) as V.
    cbv zeta in V. fold n in V. rewrite V; [|done|done| |lia].
    + rewrite take_0. cbn [app]. by rewrite take_app_length'.
    + rewrite Z.add_0_r. rewrite Ha. by rewrite u32_idemp.
Qed.

Lemma tx_frag_descs_nonempty phys iov0 iov : tx_descs phys (tx_frags phys (iov0 :: iov)) <> [].
Proof.
  intros E. apply (f_equal length) in E. rewrite length_tx_descs in E.
  pose proof (length_frags_pos phys iov0 iov). cbn [length] in E. lia.
Qed.

Lemma transmitv_init_ok vi q p iov0 iov dma_id :
  tx_rep vi q p -> Forall iov_wf (iov0 :: iov) ->
  let frags := tx_frags (tx_phys vi) (iov0 :: iov) in
  let n := length frags in
  Z.of_nat (length q) + Z.of_nat n <= q_mask (vi_txq vi) ->
  exists vi', ef10_ef_vi_transmitv_init vi iov0 iov dma_id = Some (vi', 0) /\
    tx_rep vi' (q ++ replicate (n - 1) EF_REQUEST_ID_MASK ++ [dma_id]) p /\
    take n (rview (q_mask (vi_txq vi)) (q_descriptors (vi_txq vi')) (tx_added (txq_state vi))) =
      tx_descs (tx_phys vi) frags /\
    vi' = tx_set_id (Z.land (tx_added (txq_state vi) + Z.of_nat n - 1) (q_mask (vi_txq vi))) dma_id
            (tx_written vi (tx_descs (tx_phys vi) frags)).
Proof.
  intros Hr Hwf frags n Hn. pose proof Hwf as [[H1 H2] Hwf']%Forall_cons_1.
  unfold ef10_ef_vi_transmitv_init.
  rewrite (transmitv_init_loop_spec _ vi q p); try done.
  2:{ destruct Hr as [[Hm _ _ _ ? _] _ _ _]. pose proof (pow2_mask_range _ Hm). lia. }
  change (tx_pieces (tx_phys vi) (iov_base iov0) (iov_len iov0) ++ tx_frags (tx_phys vi) iov)
    with frags.
  unfold tx_outcome. rewrite length_tx_descs. fold n.
  rewrite (proj2 (Z.leb_le _ _)) by done. cbn [Z.eqb].
  eexists. split; [reflexivity|].
  pose proof (tx_outcome_fits vi q p (tx_descs (tx_phys vi) frags) dma_id Hr
    (tx_frag_descs_nonempty (tx_phys vi) iov0 iov)) as T.
  cbv zeta in T. rewrite length_tx_descs in T. fold n in T. destruct (T Hn) as [T1 T2]. done.
Qed.

Lemma tx_written_set_added descs a : forall vi,
  ep_state (tx_set_added a (tx_written vi descs)) = ep_state (tx_set_added a vi).
Proof.
  induction descs as [|x l IH]; intros vi; [done|]. exact (IH (tx_post vi x)).
Qed.

Lemma tx_set_added_same vi :
  u32 (tx_added (txq_state vi)) = tx_added (txq_state vi) ->
  ep_state (tx_set_added (tx_added (txq_state vi)) vi) = ep_state vi.
Proof. intros E. vi_cbn. rewrite E. by destruct (ep_state vi) as [? [] ?]. Qed.

(** The ring filled up, and [added] put back. *)
Lemma tx_outcome_full_restores vi q p descs : tx_rep vi q p ->
  let n := length descs in
  q_mask (vi_txq vi) < Z.of_nat (length q) + Z.of_nat n ->
  let vi' := tx_set_added (tx_added (txq_state vi))
    (tx_written vi (take (Z.to_nat (q_mask (vi_txq vi) - Z.of_nat (length q))) descs)) in
  tx_rep vi' q p /\ q_ids (vi_txq vi') = q_ids (vi_txq vi) /\
  ep_state vi' = ep_state vi /\ io_log vi' = io_log vi.
Proof.
  intros Hr n Hn vi'. pose proof Hr as [[Hm Hlen Hrem Hadd Hfit Hv] Hd Hp Hpp]. pose proof (pow2_mask_range _ Hm).
  unfold vi'. set (k := Z.to_nat _).
  assert (Hk : length (take k descs) = k) by (rewrite length_take; fold n; lia).
  destruct (tx_written_rep (take k descs) vi q p Hr ltac:(lia)) as ([R D P S] & T2 & T3).
  assert (Hst : ep_state (tx_set_added (tx_added (txq_state vi)) (tx_written vi (take k descs))) =
    ep_state vi).
  { rewrite tx_written_set_added. apply tx_set_added_same. rewrite Hadd. apply u32_idemp. }
  split; [|split; [exact T3|split; [exact Hst|]]].
  - split; rewrite ?Hst; vi_cbn; rewrite ?T2, ?T3; try done.
    by rewrite T2 in D.
  - vi_cbn. generalize (take k descs). intros l. clear. revert vi.
    induction l as [|x l IH]; intros vi; [done|]. exact (IH (tx_post vi x)).
Qed.

Lemma transmitv_init_full vi q p iov0 iov dma_id :
  tx_rep vi q p -> Forall iov_wf (iov0 :: iov) ->
  let n := length (tx_frags (tx_phys vi) (iov0 :: iov)) in
  q_mask (vi_txq vi) < Z.of_nat (length q) + Z.of_nat n ->
  exists vi', ef10_ef_vi_transmitv_init vi iov0 iov dma_id = Some (vi', - EAGAIN) /\
    tx_rep vi' q p /\ q_ids (vi_txq vi') = q_ids (vi_txq vi) /\
    ep_state vi' = ep_state vi /\ io_log vi' = io_log vi.
Proof.
  intros Hr Hwf n Hn. pose proof Hwf as [[H1 H2] Hwf']%Forall_cons_1.
  unfold ef10_ef_vi_transmitv_init.
  pose proof Hr as [[Hm Hlen Hrem Hadd Hfit Hv] Hd Hp Hpp]. pose proof (pow2_mask_range _ Hm).
  rewrite (transmitv_init_loop_spec _ vi q p); try done; [|lia].
  change (tx_pieces (tx_phys vi) (iov_base iov0) (iov_len iov0) ++ tx_frags (tx_phys vi) iov)
    with (tx_frags (tx_phys vi) (iov0 :: iov)).
  unfold tx_outcome. rewrite length_tx_descs. fold n.
  rewrite (proj2 (Z.leb_gt _ _)) by done. cbn [Z.eqb].
  eexists. split; [reflexivity|]. apply (tx_outcome_full_restores vi q p); [done|]. by rewrite length_tx_descs.
Qed.

(** ** Pushing *)

(** The doorbell value of a register write. *)
Definition doorbell_of (w : io_write) : option Z :=
  match w with
  | Writel val _ => Some val
  | WritePush _ val _ => Some val
  | WriteOword _ _ val _ => Some val
  | WriteCtpio _ _ => None
  end.

Lemma transmit_push_rep vi q p :
  tx_rep vi q p -> tx_rep (ef10_ef_vi_transmit_push vi) q (Z.of_nat (length q)).
Proof.
  intros [R D P S]. unfold ef10_ef_vi_transmit_push.
  match goal with |- context [if ?c then _ else _] => destruct c end;
    (split; [exact R|exact D| |lia]);
    destruct R as [_ _ _ Ha _ _]; exact Ha.
Qed.

Lemma transmit_push_log vi q p :
  tx_rep vi q p ->
  exists w, io_log (ef10_ef_vi_transmit_push vi) = io_log vi ++ [w] /\
    doorbell_of w = Some (Z.land (tx_added (txq_state vi)) (q_mask (vi_txq vi))).
Proof.
  intros [R D P S]. unfold ef10_ef_vi_transmit_push.
  match goal with |- context [if ?c then _ else _] => destruct c end.
  - eexists. split; [reflexivity|]. reflexivity.
  - eexists. split; [reflexivity|]. cbn [doorbell_of]. f_equal. apply u32_small.
    destruct R as [Hm _ _ _ _ _]. pose proof (slot_range _ (tx_added (txq_state vi)) Hm).
    pose proof (pow2_mask_range _ Hm). lia.
Qed.

(** ** Completions *)

(** The ids a completion reports: the packets' ids, without the descriptors
    that are not the last of their packet. *)
Definition tx_ids (q : list Z) : list Z :=
  List.filter (fun id => negb (id =? EF_REQUEST_ID_MASK)) q.

Lemma tx_ids_app q1 q2 : tx_ids (q1 ++ q2) = tx_ids q1 ++ tx_ids q2.
Proof. apply filter_app. Qed.

Lemma tx_ids_cons x q :
  tx_ids (x :: q) = if negb (x =? EF_REQUEST_ID_MASK) then x :: tx_ids q else tx_ids q.
Proof.
  reflexivity.
Qed.

Lemma aset_same l i : 0 <= i < Z.of_nat (length l) -> aset l i (aget l i) = l.
Proof.
  intros. unfold aset, aget.
  destruct (lookup_lt_is_Some_2 l (Z.to_nat i)) as [x E]; [lia|]. rewrite E.
  by apply list_insert_id.
Qed.

(** One iteration: the head leaves the queue. *)
Lemma tx_unbundle_step vi x q p :
  tx_rep vi (x :: q) p -> 0 < p ->
  let i := Z.land (tx_removed (txq_state vi)) (q_mask (vi_txq vi)) in
  let vi1 := if negb (x =? EF_REQUEST_ID_MASK) then tx_set_id i EF_REQUEST_ID_MASK vi else vi in
  aget (q_ids (vi_txq vi)) i = x /\
  tx_rep (upd_txq (fun qs => qs <| tx_removed := u32 (tx_removed qs + 1) |>) vi1) q (p - 1).
Proof.
  intros [R D P S] Hp i vi1. pose proof (ring_head _ _ R) as Hx. fold i in Hx.
  split; [done|]. cbn [length] in S.
  assert (Hids : q_ids (vi_txq vi1) = aset (q_ids (vi_txq vi)) i EF_REQUEST_ID_MASK).
  { unfold vi1. destruct (Z.eqb_spec x EF_REQUEST_ID_MASK) as [E|E]; cbn [negb]; [|done].
    rewrite <- E, <- Hx. symmetry. apply aset_same.
    destruct R as [Hm Hl _ _ _ _]. pose proof (slot_range _ (tx_removed (txq_state vi)) Hm).
    unfold i. lia. }
  assert (Hst : ep_state vi1 = ep_state vi /\ q_mask (vi_txq vi1) = q_mask (vi_txq vi) /\
    q_descriptors (vi_txq vi1) = q_descriptors (vi_txq vi)).
  { unfold vi1. by destruct (negb _). }
  destruct Hst as (H1 & H2 & H3). pose proof (ring_pop _ _ R) as R'. fold i in R'.
  split; vi_cbn; rewrite ?H1, ?H2, ?H3, ?Hids; try done; [|lia].
  rewrite P, u32_add_l. f_equal. lia.
Qed.

Lemma transmit_unbundle_loop_spec fuel : forall vi q p n acc,
  tx_rep vi q p -> Z.of_nat n <= p -> (n < fuel)%nat ->
  exists vi',
    transmit_unbundle_loop fuel vi
      (Z.land (tx_removed (txq_state vi) + Z.of_nat n) (q_mask (vi_txq vi))) acc =
      Some (vi', acc ++ tx_ids (take n q)) /\
    tx_rep vi' (drop n q) (p - Z.of_nat n) /\ q_mask (vi_txq vi') = q_mask (vi_txq vi) /\
    tx_removed (txq_state vi') = u32 (tx_removed (txq_state vi) + Z.of_nat n).
Proof.
  induction fuel as [|fuel IH]; intros vi q p n acc Hr Hn Hf; [lia|].
  pose proof Hr as [R D P Hpp]. pose proof R as [Hm Hl Hrem Ha Hfit Hv].
  pose proof (pow2_mask_range _ Hm).
  cbn [transmit_unbundle_loop].
  destruct n as [|n].
  - rewrite Z.add_0_r, Z.eqb_refl. exists vi. rewrite take_0, drop_0, Z.sub_0_r. cbn [tx_ids].
    rewrite app_nil_r, u32_small by done. done.
  - destruct (Z.eqb_spec (Z.land (tx_removed (txq_state vi)) (q_mask (vi_txq vi)))
      (Z.land (tx_removed (txq_state vi) + Z.of_nat (S n)) (q_mask (vi_txq vi)))) as [E|_].
    { rewrite <- (Z.add_0_r (tx_removed (txq_state vi))) in E at 1.
      apply slot_inj in E; [lia|done|lia..]. }
    destruct q as [|x q]; [cbn in Hpp; lia|].
    destruct (tx_unbundle_step vi x q p Hr ltac:(lia)) as [Hx Hr']. cbv zeta in Hx, Hr'.
    rewrite Hx.
    set (vi1 := if negb (x =? EF_REQUEST_ID_MASK) then _ else _) in Hr'.
    set (vi2 := upd_txq _ vi1) in Hr'.
    assert (Hst : q_mask (vi_txq vi2) = q_mask (vi_txq vi) /\
      tx_removed (txq_state vi2) = u32 (tx_removed (txq_state vi) + 1)).
    { unfold vi2, vi1. by destruct (negb _). }
    destruct Hst as [H1 H2].
    destruct (IH vi2 q (p - 1) n (if negb (x =? EF_REQUEST_ID_MASK) then acc ++ [x] else acc) Hr')
      as (vi' & E1 & E2 & E3 & E4); [lia..|].
    exists vi'. rewrite H1, H2, slot_u32_add in E1 by done.
    replace (tx_removed (txq_state vi) + 1 + Z.of_nat n)
      with (tx_removed (txq_state vi) + Z.of_nat (S n)) in E1 by lia.
    cbn [take drop]. split; [|split; [|split]].
    + unfold vi2, vi1 in E1. rewrite tx_ids_cons.
      destruct (negb (x =? EF_REQUEST_ID_MASK)); rewrite E1; [|done]. by rewrite <- app_assoc.
    + replace (p - Z.of_nat (S n)) with (p - 1 - Z.of_nat n) by lia. done.
    + congruence.
    + rewrite E4, H2, u32_add_l. f_equal. lia.
Qed.

(** The completion of the next [n] pushed descriptors. *)
Lemma transmit_unbundle_spec vi q p n desc_id :
  tx_rep vi q p -> Z.of_nat n <= p ->
  Z.land desc_id (q_mask (vi_txq vi)) =
    Z.land (tx_removed (txq_state vi) + Z.of_nat n) (q_mask (vi_txq vi)) ->
  exists vi', ef_vi_transmit_unbundle vi desc_id = Some (vi', tx_ids (take n q)) /\
    tx_rep vi' (drop n q) (p - Z.of_nat n).
Proof.
  intros Hr Hn E. unfold ef_vi_transmit_unbundle. rewrite E.
  pose proof Hr as [[Hm _ _ _ Hfit _] _ _ Hp]. pose proof (pow2_mask_range _ Hm).
  destruct (transmit_unbundle_loop_spec (S (Z.to_nat (q_mask (vi_txq vi)))) vi q p n [] Hr Hn)
    as (vi' & E1 & E2 & _); [lia|].
  by exists vi'.
Qed.

(** ** Undo *)

Lemma transmit_init_undo_loop_spec l : forall vi q p,
  tx_rep vi (q ++ l) p -> p <= Z.of_nat (length q) ->
  tx_rep (transmit_init_undo_loop (length l) vi) q p.
Proof.
  induction l as [|x l IH] using rev_ind; intros vi q p Hr Hp.
  - by rewrite app_nil_r in Hr.
  - rewrite length_app, Nat.add_comm. cbn [length Nat.add transmit_init_undo_loop].
    apply IH; [|done]. destruct Hr as [R D P S].
    rewrite app_assoc in R. pose proof (ring_unpush _ _ R) as R'.
    split; vi_cbn; rewrite ?u32_idemp; try done.
    + by rewrite length_app; lia.
Qed.

Lemma transmit_init_undo_spec vi q p :
  tx_rep vi q p -> tx_rep (ef_vi_transmit_init_undo vi) (take (Z.to_nat p) q) p.
Proof.
  intros Hr. unfold ef_vi_transmit_init_undo.
  pose proof Hr as [[Hm _ Hrem Ha Hfit _] _ P Hp]. pose proof (pow2_mask_range _ Hm).
  rewrite P, Ha, u32_sub_l, u32_sub_r.
  replace (tx_removed (txq_state vi) + Z.of_nat (length q) - (tx_removed (txq_state vi) + p))
    with (Z.of_nat (length q) - p) by lia.
  rewrite u32_small by lia.
  replace (Z.to_nat (Z.of_nat (length q) - p)) with (length (drop (Z.to_nat p) q))
    by (rewrite length_drop; lia).
  apply transmit_init_undo_loop_spec; [by rewrite take_drop|]. rewrite length_take. lia.
Qed.

(** ** PIO *)

Lemma aset_aset l i v w : aset (aset l i v) i w = aset l i w.
Proof. apply list_insert_insert_eq. Qed.

(** Undoing the id of a PIO descriptor that was not sent. *)
Lemma pio_undo_ids vi q p id :
  tx_rep vi q p ->
  let di := Z.land (tx_added (txq_state vi)) (q_mask (vi_txq vi)) in
  aset (aset (q_ids (vi_txq vi)) di id) di EF_REQUEST_ID_MASK = q_ids (vi_txq vi).
Proof.
  intros [R _ _ _] di. rewrite aset_aset. rewrite <- (ring_next_free q R). apply aset_same.
  destruct R as [Hm Hl _ _ _ _]. pose proof (slot_range _ (tx_added (txq_state vi)) Hm).
  unfold di. lia.
Qed.

Lemma pio_send_full vi q p offset len dma_id :
  tx_rep vi q p -> q_mask (vi_txq vi) <= Z.of_nat (length q) ->
  exists vi', ef10_pio_send vi offset len dma_id = (vi', - EAGAIN) /\
    tx_rep vi' q p /\ q_ids (vi_txq vi') = q_ids (vi_txq vi) /\
    ep_state vi' = ep_state vi /\ io_log vi' = io_log vi.
Proof.
  intros Hr Hfull. pose proof Hr as [R D P S]. unfold ef10_pio_send. cbv zeta.
  change (txq_state (ef10_pio_set_desc vi offset len dma_id)) with (txq_state vi).
  change (q_mask (vi_txq (ef10_pio_set_desc vi offset len dma_id))) with (q_mask (vi_txq vi)).
  rewrite (ring_count q R). rewrite (proj2 (Z.ltb_ge _ _)) by done.
  eexists. split; [reflexivity|].
  pose proof (pio_undo_ids vi q p dma_id Hr) as Hids.
  split; [|by split].
  split; try done.
  - unfold ef10_pio_set_desc. vi_cbn. rewrite Hids. exact R.
  - unfold ef10_pio_set_desc. vi_cbn. by rewrite length_aset.
Qed.

Lemma pio_send_ok vi q p offset len dma_id :
  tx_rep vi q p -> Z.of_nat (length q) < q_mask (vi_txq vi) ->
  exists vi', ef10_pio_send vi offset len dma_id = (vi', 0) /\
    tx_rep vi' (q ++ [dma_id]) (Z.of_nat (length q) + 1) /\
    exists w, io_log vi' = io_log vi ++ [w] /\
      doorbell_of w = Some (Z.land (tx_added (txq_state vi) + 1) (q_mask (vi_txq vi))).
Proof.
  intros [R D P S] Hlt. unfold ef10_pio_send. cbv zeta.
  change (txq_state (ef10_pio_set_desc vi offset len dma_id)) with (txq_state vi).
  change (q_mask (vi_txq (ef10_pio_set_desc vi offset len dma_id))) with (q_mask (vi_txq vi)).
  rewrite (ring_count q R). rewrite (proj2 (Z.ltb_lt _ _)) by done.
  eexists. split; [reflexivity|]. unfold ef10_pio_push.
  set (vi1 := tx_set_added _ _).
  assert (Hr1 : tx_rep vi1 (q ++ [dma_id]) p).
  { pose proof (ring_push q dma_id R Hlt) as R'. unfold vi1, ef10_pio_set_desc.
    split; vi_cbn; try done; rewrite ?length_aset, ?length_app; cbn; try done. lia. }
  split.
  - pose proof (transmit_push_rep vi1 _ p Hr1) as H. rewrite length_app in H. cbn in H.
    replace (Z.of_nat (length q) + 1) with (Z.of_nat (length q + 1)) by lia. done.
  - destruct (transmit_push_log vi1 _ p Hr1) as (w & W1 & W2). exists w. split; [exact W1|].
    rewrite W2. unfold vi1. vi_cbn. destruct R as [Hm _ _ _ _ _].
    change (q_mask (vi_txq (ef10_pio_set_desc vi offset len dma_id))) with (q_mask (vi_txq vi)).
    by rewrite slot_u32.
Qed.

(** ** Warming *)

(** The state after warming, written out: only the descriptor of the free
    slot is written. *)
Definition pio_warmed (vi : ef_vi) : ef_vi :=
  let di := Z.land (tx_added (txq_state vi)) (q_mask (vi_txq vi)) in
  let desc := CI_POPULATE_QWORD
    [(ESF_DZ_TX_PIO_TYPE, 1); (ESF_DZ_TX_PIO_OPT, 1);
     (ESF_DZ_TX_PIO_BYTE_CNT, 0); (ESF_DZ_TX_PIO_BUF_ADDR, 0)] in
  let vi := upd_txq (fun qs => qs <| tx_removed := tx_removed qs |>) vi in
  tx_set_id di EF_REQUEST_ID_MASK (tx_set_id di 0 (tx_set_desc di desc vi)).

Lemma pio_send_noroom vi offset len dma_id :
  q_mask (vi_txq vi) <= u32 (tx_added (txq_state vi) - tx_removed (txq_state vi)) ->
  ef10_pio_send vi offset len dma_id =
    (tx_set_id (Z.land (tx_added (txq_state vi)) (q_mask (vi_txq vi))) EF_REQUEST_ID_MASK
       (ef10_pio_set_desc vi offset len dma_id), - EAGAIN).
Proof.
  intros H. unfold ef10_pio_send. cbv zeta.
  change (txq_state (ef10_pio_set_desc vi offset len dma_id)) with (txq_state vi).
  change (q_mask (vi_txq (ef10_pio_set_desc vi offset len dma_id))) with (q_mask (vi_txq vi)).
  by rewrite (proj2 (Z.ltb_ge _ _)).
Qed.

Lemma pio_warm_eq vi :
  0 <= q_mask (vi_txq vi) < 2147483648 ->
  ef10_ef_vi_transmit_pio_warm vi = pio_warmed vi.
Proof.
  intros Hm. unfold ef10_ef_vi_transmit_pio_warm.
  destruct (ef_vi_start_transmit_warm vi 0) as [vi1 st] eqn:E.
  unfold ef_vi_start_transmit_warm in E. injection E as <- <-.
  unfold ef10_ef_vi_transmit_pio. change (nz (Z.land 0 63)) with false. cbv iota.
  rewrite pio_send_noroom; [reflexivity|].
  vi_cbn. rewrite u32_sub_r.
  replace (tx_added (txq_state vi) - (tx_added (txq_state vi) - q_mask (vi_txq vi)))
    with (q_mask (vi_txq vi)) by lia.
  rewrite u32_small; lia.
Qed.

Lemma pio_warm_spec vi q p :
  tx_rep vi q p ->
  let vi' := ef10_ef_vi_transmit_pio_warm vi in
  tx_rep vi' q p /\ ep_state vi' = ep_state vi /\ q_ids (vi_txq vi') = q_ids (vi_txq vi) /\
  io_log vi' = io_log vi /\ vi_ctpio_mmap_ptr vi' = vi_ctpio_mmap_ptr vi.
Proof.
  intros Hr. rewrite pio_warm_eq.
  2:{ destruct Hr as [[Hm _ _ _ _ _] _ _ _]. by apply pow2_mask_range in Hm. }
  pose proof (pio_undo_ids vi q p 0 Hr) as Hids. destruct Hr as [R D P S]. cbv zeta in *.
  assert (Hst : ep_state (pio_warmed vi) = ep_state vi).
  { unfold pio_warmed. vi_cbn. by destruct (ep_state vi) as [? [] ?]. }
  split; [|split; [exact Hst|split; [exact Hids|done]]].
  split; rewrite ?Hst; try done.
  - unfold pio_warmed at 2. vi_cbn. rewrite Hids. exact R.
  - unfold pio_warmed at 1. vi_cbn. by rewrite length_aset.
Qed.

(** * The transmit queue over time

    The history of a transmit queue: packets whose descriptors are written but
    not pushed, packets handed to the NIC, packets reported complete. *)

Record tx_hist := mk_tx_hist {
  th_vi : ef_vi;
  th_pending : list Z;
  th_sent : list Z;
  th_completed : list Z
}.

(** One call of the application or one completion event.  The NIC completes
    pushed descriptors only, in order. *)
Inductive tx_step : tx_hist -> tx_hist -> Prop :=
  | step_init vi pending sent completed iov0 iov id vi' rc :
      Forall iov_wf (iov0 :: iov) -> id <> EF_REQUEST_ID_MASK ->
      ef10_ef_vi_transmitv_init vi iov0 iov id = Some (vi', rc) ->
      tx_step (mk_tx_hist vi pending sent completed)
        (mk_tx_hist vi' (if rc =? 0 then pending ++ [id] else pending) sent completed)
  | step_push vi pending sent completed :
      tx_step (mk_tx_hist vi pending sent completed)
        (mk_tx_hist (ef10_ef_vi_transmit_push vi) [] (sent ++ pending) completed)
  | step_undo vi pending sent completed :
      tx_step (mk_tx_hist vi pending sent completed)
        (mk_tx_hist (ef_vi_transmit_init_undo vi) [] sent completed)
  | step_pio vi pending sent completed offset len id vi' rc :
      id <> EF_REQUEST_ID_MASK ->
      ef10_ef_vi_transmit_pio vi offset len id = (vi', rc) ->
      tx_step (mk_tx_hist vi pending sent completed)
        (if rc =? 0 then mk_tx_hist vi' [] (sent ++ pending ++ [id]) completed
         else mk_tx_hist vi' pending sent completed)
  | step_warm vi pending sent completed :
      tx_step (mk_tx_hist vi pending sent completed)
        (mk_tx_hist (ef10_ef_vi_transmit_pio_warm vi) pending sent completed)
  | step_complete vi pending sent completed desc_id vi' ids :
      Z.land (desc_id - tx_removed (txq_state vi)) (q_mask (vi_txq vi)) <=
        u32 (tx_previous (txq_state vi) - tx_removed (txq_state vi)) ->
      ef_vi_transmit_unbundle vi desc_id = Some (vi', ids) ->
      tx_step (mk_tx_hist vi pending sent completed)
        (mk_tx_hist vi' pending sent (completed ++ ids)).

Inductive tx_reachable (vi0 : ef_vi) : tx_hist -> Prop :=
  | reach_start : tx_reachable vi0 (mk_tx_hist vi0 [] [] [])
  | reach_step h h' : tx_reachable vi0 h -> tx_step h h' -> tx_reachable vi0 h'.

(** The ring holds the packets sent and not completed, then the pending ones. *)
Definition tx_inv (h : tx_hist) : Prop :=
  exists q p, tx_rep (th_vi h) q p /\
    th_sent h = th_completed h ++ tx_ids (take (Z.to_nat p) q) /\
    th_pending h = tx_ids (drop (Z.to_nat p) q).

Lemma tx_ids_unused n : tx_ids (replicate n EF_REQUEST_ID_MASK) = [].
Proof. induction n as [|n IH]; [done|]. exact IH. Qed.

Lemma tx_ids_one id : id <> EF_REQUEST_ID_MASK -> tx_ids [id] = [id].
Proof. intros. rewrite tx_ids_cons. by rewrite (proj2 (Z.eqb_neq _ _)). Qed.

Lemma tx_inv_init vi pending sent completed iov0 iov id vi' rc :
  tx_inv (mk_tx_hist vi pending sent completed) ->
  Forall iov_wf (iov0 :: iov) -> id <> EF_REQUEST_ID_MASK ->
  ef10_ef_vi_transmitv_init vi iov0 iov id = Some (vi', rc) ->
  tx_inv (mk_tx_hist vi' (if rc =? 0 then pending ++ [id] else pending) sent completed).
Proof.
  intros (q & p & Hr & Hs & Hp) Hwf Hid E. cbn [th_vi th_sent th_completed th_pending] in *.
  pose proof Hr as [_ _ _ Hpp].
  set (n := length (tx_frags (tx_phys vi) (iov0 :: iov))).
  destruct (Z.le_gt_cases (Z.of_nat (length q) + Z.of_nat n) (q_mask (vi_txq vi))) as [Hle|Hgt].
  - destruct (transmitv_init_ok vi q p iov0 iov id Hr Hwf Hle) as (vi1 & E1 & R1 & _).
    rewrite E1 in E. injection E as <- <-. cbn [Z.eqb].
    eexists _, p. split; [exact R1|]. cbn [th_vi th_sent th_completed th_pending].
    rewrite take_app_le, drop_app_le by lia. split; [done|].
    rewrite !tx_ids_app, tx_ids_unused, tx_ids_one, Hp by done. done.
  - destruct (transmitv_init_full vi q p iov0 iov id Hr Hwf Hgt) as (vi1 & E1 & R1 & _).
    rewrite E1 in E. injection E as <- <-. exists q, p. done.
Qed.

Lemma tx_inv_pio vi pending sent completed offset len id vi' rc :
  tx_inv (mk_tx_hist vi pending sent completed) -> id <> EF_REQUEST_ID_MASK ->
  ef10_ef_vi_transmit_pio vi offset len id = (vi', rc) ->
  tx_inv (if rc =? 0 then mk_tx_hist vi' [] (sent ++ pending ++ [id]) completed
          else mk_tx_hist vi' pending sent completed).
Proof.
  intros (q & p & Hr & Hs & Hp) Hid E. cbn [th_vi th_sent th_completed th_pending] in *.
  unfold ef10_ef_vi_transmit_pio in E. destruct (nz (Z.land offset 63)).
  { injection E as <- <-. by exists q, p. }
  destruct (Z.le_gt_cases (q_mask (vi_txq vi)) (Z.of_nat (length q))) as [Hle|Hgt].
  - destruct (pio_send_full vi q p offset len id Hr Hle) as (vi1 & E1 & R1 & _).
    rewrite E1 in E. injection E as <- <-. by exists q, p.
  - destruct (pio_send_ok vi q p offset len id Hr Hgt) as (vi1 & E1 & R1 & _).
    rewrite E1 in E. injection E as <- <-. cbn [Z.eqb].
    eexists _, _. split; [exact R1|]. cbn [th_vi th_sent th_completed th_pending].
    rewrite take_ge, drop_ge by (rewrite length_app; cbn; lia). split; [|done].
    rewrite tx_ids_app, tx_ids_one by done. rewrite Hs, Hp.
    rewrite <- !app_assoc. f_equal. rewrite app_assoc, <- tx_ids_app, take_drop. done.
Qed.

Lemma tx_inv_complete vi pending sent completed desc_id vi' ids :
  tx_inv (mk_tx_hist vi pending sent completed) ->
  Z.land (desc_id - tx_removed (txq_state vi)) (q_mask (vi_txq vi)) <=
    u32 (tx_previous (txq_state vi) - tx_removed (txq_state vi)) ->
  ef_vi_transmit_unbundle vi desc_id = Some (vi', ids) ->
  tx_inv (mk_tx_hist vi' pending sent (completed ++ ids)).
Proof.
  intros (q & p & Hr & Hs & Hp) Hle E. cbn [th_vi th_sent th_completed th_pending] in *.
  pose proof Hr as [[Hm _ Hrem _ Hfit _] _ P Hpp]. pose proof (pow2_mask_range _ Hm).
  rewrite P, u32_sub_l in Hle. 
  replace (tx_removed (txq_state vi) + p - tx_removed (txq_state vi)) with p in Hle by lia.
  rewrite u32_small in Hle by lia.
  set (d := Z.land (desc_id - tx_removed (txq_state vi)) (q_mask (vi_txq vi))) in *.
  assert (Hd0 : 0 <= d) by (apply slot_range; done).
  destruct (transmit_unbundle_spec vi q p (Z.to_nat d) desc_id Hr) as (vi1 & E1 & R1); [lia| |].
  { rewrite Z2Nat.id by done. unfold d. rewrite !slot_mod by done.
    rewrite Zplus_mod_idemp_r. f_equal. lia. }
  rewrite E1 in E. injection E as <- <-.
  eexists _, _. split; [exact R1|]. cbn [th_vi th_sent th_completed th_pending].
  rewrite Z2Nat.id by done. replace (Z.to_nat (p - d)) with (Z.to_nat p - Z.to_nat d)%nat by lia.
  split.
  - rewrite Hs, <- app_assoc, <- tx_ids_app. do 2 f_equal.
    rewrite take_take_drop. f_equal. lia.
  - rewrite Hp, drop_drop. do 2 f_equal. lia.
Qed.

Lemma tx_inv_step h h' : tx_inv h -> tx_step h h' -> tx_inv h'.
Proof.
  intros Hi Hs. destruct Hs.
  - by apply (tx_inv_init vi pending sent completed iov0 iov id vi' rc).
  - destruct Hi as (q & p & Hr & Hs & Hp). cbn [th_vi th_sent th_completed th_pending] in *.
    exists q, (Z.of_nat (length q)). cbn [th_vi th_sent th_completed th_pending].
    split; [by apply (transmit_push_rep vi q p)|].
    rewrite Nat2Z.id, take_ge, drop_ge by lia. split; [|done].
    rewrite Hs, Hp, <- app_assoc, <- tx_ids_app, take_drop. done.
  - destruct Hi as (q & p & Hr & Hs & Hp). cbn [th_vi th_sent th_completed th_pending] in *.
    exists (take (Z.to_nat p) q), p. cbn [th_vi th_sent th_completed th_pending].
    split; [by apply transmit_init_undo_spec|].
    rewrite take_take, Nat.min_id. split; [done|]. by rewrite drop_ge by (rewrite length_take; lia).
  - by apply (tx_inv_pio vi pending sent completed offset len id vi' rc).
  - destruct Hi as (q & p & Hr & Hs & Hp). exists q, p. split; [|done]. by apply pio_warm_spec.
  - by apply (tx_inv_complete vi pending sent completed desc_id vi' ids).
Qed.

Lemma tx_reachable_inv vi0 h : tx_rep vi0 [] 0 -> tx_reachable vi0 h -> tx_inv h.
Proof.
  intros H0 Hre. induction Hre as [|h h' _ IH Hs]; [|by apply (tx_inv_step h)].
  by exists [], 0.
Qed.

(** ** Termination of the completion loop *)

Lemma transmit_unbundle_loop_total n : forall fuel vi stop acc,
  pow2_mask (q_mask (vi_txq vi)) -> 0 <= stop <= q_mask (vi_txq vi) ->
  Z.land (stop - tx_removed (txq_state vi)) (q_mask (vi_txq vi)) = Z.of_nat n ->
  (n < fuel)%nat -> is_Some (transmit_unbundle_loop fuel vi stop acc).
Proof.
  induction n as [|n IH]; intros fuel vi stop acc Hm Hs Hn Hf; (destruct fuel as [|fuel]; [lia|]);
    cbn [transmit_unbundle_loop]; pose proof (pow2_mask_range _ Hm);
    (destruct (Z.eqb_spec (Z.land (tx_removed (txq_state vi)) (q_mask (vi_txq vi))) stop) as [E|E];
      [by eexists|]).
  - destruct E. rewrite slot_mod in Hn |- * by done.
    apply Z.mod_divide in Hn as [c Hc]; [|lia].
    replace (tx_removed (txq_state vi)) with (stop + (- c) * (q_mask (vi_txq vi) + 1)) by lia.
    rewrite Z_mod_plus_full. apply Z.mod_small. lia.
  - destruct (negb _);
      (apply IH; vi_cbn; [done|done| |lia]);
      rewrite slot_mod in Hn |- * by done; unfold u32;
      rewrite <- Zminus_mod_idemp_r, Z.mod_mod_divide, Zminus_mod_idemp_r;
      try (destruct Hm as (k & Hk & ->); exists (2 ^ (32 - k)); 
           replace (2 ^ k - 1 + 1) with (2 ^ k) by lia; rewrite <- Z.pow_add_r by lia;
           by replace (32 - k + k) with 32 by lia);
      replace (stop - (tx_removed (txq_state vi) + 1))
        with ((stop - tx_removed (txq_state vi)) - 1) by lia;
      rewrite <- Zminus_mod_idemp_l, Hn; rewrite Z.mod_small; try lia;
      pose proof (Z.mod_pos_bound (stop - tx_removed (txq_state vi)) (q_mask (vi_txq vi) + 1)); lia.
Qed.

(** * Properties *)

(** C3: [ef10_ef_vi_transmitv_init] terminates and implements an append to a
    bounded FIFO queue: with room for the packet's descriptors it returns 0, the
    slots from [added] hold exactly the descriptors of the packet's fragments,
    and the queue gains one entry per descriptor, the packet's id on the last;
    without room it returns [-EAGAIN] and the counters, the id ring and the
    doorbells are as before.  Holds across 32-bit counter wrap-around. *)
Theorem transmitv_init_refines vi q p iov0 iov dma_id :
  tx_rep vi q p -> Forall iov_wf (iov0 :: iov) ->
  let frags := tx_frags (tx_phys vi) (iov0 :: iov) in
  let n := length frags in
  exists vi' rc, ef10_ef_vi_transmitv_init vi iov0 iov dma_id = Some (vi', rc) /\
    if Z.of_nat (length q) + Z.of_nat n <=? q_mask (vi_txq vi)
    then rc = 0 /\
      tx_rep vi' (q ++ replicate (n - 1) EF_REQUEST_ID_MASK ++ [dma_id]) p /\
      take n (rview (q_mask (vi_txq vi)) (q_descriptors (vi_txq vi')) (tx_added (txq_state vi))) =
        tx_descs (tx_phys vi) frags
    else rc = - EAGAIN /\ tx_rep vi' q p /\ ep_state vi' = ep_state vi /\
      q_ids (vi_txq vi') = q_ids (vi_txq vi) /\ io_log vi' = io_log vi.
Proof.
  intros Hr Hwf frags n. destruct (Z.leb_spec (Z.of_nat (length q) + Z.of_nat n)
    (q_mask (vi_txq vi))) as [Hle|Hgt].
  - destruct (transmitv_init_ok vi q p iov0 iov dma_id Hr Hwf Hle) as (vi' & E & R & V & _).
    by exists vi', 0.
  - destruct (transmitv_init_full vi q p iov0 iov dma_id Hr Hwf Hgt) as (vi' & E & R & I & S & L).
    by exists vi', (- EAGAIN).
Qed.

(** Consecutive fragments, from [addr] on. *)
Fixpoint contiguous (addr : Z) (l : list (Z * Z)) : Prop :=
  match l with
  | [] => True
  | (a, n) :: l => a = addr /\ contiguous (u64 (a + n)) l
  end.

Lemma tx_pieces_split addr len :
  0 <= addr < 18446744073709551616 -> 0 <= len < 4294967296 ->
  let l := tx_pieces false addr len in
  contiguous addr l /\ foldr Z.add 0 (map snd l) = len /\
  Forall (fun '(a, n) => 0 <= n /\ a `mod` 4096 + n <= 4096) l.
Proof.
  intros Ha Hl. cbv zeta. remember (npages addr len) as k eqn:Hk.
  revert addr len Ha Hl Hk. induction k as [|k IH]; intros addr len Ha Hl Hk.
  { unfold npages in Hk. lia. }
  destruct (Z.le_gt_cases len (page_left addr)) as [Hle|Hgt].
  - rewrite pieces_last by lia. cbn. split; [done|]. split; [lia|].
    apply Forall_cons; [unfold page_left in Hle; lia|apply Forall_nil_2].
  - pose proof (page_left_range addr). rewrite pieces_more by lia.
    rewrite npages_more in Hk by lia. injection Hk as Hk.
    destruct (IH (u64 (addr + page_left addr)) (len - page_left addr)) as (H1 & H2 & H3);
      [apply u64_range|lia|done|].
    cbn [contiguous map foldr snd]. split; [done|]. split; [lia|].
    apply Forall_cons; [|done]. split; [lia|]. unfold page_left. lia.
Qed.

(** how a buffer is cut into virtual-address descriptors: the fragments are
    consecutive, add up to the buffer's length, never cross a 4K page, and
    there are exactly as many as pages touched (one for an empty buffer). *)
Theorem tx_pieces_cover addr len :
  0 <= addr < 18446744073709551616 -> 0 <= len < 4294967296 ->
  let l := tx_pieces false addr len in
  contiguous addr l /\ foldr Z.add 0 (map snd l) = len /\
  Forall (fun '(a, n) => 0 <= n /\ a `mod` 4096 + n <= 4096) l /\ length l = npages addr len.
Proof.
  intros Ha Hl l. destruct (tx_pieces_split addr len Ha Hl) as (H1 & H2 & H3).
  split; [done|]. split; [done|]. split; [done|].
  unfold l, tx_pieces. assert (0 < npages addr len)%nat as Hp by (unfold npages; lia).
  revert Hp. generalize (npages addr len). intros n. clear. revert addr len.
  induction n as [|[|n] IH]; intros addr len Hp; [lia|done|].
  cbn [pieces length]. f_equal. apply IH. lia.
Qed.

(** C12: over any sequence of transmit calls (DMA, PIO, push, undo, warming, in
    any order, failing or not) and completion events, the ids reported complete are
    exactly the ids handed to the NIC, in order, without loss or duplication, up
    to those still in the ring; when the ring is empty nothing is outstanding. *)
Theorem tx_completions_fifo vi0 h :
  tx_rep vi0 [] 0 -> tx_reachable vi0 h ->
  exists outstanding,
    th_sent h = th_completed h ++ outstanding /\
    Z.of_nat (length outstanding) + Z.of_nat (length (th_pending h)) <=
      u32 (tx_added (txq_state (th_vi h)) - tx_removed (txq_state (th_vi h))).
Proof.
  intros H0 Hre. destruct (tx_reachable_inv vi0 h H0 Hre) as (q & p & Hr & Hs & Hp).
  exists (tx_ids (take (Z.to_nat p) q)). split; [done|].
  destruct Hr as [R _ _ _]. rewrite (ring_count q R), Hp, <- Nat2Z.inj_add, <- length_app.
  rewrite <- tx_ids_app, take_drop. apply inj_le. apply filter_length_le.
Qed.

(** [ef10_ef_vi_transmit_push] makes exactly one register write, whose
    doorbell value is the ring slot of [added], and marks every descriptor as
    pushed; the descriptor itself is written with it only when fewer than
    [tx_push_thresh] descriptors are in flight and it may be pushed. *)
Theorem transmit_push_publishes vi q p :
  tx_rep vi q p ->
  let vi' := ef10_ef_vi_transmit_push vi in
  tx_rep vi' q (Z.of_nat (length q)) /\
  exists w, io_log vi' = io_log vi ++ [w] /\
    doorbell_of w = Some (Z.land (tx_added (txq_state vi)) (q_mask (vi_txq vi))) /\
    forall desc v a, w = WritePush desc v a ->
      p < tx_push_thresh vi /\ ef10_tx_descriptor_can_push desc = true /\
      desc = aget (q_descriptors (vi_txq vi)) (Z.land (tx_previous (txq_state vi)) (q_mask (vi_txq vi))).
Proof.
  intros Hr vi'. split; [by apply (transmit_push_rep vi q p)|].
  destruct (transmit_push_log vi q p Hr) as (w & W1 & W2). exists w. split; [done|]. split; [done|].
  intros desc v a ->. unfold vi', ef10_ef_vi_transmit_push in W1.
  destruct Hr as [[Hm _ Hrem _ Hfit _] _ P Hpp]. pose proof (pow2_mask_range _ Hm).
  rewrite P, u32_sub_l in W1.
  replace (tx_removed (txq_state vi) + p - tx_removed (txq_state vi)) with p in W1 by lia.
  rewrite u32_small in W1 by lia. rewrite P.
  destruct ((p <? tx_push_thresh vi) && _) eqn:E; apply app_inj_tail in W1 as [_ W1].
  - injection W1 as E3 _ _. subst desc.
    apply andb_true_iff in E as [E1 E2]. apply Z.ltb_lt in E1. done.
  - discriminate.
Qed.

(** C33: [ef_vi_transmit_unbundle] terminates within one turn of the ring for
    any event and any state of the counters, and an event that completes the
    next [n] pushed descriptors returns the ids of their packets, in order, and
    removes exactly those descriptors from the queue. *)
Theorem transmit_unbundle_total_fifo vi desc_id :
  pow2_mask (q_mask (vi_txq vi)) ->
  is_Some (ef_vi_transmit_unbundle vi desc_id) /\
  forall q p n, tx_rep vi q p -> Z.of_nat n <= p ->
    Z.land desc_id (q_mask (vi_txq vi)) =
      Z.land (tx_removed (txq_state vi) + Z.of_nat n) (q_mask (vi_txq vi)) ->
    exists vi', ef_vi_transmit_unbundle vi desc_id = Some (vi', tx_ids (take n q)) /\
      tx_rep vi' (drop n q) (p - Z.of_nat n).
Proof.
  intros Hm. split.
  - pose proof (slot_range _ desc_id Hm) as Hs.
    pose proof (slot_range _ (Z.land desc_id (q_mask (vi_txq vi)) - tx_removed (txq_state vi)) Hm).
    eapply (transmit_unbundle_loop_total (Z.to_nat _)); [done|exact Hs| |].
    + symmetry. apply Z2Nat.id. apply H.
    + lia.
  - intros q p n. apply transmit_unbundle_spec.
Qed.

(** [ef_vi_transmit_init_undo] withdraws exactly the descriptors that were
    initialised and not pushed. *)
Theorem transmit_init_undo_withdraws vi q p :
  tx_rep vi q p -> tx_rep (ef_vi_transmit_init_undo vi) (take (Z.to_nat p) q) p.
Proof. apply transmit_init_undo_spec. Qed.

(** a PIO transmit is refused for a misaligned offset without any effect,
    refused with [-EAGAIN] on a full ring leaving counters, ids and doorbells as
    they were (the descriptor is written to the slot kept free), and otherwise
    queues its id and rings the doorbell once. *)
Theorem transmit_pio_outcomes vi q p offset len dma_id :
  tx_rep vi q p ->
  let '(vi', rc) := ef10_ef_vi_transmit_pio vi offset len dma_id in
  if nz (Z.land offset 63) then vi' = vi /\ rc = - EINVAL
  else if q_mask (vi_txq vi) <=? Z.of_nat (length q) then
    rc = - EAGAIN /\ tx_rep vi' q p /\ ep_state vi' = ep_state vi /\
    q_ids (vi_txq vi') = q_ids (vi_txq vi) /\ io_log vi' = io_log vi
  else
    rc = 0 /\ tx_rep vi' (q ++ [dma_id]) (Z.of_nat (length q) + 1) /\
    exists w, io_log vi' = io_log vi ++ [w] /\
      doorbell_of w = Some (Z.land (tx_added (txq_state vi) + 1) (q_mask (vi_txq vi))).
Proof.
  intros Hr. unfold ef10_ef_vi_transmit_pio. destruct (nz (Z.land offset 63)); [done|].
  destruct (Z.leb_spec (q_mask (vi_txq vi)) (Z.of_nat (length q))) as [Hle|Hgt].
  - destruct (pio_send_full vi q p offset len dma_id Hr Hle) as (vi' & -> & R & I & S & L). done.
  - destruct (pio_send_ok vi q p offset len dma_id Hr Hgt) as (vi' & -> & R & W). done.
Qed.

(** warming the PIO path sends nothing: the queue, every counter, the id
    ring, the CTPIO pointer and the doorbells are unchanged. *)
Theorem transmit_warm_no_effect vi q p :
  tx_rep vi q p ->
  let vi' := ef10_ef_vi_transmit_pio_warm vi in
  tx_rep vi' q p /\ ep_state vi' = ep_state vi /\ q_ids (vi_txq vi') = q_ids (vi_txq vi) /\
  io_log vi' = io_log vi /\ vi_ctpio_mmap_ptr vi' = vi_ctpio_mmap_ptr vi.
Proof. apply pio_warm_spec. Qed.

(** ** Witnesses

    An empty ring of eight slots whose counters are about to wrap. *)

Definition ex_tx : ef_vi :=
  let vi := vi_zero <| vi_txq := mk_ring 7 (replicate 8 0) (replicate 8 EF_REQUEST_ID_MASK) |> in
  let vi := vi <| tx_push_thresh := 16 |> in
  upd_txq (fun qs => mk_txq_state 4294967294 4294967294 4294967294 0) vi.

Lemma ex_tx_rep : tx_rep ex_tx [] 0.
Proof.
  split; [|reflexivity|reflexivity|cbn; lia].
  change (ring_rep 7 (replicate (Z.to_nat (7 + 1)) EF_REQUEST_ID_MASK) 4294967294 4294967294 []).
  apply ring_empty; [|lia]. exists 3. split; [lia|reflexivity].
Qed.

Lemma ex_iov_wf : Forall iov_wf [mk_ef_iovec 4000 200; mk_ef_iovec 8192 60].
Proof. repeat (apply Forall_cons; [unfold iov_wf; cbn; lia|]). apply Forall_nil_2. Qed.

Lemma transmitv_init_refines_witness :
  exists vi', ef10_ef_vi_transmitv_init ex_tx (mk_ef_iovec 4000 200) [mk_ef_iovec 8192 60] 5 =
    Some (vi', 0) /\ tx_rep vi' [EF_REQUEST_ID_MASK; EF_REQUEST_ID_MASK; 5] 0.
Proof.
  destruct (transmitv_init_refines ex_tx [] 0 (mk_ef_iovec 4000 200) [mk_ef_iovec 8192 60] 5
    ex_tx_rep ex_iov_wf) as (vi' & rc & E & H).
  change (Z.of_nat 0 + Z.of_nat 3 <=? 7) with true in H. destruct H as (-> & R & _).
  exists vi'. split; [exact E|exact R].
Defined.

Lemma tx_pieces_cover_witness :
  foldr Z.add 0 (map snd (tx_pieces false 4000 9000)) = 9000 /\
  length (tx_pieces false 4000 9000) = 4%nat.
Proof.
  destruct (tx_pieces_cover 4000 9000) as (_ & H & _ & L); [lia..|]. split; [exact H|exact L].
Defined.

(** Two sends, a push and the completion of the first. *)
Definition ex_tx1 : ef_vi :=
  match ef10_ef_vi_transmitv_init ex_tx (mk_ef_iovec 4000 200) [] 5 with
  | Some (vi, _) => vi | None => ex_tx end.
Definition ex_tx2 : ef_vi := ef10_ef_vi_transmit_push ex_tx1.
Definition ex_tx3 : ef_vi :=
  match ef_vi_transmit_unbundle ex_tx2 0 with Some (vi, _) => vi | None => ex_tx2 end.

Lemma tx_completions_fifo_witness :
  exists outstanding, [5] = [5] ++ outstanding /\ Z.of_nat (length outstanding) + 0 <= 0.
Proof.
  apply (tx_completions_fifo ex_tx (mk_tx_hist ex_tx3 [] [5] [5]) ex_tx_rep).
  apply (reach_step _ (mk_tx_hist ex_tx2 [] [5] [])).
  - apply (reach_step _ (mk_tx_hist ex_tx1 [5] [] [])).
    + apply (reach_step _ (mk_tx_hist ex_tx [] [] [])); [apply reach_start|].
      apply (step_init ex_tx [] [] [] (mk_ef_iovec 4000 200) [] 5 ex_tx1 0).
      * apply Forall_cons; [unfold iov_wf; cbn; lia|apply Forall_nil_2].
      * unfold EF_REQUEST_ID_MASK. lia.
      * vm_compute. reflexivity.
    + apply (step_push ex_tx1 [5] [] []).
  - apply (step_complete ex_tx2 [] [5] [] 0 ex_tx3 [5]).
    + vm_compute. discriminate.
    + vm_compute. reflexivity.
Defined.

Lemma transmit_push_publishes_witness :
  exists w, io_log (ef10_ef_vi_transmit_push ex_tx) = [w] /\ doorbell_of w = Some 6.
Proof.
  destruct (transmit_push_publishes ex_tx [] 0 ex_tx_rep) as (_ & w & L & D & _).
  exists w. split; [exact L|exact D].
Defined.

Lemma transmit_unbundle_total_fifo_witness : is_Some (ef_vi_transmit_unbundle ex_tx 12345).
Proof.
  apply (transmit_unbundle_total_fifo ex_tx 12345). exists 3. split; [lia|reflexivity].
Defined.

Lemma transmit_init_undo_withdraws_witness :
  exists vi, tx_rep vi [EF_REQUEST_ID_MASK; EF_REQUEST_ID_MASK; 5] 0 /\
    tx_rep (ef_vi_transmit_init_undo vi) [] 0.
Proof.
  destruct (transmitv_init_ok ex_tx [] 0 (mk_ef_iovec 4000 200) [mk_ef_iovec 8192 60] 5
    ex_tx_rep ex_iov_wf) as (vi & _ & R & _); [vm_compute; discriminate|].
  exists vi. split; [exact R|]. apply (transmit_init_undo_withdraws vi _ 0 R).
Defined.

Lemma transmit_pio_outcomes_witness :
  let '(vi', rc) := ef10_ef_vi_transmit_pio ex_tx 64 100 9 in rc = 0 /\ tx_rep vi' [9] 1.
Proof.
  pose proof (transmit_pio_outcomes ex_tx [] 0 64 100 9 ex_tx_rep) as H.
  destruct (ef10_ef_vi_transmit_pio ex_tx 64 100 9) as [vi' rc].
  change (nz (Z.land 64 63)) with false in H. change (7 <=? 0) with false in H.
  destruct H as (E & R & _). split; [exact E|exact R].
Defined.

Lemma transmit_warm_no_effect_witness :
  tx_rep (ef10_ef_vi_transmit_pio_warm ex_tx) [] 0.
Proof. apply (transmit_warm_no_effect ex_tx [] 0 ex_tx_rep). Defined.
