(* ===== verification/Rx.v ===== *)
(** The EF10 receive path: the receive half of lib/ciul/ef10_vi.c and
    lib/ciul/pt_rx.c.  (Buffers of a normal-mode queue leave the ring in the event
    handlers, file Event; those of an event-merge queue leave it in
    [ef_vi_receive_unbundle].) *)

From stdpp Require Import base list numbers.
From S2P Require Import Prelude Bitfield Vi Ring Tx.

Open Scope Z_scope.

Definition ER_DZ_RX_DESC_UPD_REG := 2096.
Definition EF_VI_PS_DMA_START_OFFSET := 256.

Definition ef10_dma_rx_calc_ip_phys (dest_pa bytes : Z) : Z :=
  CI_POPULATE_QWORD [(ESF_DZ_RX_KER_BUF_ADDR, dest_pa); (ESF_DZ_RX_KER_BYTE_CNT, bytes)].

Definition ef10_dma_rx_calc_ip_buf (buf_vaddr rx_bytes : Z) : Z :=
  CI_POPULATE_QWORD
    [(ESF_DZ_RX_USR_BUF_ID_OFFSET, EF10_BUF_VADDR_2_ID_OFFSET buf_vaddr);
     (ESF_DZ_RX_USR_BUF_PAGE_SIZE, EF10_BUF_VADDR_2_ORDER buf_vaddr);
     (ESF_DZ_RX_USR_BYTE_CNT, rx_bytes)].

Definition rx_set_desc (di desc : Z) (vi : ef_vi) : ef_vi :=
  vi <| vi_rxq ::= fun q => q <| q_descriptors ::= fun d => aset d di desc |> |>.

Definition rx_set_id (di id : Z) (vi : ef_vi) : ef_vi :=
  vi <| vi_rxq ::= fun q => q <| q_ids ::= fun l => aset l di id |> |>.

Definition ef10_ef_vi_receive_init (vi : ef_vi) (addr dma_id : Z) : ef_vi * Z :=
  if nz (ef_vi_receive_space vi) then
    let di := Z.land (rx_added (rxq_state vi)) (q_mask (vi_rxq vi)) in
    let vi := upd_rxq (fun qs => qs <| rx_added := u32 (rx_added qs + 1) |>) vi in
    let vi := rx_set_id di dma_id vi in
    let desc :=
      if vi_flag vi EF_VI_RX_PHYS_ADDR
      then ef10_dma_rx_calc_ip_phys addr (rx_buffer_len vi)
      else ef10_dma_rx_calc_ip_buf addr (rx_buffer_len vi) in
    (rx_set_desc di desc vi, 0)
  else (vi, - EAGAIN).

Definition ef10_ef_vi_receive_init_ps (vi : ef_vi) (addr dma_id : Z) : ef_vi * Z :=
  if nz (Z.land addr (u32 (vi_ps_buf_size vi - 1))) then (vi, - EINVAL)
  else ef10_ef_vi_receive_init vi (Z.lor addr EF_VI_PS_DMA_START_OFFSET) 0.

Definition ef10_ef_vi_receive_push (vi : ef_vi) : ef_vi :=
  let posted := Z.land (rx_added (rxq_state vi)) (u32 (Z.lnot 7)) in
  if negb (posted =? rx_posted (rxq_state vi)) then
    let vi := writel (Z.land posted (q_mask (vi_rxq vi))) (io vi + ER_DZ_RX_DESC_UPD_REG) vi in
    upd_rxq (fun qs => qs <| rx_posted := posted |>) vi
  else vi.

(** [ops.receive_init], by the table. *)
Definition ef_vi_receive_init (vi : ef_vi) (addr dma_id : Z) : ef_vi * Z :=
  match ops vi with
  | Ops_ef10 _ true _ => ef10_ef_vi_receive_init_ps vi addr dma_id
  | _ => ef10_ef_vi_receive_init vi addr dma_id
  end.

(** * lib/ciul/pt_rx.c *)

Definition ef_vi_receive_post (vi : ef_vi) (addr dma_id : Z) : ef_vi * Z :=
  let '(vi, rc) := ef_vi_receive_init vi addr dma_id in
  (if rc =? 0 then ef10_ef_vi_receive_push vi else vi, rc).

(** The [for] loop, [n] iterations from the end; [ids] are the ids so far. *)
Fixpoint receive_unbundle_loop (n : nat) (vi : ef_vi) (ids : list Z) : ef_vi * list Z :=
  match n with
  | O => (vi, ids)
  | S n =>
    let di := Z.land (rx_removed (rxq_state vi)) (q_mask (vi_rxq vi)) in
    let vi := upd_rxq (fun qs => qs <| rx_removed := u32 (rx_removed qs + 1) |>) vi in
    let id := aget (q_ids (vi_rxq vi)) di in
    if negb (id =? EF_REQUEST_ID_MASK)
    then receive_unbundle_loop n (rx_set_id di EF_REQUEST_ID_MASK vi) (ids ++ [id])
    else receive_unbundle_loop n vi ids
  end.

(** [n_descs] is the event's [rx_multi.n_descs]. *)
Definition ef_vi_receive_unbundle (vi : ef_vi) (n_descs : Z) : ef_vi * list Z :=
  receive_unbundle_loop (Z.to_nat n_descs) vi [].

(** * The receive ring as a queue *)

Ltac rx_cbn :=
  cbn [rx_set_desc rx_set_id upd_rxq upd_txq upd_evq fset vi_txq vi_rxq ep_state st_txq st_rxq st_evq
       q_mask q_ids q_descriptors rx_posted rx_added rx_removed rx_in_jumbo rx_bytes_acc
       rx_last_desc_i rx_ps_credit_avail vi_flags io io_log writel rx_buffer_len].

(** The ring holds the buffers [q], of which the first [p] are posted to the
    NIC; descriptors are posted in batches of 8. *)
Record rx_rep (vi : ef_vi) (q : list Z) (p : Z) : Prop := {
  xr_ring : ring_rep (q_mask (vi_rxq vi)) (q_ids (vi_rxq vi)) (rx_removed (rxq_state vi))
              (rx_added (rxq_state vi)) q;
  xr_desc : Z.of_nat (length (q_descriptors (vi_rxq vi))) = q_mask (vi_rxq vi) + 1;
  xr_posted : rx_posted (rxq_state vi) = u32 (rx_removed (rxq_state vi) + p);
  xr_batch : rx_posted (rxq_state vi) `mod` 8 = 0;
  xr_pushed : 0 <= p <= Z.of_nat (length q)
}.

Lemma receive_space_spec vi q p :
  rx_rep vi q p -> ef_vi_receive_space vi = q_mask (vi_rxq vi) - Z.of_nat (length q).
Proof.
  intros []. unfold ef_vi_receive_space. rewrite (ring_count q xr_ring0).
  destruct xr_ring0 as [Hm _ _ _ Hfit _]. pose proof (pow2_mask_range _ Hm).
  rewrite u32_small by lia. unfold s32. rewrite u32_small by lia.
  destruct (Z.ltb_spec (q_mask (vi_rxq vi) - Z.of_nat (length q)) 2147483648); lia.
Qed.

(** Store the id, count it, write the descriptor. *)
Lemma receive_init_rep vi q p addr dma_id :
  rx_rep vi q p -> Z.of_nat (length q) < q_mask (vi_rxq vi) ->
  exists vi', ef10_ef_vi_receive_init vi addr dma_id = (vi', 0) /\
    rx_rep vi' (q ++ [dma_id]) p /\ io_log vi' = io_log vi /\
    aget (q_descriptors (vi_rxq vi')) (Z.land (rx_added (rxq_state vi)) (q_mask (vi_rxq vi))) =
      (if vi_flag vi EF_VI_RX_PHYS_ADDR
       then ef10_dma_rx_calc_ip_phys addr (rx_buffer_len vi)
       else ef10_dma_rx_calc_ip_buf addr (rx_buffer_len vi)).
Proof.
  intros Hr Hlt. unfold ef10_ef_vi_receive_init. rewrite (receive_space_spec vi q p Hr).
  unfold nz. rewrite (proj2 (Z.eqb_neq _ 0)) by lia. cbn [negb].
  destruct Hr as [R D P B S]. eexists. split; [reflexivity|]. split; [|split; [reflexivity|]].
  - pose proof (ring_push q dma_id R Hlt) as R'.
    split; rx_cbn; rewrite ?length_aset, ?length_app; cbn [length]; try done. lia.
  - rx_cbn. change (vi_flag (rx_set_id _ _ _) EF_VI_RX_PHYS_ADDR) with (vi_flag vi EF_VI_RX_PHYS_ADDR).
    destruct R as [Hm _ _ _ _ _]. pose proof (slot_range _ (rx_added (rxq_state vi)) Hm).
    rewrite aget_aset_eq by lia. reflexivity.
Qed.

Lemma receive_init_full vi q p addr dma_id :
  rx_rep vi q p -> q_mask (vi_rxq vi) <= Z.of_nat (length q) ->
  ef10_ef_vi_receive_init vi addr dma_id = (vi, - EAGAIN).
Proof.
  intros Hr Hge. unfold ef10_ef_vi_receive_init. rewrite (receive_space_spec vi q p Hr).
  destruct Hr as [[_ _ _ _ Hfit _] _ _ _ _].
  replace (q_mask (vi_rxq vi) - Z.of_nat (length q)) with 0 by lia. done.
Qed.

(** [added & ~7] *)

Lemma batch8 x : 0 <= x < 4294967296 -> Z.land x (u32 (Z.lnot 7)) = 8 * (x / 8).
Proof.
  intros Hx. change (u32 (Z.lnot 7)) with 4294967288.
  rewrite Z.mul_comm. change 8 with (2 ^ 3). rewrite <- Z.shiftr_div_pow2, <- Z.shiftl_mul_pow2 by lia.
  apply Z.bits_inj'. intros i Hi. rewrite Z.land_spec, Z.shiftl_spec by lia.
  change 4294967288 with (Z.shiftl (Z.ones 29) 3). rewrite Z.shiftl_spec by lia.
  destruct (Z.ltb_spec i 3).
  - rewrite !(Z.testbit_neg_r _ (i - 3)) by lia. apply andb_false_r.
  - rewrite Z.shiftr_spec by lia. replace (i - 3 + 3) with i by lia.
    destruct (Z.ltb_spec i 32).
    + rewrite Z.ones_spec_low by lia. apply andb_true_r.
    + rewrite (testbit_above x 32) by (change (2 ^ 32) with 4294967296; lia). done.
Qed.

(** Posting: every whole batch of 8 is posted, and the NIC is told once. *)
Lemma receive_push_rep vi q p :
  rx_rep vi q p ->
  exists p', rx_rep (ef10_ef_vi_receive_push vi) q p' /\ p <= p' /\
    Z.of_nat (length q) - p' < 8 /\
    io_log (ef10_ef_vi_receive_push vi) =
      (if p' =? p then io_log vi
       else io_log vi ++ [Writel (Z.land (rx_removed (rxq_state vi) + p') (q_mask (vi_rxq vi)))
                            (io vi + ER_DZ_RX_DESC_UPD_REG)]).
Proof.
  intros [R D P B S]. pose proof R as [Hm Hl Hrem Ha Hfit _]. pose proof (pow2_mask_range _ Hm).
  set (rem := rx_removed (rxq_state vi)) in *. set (n := Z.of_nat (length q)) in *.
  set (p' := n - (rem + n) `mod` 8).
  assert (Hadd : 0 <= rx_added (rxq_state vi) < 4294967296) by (rewrite Ha; apply u32_range).
  assert (Hmod : (rem + p) `mod` 8 = 0).
  { rewrite P in B. unfold u32 in B. rewrite Z.mod_mod_divide in B by (by exists 536870912). done. }
  assert (Hp' : p <= p' /\ n - p' < 8 /\ p' <= n /\ (rem + p') `mod` 8 = 0).
  { unfold p'. clear -Hmod S. fold n in S. Z.div_mod_to_equations. lia. }
  destruct Hp' as (Hp1 & Hp2 & Hp3 & Hp4).
  assert (Hposted : Z.land (rx_added (rxq_state vi)) (u32 (Z.lnot 7)) = u32 (rem + p')).
  { rewrite batch8 by done. rewrite Ha. unfold p', u32. Z.div_mod_to_equations. lia. }
  exists p'. unfold ef10_ef_vi_receive_push. rewrite Hposted, P.
  destruct (Z.eqb_spec (u32 (rem + p')) (u32 (rem + p))) as [E|E]; cbn [negb].
  - assert (p' = p) as ->.
    { assert (E' : u32 (rem + p' - rem) = u32 (rem + p - rem)).
      { rewrite <- (u32_sub_l (rem + p')), <- (u32_sub_l (rem + p)). by rewrite E. }
      replace (rem + p' - rem) with p' in E' by lia. replace (rem + p - rem) with p in E' by lia.
      rewrite !u32_small in E' by lia. done. }
    rewrite Z.eqb_refl. done.
  - assert (p' <> p) by congruence. rewrite (proj2 (Z.eqb_neq _ _)) by done.
    split; [|split; [done|split; [done|]]].
    + split; rx_cbn; try done.
      * unfold u32. rewrite Z.mod_mod_divide by (by exists 536870912). done.
      * lia.
    + rx_cbn. do 3 f_equal. rewrite slot_u32 by done. apply u32_small.
      pose proof (slot_range _ (rem + p') Hm). lia.
Qed.

(** Taking the head buffer off the ring. *)
Lemma rx_pop_rep vi x q p :
  rx_rep vi (x :: q) p -> 0 < p ->
  let di := Z.land (rx_removed (rxq_state vi)) (q_mask (vi_rxq vi)) in
  aget (q_ids (vi_rxq vi)) di = x /\
  rx_rep (rx_set_id di EF_REQUEST_ID_MASK
    (upd_rxq (fun qs => qs <| rx_removed := u32 (rx_removed qs + 1) |>) vi)) q (p - 1).
Proof.
  intros [R D P B S] Hp di. split; [exact (ring_head _ _ R)|].
  cbn [length] in S. pose proof (ring_pop _ _ R) as R'.
  split; rx_cbn; try done; [|lia]. rewrite P, u32_add_l. f_equal. lia.
Qed.

Lemma receive_unbundle_loop_spec n : forall vi q p ids,
  rx_rep vi q p -> Z.of_nat n <= p -> Forall (fun id => id <> EF_REQUEST_ID_MASK) q ->
  exists vi', receive_unbundle_loop n vi ids = (vi', ids ++ take n q) /\
    rx_rep vi' (drop n q) (p - Z.of_nat n).
Proof.
  induction n as [|n IH]; intros vi q p ids Hr Hn Hq; cbn [receive_unbundle_loop].
  - exists vi. rewrite take_0, drop_0, app_nil_r, Z.sub_0_r. done.
  - destruct q as [|x q]; [destruct Hr as [_ _ _ _ S']; cbn in S'; lia|].
    apply Forall_cons_1 in Hq as [Hx Hq].
    destruct (rx_pop_rep vi x q p Hr ltac:(lia)) as [E R]. cbv zeta in E, R.
    rx_cbn. rewrite E. rewrite (proj2 (Z.eqb_neq _ _)) by done. cbn [negb].
    destruct (IH _ q (p - 1) (ids ++ [x]) R) as (vi' & E' & R'); [lia|done|].
    exists vi'. split.
    + etransitivity; [exact E'|]. cbn [take]. by rewrite <- app_assoc.
    + cbn [drop]. by replace (p - Z.of_nat (S n)) with (p - 1 - Z.of_nat n) by lia.
Qed.

(** * Descriptor words *)

(** Splitting a 64-bit buffer address into id offset and order. *)
Lemma vaddr_order_range vaddr :
  0 <= vaddr < 18446744073709551616 -> 0 <= EF10_BUF_VADDR_2_ORDER vaddr < 65536.
Proof.
  intros. unfold EF10_BUF_VADDR_2_ORDER, EF10_BUF_VADDR_ORDER_SHIFT.
  rewrite Z.shiftr_div_pow2 by lia. change (2 ^ 48) with 281474976710656.
  split; [apply Z.div_pos; lia|apply Z.div_lt_upper_bound; lia].
Qed.

Lemma vaddr_id_range vaddr : 0 <= EF10_BUF_VADDR_2_ID_OFFSET vaddr < 281474976710656.
Proof.
  unfold EF10_BUF_VADDR_2_ID_OFFSET. change 281474976710655 with (2 ^ 48 - 1).
  rewrite land_mask by lia. apply Z.mod_pos_bound. lia.
Qed.

Ltac solve_fits :=
  repeat (apply Forall_cons; [split; [split|];
    cbn -[EF10_BUF_VADDR_2_ID_OFFSET EF10_BUF_VADDR_2_ORDER Z.pow]; lia|]); apply Forall_nil_2.

Ltac solve_disjoint :=
  repeat (apply FOP_cons; [repeat (apply List.Forall_cons;
    [unfold disjoint_fields; cbn; lia|]); apply List.Forall_nil|]); apply FOP_nil.

Ltac read_field := apply populate_field; [solve_fits|solve_disjoint|cbn [In]; tauto].

(** * Properties *)

(** the DMA descriptors of both directions decode to what was asked: for a
    buffer-table address whose id offset fits the descriptor's 44 bits and whose
    order fits its 4 bits, and a length below 16K, the NIC reads back the address,
    the order, the length and the continuation bit; likewise for 48-bit physical
    addresses. *)
Theorem dma_desc_decodes vaddr pa bytes frag :
  0 <= vaddr < 18446744073709551616 ->
  EF10_BUF_VADDR_2_ID_OFFSET vaddr < 2 ^ 44 -> EF10_BUF_VADDR_2_ORDER vaddr < 16 ->
  0 <= pa < 2 ^ 48 -> 0 <= bytes < 2 ^ 14 -> 0 <= frag <= 1 ->
  let tx := ef10_dma_tx_calc_ip_buf vaddr bytes frag in
  let txp := ef10_dma_tx_calc_ip_phys pa bytes frag in
  let rx := ef10_dma_rx_calc_ip_buf vaddr bytes in
  let rxp := ef10_dma_rx_calc_ip_phys pa bytes in
  CI_QWORD_FIELD tx ESF_DZ_TX_USR_BUF_ID_OFFSET = EF10_BUF_VADDR_2_ID_OFFSET vaddr /\
  CI_QWORD_FIELD tx ESF_DZ_TX_USR_BUF_PAGE_SIZE = EF10_BUF_VADDR_2_ORDER vaddr /\
  CI_QWORD_FIELD tx ESF_DZ_TX_USR_BYTE_CNT = bytes /\
  CI_QWORD_FIELD tx ESF_DZ_TX_USR_CONT = frag /\
  CI_QWORD_FIELD txp ESF_DZ_TX_KER_BUF_ADDR = pa /\
  CI_QWORD_FIELD txp ESF_DZ_TX_KER_BYTE_CNT = bytes /\
  CI_QWORD_FIELD txp ESF_DZ_TX_KER_CONT = frag /\
  CI_QWORD_FIELD rx ESF_DZ_RX_USR_BUF_ID_OFFSET = EF10_BUF_VADDR_2_ID_OFFSET vaddr /\
  CI_QWORD_FIELD rx ESF_DZ_RX_USR_BUF_PAGE_SIZE = EF10_BUF_VADDR_2_ORDER vaddr /\
  CI_QWORD_FIELD rx ESF_DZ_RX_USR_BYTE_CNT = bytes /\
  CI_QWORD_FIELD rxp ESF_DZ_RX_KER_BUF_ADDR = pa /\
  CI_QWORD_FIELD rxp ESF_DZ_RX_KER_BYTE_CNT = bytes.
Proof.
  intros Hv Hid Hord Hpa Hb Hf. pose proof (vaddr_id_range vaddr). pose proof (vaddr_order_range vaddr Hv).
  cbv zeta. repeat split; read_field.
Qed.

(** [ef10_ef_vi_receive_init] appends the buffer to a bounded FIFO: with
    room it returns 0, the slot of [added] gets the id and the descriptor of the
    buffer, and no doorbell rings; on a full ring it returns [-EAGAIN] and
    changes nothing.  [ef_vi_receive_space] is exactly the room left. *)
Theorem receive_init_refines vi q p addr dma_id :
  rx_rep vi q p ->
  ef_vi_receive_space vi = q_mask (vi_rxq vi) - Z.of_nat (length q) /\
  if Z.of_nat (length q) <? q_mask (vi_rxq vi)
  then exists vi', ef10_ef_vi_receive_init vi addr dma_id = (vi', 0) /\
    rx_rep vi' (q ++ [dma_id]) p /\ io_log vi' = io_log vi /\
    aget (q_descriptors (vi_rxq vi')) (Z.land (rx_added (rxq_state vi)) (q_mask (vi_rxq vi))) =
      (if vi_flag vi EF_VI_RX_PHYS_ADDR
       then ef10_dma_rx_calc_ip_phys addr (rx_buffer_len vi)
       else ef10_dma_rx_calc_ip_buf addr (rx_buffer_len vi))
  else ef10_ef_vi_receive_init vi addr dma_id = (vi, - EAGAIN).
Proof.
  intros Hr. split; [by apply (receive_space_spec vi q p)|].
  destruct (Z.ltb_spec (Z.of_nat (length q)) (q_mask (vi_rxq vi))).
  - by apply receive_init_rep.
  - by apply (receive_init_full vi q p).
Qed.

(** [ef10_ef_vi_receive_push] posts whole batches of 8 descriptors: it
    never takes a posted descriptor back, leaves fewer than 8 unposted, and rings
    the doorbell, once and with the slot of the new posted count, exactly when
    that count moved.  Holds across counter wrap-around. *)
Theorem receive_push_batches vi q p :
  rx_rep vi q p ->
  exists p', rx_rep (ef10_ef_vi_receive_push vi) q p' /\ p <= p' /\
    Z.of_nat (length q) - p' < 8 /\
    io_log (ef10_ef_vi_receive_push vi) =
      (if p' =? p then io_log vi
       else io_log vi ++ [Writel (Z.land (rx_removed (rxq_state vi) + p') (q_mask (vi_rxq vi)))
                            (io vi + ER_DZ_RX_DESC_UPD_REG)]).
Proof. apply receive_push_rep. Qed.

(** [ef_vi_receive_unbundle] of an event for [n] descriptors returns the
    ids of the [n] oldest posted buffers, in the order they were posted, and
    removes exactly those. *)
Theorem receive_unbundle_fifo vi q p n :
  rx_rep vi q p -> 0 <= n <= p -> Forall (fun id => id <> EF_REQUEST_ID_MASK) q ->
  exists vi', ef_vi_receive_unbundle vi n = (vi', take (Z.to_nat n) q) /\
    rx_rep vi' (drop (Z.to_nat n) q) (p - n).
Proof.
  intros Hr Hn Hq. unfold ef_vi_receive_unbundle.
  destruct (receive_unbundle_loop_spec (Z.to_nat n) vi q p [] Hr) as (vi' & E & R); [lia|done|].
  exists vi'. rewrite Z2Nat.id in R by lia. done.
Qed.

(** ** Witnesses *)

Definition ex_rx (n : nat) : ef_vi :=
  let vi := vi_zero <| vi_rxq := mk_ring 15 (replicate 16 0) (replicate 16 EF_REQUEST_ID_MASK) |> in
  let vi := vi <| rx_buffer_len := 1792 |> in
  let vi := upd_rxq (fun qs => mk_rxq_state 4294967288 4294967288 4294967288 0 0 0 0) vi in
  Nat.iter n (fun vi => fst (ef10_ef_vi_receive_init vi 8192 7)) vi.

Lemma ex_rx_rep : rx_rep (ex_rx 0) [] 0.
Proof.
  split; [|reflexivity|reflexivity|reflexivity|cbn; lia].
  change (ring_rep 15 (replicate (Z.to_nat (15 + 1)) EF_REQUEST_ID_MASK) 4294967288 4294967288 []).
  apply ring_empty; [|lia]. exists 4. split; [lia|reflexivity].
Qed.

Lemma ex_rx_rep_n n : (n <= 15)%nat -> rx_rep (ex_rx n) (replicate n 7) 0.
Proof.
  induction n as [|n IH]; intros Hn; [apply ex_rx_rep|].
  specialize (IH ltac:(lia)). 
  assert (Hm : q_mask (vi_rxq (ex_rx n)) = 15).
  { clear. induction n as [|n IH]; [done|].
    change (ex_rx (S n)) with (fst (ef10_ef_vi_receive_init (ex_rx n) 8192 7)).
    unfold ef10_ef_vi_receive_init. destruct (nz (ef_vi_receive_space (ex_rx n))); exact IH. }
  destruct (receive_init_rep (ex_rx n) (replicate n 7) 0 8192 7 IH) as (vi' & E & R & _).
  { rewrite length_replicate, Hm. lia. }
  change (ex_rx (S n)) with (fst (ef10_ef_vi_receive_init (ex_rx n) 8192 7)).
  rewrite E. rewrite replicate_S_end. exact R.
Qed.

Lemma dma_desc_decodes_witness :
  CI_QWORD_FIELD (ef10_dma_tx_calc_ip_buf (9 * 2 ^ 48 + 4096) 1500 1) ESF_DZ_TX_USR_BYTE_CNT = 1500.
Proof.
  apply (dma_desc_decodes (9 * 2 ^ 48 + 4096) 0 1500 1); (vm_compute; intuition congruence) || lia.
Defined.

Lemma receive_init_refines_witness :
  exists vi', ef10_ef_vi_receive_init (ex_rx 3) 8192 9 = (vi', 0) /\
    rx_rep vi' ([7; 7; 7] ++ [9]) 0.
Proof.
  destruct (receive_init_refines (ex_rx 3) [7; 7; 7] 0 8192 9) as [_ H].
  - apply (ex_rx_rep_n 3). lia.
  - change (Z.of_nat 3 <? 15) with true in H. destruct H as (vi' & E & R & _).
    exists vi'. split; [exact E|exact R].
Defined.

Lemma receive_push_batches_witness :
  exists p', rx_rep (ef10_ef_vi_receive_push (ex_rx 10)) (replicate 10 7) p' /\ 10 - p' < 8.
Proof.
  destruct (receive_push_batches (ex_rx 10) (replicate 10 7) 0) as (p' & R & _ & L & _).
  - apply ex_rx_rep_n. lia.
  - exists p'. split; [exact R|exact L].
Defined.

Lemma receive_unbundle_fifo_witness :
  exists vi' p', ef_vi_receive_unbundle (ef10_ef_vi_receive_push (ex_rx 10)) 2 = (vi', [7; 7]) /\
    rx_rep vi' (replicate 8 7) (p' - 2).
Proof.
  destruct (receive_push_rep (ex_rx 10) (replicate 10 7) 0 (ex_rx_rep_n 10 ltac:(lia)))
    as (p' & R & _ & L & _). rewrite length_replicate in L.
  destruct (receive_unbundle_fifo (ef10_ef_vi_receive_push (ex_rx 10)) (replicate 10 7) p' 2)
    as (vi' & E & R').
  - exact R.
  - lia.
  - repeat (apply Forall_cons; [unfold EF_REQUEST_ID_MASK; lia|]). apply Forall_nil_2.
  - exists vi', p'. split; [exact E|exact R'].
Defined.
