(* ===== verification/Event.v ===== *)
(** Event queue polling: lib/ciul/ef10_event.c up to the timestamp functions,
    and the poll, prime and timer entry points (lib/ciul/ef10_evtimer.c,
    include/ci/driver/efab/hardware/ef10_evq.h).

    VIs live in a store indexed by identity, since an event queue delivers to
    the VIs of its [vi_qs] table, itself included.  A handler returns the events it
    writes for the caller, at most one each; the array [evs] is the list of them
    and [evs_len] the room left.  Release build: assertions and EF_VI_DEBUG
    statements are absent, and log messages have no effect on the state. *)

From stdpp Require Import base list numbers gmap.
From S2P Require Import Prelude Bitfield Vi Ring Tx Rx.

Open Scope Z_scope.

(** * Event words *)

(** [EF_VI_EVENT_OFFSET] and the event it points to. *)
Definition EF_VI_EVENT_OFFSET (q : ef_vi) (i : Z) : Z :=
  Z.land (u64 (evq_ptr (evq_state q) + i * EF_VI_EV_SIZE)) (evq_mask q).

Definition event_at (q : ef_vi) (i : Z) : Z :=
  aget (evq_base q) (EF_VI_EVENT_OFFSET q i / EF_VI_EV_SIZE).

(** [EF_VI_IS_EVENT]: neither half is all ones. *)
Definition EF_VI_IS_EVENT (ev : Z) : bool :=
  negb ((u32 ev =? 4294967295) || (u32 (Z.shiftr ev 32) =? 4294967295)).

(** The cleared word. *)
Definition EV_NULL := 18446744073709551615.

(** [CI_SET_QWORD( *EF_VI_EVENT_PTR(q, i))] *)
Definition clear_event_at (i : Z) (q : ef_vi) : ef_vi :=
  q <| evq_base ::= fun l => aset l (EF_VI_EVENT_OFFSET q i / EF_VI_EV_SIZE) EV_NULL |>.

Definition advance_evq_ptr (q : ef_vi) : ef_vi :=
  upd_evq (fun s => s <| evq_ptr := u32 (evq_ptr s + EF_VI_EV_SIZE) |>) q.

(** [INC_ERROR_STAT] *)
Definition INC_ERROR_STAT (f : ef_vi_stats -> ef_vi_stats) (vi : ef_vi) : ef_vi :=
  vi <| vi_stats ::= option_map f |>.

(** * Receive events *)

Definition EF_EVENT_RX_DISCARD_CSUM_BAD := 0.
Definition EF_EVENT_RX_DISCARD_CRC_BAD := 2.
Definition EF_EVENT_RX_DISCARD_INNER_CSUM_BAD := 7.

Definition discard_type (error_bits : Z) : Z :=
  let l2_errors := Z.lor (Z.shiftl 1 (LBN ESF_DZ_RX_ECC_ERR)) (Z.shiftl 1 (LBN ESF_DZ_RX_ECRC_ERR)) in
  let l3_errors :=
    Z.lor (Z.shiftl 1 (LBN ESF_DZ_RX_TCPUDP_CKSUM_ERR)) (Z.shiftl 1 (LBN ESF_DZ_RX_IPCKSUM_ERR)) in
  if nz (Z.land error_bits l2_errors) then EF_EVENT_RX_DISCARD_CRC_BAD
  else if nz (Z.land error_bits l3_errors) then EF_EVENT_RX_DISCARD_CSUM_BAD
  else EF_EVENT_RX_DISCARD_INNER_CSUM_BAD.

Definition no_desc_trunc (vi : ef_vi) (q_label : Z) : ef_vi * list ef_event :=
  (upd_rxq (fun qs => qs <| rx_in_jumbo := 0 |>) vi, [EV_RX_NO_DESC_TRUNC (u8 q_label)]).

Definition ESE_DZ_MAC_CLASS_MCAST := 1.

Definition huntington_rx_desc_consumed (vi : ef_vi) (ev q_label : Z) : ef_vi * list ef_event :=
  let qs := rxq_state vi in
  let desc_i := Z.land (rx_removed qs) (q_mask (vi_rxq vi)) in
  let rq_id := aget (q_ids (vi_rxq vi)) desc_i in
  let vi := rx_set_id desc_i EF_REQUEST_ID_MASK vi in
  let rx_bytes := QWORD_GET_U ESF_DZ_RX_BYTES ev in
  let '(flags, bytes_acc) :=
    if rx_in_jumbo qs =? 0 then (EF_EVENT_FLAG_SOP, rx_bytes)
    else (0, u32 (rx_bytes_acc qs + rx_bytes)) in
  let cont := nz (QWORD_GET_U ESF_DZ_RX_CONT ev) in
  let flags := if cont then Z.lor flags EF_EVENT_FLAG_CONT else flags in
  let vi := upd_rxq (fun qs =>
    qs <| rx_bytes_acc := bytes_acc |> <| rx_in_jumbo := b2z cont |>) vi in
  let len := u16 bytes_acc in
  let flags :=
    if QWORD_GET_U ESF_DZ_RX_MAC_CLASS ev =? ESE_DZ_MAC_CLASS_MCAST
    then Z.lor flags EF_EVENT_FLAG_MULTICAST else flags in
  let error_bits := Z.land ev (rx_discard_mask vi) in
  let vi := upd_rxq (fun qs => qs <| rx_removed := u32 (rx_removed qs + 1) |>) vi in
  if error_bits =? 0 then (vi, [EV_RX (u8 q_label) rq_id len flags])
  else (vi, [EV_RX_DISCARD (u8 q_label) rq_id len flags (discard_type error_bits)]).

Definition huntington_rx_descs_consumed (vi : ef_vi) (ev q_label n_descs : Z)
    : ef_vi * list ef_event :=
  if nz n_descs then
    let qs := rxq_state vi in
    let flags := if rx_in_jumbo qs =? 0 then EF_EVENT_FLAG_SOP else 0 in
    let cont := nz (QWORD_GET_U ESF_DZ_RX_CONT ev) in
    let flags := if cont then Z.lor flags EF_EVENT_FLAG_CONT else flags in
    let vi := upd_rxq (fun qs => qs <| rx_in_jumbo := b2z cont |>) vi in
    let flags :=
      if QWORD_GET_U ESF_DZ_RX_MAC_CLASS ev =? ESE_DZ_MAC_CLASS_MCAST
      then Z.lor flags EF_EVENT_FLAG_MULTICAST else flags in
    let error_bits := Z.land ev (rx_discard_mask vi) in
    (vi, if error_bits =? 0 then [EV_RX_MULTI (u8 q_label) (u16 n_descs) flags]
         else [EV_RX_MULTI_DISCARD (u8 q_label) (u16 n_descs) flags (discard_type error_bits)])
  else no_desc_trunc vi q_label.

Definition EF_VI_PS_FLAG_BAD_FCS := 4.
Definition EF_VI_PS_FLAG_BAD_L4_CSUM := 8.
Definition EF_VI_PS_FLAG_BAD_L3_CSUM := 16.

(** [(1u << ESF_DZ_RX_DSC_PTR_LBITS_WIDTH) - 1u] *)
Definition short_di_mask : Z := 15.

Definition ef10_packed_stream_rx_event (vi : ef_vi) (ev q_label short_di : Z)
    : ef_vi * list ef_event :=
  let n_pkts := Z.land (u32 (short_di - rx_last_desc_i (rxq_state vi))) short_di_mask in
  let vi := upd_rxq (fun qs => qs <| rx_last_desc_i := u16 short_di |>) vi in
  let '(vi, flags) :=
    if nz (QWORD_GET_U ESF_DZ_RX_EV_ROTATE ev) then
      let desc_id := Z.land (rx_removed (rxq_state vi)) (q_mask (vi_rxq vi)) in
      let vi := rx_set_id desc_id EF_REQUEST_ID_MASK vi in
      (upd_rxq (fun qs => qs <| rx_removed := u32 (rx_removed qs + 1) |>
                             <| rx_ps_credit_avail := u16 (rx_ps_credit_avail qs - 1) |>) vi,
       EF_EVENT_FLAG_PS_NEXT_BUFFER)
    else (vi, 0) in
  let errors := Z.land ev (rx_discard_mask vi) in
  let ps_flags := 0 in
  let ps_flags :=
    if nz (Z.lor (QWORD_GET_U ESF_DZ_RX_ECC_ERR errors) (QWORD_GET_U ESF_DZ_RX_ECRC_ERR errors))
    then Z.lor ps_flags EF_VI_PS_FLAG_BAD_FCS else ps_flags in
  let ps_flags :=
    if nz (QWORD_GET_U ESF_DZ_RX_TCPUDP_CKSUM_ERR errors)
    then Z.lor ps_flags EF_VI_PS_FLAG_BAD_L4_CSUM else ps_flags in
  let ps_flags :=
    if nz (QWORD_GET_U ESF_DZ_RX_IPCKSUM_ERR errors)
    then Z.lor ps_flags EF_VI_PS_FLAG_BAD_L3_CSUM else ps_flags in
  (vi, [EV_RX_PACKED_STREAM (u8 q_label) flags n_pkts ps_flags]).

(** The VI an event is for, as the code dispatches it. *)
Definition rx_event_vi (vi : ef_vi) (ev q_label : Z) : ef_vi * list ef_event :=
  let short_di := QWORD_GET_U ESF_DZ_RX_DSC_PTR_LBITS ev in
  if nz (vi_is_normal vi) then
    let n_descs := Z.land (u32 (short_di - rx_removed (rxq_state vi))) short_di_mask in
    if n_descs =? 1 then huntington_rx_desc_consumed vi ev q_label
    else if n_descs =? 0 then no_desc_trunc vi q_label
    else (vi, [])
  else if nz (vi_is_packed_stream vi) then ef10_packed_stream_rx_event vi ev q_label short_di
  else
    let n_descs := Z.land (u32 (short_di - rx_last_desc_i (rxq_state vi))) short_di_mask in
    let vi := upd_rxq (fun qs => qs <| rx_last_desc_i := u16 short_di |>) vi in
    huntington_rx_descs_consumed vi ev q_label n_descs.

(** The VIs of the process. *)
Abbreviation store := (gmap nat ef_vi).

(** [evq_vi->vi_qs[q_label]] *)
Definition vi_of_label (evq_vi : ef_vi) (q_label : Z) : option nat :=
  match vi_qs evq_vi !! Z.to_nat q_label with Some (Some p) => Some p | _ => None end.

Definition ef10_rx_event (st : store) (evq : nat) (ev : Z) : store * list ef_event :=
  match st !! evq with
  | None => (st, [])
  | Some evq_vi =>
    let q_label := QWORD_GET_U ESF_DZ_RX_QLABEL ev in
    match vi_of_label evq_vi q_label with
    | Some p =>
      match st !! p with
      | None => (st, [])
      | Some vi => let '(vi, evs) := rx_event_vi vi ev q_label in (<[p := vi]> st, evs)
      end
    | None =>
      (<[evq := INC_ERROR_STAT (fun s => s <| rx_ev_bad_q_label ::= fun n => u32 (n + 1) |>) evq_vi]> st, [])
    end
  end.

(** * Transmit events *)

Definition MEDFORD_TX_SECS_SYNC_MIN_OFFSET := 1.
Definition MEDFORD_TX_SECS_VALID_BIT := 32768.

Definition timestamp_extract (ev : Z) : Z :=
  let lo := QWORD_GET_U ESF_DZ_TX_DESCR_INDX ev in
  let hi := QWORD_GET_U ESF_DZ_TX_SOFT2 ev in
  Z.lor (u32 (Z.shiftl hi 16)) lo.

(** The seconds and the metabits. *)
Definition timestamp_extract_medford_seconds (ev : Z) : Z * Z :=
  (QWORD_GET_U ESF_DZ_TX_DESCR_INDX ev,
   u16 (Z.land (QWORD_GET_U ESF_DZ_TX_SOFT2 ev) MEDFORD_TX_SECS_VALID_BIT)).

Definition ef10_tx_event_ts_lo (evq : ef_vi) (ev : Z) : ef_vi :=
  let ts_nsec :=
    match ts_format evq with
    | TS_FORMAT_SECONDS_QTR_NANOSECONDS => u32 (Z.shiftl (Z.shiftr (timestamp_extract ev) 4) 2)
    | TS_FORMAT_SECONDS_27FRACTION =>
        u32 (Z.shiftl (Z.shiftr (u64 (timestamp_extract ev * 1000000000)) 29) 2)
    end in
  upd_txq (fun qs => qs <| tx_ts_nsec := Z.lor ts_nsec (sync_flags (evq_state evq)) |>) evq.

(** The event's [ts_sec] and [ts_nsec]. *)
Definition ef10_tx_event_ts_hi (evq : ef_vi) (ev : Z) : Z * Z :=
  let qs := txq_state evq in
  let evqs := evq_state evq in
  let '(ts_sec, ts_nsec) :=
    if 65 <? variant (nic_type evq) then
      let '(ts_sec, metabits) := timestamp_extract_medford_seconds ev in
      let delta := u16 (ts_sec - sync_timestamp_minimum evqs) in
      if nz (sync_timestamp_synchronised evqs) && (metabits =? 0)
      then (u32 (delta + sync_timestamp_minimum evqs), tx_ts_nsec qs)
      else (0, 0)
    else (timestamp_extract ev, tx_ts_nsec qs) in
  let ts_nsec := u32 (ts_nsec + tx_ts_correction_ns evq) in
  if 1000000000 <=? ts_nsec then (u32 (ts_sec + 1), u32 (ts_nsec - 1000000000))
  else (ts_sec, ts_nsec).

(** The [while] loop over unused ids; [None] when a whole turn of the ring
    finds none. *)
Fixpoint ts_rq_id_skip (fuel : nat) (evq : ef_vi) : option ef_vi :=
  match fuel with
  | O => None
  | S fuel =>
    let i := Z.land (tx_removed (txq_state evq)) (q_mask (vi_txq evq)) in
    if aget (q_ids (vi_txq evq)) i =? EF_REQUEST_ID_MASK
    then ts_rq_id_skip fuel
           (upd_txq (fun qs => qs <| tx_removed := u32 (tx_removed qs + 1) |>) evq)
    else Some evq
  end.

Definition ef10_tx_event_ts_rq_id (evq : ef_vi) : option (ef_vi * Z) :=
  match ts_rq_id_skip (S (Z.to_nat (q_mask (vi_txq evq)))) evq with
  | None => None
  | Some evq =>
    let i := Z.land (tx_removed (txq_state evq)) (q_mask (vi_txq evq)) in
    let rq_id := aget (q_ids (vi_txq evq)) i in
    let evq := tx_set_id i EF_REQUEST_ID_MASK evq in
    Some (upd_txq (fun qs => qs <| tx_removed := u32 (tx_removed qs + 1) |>) evq, rq_id)
  end.

Definition TX_EV_COMPLETION := 0.
Definition TX_EV_CTPIO_COMPLETION := 17.
Definition TX_EV_TSTAMP_LO := 81.
Definition TX_EV_CTPIO_TS_LO := 18.
Definition TX_EV_TSTAMP_HI := 82.
Definition TX_EV_CTPIO_TS_HI := 19.

Definition ef10_tx_event_ts_enabled (evq : ef_vi) (ev : Z) : option (ef_vi * list ef_event) :=
  let ev_type := QWORD_GET_U ESF_EZ_TX_SOFT1 ev in
  if (ev_type =? TX_EV_COMPLETION) || (ev_type =? TX_EV_CTPIO_COMPLETION) then Some (evq, [])
  else if (ev_type =? TX_EV_TSTAMP_LO) || (ev_type =? TX_EV_CTPIO_TS_LO)
  then Some (ef10_tx_event_ts_lo evq ev, [])
  else if (ev_type =? TX_EV_TSTAMP_HI) || (ev_type =? TX_EV_CTPIO_TS_HI) then
    let flags := if ev_type =? TX_EV_CTPIO_TS_HI then EF_EVENT_FLAG_CTPIO else 0 in
    let '(ts_sec, ts_nsec) := ef10_tx_event_ts_hi evq ev in
    match ef10_tx_event_ts_rq_id evq with
    | None => None
    | Some (evq, rq_id) =>
        Some (evq, [EV_TX_WITH_TIMESTAMP (QWORD_GET_U ESF_DZ_TX_QLABEL ev) flags rq_id ts_sec ts_nsec])
    end
  else Some (evq, []).

Definition ef10_tx_event_completion (evq : ef_vi) (ev : Z) : ef_vi * list ef_event :=
  let ev_type := QWORD_GET_U ESF_EZ_TX_SOFT1 ev in
  let flags := if ev_type =? TX_EV_CTPIO_COMPLETION then EF_EVENT_FLAG_CTPIO else 0 in
  (evq, [EV_TX (QWORD_GET_U ESF_DZ_TX_QLABEL ev) flags
           (u16 (QWORD_GET_U ESF_DZ_TX_DESCR_INDX ev + 1))]).

Definition ef10_tx_event_alt (evq : ef_vi) (ev : Z) : ef_vi * list ef_event :=
  let ev_type := QWORD_GET_U ESF_EZ_TX_SOFT1 ev in
  if (ev_type =? TX_EV_COMPLETION) || (ev_type =? TX_EV_CTPIO_COMPLETION)
  then ef10_tx_event_completion evq ev
  else if ev_type =? TX_EV_TSTAMP_LO then (evq, [])
  else if ev_type =? TX_EV_TSTAMP_HI then
    let alt_id := Z.land (QWORD_GET_U ESF_DZ_TX_SOFT2 ev) 31 in
    if negb (alt_id =? 31) then
      (evq, [EV_TX_ALT (QWORD_GET_U ESF_DZ_TX_QLABEL ev) (u16 (aget (tx_alt_hw2id evq) alt_id))])
    else (evq, [])
  else (evq, []).

Definition ef10_tx_event (evq : ef_vi) (ev : Z) : option (ef_vi * list ef_event) :=
  if Z.land (vi_flags evq) (Z.lor EF_VI_TX_TIMESTAMPS EF_VI_TX_ALT) =? 0
  then Some (ef10_tx_event_completion evq ev)
  else if nz (tx_alt_num evq) then Some (ef10_tx_event_alt evq ev)
  else if vi_flag evq EF_VI_TX_TIMESTAMPS then ef10_tx_event_ts_enabled evq ev
  else Some (ef10_tx_event_completion evq ev).

(** * MCDI events *)

Definition EF_VI_SYNC_FLAG_CLOCK_SET := 1.
Definition EF_VI_SYNC_FLAG_CLOCK_IN_SYNC := 2.
Definition EF_VI_OUT_CLOCK_SYNC_STATUS := 1.
Definition MCDI_EVENT_CODE_PTP_TIME := 26.
Definition MCDI_EVENT_CODE_MC_REBOOT := 21.

Definition ef10_major_tick (major minor flags : Z) (vi : ef_vi) : ef_vi :=
  upd_evq (fun evqs =>
    evqs <| sync_timestamp_major := major |>
         <| sync_timestamp_minor := minor |>
         <| sync_timestamp_minimum := u32 (major - MEDFORD_TX_SECS_SYNC_MIN_OFFSET) |>
         <| sync_timestamp_synchronised := 1 |>
         <| sync_flags := flags |>) vi.

Definition ef10_mcdi_event (evq : ef_vi) (ev : Z) : ef_vi * list ef_event :=
  let code := QWORD_GET_U MCDI_EVENT_CODE ev in
  if code =? MCDI_EVENT_CODE_PTP_TIME then
    let major := QWORD_GET_U MCDI_EVENT_PTP_TIME_MAJOR ev in
    let minor :=
      match ts_format evq with
      | TS_FORMAT_SECONDS_QTR_NANOSECONDS =>
          u32 (Z.shiftl (QWORD_GET_U MCDI_EVENT_PTP_TIME_MINOR_26_21 ev) 26)
      | TS_FORMAT_SECONDS_27FRACTION =>
          u32 (Z.shiftl (QWORD_GET_U MCDI_EVENT_PTP_TIME_MINOR_26_21 ev) 21)
      end in
    let flags :=
      if nz (Z.land (vi_out_flags evq) EF_VI_OUT_CLOCK_SYNC_STATUS) then
        Z.lor
          (if nz (QWORD_GET_U MCDI_EVENT_PTP_TIME_NIC_CLOCK_VALID ev)
           then EF_VI_SYNC_FLAG_CLOCK_SET else 0)
          (if nz (QWORD_GET_U MCDI_EVENT_PTP_TIME_HOST_NIC_IN_SYNC ev)
           then EF_VI_SYNC_FLAG_CLOCK_IN_SYNC else 0)
      else Z.lor EF_VI_SYNC_FLAG_CLOCK_SET EF_VI_SYNC_FLAG_CLOCK_IN_SYNC in
    (ef10_major_tick major minor flags evq, [])
  else if code =? 0 then (evq, [EV_SW (u32 ev)])
  else if code =? MCDI_EVENT_CODE_MC_REBOOT then (evq, [EV_RESET])
  else (evq, []).

(** * Polling *)

Definition ESE_DZ_EV_CODE_RX_EV := 0.
Definition ESE_DZ_EV_CODE_TX_EV := 2.
Definition ESE_DZ_EV_CODE_MCDI_EV := 12.

Definition on_vi (st : store) (p : nat) (f : ef_vi -> ef_vi) : store := alter f p st.

(** The [switch] on the event code, for an event that is not held back. *)
Definition dispatch_event (st : store) (evq : nat) (ev : Z) : option (store * list ef_event) :=
  match st !! evq with
  | None => None
  | Some evq_vi =>
    let code := CI_QWORD_FIELD ev ESF_DZ_EV_CODE in
    if code =? ESE_DZ_EV_CODE_RX_EV then Some (ef10_rx_event st evq ev)
    else if code =? ESE_DZ_EV_CODE_TX_EV then
      match ef10_tx_event evq_vi ev with
      | None => None
      | Some (vi, evs) => Some (<[evq := vi]> st, evs)
      end
    else if code =? ESE_DZ_EV_CODE_MCDI_EV then
      let '(vi, evs) := ef10_mcdi_event evq_vi ev in Some (<[evq := vi]> st, evs)
    else Some (st, [])
  end.

(** "Do not process MCDI events if we have already delivered other events to
    the app." *)
Definition held_back (ev : Z) (delivered : list ef_event) : bool :=
  (CI_QWORD_FIELD ev ESF_DZ_EV_CODE =? ESE_DZ_EV_CODE_MCDI_EV) &&
  negb (match delivered with [] => true | _ => false end).

(** The [do ... while] loop, entered with an event in the current slot.
    [evs] are the events delivered so far and [evs_len] the room left. *)
Fixpoint poll_loop (fuel : nat) (st : store) (evq : nat) (evs : list ef_event) (evs_len : Z)
    : option (store * list ef_event) :=
  match fuel with
  | O => None
  | S fuel =>
    match st !! evq with
    | None => None
    | Some q =>
      let ev := event_at q 0 in
      if held_back ev evs then Some (st, evs)
      else
        match dispatch_event st evq ev with
        | None => None
        | Some (st, out) =>
          let evs := evs ++ out in
          let evs_len := evs_len - Z.of_nat (length out) in
          let st := on_vi st evq (fun q =>
            advance_evq_ptr (clear_event_at (evq_clear_stride (evq_state q)) q)) in
          if evs_len =? 0 then Some (st, evs)
          else
            match st !! evq with
            | None => None
            | Some q =>
              if EF_VI_IS_EVENT (event_at q 0) then poll_loop fuel st evq evs evs_len
              else Some (st, evs)
            end
        end
    end
  end.

(** The events delivered and the return value.  The loop runs at most once per
    slot of the ring ([poll_terminates]). *)
Definition ef10_ef_eventq_poll (st : store) (evq : nat) (evs_len : Z)
    : option (store * list ef_event * Z) :=
  match st !! evq with
  | None => None
  | Some q =>
    let fuel := length (evq_base q) in
    if EF_VI_IS_EVENT (event_at q (evq_clear_stride (evq_state q) - 1))
    then Some (st, [EV_OFLOW], 1)
    else if EF_VI_IS_EVENT (event_at q 0) then
      match poll_loop fuel st evq [] evs_len with
      | None => None
      | Some (st, evs) => Some (st, evs, Z.of_nat (length evs))
      end
    else if EF_VI_IS_EVENT (event_at q 1) then
      (* misplaced event *)
      let st := on_vi st evq (fun q =>
        INC_ERROR_STAT (fun s => s <| evq_gap ::= fun n => u32 (n + 1) |>) (advance_evq_ptr q)) in
      match poll_loop fuel st evq [] evs_len with
      | None => None
      | Some (st, evs) => Some (st, evs, Z.of_nat (length evs))
      end
    else Some (st, [], 0)
  end.

(** * The event ring as a queue *)

Definition is_event (ev : Z) : Prop := EF_VI_IS_EVENT ev = true.

(** The ring of [2^k] events holds the events [l] not yet handled, then unused
    slots, then up to [- evq_clear_stride] handled events that are not cleared
    yet.  At least one slot is unused, so the overflow test is negative. *)
Record evq_rep (q : ef_vi) (k : Z) (l : list Z) : Prop := {
  er_k : 0 <= k <= 28;
  er_mask : evq_mask q = 2 ^ (k + 3) - 1;
  er_len : Z.of_nat (length (evq_base q)) = 2 ^ k;
  er_ptr : 0 <= evq_ptr (evq_state q) < 4294967296 /\ evq_ptr (evq_state q) `mod` 8 = 0;
  er_stride : - (2 ^ k - 2) <= evq_clear_stride (evq_state q) <= 0;
  er_fits : Z.of_nat (length l) - evq_clear_stride (evq_state q) < 2 ^ k;
  er_events : Forall is_event l;
  er_view : exists stale,
    Z.of_nat (length stale) = - evq_clear_stride (evq_state q) /\
    rview (2 ^ k - 1) (evq_base q) (evq_ptr (evq_state q) / 8) =
      l ++ replicate (Z.to_nat (2 ^ k - Z.of_nat (length l + length stale))) EV_NULL ++ stale
}.

Lemma pow2_mask_k k : 0 <= k <= 28 -> pow2_mask (2 ^ k - 1).
Proof. intros. exists k. lia. Qed.

(** The slot an offset points to. *)
Lemma event_slot q k i :
  0 <= k <= 28 -> evq_mask q = 2 ^ (k + 3) - 1 -> evq_ptr (evq_state q) `mod` 8 = 0 ->
  EF_VI_EVENT_OFFSET q i / EF_VI_EV_SIZE = Z.land (evq_ptr (evq_state q) / 8 + i) (2 ^ k - 1).
Proof.
  intros Hk Hm Hp. unfold EF_VI_EVENT_OFFSET, EF_VI_EV_SIZE. rewrite Hm, !land_mask by lia.
  assert (E : evq_ptr (evq_state q) + i * 8 = 8 * (evq_ptr (evq_state q) / 8 + i)).
  { Z.div_mod_to_equations. lia. }
  rewrite E. set (y := evq_ptr (evq_state q) / 8 + i).
  unfold u64. rewrite Z.mod_mod_divide.
  - rewrite Z.pow_add_r by lia. rewrite (Z.mul_comm (2 ^ k)). change (2 ^ 3) with 8.
    pose proof (pow2_pos k ltac:(lia)).
    rewrite Z.mul_mod_distr_l by lia. rewrite Z.mul_comm. apply Z.div_mul. lia.
  - exists (2 ^ (64 - (k + 3))). rewrite <- Z.pow_add_r by lia.
    by replace (64 - (k + 3) + (k + 3)) with 64 by lia.
Qed.

Lemma null_not_event : EF_VI_IS_EVENT EV_NULL = false.
Proof. reflexivity. Qed.

(** The [j]-th slot from the current one. *)
Lemma event_at_view q k l j x :
  evq_rep q k l -> 0 <= j < 2 ^ k ->
  rview (2 ^ k - 1) (evq_base q) (evq_ptr (evq_state q) / 8) !! Z.to_nat j = Some x ->
  event_at q j = x.
Proof.
  intros [Hk Hm _ [_ Hp] _ _ _ _] Hj. rewrite rview_lookup by lia. intros [= <-].
  unfold event_at. by rewrite (event_slot q k).
Qed.

Lemma event_at_head q k x l : evq_rep q k (x :: l) -> event_at q 0 = x.
Proof.
  intros Hr. pose proof Hr as [Hk _ _ _ _ _ _ (stale & _ & V)]. pose proof (pow2_pos k).
  apply (event_at_view q k (x :: l) 0); [done|lia|]. by rewrite V.
Qed.

Lemma event_at_empty q k i :
  evq_rep q k [] -> 0 <= i <= 1 -> event_at q i = EV_NULL.
Proof.
  intros Hr Hi. pose proof Hr as [Hk _ _ _ Hs Hf _ (stale & Hst & V)]. pose proof (pow2_pos k).
  apply (event_at_view q k [] i); [done|lia|]. rewrite V. cbn [app length Nat.add].
  rewrite lookup_app_l by (rewrite length_replicate; lia). apply lookup_replicate_2. lia.
Qed.

(** The overflow test looks at an unused slot. *)
Lemma event_at_overflow q k l :
  evq_rep q k l -> event_at q (evq_clear_stride (evq_state q) - 1) = EV_NULL.
Proof.
  intros Hr. pose proof Hr as [Hk Hm _ [_ Hp] Hs Hf _ (stale & Hst & V)]. pose proof (pow2_pos k).
  assert (E : event_at q (evq_clear_stride (evq_state q) - 1) =
    event_at q (2 ^ k - Z.of_nat (length stale) - 1)).
  { unfold event_at. rewrite !(event_slot q k) by done. f_equal.
    rewrite <- (slot_add_size _ (_ + (_ - 1))) by (by apply pow2_mask_k). f_equal. lia. }
  rewrite E. apply (event_at_view q k l); [done|lia|]. rewrite V.
  rewrite lookup_app_r by lia. rewrite lookup_app_l by (rewrite length_replicate; lia).
  apply lookup_replicate_2. lia.
Qed.

(** The ring slot after advancing the byte pointer, wrap-around included. *)
Lemma evq_ptr_advance ptr k :
  0 <= k <= 28 -> ptr `mod` 8 = 0 -> (u32 (ptr + 8) / 8) `mod` 2 ^ k = (ptr / 8 + 1) `mod` 2 ^ k.
Proof.
  intros Hk Hp.
  assert (E8 : u32 (ptr + 8) / 8 = (ptr / 8 + 1) `mod` 2 ^ 29).
  { unfold u32. change 4294967296 with (8 * 2 ^ 29).
    replace (ptr + 8) with (8 * (ptr / 8 + 1)) by (Z.div_mod_to_equations; lia).
    rewrite Z.mul_mod_distr_l by lia. rewrite Z.mul_comm. apply Z.div_mul. lia. }
  rewrite E8. apply Z.mod_mod_divide. exists (2 ^ (29 - k)).
  rewrite <- Z.pow_add_r by lia. by replace (29 - k + k) with 29 by lia.
Qed.

(** Clearing behind and advancing consumes the head. *)
Lemma evq_consume_rep q k x l :
  evq_rep q k (x :: l) ->
  evq_rep (advance_evq_ptr (clear_event_at (evq_clear_stride (evq_state q)) q)) k l.
Proof.
  intros Hr. pose proof Hr as [Hk Hm Hl [Hp1 Hp2] Hs Hf He (stale & Hst & V)].
  pose proof (pow2_pos k ltac:(lia)). cbn [length] in *.
  assert (Hpm : pow2_mask (2 ^ k - 1)) by (by apply pow2_mask_k).
  set (s := length stale) in *.
  set (r := evq_ptr (evq_state q) / 8) in *.
  assert (Hr' : rview (2 ^ k - 1) (evq_base (advance_evq_ptr
    (clear_event_at (evq_clear_stride (evq_state q)) q))) (u32 (evq_ptr (evq_state q) + 8) / 8) =
    rview (2 ^ k - 1) (aset (evq_base q) (Z.land (r - Z.of_nat s) (2 ^ k - 1)) EV_NULL) (r + 1)).
  { cbn [advance_evq_ptr clear_event_at upd_evq fset evq_base].
    rewrite (event_slot q k) by done. fold r.
    replace (r + evq_clear_stride (evq_state q)) with (r - Z.of_nat s) by lia.
    unfold rview. apply map_ext. intros j. f_equal.
    rewrite !land_mask by lia. rewrite Z.add_comm, (Z.add_comm (r + 1)).
    rewrite <- Zplus_mod_idemp_r, (evq_ptr_advance _ k), Zplus_mod_idemp_r by (done || lia). done. }
  split; try done.
  - cbn [advance_evq_ptr clear_event_at upd_evq fset evq_base]. by rewrite length_aset.
  - cbn. split; [apply u32_range|]. unfold u32. rewrite Z.mod_mod_divide by (by exists 536870912).
    change (evq_ptr (st_evq (ep_state q))) with (evq_ptr (evq_state q)).
    unfold EF_VI_EV_SIZE. Z.div_mod_to_equations. lia.
  - cbn. change (evq_clear_stride (st_evq (ep_state q))) with (evq_clear_stride (evq_state q)). lia.
  - by apply Forall_cons_1 in He as [_ He].
  - change (evq_ptr (evq_state (advance_evq_ptr (clear_event_at (evq_clear_stride (evq_state q)) q))))
      with (u32 (evq_ptr (evq_state q) + 8)).
    change (evq_clear_stride (evq_state (advance_evq_ptr
      (clear_event_at (evq_clear_stride (evq_state q)) q)))) with (evq_clear_stride (evq_state q)).
    rewrite Hr'. destruct stale as [|y stale].
    + exists []. split; [done|]. cbn [s length] in *.
      pose proof (rview_aset (2 ^ k - 1) (evq_base q) r 0 EV_NULL Hpm ltac:(lia) ltac:(lia)) as A.
      change (r - Z.of_nat 0) with (r + 0). rewrite Z.add_0_r in *. rewrite V in A.
      cbn [Z.to_nat app] in A. cbn in A. apply rview_rotate in A; [|done].
      rewrite A, app_nil_r, app_nil_r, <- app_assoc. f_equal.
      rewrite <- replicate_S_end. f_equal. lia.
    + exists (stale ++ [x]). rewrite length_app. cbn [s length] in *. split; [lia|].
      pose proof (rview_aset (2 ^ k - 1) (evq_base q) r (2 ^ k - Z.of_nat (S (length stale))) EV_NULL
        Hpm ltac:(lia) ltac:(lia)) as A.
      assert (Es : Z.land (r + (2 ^ k - Z.of_nat (S (length stale)))) (2 ^ k - 1) =
        Z.land (r - Z.of_nat (S (length stale))) (2 ^ k - 1)).
      { rewrite <- (slot_add_size _ (r - _)) by done. f_equal. lia. }
      rewrite Es, V in A. set (nn := Z.to_nat (2 ^ k - Z.of_nat (S (length l) + S (length stale)))) in *.
      rewrite !app_assoc, insert_app_r_alt in A
        by (rewrite !length_app, length_replicate; cbn [length]; unfold nn; lia).
      rewrite length_app, length_replicate in A. cbn [length] in A.
      replace (Z.to_nat (2 ^ k - Z.of_nat (S (length stale))) - (S (length l) + nn))%nat with 0%nat in A
        by (unfold nn; lia).
      cbn in A. apply rview_rotate in A; [|done]. rewrite A.
      rewrite <- !app_assoc. f_equal.
      replace (Z.to_nat (2 ^ k - Z.of_nat (length l + (length stale + 1)))) with (S nn) by (unfold nn; lia).
      rewrite replicate_S_end, <- app_assoc. done.
Qed.

(** * Handlers do not look at the event ring *)

(** The same VI with another event ring content and position. *)
Definition set_ring (base : list Z) (ptr : Z) (vi : ef_vi) : ef_vi :=
  upd_evq (fun s => s <| evq_ptr := ptr |>) (vi <| evq_base := base |>).

Section frame.
Context (b : list Z) (p : Z).

Abbreviation frame2 r := (let '(vi, evs) := r in (set_ring b p vi, evs)).

Lemma rx_event_vi_frame vi ev q_label :
  rx_event_vi (set_ring b p vi) ev q_label = frame2 (rx_event_vi vi ev q_label).
Proof.
  unfold rx_event_vi, huntington_rx_desc_consumed, no_desc_trunc, ef10_packed_stream_rx_event,
    huntington_rx_descs_consumed.
  cbn [set_ring upd_evq upd_rxq rx_set_id fset vi_is_normal vi_is_packed_stream ep_state st_rxq
       vi_rxq rx_removed rx_last_desc_i rx_in_jumbo rx_bytes_acc q_mask q_ids rx_discard_mask].
  repeat (match goal with |- context [if ?c then _ else _] => destruct c end; try reflexivity).
Qed.

Lemma mcdi_event_frame vi ev :
  ef10_mcdi_event (set_ring b p vi) ev = frame2 (ef10_mcdi_event vi ev).
Proof.
  unfold ef10_mcdi_event. cbn [set_ring upd_evq fset ts_format vi_out_flags].
  destruct (ts_format vi);
    repeat (match goal with |- context [if ?c then _ else _] => destruct c end; try reflexivity).
Qed.

Lemma ts_rq_id_skip_frame fuel : forall vi,
  ts_rq_id_skip fuel (set_ring b p vi) = option_map (set_ring b p) (ts_rq_id_skip fuel vi).
Proof.
  induction fuel as [|fuel IH]; intros vi; [done|]. cbn [ts_rq_id_skip].
  change (tx_removed (txq_state (set_ring b p vi))) with (tx_removed (txq_state vi)).
  change (vi_txq (set_ring b p vi)) with (vi_txq vi).
  destruct (_ =? _); [|done]. rewrite <- IH. done.
Qed.

Lemma tx_event_frame vi ev :
  ef10_tx_event (set_ring b p vi) ev =
  match ef10_tx_event vi ev with Some r => Some (frame2 r) | None => None end.
Proof.
  unfold ef10_tx_event, ef10_tx_event_completion, ef10_tx_event_alt, ef10_tx_event_ts_enabled.
  change (vi_flags (set_ring b p vi)) with (vi_flags vi).
  change (tx_alt_num (set_ring b p vi)) with (tx_alt_num vi).
  change (tx_alt_hw2id (set_ring b p vi)) with (tx_alt_hw2id vi).
  change (ef10_tx_event_ts_hi (set_ring b p vi) ev) with (ef10_tx_event_ts_hi vi ev).
  change (vi_flag (set_ring b p vi) EF_VI_TX_TIMESTAMPS) with (vi_flag vi EF_VI_TX_TIMESTAMPS).
  unfold ef10_tx_event_ts_rq_id. rewrite ts_rq_id_skip_frame.
  change (vi_txq (set_ring b p vi)) with (vi_txq vi).
  destruct (ef10_tx_event_ts_hi vi ev) as [ts_sec ts_nsec].
  destruct (ts_rq_id_skip _ vi) as [vi'|]; cbn [option_map];
    repeat (match goal with |- context [if ?c then _ else _] => destruct c end; try reflexivity).
Qed.

(** The store with the ring of [evq] replaced. *)
Abbreviation with_ring st evq := (alter (set_ring b p) evq st).

Lemma rx_event_frame (st : store) evq ev :
  ef10_rx_event (with_ring st evq) evq ev =
  (let '(st', evs) := ef10_rx_event st evq ev in (with_ring st' evq, evs)).
Proof.
  unfold ef10_rx_event. rewrite lookup_alter_eq.
  destruct (st !! evq) as [q|] eqn:Eq; cbn [fmap option_fmap option_map]; [|done].
  change (vi_of_label (set_ring b p q)) with (vi_of_label q).
  destruct (vi_of_label q _) as [pv|].
  - destruct (decide (pv = evq)) as [->|Hne].
    + rewrite lookup_alter_eq, Eq. cbn [fmap option_fmap option_map].
      rewrite rx_event_vi_frame. destruct (rx_event_vi q ev _) as [vi evs].
      f_equal. apply map_eq. intros i. destruct (decide (i = evq)) as [->|].
      * by rewrite lookup_insert_eq, lookup_alter_eq, lookup_insert_eq.
      * by rewrite lookup_insert_ne, !lookup_alter_ne, lookup_insert_ne by congruence.
    + rewrite lookup_alter_ne by congruence. destruct (st !! pv) as [vi0|]; [|done].
      destruct (rx_event_vi vi0 ev _) as [vi evs]. f_equal.
      by rewrite alter_insert_ne by congruence.
  - f_equal. apply map_eq. intros i. destruct (decide (i = evq)) as [->|].
    + by rewrite lookup_insert_eq, lookup_alter_eq, lookup_insert_eq.
    + by rewrite lookup_insert_ne, !lookup_alter_ne, lookup_insert_ne by congruence.
Qed.

Lemma insert_with_ring (st : store) evq vi :
  <[evq := set_ring b p vi]> (with_ring st evq) = with_ring (<[evq := vi]> st) evq.
Proof.
  apply map_eq. intros i. destruct (decide (i = evq)) as [->|].
  - by rewrite lookup_insert_eq, lookup_alter_eq, lookup_insert_eq.
  - by rewrite lookup_insert_ne, !lookup_alter_ne, lookup_insert_ne by congruence.
Qed.

Lemma dispatch_event_frame (st : store) evq ev :
  dispatch_event (with_ring st evq) evq ev =
  match dispatch_event st evq ev with
  | Some (st', evs) => Some (with_ring st' evq, evs)
  | None => None
  end.
Proof.
  unfold dispatch_event. rewrite rx_event_frame, lookup_alter_eq.
  destruct (st !! evq) as [q|] eqn:Eq; cbn [fmap option_fmap option_map]; [|done].
  destruct (_ =? _); [by destruct (ef10_rx_event st evq ev)|].
  destruct (_ =? _).
  { rewrite tx_event_frame. destruct (ef10_tx_event q ev) as [[vi evs]|]; [|done].
    by rewrite insert_with_ring. }
  destruct (_ =? _); [|done].
  rewrite mcdi_event_frame. destruct (ef10_mcdi_event q ev) as [vi evs].
  by rewrite insert_with_ring.
Qed.
End frame.

(** The ring fields of the queue's VI are left alone by every handler. *)
Definition ring_of (q : ef_vi) : list Z * Z * Z * Z :=
  (evq_base q, evq_mask q, evq_ptr (evq_state q), evq_clear_stride (evq_state q)).

Lemma ring_of_upd_txq f vi : ring_of (upd_txq f vi) = ring_of vi.
Proof. reflexivity. Qed.

Lemma ring_of_tx_set_id i id vi : ring_of (tx_set_id i id vi) = ring_of vi.
Proof. reflexivity. Qed.

Lemma rx_event_vi_ring vi ev q_label : ring_of (fst (rx_event_vi vi ev q_label)) = ring_of vi.
Proof.
  unfold rx_event_vi, huntington_rx_desc_consumed, no_desc_trunc, ef10_packed_stream_rx_event,
    huntington_rx_descs_consumed.
  repeat (match goal with |- context [if ?c then _ else _] => destruct c end; try reflexivity).
Qed.

Lemma mcdi_event_ring vi ev : ring_of (fst (ef10_mcdi_event vi ev)) = ring_of vi.
Proof.
  unfold ef10_mcdi_event.
  repeat (match goal with |- context [if ?c then _ else _] => destruct c end; try reflexivity).
Qed.

Lemma ts_rq_id_skip_ring fuel : forall vi vi',
  ts_rq_id_skip fuel vi = Some vi' -> ring_of vi' = ring_of vi.
Proof.
  induction fuel as [|fuel IH]; intros vi vi'; cbn [ts_rq_id_skip]; [done|].
  destruct (_ =? _); [|by intros [= ->]]. intros E. by rewrite (IH _ _ E).
Qed.

Lemma some_fst {A B} (a a' : A) (b b' : B) : Some (a, b) = Some (a', b') -> a = a'.
Proof. by intros [= ->]. Qed.

Lemma ts_rq_id_ring vi vi' id :
  ef10_tx_event_ts_rq_id vi = Some (vi', id) -> ring_of vi' = ring_of vi.
Proof.
  unfold ef10_tx_event_ts_rq_id. destruct (ts_rq_id_skip _ vi) as [vi1|] eqn:E; [|done].
  apply ts_rq_id_skip_ring in E. intros H. apply some_fst in H as <-.
  rewrite ring_of_upd_txq, ring_of_tx_set_id. exact E.
Qed.

Lemma tx_event_ts_ring vi ev vi' evs :
  ef10_tx_event_ts_enabled vi ev = Some (vi', evs) -> ring_of vi' = ring_of vi.
Proof.
  unfold ef10_tx_event_ts_enabled. destruct (ef10_tx_event_ts_hi vi ev) as [ts_sec ts_nsec].
  destruct (_ || _); [intros H; apply some_fst in H as <-; reflexivity|].
  destruct (_ || _); [intros H; apply some_fst in H as <-; apply ring_of_upd_txq|].
  destruct (_ || _); [|intros H; apply some_fst in H as <-; reflexivity].
  destruct (ef10_tx_event_ts_rq_id vi) as [[vi1 id]|] eqn:E; [|discriminate].
  apply ts_rq_id_ring in E. intros H. apply some_fst in H as <-. exact E.
Qed.

Lemma tx_event_alt_vi vi ev : fst (ef10_tx_event_alt vi ev) = vi.
Proof. unfold ef10_tx_event_alt, ef10_tx_event_completion. by repeat case_match. Qed.

Lemma tx_event_ring vi ev vi' evs :
  ef10_tx_event vi ev = Some (vi', evs) -> ring_of vi' = ring_of vi.
Proof.
  unfold ef10_tx_event, ef10_tx_event_completion.
  destruct (_ =? _); [intros H; apply some_fst in H as <-; reflexivity|].
  destruct (nz _).
  { pose proof (tx_event_alt_vi vi ev) as A. destruct (ef10_tx_event_alt vi ev) as [vi1 evs1].
    intros H. apply some_fst in H as <-. cbn [fst] in A. by rewrite A. }
  destruct (vi_flag _ _); [apply tx_event_ts_ring|intros H; apply some_fst in H as <-; reflexivity].
Qed.

Lemma rx_event_ring (st : store) evq ev p :
  ring_of <$> (fst (ef10_rx_event st evq ev) !! p) = ring_of <$> (st !! p).
Proof.
  unfold ef10_rx_event. destruct (st !! evq) as [q|] eqn:Eq; [|done].
  destruct (vi_of_label q _) as [pv|].
  - destruct (st !! pv) as [vi0|] eqn:Ep; [|done].
    pose proof (rx_event_vi_ring vi0 ev (QWORD_GET_U ESF_DZ_RX_QLABEL ev)) as R.
    destruct (rx_event_vi vi0 ev _) as [vi evs]. cbn [fst] in *.
    destruct (decide (p = pv)) as [->|]; [|by rewrite lookup_insert_ne].
    rewrite lookup_insert_eq, Ep. cbn. by rewrite R.
  - cbn [fst]. destruct (decide (p = evq)) as [->|]; [|by rewrite lookup_insert_ne].
    rewrite lookup_insert_eq, Eq. done.
Qed.

Lemma dispatch_event_ring (st : store) evq ev st' evs p :
  dispatch_event st evq ev = Some (st', evs) -> ring_of <$> (st' !! p) = ring_of <$> (st !! p).
Proof.
  unfold dispatch_event. pose proof (rx_event_ring st evq ev p) as Rx.
  destruct (st !! evq) as [q|] eqn:Eq; [|done].
  destruct (_ =? _); [intros [= E]; by rewrite E in Rx|].
  destruct (_ =? _).
  { destruct (ef10_tx_event q ev) as [[vi out]|] eqn:Et; [|done]. intros [= <- <-].
    apply tx_event_ring in Et. destruct (decide (p = evq)) as [->|]; [|by rewrite lookup_insert_ne].
    rewrite lookup_insert_eq, Eq. cbn. by rewrite Et. }
  destruct (_ =? _); [|by intros [= <- <-]].
  pose proof (mcdi_event_ring q ev) as Rm. destruct (ef10_mcdi_event q ev) as [vi out].
  intros [= <- <-]. destruct (decide (p = evq)) as [->|]; [|by rewrite lookup_insert_ne].
  rewrite lookup_insert_eq, Eq. cbn in *. by rewrite Rm.
Qed.

(** * Specification: dispatching a list of events

    What a poll does, without the ring: handle the pending events in order
    until the caller's array is full or an MCDI event must wait for the next
    poll. *)
Fixpoint dispatch_queue (st : store) (evq : nat) (pending : list Z) (evs : list ef_event)
    (evs_len : Z) : option (store * list ef_event * list Z) :=
  match pending with
  | [] => Some (st, evs, [])
  | ev :: pending' =>
    if held_back ev evs then Some (st, evs, pending)
    else
      match dispatch_event st evq ev with
      | None => None
      | Some (st, out) =>
        let evs := evs ++ out in
        let evs_len := evs_len - Z.of_nat (length out) in
        if evs_len =? 0 then Some (st, evs, pending')
        else dispatch_queue st evq pending' evs evs_len
      end
  end.

(** The concrete store is the abstract one up to the event ring of [evq],
    which holds the events left; [w] is the slot after the last of them. *)
Definition poll_rel (k w : Z) (evq : nat) (rest : list Z) (sta stc : store) : Prop :=
  exists b p q, stc = alter (set_ring b p) evq sta /\ stc !! evq = Some q /\ evq_rep q k rest /\
    w `mod` 2 ^ k = (evq_ptr (evq_state q) / 8 + Z.of_nat (length rest)) `mod` 2 ^ k.

Lemma evq_rep_ring q q' k l : ring_of q' = ring_of q -> evq_rep q k l -> evq_rep q' k l.
Proof. intros [= E1 E2 E3 E4] []. split; rewrite ?E1, ?E2, ?E3, ?E4; done. Qed.

Lemma set_ring_set_ring b p b' p' vi : set_ring b p (set_ring b' p' vi) = set_ring b p vi.
Proof. reflexivity. Qed.

(** Consuming the current event only changes the ring. *)
Lemma consume_set_ring q :
  exists b p, forall b0 p0 q0, q = set_ring b0 p0 q0 ->
    advance_evq_ptr (clear_event_at (evq_clear_stride (evq_state q)) q) = set_ring b p q0.
Proof.
  exists (evq_base (advance_evq_ptr (clear_event_at (evq_clear_stride (evq_state q)) q))),
         (u32 (evq_ptr (evq_state q) + EF_VI_EV_SIZE)).
  intros b0 p0 q0 ->. reflexivity.
Qed.

Lemma poll_rel_dispatch k w evq rest ev sta stc sta' out :
  poll_rel k w evq (ev :: rest) sta stc -> dispatch_event sta evq ev = Some (sta', out) ->
  exists stc', dispatch_event stc evq ev = Some (stc', out) /\
    poll_rel k w evq rest sta' (on_vi stc' evq (fun q =>
      advance_evq_ptr (clear_event_at (evq_clear_stride (evq_state q)) q))).
Proof.
  intros (b & p & q & -> & Eq & Hr & Hw) E.
  exists (alter (set_ring b p) evq sta'). split.
  - by rewrite dispatch_event_frame, E.
  - pose proof (dispatch_event_frame b p sta evq ev) as F. rewrite E in F.
    pose proof (dispatch_event_ring _ _ _ _ _ evq F) as R. rewrite Eq in R.
    destruct (alter (set_ring b p) evq sta' !! evq) as [q'|] eqn:Eq'; cbn in R; [|done].
    injection R as R. 
    destruct (consume_set_ring q') as (b' & p' & C).
    rewrite lookup_alter_eq in Eq'. destruct (sta' !! evq) as [q0|] eqn:E0; cbn in Eq'; [|done].
    injection Eq' as Eq'. specialize (C b p q0 (eq_sym Eq')).
    assert (Hrq : ring_of q' = ring_of q) by (unfold ring_of in *; congruence).
    unfold on_vi. exists b', p', (set_ring b' p' q0). split; [|split; [|split]].
    + apply map_eq. intros i. destruct (decide (i = evq)) as [->|].
      * rewrite !lookup_alter_eq, E0. cbn [fmap option_fmap option_map]. rewrite Eq'. by rewrite C.
      * by rewrite !lookup_alter_ne by congruence.
    + rewrite !lookup_alter_eq, E0. cbn [fmap option_fmap option_map]. rewrite Eq'. by rewrite C.
    + rewrite <- C. apply evq_consume_rep with (x := ev).
      by apply (evq_rep_ring q).
    + rewrite <- C, Hw.
      change (evq_ptr (evq_state (advance_evq_ptr
        (clear_event_at (evq_clear_stride (evq_state q')) q')))) with (u32 (evq_ptr (evq_state q') + 8)).
      assert (evq_ptr (evq_state q') = evq_ptr (evq_state q)) as -> by (unfold ring_of in *; congruence).
      destruct Hr as [Hk _ _ [_ Hp8] _ _ _ _]. cbn [length].
      rewrite <- (Zplus_mod_idemp_l (u32 _ / 8)), evq_ptr_advance, Zplus_mod_idemp_l by done.
      f_equal. lia.
Qed.

Lemma poll_rel_none k w evq rest ev sta stc :
  poll_rel k w evq (ev :: rest) sta stc -> dispatch_event sta evq ev = None ->
  dispatch_event stc evq ev = None.
Proof. intros (b & p & q & -> & _) E. by rewrite dispatch_event_frame, E. Qed.

(** The loop over the ring simulates the specification. *)
Lemma poll_loop_simulates k w evq : forall rest fuel sta stc evs evs_len,
  rest <> [] -> (length rest <= fuel)%nat -> poll_rel k w evq rest sta stc ->
  match dispatch_queue sta evq rest evs evs_len with
  | None => poll_loop fuel stc evq evs evs_len = None
  | Some (sta', evs', rest') => exists stc',
      poll_loop fuel stc evq evs evs_len = Some (stc', evs') /\ poll_rel k w evq rest' sta' stc'
  end.
Proof.
  induction rest as [|ev rest IH]; intros fuel sta stc evs evs_len Hne Hf Hrel; [done|].
  destruct fuel as [|fuel]; [cbn in Hf; lia|]. cbn [poll_loop dispatch_queue].
  pose proof Hrel as (b & p & q & Est & Eq & Hr & _). rewrite Eq.
  rewrite (event_at_head q k ev rest Hr).
  destruct (held_back ev evs); [by exists stc|].
  destruct (dispatch_event sta evq ev) as [[sta' out]|] eqn:Ed.
  2:{ by rewrite (poll_rel_none k w evq rest ev sta stc). }
  destruct (poll_rel_dispatch k w evq rest ev sta stc sta' out Hrel Ed) as (stc' & Ec & Hrel').
  rewrite Ec. destruct (_ =? 0); [by eexists|].
  pose proof Hrel' as (b' & p' & q' & Est' & Eq' & Hr' & _). rewrite Eq'.
  destruct rest as [|ev' rest].
  - rewrite (event_at_empty q' k 0 Hr') by lia. rewrite null_not_event. by eexists.
  - rewrite (event_at_head q' k ev' rest Hr').
    pose proof Hr' as [_ _ _ _ _ _ He _]. apply Forall_cons_1 in He as [He _].
    unfold is_event in He. rewrite He. apply IH; [done|cbn in *; lia|done].
Qed.

(** ** Bounds on what is delivered *)

Lemma rx_event_vi_one vi ev q_label : (length (snd (rx_event_vi vi ev q_label)) <= 1)%nat.
Proof.
  unfold rx_event_vi, huntington_rx_desc_consumed, no_desc_trunc, ef10_packed_stream_rx_event,
    huntington_rx_descs_consumed.
  repeat (match goal with |- context [if ?c then _ else _] => destruct c end; try (cbn; lia)).
Qed.

Lemma rx_event_one (st : store) evq ev : (length (snd (ef10_rx_event st evq ev)) <= 1)%nat.
Proof.
  unfold ef10_rx_event. destruct (st !! evq) as [q|]; [|cbn; lia].
  destruct (vi_of_label q _) as [p|]; [|cbn; lia]. destruct (st !! p) as [vi|]; [|cbn; lia].
  pose proof (rx_event_vi_one vi ev (QWORD_GET_U ESF_DZ_RX_QLABEL ev)).
  by destruct (rx_event_vi vi ev _).
Qed.

Lemma tx_event_one vi ev vi' evs :
  ef10_tx_event vi ev = Some (vi', evs) -> (length evs <= 1)%nat.
Proof.
  unfold ef10_tx_event, ef10_tx_event_alt, ef10_tx_event_completion, ef10_tx_event_ts_enabled.
  destruct (ef10_tx_event_ts_hi vi ev) as [ts_sec ts_nsec].
  destruct (ef10_tx_event_ts_rq_id vi) as [[vi1 id]|];
    repeat (match goal with |- context [if ?c then _ else _] => destruct c end);
    intros H; try discriminate H; injection H as _ <-; cbn; lia.
Qed.

Lemma mcdi_event_one vi ev : (length (snd (ef10_mcdi_event vi ev)) <= 1)%nat.
Proof.
  unfold ef10_mcdi_event.
  repeat (match goal with |- context [if ?c then _ else _] => destruct c end; try (cbn; lia)).
Qed.

Lemma dispatch_event_one (st : store) evq ev st' out :
  dispatch_event st evq ev = Some (st', out) -> (length out <= 1)%nat.
Proof.
  unfold dispatch_event. destruct (st !! evq) as [q|]; [|discriminate].
  pose proof (rx_event_one st evq ev).
  destruct (_ =? _); [intros [= E]; by rewrite E in H|].
  destruct (_ =? _).
  { destruct (ef10_tx_event q ev) as [[vi evs]|] eqn:E; [|discriminate].
    intros E'. injection E' as _ <-. by apply tx_event_one in E. }
  destruct (_ =? _); [|intros E'; injection E' as _ <-; cbn; lia].
  pose proof (mcdi_event_one q ev). destruct (ef10_mcdi_event q ev) as [vi evs].
  intros E'. by injection E' as _ <-.
Qed.

Lemma dispatch_queue_bound evq : forall pending st evs evs_len st' evs' rest,
  0 < evs_len -> dispatch_queue st evq pending evs evs_len = Some (st', evs', rest) ->
  exists out, evs' = evs ++ out /\ Z.of_nat (length out) <= evs_len.
Proof.
  induction pending as [|ev pending IH]; intros st evs evs_len st' evs' rest Hl; cbn [dispatch_queue].
  - intros [= <- <- <-]. exists []. rewrite app_nil_r. cbn. split; [done|lia].
  - destruct (held_back ev evs).
    { intros [= <- <- <-]. exists []. rewrite app_nil_r. cbn. split; [done|lia]. }
    destruct (dispatch_event st evq ev) as [[st1 out]|] eqn:E; [|discriminate].
    apply dispatch_event_one in E. destruct (Z.eqb_spec (evs_len - Z.of_nat (length out)) 0).
    { intros [= <- <- <-]. exists out. split; [done|lia]. }
    intros H. apply IH in H as (out' & -> & Hb); [|lia].
    exists (out ++ out'). rewrite app_assoc, length_app. split; [done|lia].
Qed.

(** ** The NIC's side of the ring *)

(** The NIC writes an event to the slot of its own free-running pointer. *)
Definition nic_write (k w ev : Z) (q : ef_vi) : ef_vi :=
  q <| evq_base ::= fun l => aset l (Z.land w (2 ^ k - 1)) ev |>.

Lemma nic_write_rep q k pending w ev :
  evq_rep q k pending -> is_event ev ->
  Z.of_nat (length pending) - evq_clear_stride (evq_state q) < 2 ^ k - 1 ->
  w `mod` 2 ^ k = (evq_ptr (evq_state q) / 8 + Z.of_nat (length pending)) `mod` 2 ^ k ->
  evq_rep (nic_write k w ev q) k (pending ++ [ev]).
Proof.
  intros [Hk Hm Hl Hp Hs Hf He (stale & Hst & V)] Hev Hroom Hw. pose proof (pow2_pos k ltac:(lia)).
  assert (Hpm : pow2_mask (2 ^ k - 1)) by (by apply pow2_mask_k).
  split; try done.
  - cbn. by rewrite length_aset.
  - rewrite length_app. cbn [length]. change (evq_state (nic_write k w ev q)) with (evq_state q). lia.
  - apply Forall_app_2; [done|]. by apply Forall_cons.
  - exists stale. split; [done|]. change (evq_state (nic_write k w ev q)) with (evq_state q).
    cbn [nic_write fset evq_base]. rewrite land_mask, Hw, <- land_mask by lia.
    rewrite rview_aset by (done || lia). rewrite V, Nat2Z.id.
    rewrite insert_app_r_alt, Nat.sub_diag, length_app by lia. cbn [length].
    replace (Z.to_nat (2 ^ k - Z.of_nat (length pending + length stale)))
      with (S (Z.to_nat (2 ^ k - Z.of_nat (length pending + 1 + length stale)))) by lia.
    cbn. by rewrite <- app_assoc.
Qed.

(** ** Operations that leave event queues alone *)

(** What an operation on a VI promises to the event queue: its effect does not
    depend on the event ring, and it leaves the ring as it is. *)
Class EvqFrame (g : ef_vi -> ef_vi) : Prop := {
  frame_eq : forall b p vi, g (set_ring b p vi) = set_ring b p (g vi);
  frame_ring : forall vi, ring_of (g vi) = ring_of vi
}.

#[export] Instance transmit_push_frame : EvqFrame ef10_ef_vi_transmit_push.
Proof.
  split; intros; unfold ef10_ef_vi_transmit_push.
  - change (txq_state (set_ring b p vi)) with (txq_state vi).
    change (vi_txq (set_ring b p vi)) with (vi_txq vi).
    change (tx_push_thresh (set_ring b p vi)) with (tx_push_thresh vi).
    by destruct (_ && _).
  - by destruct (_ && _).
Qed.

#[export] Instance receive_push_frame : EvqFrame ef10_ef_vi_receive_push.
Proof.
  split; intros; unfold ef10_ef_vi_receive_push.
  - change (rxq_state (set_ring b p vi)) with (rxq_state vi). by destruct (negb _).
  - by destruct (negb _).
Qed.

#[export] Instance receive_init_frame addr id :
  EvqFrame (fun vi => fst (ef10_ef_vi_receive_init vi addr id)).
Proof.
  split; intros; unfold ef10_ef_vi_receive_init.
  - change (ef_vi_receive_space (set_ring b p vi)) with (ef_vi_receive_space vi). by destruct (nz _).
  - by destruct (nz _).
Qed.

#[export] Instance transmit_undo_frame : EvqFrame ef_vi_transmit_init_undo.
Proof.
  assert (F : forall n b p vi, transmit_init_undo_loop n (set_ring b p vi) =
    set_ring b p (transmit_init_undo_loop n vi)).
  { induction n as [|n IH]; intros; [done|]. cbn [transmit_init_undo_loop]. by rewrite <- IH. }
  assert (R : forall n vi, ring_of (transmit_init_undo_loop n vi) = ring_of vi).
  { induction n as [|n IH]; intros; [done|]. cbn [transmit_init_undo_loop]. by rewrite IH. }
  split; intros; unfold ef_vi_transmit_init_undo; [apply F|apply R].
Qed.

#[export] Instance receive_unbundle_frame n :
  EvqFrame (fun vi => fst (ef_vi_receive_unbundle vi n)).
Proof.
  assert (F : forall n b p vi ids, fst (receive_unbundle_loop n (set_ring b p vi) ids) =
    set_ring b p (fst (receive_unbundle_loop n vi ids))).
  { induction n0 as [|m IH]; intros; [done|]. cbn [receive_unbundle_loop].
    change (q_ids (vi_rxq (upd_rxq ?f (set_ring b p vi)))) with (q_ids (vi_rxq (upd_rxq f vi))).
    change (Z.land (rx_removed (rxq_state (set_ring b p vi))) (q_mask (vi_rxq (set_ring b p vi))))
      with (Z.land (rx_removed (rxq_state vi)) (q_mask (vi_rxq vi))).
    destruct (negb _); by rewrite <- IH. }
  assert (R : forall n vi ids, ring_of (fst (receive_unbundle_loop n vi ids)) = ring_of vi).
  { induction n0 as [|m IH]; intros; [done|]. cbn [receive_unbundle_loop].
    destruct (negb _); by rewrite IH. }
  split; intros; unfold ef_vi_receive_unbundle; [apply F|apply R].
Qed.

(** ** The event queue over time

    The library on the ring, with the NIC writing events, the application
    polling and calling other operations, against the same operations on a plain
    queue of events. *)

Record evq_sys := mk_evq_sys {
  es_store : store;
  es_nic : Z;  (* the NIC's write pointer *)
  es_app : list ef_event  (* everything delivered to the application *)
}.

Record evq_spec := mk_evq_spec {
  ep_store : store;
  ep_pending : list Z;
  ep_app : list ef_event
}.

Inductive evq_action :=
  | Act_nic (ev : Z)
  | Act_poll (evs_len : Z)
  | Act_op (p : nat) (g : ef_vi -> ef_vi) (F : EvqFrame g).

Section evq_steps.
Context (k : Z) (evq : nat).

Definition sys_step (a : evq_action) (s : evq_sys) : option evq_sys :=
  match a with
  | Act_nic ev =>
      Some (mk_evq_sys (on_vi (es_store s) evq (nic_write k (es_nic s) ev)) (es_nic s + 1) (es_app s))
  | Act_poll evs_len =>
      match ef10_ef_eventq_poll (es_store s) evq evs_len with
      | Some (st, evs, _) => Some (mk_evq_sys st (es_nic s) (es_app s ++ evs))
      | None => None
      end
  | Act_op p g _ => Some (mk_evq_sys (on_vi (es_store s) p g) (es_nic s) (es_app s))
  end.

(** The NIC only writes when its quota allows: fewer events pending than the
    ring holds next to the slots not cleared yet. *)
Definition spec_step (a : evq_action) (s : evq_spec) : option evq_spec :=
  match a with
  | Act_nic ev =>
      match ep_store s !! evq with
      | None => None
      | Some q =>
        if EF_VI_IS_EVENT ev &&
           (Z.of_nat (length (ep_pending s)) - evq_clear_stride (evq_state q) <? 2 ^ k - 1)
        then Some (mk_evq_spec (ep_store s) (ep_pending s ++ [ev]) (ep_app s)) else None
      end
  | Act_poll evs_len =>
      match dispatch_queue (ep_store s) evq (ep_pending s) [] evs_len with
      | Some (st, evs, rest) => Some (mk_evq_spec st rest (ep_app s ++ evs))
      | None => None
      end
  | Act_op p g _ => Some (mk_evq_spec (on_vi (ep_store s) p g) (ep_pending s) (ep_app s))
  end.

Fixpoint run {S} (step : evq_action -> S -> option S) (l : list evq_action) (s : S) : option S :=
  match l with
  | [] => Some s
  | a :: l => match step a s with Some s => run step l s | None => None end
  end.

Definition sys_rel (sp : evq_spec) (s : evq_sys) : Prop :=
  es_app s = ep_app sp /\ poll_rel k (es_nic s) evq (ep_pending sp) (ep_store sp) (es_store s).

Lemma poll_refines_rel w pending sta stc evs_len :
  poll_rel k w evq pending sta stc ->
  match dispatch_queue sta evq pending [] evs_len with
  | None => ef10_ef_eventq_poll stc evq evs_len = None
  | Some (sta', evs, rest) => exists stc',
      ef10_ef_eventq_poll stc evq evs_len = Some (stc', evs, Z.of_nat (length evs)) /\
      poll_rel k w evq rest sta' stc'
  end.
Proof.
  intros Hrel. pose proof Hrel as (b & p & q & Est & Eq & Hr & _).
  unfold ef10_ef_eventq_poll. rewrite Eq, (event_at_overflow q k pending Hr), null_not_event.
  destruct pending as [|ev pending].
  - cbn [dispatch_queue]. rewrite !(event_at_empty q k _ Hr), null_not_event by lia. by exists stc.
  - rewrite (event_at_head q k ev pending Hr).
    pose proof Hr as [_ _ Hl _ _ Hf He _]. apply Forall_cons_1 in He as [He _].
    unfold is_event in He. rewrite He.
    pose proof (poll_loop_simulates k w evq (ev :: pending) (length (evq_base q)) sta stc [] evs_len)
      as P.
    destruct (dispatch_queue sta evq (ev :: pending) [] evs_len) as [[[sta' evs] rest]|].
    + destruct P as (stc' & -> & R); [done| |done|by exists stc'].
      destruct Hr as [_ _ _ _ Hs _ _ _]. lia.
    + rewrite P; [done|done| |done]. destruct Hr as [_ _ _ _ Hs _ _ _]. lia.
Qed.

Lemma op_rel w pending sta stc p0 g (F : EvqFrame g) :
  poll_rel k w evq pending sta stc ->
  poll_rel k w evq pending (on_vi sta p0 g) (on_vi stc p0 g).
Proof.
  intros (b & p & q & -> & Eq & Hr & Hw). unfold on_vi.
  destruct (decide (p0 = evq)) as [->|Hne].
  - exists b, p, (g q). split; [|split; [|split]].
    + apply map_eq. intros i. destruct (decide (i = evq)) as [->|].
      * rewrite !lookup_alter_eq. destruct (sta !! evq); [|done].
        cbn [fmap option_fmap option_map]. by rewrite frame_eq.
      * by rewrite !lookup_alter_ne by congruence.
    + rewrite lookup_alter_eq, Eq. done.
    + apply (evq_rep_ring q); [apply frame_ring|done].
    + pose proof (frame_ring (g := g) q) as E. unfold ring_of in E.
      by replace (evq_ptr (evq_state (g q))) with (evq_ptr (evq_state q)) by congruence.
  - exists b, p, q. split; [|split; [|done]].
    + by rewrite alter_alter_ne.
    + by rewrite lookup_alter_ne by congruence.
Qed.

Lemma nic_rel w pending sta stc ev q :
  poll_rel k w evq pending sta stc -> sta !! evq = Some q -> is_event ev ->
  Z.of_nat (length pending) - evq_clear_stride (evq_state q) < 2 ^ k - 1 ->
  poll_rel k (w + 1) evq (pending ++ [ev]) sta (on_vi stc evq (nic_write k w ev)).
Proof.
  intros (b & p & qc & -> & Eq & Hr & Hw) Esta Hev Hroom. unfold on_vi.
  rewrite lookup_alter_eq, Esta in Eq. cbn [fmap option_fmap option_map] in Eq. injection Eq as <-.
  change (evq_clear_stride (evq_state q)) with (evq_clear_stride (evq_state (set_ring b p q))) in Hroom.
  exists (aset b (Z.land w (2 ^ k - 1)) ev), p, (nic_write k w ev (set_ring b p q)).
  split; [|split; [|split]].
  - apply map_eq. intros i. destruct (decide (i = evq)) as [->|].
    + by rewrite !lookup_alter_eq, Esta.
    + by rewrite !lookup_alter_ne by congruence.
  - by rewrite !lookup_alter_eq, Esta.
  - by apply nic_write_rep.
  - change (evq_state (nic_write k w ev (set_ring b p q))) with (evq_state (set_ring b p q)).
    rewrite length_app, <- Zplus_mod_idemp_l, Hw, Zplus_mod_idemp_l. cbn [length]. f_equal. lia.
Qed.

(** One action of the specification is matched by the library. *)
Lemma sys_simulates a sp sp' s :
  sys_rel sp s -> spec_step a sp = Some sp' -> exists s', sys_step a s = Some s' /\ sys_rel sp' s'.
Proof.
  intros [Happ Hrel] E. destruct a as [ev|evs_len|p0 g F]; cbn [spec_step sys_step] in *.
  - destruct (ep_store sp !! evq) as [q|] eqn:Eq; [|done].
    destruct (EF_VI_IS_EVENT ev && _) eqn:Ec; [|done]. injection E as <-.
    apply andb_true_iff in Ec as [Hev Hroom]. apply Z.ltb_lt in Hroom.
    eexists. split; [reflexivity|]. split; [done|]. cbn. by apply (nic_rel _ _ _ _ _ q).
  - pose proof (poll_refines_rel _ _ _ _ evs_len Hrel) as P.
    destruct (dispatch_queue _ _ _ _ _) as [[[st evs] rest]|]; [|done]. injection E as <-.
    destruct P as (stc' & -> & R). eexists. split; [reflexivity|]. split; [|done].
    cbn. by rewrite Happ.
  - injection E as <-. eexists. split; [reflexivity|]. split; [done|]. by apply op_rel.
Qed.

Lemma run_simulates l : forall sp sp' s,
  sys_rel sp s -> run spec_step l sp = Some sp' ->
  exists s', run sys_step l s = Some s' /\ sys_rel sp' s'.
Proof.
  induction l as [|a l IH]; intros sp sp' s Hr E; cbn [run] in *.
  - injection E as <-. by exists s.
  - destruct (spec_step a sp) as [sp1|] eqn:Ea; [|done].
    destruct (sys_simulates a sp sp1 s Hr Ea) as (s1 & -> & Hr1). by apply (IH sp1).
Qed.
End evq_steps.

(** * Priming and timers *)

Definition ER_DZ_EVQ_RPTR_REG := 1024.
Definition ER_DZ_EVQ_TMR_REG := 1056.
Definition ERF_DZ_TC_TIMER_MODE_LBN := 14.
Definition FFE_CZ_TIMER_MODE_DIS := 0.
Definition FFE_CZ_TIMER_MODE_IMMED_START := 1.
Definition FFE_CZ_TIMER_MODE_TRIG_START := 2.
Definition REV0_OP_TMR := Z.shiftl 3 10.
Definition REV0_TIMER_SHIFT := 8.

Definition ef10_update_evq_rptr (rptr : Z) (vi : ef_vi) : ef_vi :=
  writel rptr (io vi + ER_DZ_EVQ_RPTR_REG) vi.

Definition ef10_update_evq_rptr_bug35388_workaround (rptr : Z) (vi : ef_vi) : ef_vi :=
  let REV0_OP_RPTR_HI := 2048 in
  let REV0_OP_RPTR_LO := 2304 in
  let rptr_hi := Z.lor REV0_OP_RPTR_HI (Z.land (Z.shiftr rptr 8) 255) in
  let rptr_lo := Z.lor REV0_OP_RPTR_LO (Z.land rptr 255) in
  let vi := writel rptr_hi (io vi + ER_DZ_TX_DESC_UPD_REG + 8) vi in
  writel rptr_lo (io vi + ER_DZ_TX_DESC_UPD_REG + 8) vi.

Definition ef10_ef_eventq_prime (vi : ef_vi) : ef_vi :=
  let ring_i := Z.land (ef_eventq_current vi) (evq_mask vi) / 8 in
  ef10_update_evq_rptr ring_i vi.

Definition ef10_ef_eventq_prime_bug35388_workaround (vi : ef_vi) : ef_vi :=
  let ring_i := Z.land (ef_eventq_current vi) (evq_mask vi) / 8 in
  ef10_update_evq_rptr_bug35388_workaround ring_i vi.

(** [ops.eventq_prime], by the table. *)
Definition ef_eventq_prime (vi : ef_vi) : ef_vi :=
  match ops vi with
  | Ops_ef10 _ _ true => ef10_ef_eventq_prime_bug35388_workaround vi
  | _ => ef10_ef_eventq_prime vi
  end.

Definition bug35388_workaround_needed (vi : ef_vi) : bool :=
  (variant (nic_type vi) =? 65) && (revision (nic_type vi) <? 2).

Definition poke_timer (v : Z) (vi : ef_vi) : ef_vi := writel v (io vi + ER_DZ_EVQ_TMR_REG) vi.

Definition poke_timer_bug35388 (v : Z) (vi : ef_vi) : ef_vi :=
  writel (Z.lor v REV0_OP_TMR) (io vi + ER_DZ_TX_DESC_UPD_REG + 8) vi.

(** Microseconds to timer ticks, rounded up, in 32-bit arithmetic. *)
Definition timer_ticks (q : ef_vi) (v : Z) : Z :=
  s32 (u32 (u32 (u32 (v * 1000) + timer_quantum_ns q) - 1) / timer_quantum_ns q).

Definition eventq_timer_start (mode : Z) (q : ef_vi) (v : Z) : ef_vi :=
  let vv := timer_ticks q v in
  if bug35388_workaround_needed q then
    let vv := if 255 <? vv then 255 else vv in
    poke_timer_bug35388 (Z.lor vv (Z.shiftl mode REV0_TIMER_SHIFT)) q
  else poke_timer (Z.lor vv (Z.shiftl mode ERF_DZ_TC_TIMER_MODE_LBN)) q.

Definition ef10_ef_eventq_timer_prime (q : ef_vi) (v : Z) : ef_vi :=
  eventq_timer_start FFE_CZ_TIMER_MODE_TRIG_START q v.

Definition ef10_ef_eventq_timer_run (q : ef_vi) (v : Z) : ef_vi :=
  eventq_timer_start FFE_CZ_TIMER_MODE_IMMED_START q v.

Definition ef10_ef_eventq_timer_clear (q : ef_vi) : ef_vi :=
  if bug35388_workaround_needed q
  then poke_timer_bug35388 (Z.shiftl FFE_CZ_TIMER_MODE_DIS REV0_TIMER_SHIFT) q
  else poke_timer (Z.shiftl FFE_CZ_TIMER_MODE_DIS ERF_DZ_TC_TIMER_MODE_LBN) q.

Definition ef10_ef_eventq_timer_zero (q : ef_vi) : ef_vi :=
  if bug35388_workaround_needed q
  then poke_timer_bug35388 (Z.lor 1 (Z.shiftl FFE_CZ_TIMER_MODE_TRIG_START REV0_TIMER_SHIFT)) q
  else poke_timer (Z.lor 1 (Z.shiftl FFE_CZ_TIMER_MODE_TRIG_START ERF_DZ_TC_TIMER_MODE_LBN)) q.

(** * Received packets *)

Definition rx_bytes_of (ev : Z) : Z := QWORD_GET_U ESF_DZ_RX_BYTES ev.
Definition rx_cont_of (ev : Z) : bool := nz (QWORD_GET_U ESF_DZ_RX_CONT ev).
Definition rx_mcast_of (ev : Z) : Z :=
  if QWORD_GET_U ESF_DZ_RX_MAC_CLASS ev =? ESE_DZ_MAC_CLASS_MCAST then EF_EVENT_FLAG_MULTICAST else 0.

(** The event is the completion of the descriptor at [removed], without
    errors the VI discards. *)
Definition rx_completes (vi : ef_vi) (removed ev : Z) : Prop :=
  QWORD_GET_U ESF_DZ_RX_DSC_PTR_LBITS ev = (removed + 1) `mod` 16 /\
  Z.land ev (rx_discard_mask vi) = 0.

Lemma short_di_next removed :
  Z.land (u32 ((removed + 1) `mod` 16 - removed)) short_di_mask = 1.
Proof.
  unfold short_di_mask. change 15 with (2 ^ 4 - 1). rewrite land_mask by lia.
  rewrite u32_mod_pow2 by lia. change (2 ^ 4) with 16. rewrite Zminus_mod_idemp_l.
  by replace (removed + 1 - removed) with 1 by lia.
Qed.

(** One fragment of a packet: the oldest buffer is reported and freed, with
    the bytes received so far. *)
Lemma rx_fragment vi x q p ev q_label :
  rx_rep vi (x :: q) p -> 0 < p -> nz (vi_is_normal vi) = true ->
  rx_completes vi (rx_removed (rxq_state vi)) ev ->
  let first := rx_in_jumbo (rxq_state vi) =? 0 in
  let acc := if first then rx_bytes_of ev else u32 (rx_bytes_acc (rxq_state vi) + rx_bytes_of ev) in
  let flags := Z.lor (Z.lor (if first then EF_EVENT_FLAG_SOP else 0)
                 (if rx_cont_of ev then EF_EVENT_FLAG_CONT else 0)) (rx_mcast_of ev) in
  exists vi', rx_event_vi vi ev q_label = (vi', [EV_RX (u8 q_label) x (u16 acc) flags]) /\
    rx_rep vi' q (p - 1) /\ rx_in_jumbo (rxq_state vi') = b2z (rx_cont_of ev) /\
    rx_bytes_acc (rxq_state vi') = acc /\
    rx_removed (rxq_state vi') = u32 (rx_removed (rxq_state vi) + 1) /\
    vi_is_normal vi' = vi_is_normal vi /\ rx_discard_mask vi' = rx_discard_mask vi.
Proof.
  intros Hr Hp Hn [Hdi Herr] first acc flags. unfold rx_event_vi. rewrite Hn, Hdi, short_di_next.
  cbn [Z.eqb Pos.eqb]. unfold huntington_rx_desc_consumed.
  destruct (rx_pop_rep vi x q p Hr Hp) as [Hx Hr']. cbv zeta in Hx, Hr'. rewrite Hx.
  fold first. fold (rx_cont_of ev). fold (rx_bytes_of ev).
  assert (Hfl : (if QWORD_GET_U ESF_DZ_RX_MAC_CLASS ev =? ESE_DZ_MAC_CLASS_MCAST
    then Z.lor (if rx_cont_of ev then Z.lor (if first then EF_EVENT_FLAG_SOP else 0) EF_EVENT_FLAG_CONT
                else if first then EF_EVENT_FLAG_SOP else 0) EF_EVENT_FLAG_MULTICAST
    else if rx_cont_of ev then Z.lor (if first then EF_EVENT_FLAG_SOP else 0) EF_EVENT_FLAG_CONT
         else if first then EF_EVENT_FLAG_SOP else 0) = flags).
  { unfold flags, rx_mcast_of. by destruct (_ =? ESE_DZ_MAC_CLASS_MCAST), (rx_cont_of ev), first. }
  destruct first; cbv iota zeta in acc |- *;
    cbn [rx_discard_mask rx_set_id upd_rxq fset]; rewrite Herr; cbn [Z.eqb]; rewrite Hfl;
    (eexists; split; [reflexivity|]);
    (split; [|done]); destruct Hr' as [R D P B S]; (split; [exact R|exact D|exact P|exact B|exact S]).
Qed.

(** The events expected for the fragments [evs] of a packet in the buffers
    [ids], [acc] bytes having been received before. *)
Fixpoint packet_events (q_label : Z) (first : bool) (acc : Z) (ids evs : list Z) : list ef_event :=
  match ids, evs with
  | id :: ids, ev :: evs =>
      let acc := acc + rx_bytes_of ev in
      EV_RX (u8 q_label) id acc
        (Z.lor (Z.lor (if first then EF_EVENT_FLAG_SOP else 0)
           (match evs with [] => 0 | _ => EF_EVENT_FLAG_CONT end)) (rx_mcast_of ev))
        :: packet_events q_label false acc ids evs
  | _, _ => []
  end.

(** Handling the events of one queue in order. *)
Fixpoint rx_events_vi (vi : ef_vi) (evs : list Z) (q_label : Z) : ef_vi * list ef_event :=
  match evs with
  | [] => (vi, [])
  | ev :: evs =>
      let '(vi, out) := rx_event_vi vi ev q_label in
      let '(vi, outs) := rx_events_vi vi evs q_label in (vi, out ++ outs)
  end.

(** The fragments of one packet: consecutive descriptors, the continuation
    bit on all but the last. *)
Fixpoint packet_frags (vi : ef_vi) (removed : Z) (evs : list Z) : Prop :=
  match evs with
  | [] => True
  | ev :: evs => rx_completes vi removed ev /\
      rx_cont_of ev = (match evs with [] => false | _ => true end) /\
      packet_frags vi (u32 (removed + 1)) evs
  end.

Lemma rx_bytes_of_range ev : 0 <= rx_bytes_of ev < 16384.
Proof.
  unfold rx_bytes_of, QWORD_GET_U.
  pose proof (qword_field_range ev ESF_DZ_RX_BYTES ltac:(unfold field_ok; cbn; lia)) as H.
  change (2 ^ WIDTH ESF_DZ_RX_BYTES) with 16384 in H. rewrite u32_small; lia.
Qed.

Lemma packet_frags_mask vi vi' evs : forall removed,
  rx_discard_mask vi' = rx_discard_mask vi -> packet_frags vi removed evs -> packet_frags vi' removed evs.
Proof.
  induction evs as [|ev evs IH]; intros removed E; cbn [packet_frags]; [done|].
  unfold rx_completes. rewrite E. intros (H1 & H2 & H3). by auto.
Qed.

Lemma rx_packet_events evs : forall vi ids q p q_label acc,
  evs <> [] -> length ids = length evs ->
  rx_rep vi (ids ++ q) p -> Z.of_nat (length evs) <= p -> nz (vi_is_normal vi) = true ->
  packet_frags vi (rx_removed (rxq_state vi)) evs ->
  (if rx_in_jumbo (rxq_state vi) =? 0 then acc = 0 else acc = rx_bytes_acc (rxq_state vi)) ->
  0 <= acc -> acc + foldr Z.add 0 (map rx_bytes_of evs) < 65536 ->
  exists vi', rx_events_vi vi evs q_label =
      (vi', packet_events q_label (rx_in_jumbo (rxq_state vi) =? 0) acc ids evs) /\
    rx_rep vi' q (p - Z.of_nat (length evs)) /\ rx_in_jumbo (rxq_state vi') = 0 /\
    nz (vi_is_normal vi') = true.
Proof.
  induction evs as [|ev evs IH]; intros vi ids q p q_label acc Hne Hl Hr Hp Hn Hf Hacc Ha Hb; [done|].
  destruct ids as [|x ids]; [done|]. cbn [length app packet_frags map foldr] in *.
  destruct Hf as (Hc & Hcont & Hf). pose proof (rx_bytes_of_range ev) as Hby.
  assert (Hsum : 0 <= foldr Z.add 0 (map rx_bytes_of evs)).
  { clear. induction evs as [|e evs IH]; cbn; [lia|]. pose proof (rx_bytes_of_range e). lia. }
  destruct (rx_fragment vi x (ids ++ q) p ev q_label Hr ltac:(lia) Hn Hc)
    as (vi1 & E1 & R1 & J1 & B1 & M1 & N1 & D1).
  set (first := rx_in_jumbo (rxq_state vi) =? 0) in *.
  assert (Hacc1 : (if first then rx_bytes_of ev else u32 (rx_bytes_acc (rxq_state vi) + rx_bytes_of ev))
    = acc + rx_bytes_of ev).
  { destruct first; subst acc; [lia|]. apply u32_small. lia. }
  rewrite Hacc1 in *. cbn [rx_events_vi packet_events]. rewrite E1, Hcont in *.
  rewrite (u16_small (acc + _)) by lia.
  destruct evs as [|ev' evs].
  - destruct ids as [|]; [|done]. exists vi1. cbn [rx_events_vi packet_events app length] in *.
    split; [done|]. rewrite N1. split; [|done]. by replace (p - Z.of_nat 1) with (p - 1) by lia.
  - destruct (IH vi1 ids q (p - 1) q_label (acc + rx_bytes_of ev)) as (vi2 & E2 & R2 & J2 & N2).
    + done.
    + cbn [length] in *. lia.
    + done.
    + cbn [length] in *. lia.
    + by rewrite N1.
    + rewrite M1. by apply (packet_frags_mask vi).
    + rewrite J1. cbn [b2z Z.eqb]. by rewrite B1.
    + lia.
    + lia.
    + exists vi2. rewrite E2. rewrite J1. cbn [b2z Z.eqb app]. split; [done|]. split; [|done].
      cbn [length] in *. by replace (p - Z.of_nat (S (S (length evs)))) with
        (p - 1 - Z.of_nat (S (length evs))) by lia.
Qed.

(** * Timestamped transmits *)

(** The loop skips the descriptors that carry no id. *)
Lemma ts_rq_id_skip_spec n : forall fuel vi id rest p,
  tx_rep vi (replicate n EF_REQUEST_ID_MASK ++ id :: rest) p -> id <> EF_REQUEST_ID_MASK ->
  Z.of_nat n < p -> (n < fuel)%nat ->
  exists vi', ts_rq_id_skip fuel vi = Some vi' /\ tx_rep vi' (id :: rest) (p - Z.of_nat n).
Proof.
  induction n as [|n IH]; intros fuel vi id rest p Hr Hid Hn Hf;
    (destruct fuel as [|fuel]; [lia|]); cbn [ts_rq_id_skip].
  - pose proof Hr as [R _ _ _]. cbn [replicate app] in R. rewrite (ring_head _ _ R).
    rewrite (proj2 (Z.eqb_neq _ _)) by done. exists vi. by rewrite Z.sub_0_r.
  - pose proof Hr as [R _ _ _]. cbn [replicate app] in R, Hr. rewrite (ring_head _ _ R), Z.eqb_refl.
    destruct (tx_unbundle_step vi _ _ p Hr ltac:(lia)) as [_ Hr'].
    cbv zeta in Hr'. rewrite Z.eqb_refl in Hr'. cbn [negb] in Hr'.
    destruct (IH fuel _ id rest (p - 1) Hr') as (vi' & E & R'); [done|lia|lia|].
    exists vi'. split; [exact E|].
    by replace (p - Z.of_nat (S n)) with (p - 1 - Z.of_nat n) by lia.
Qed.

Lemma ts_rq_id_spec n vi id rest p :
  tx_rep vi (replicate n EF_REQUEST_ID_MASK ++ id :: rest) p -> id <> EF_REQUEST_ID_MASK ->
  Z.of_nat n < p ->
  exists vi', ef10_tx_event_ts_rq_id vi = Some (vi', id) /\ tx_rep vi' rest (p - Z.of_nat n - 1).
Proof.
  intros Hr Hid Hn. unfold ef10_tx_event_ts_rq_id.
  destruct (ts_rq_id_skip_spec n (S (Z.to_nat (q_mask (vi_txq vi)))) vi id rest p)
    as (vi1 & -> & R1); [done..| |].
  { destruct Hr as [[_ _ _ _ Hfit _] _ _ Hp]. rewrite length_app, length_replicate in *. cbn in *. lia. }
  destruct (tx_unbundle_step vi1 id rest (p - Z.of_nat n) R1 ltac:(lia)) as [Hx Hr'].
  cbv zeta in Hx, Hr'. rewrite Hx. rewrite (proj2 (Z.eqb_neq _ _)) in Hr' by done.
  cbn [negb] in Hr'. eexists. split; [reflexivity|exact Hr'].
Qed.

(** With no packet in the ring the loop finds no id: it has no exit. *)
Lemma ts_rq_id_skip_none fuel : forall vi,
  pow2_mask (q_mask (vi_txq vi)) ->
  (forall i, 0 <= i <= q_mask (vi_txq vi) -> aget (q_ids (vi_txq vi)) i = EF_REQUEST_ID_MASK) ->
  ts_rq_id_skip fuel vi = None.
Proof.
  induction fuel as [|fuel IH]; intros vi Hm Hall; cbn [ts_rq_id_skip]; [done|].
  rewrite Hall by (by apply slot_range). rewrite Z.eqb_refl. by apply IH.
Qed.

Lemma ring_unused_slots mask ids removed added q :
  ring_rep mask ids removed added q -> Forall (fun x => x = EF_REQUEST_ID_MASK) q ->
  forall i, 0 <= i <= mask -> aget ids i = EF_REQUEST_ID_MASK.
Proof.
  intros [Hm Hl Hrem Ha Hfit V] Hq i Hi. pose proof (pow2_mask_range _ Hm).
  set (j := (i - removed) `mod` (mask + 1)).
  assert (Hj : 0 <= j <= mask).
  { pose proof (Z.mod_pos_bound (i - removed) (mask + 1)). unfold j. lia. }
  pose proof (rview_lookup mask ids removed j Hj) as L. rewrite V in L.
  assert (E : Z.land (removed + j) mask = i).
  { rewrite slot_mod by done. unfold j. rewrite Zplus_mod_idemp_r.
    replace (removed + (i - removed)) with i by lia. apply Z.mod_small. lia. }
  rewrite E in L. apply (Forall_lookup_1 (fun x => x = EF_REQUEST_ID_MASK) _ _ _) in L; [done|].
  apply Forall_app_2; [done|]. by apply Forall_replicate.
Qed.

(** ** When handling an event returns

    The search for the id of a time-stamped packet is the only loop of the handlers. *)

(** The event carries the time stamp of a packet. *)
Definition takes_stamp (q : ef_vi) (ev : Z) : bool :=
  let ev_type := QWORD_GET_U ESF_EZ_TX_SOFT1 ev in
  (CI_QWORD_FIELD ev ESF_DZ_EV_CODE =? ESE_DZ_EV_CODE_TX_EV) && negb (nz (tx_alt_num q)) && vi_flag q EF_VI_TX_TIMESTAMPS &&
  ((ev_type =? TX_EV_TSTAMP_HI) || (ev_type =? TX_EV_CTPIO_TS_HI)).

Definition stamps (q : ef_vi) (pending : list Z) : nat := length (List.filter (takes_stamp q) pending).

(** The slots of the transmit ring that hold an id. *)
Definition id_at (q : ef_vi) (i : Z) : bool := negb (aget (q_ids (vi_txq q)) i =? EF_REQUEST_ID_MASK).
Definition ids_held (q : ef_vi) : nat := length (List.filter (id_at q) (seqZ 0 (q_mask (vi_txq q) + 1))).

Definition tx_of (q : ef_vi) : _ := (vi_txq q, vi_flags q, tx_alt_num q).

Lemma ids_held_tx_of q q' : tx_of q' = tx_of q -> ids_held q' = ids_held q.
Proof. intros [= E _ _]. unfold ids_held, id_at. by rewrite E. Qed.

Lemma takes_stamp_flags q q' ev : vi_flags q' = vi_flags q -> tx_alt_num q' = tx_alt_num q -> takes_stamp q' ev = takes_stamp q ev.
Proof. intros E1 E2. unfold takes_stamp, vi_flag. by rewrite E1, E2. Qed.

Lemma stamps_flags q q' l : vi_flags q' = vi_flags q -> tx_alt_num q' = tx_alt_num q -> stamps q' l = stamps q l.
Proof.
  intros E1 E2. unfold stamps. induction l as [|ev l IH]; [done|]. cbn [List.filter].
  rewrite (takes_stamp_flags q q') by done. destruct (takes_stamp q ev); cbn [length]; by rewrite IH.
Qed.

(** The search finds an id in at most [j] steps more. *)
Lemma ts_rq_id_skip_finds fuel : forall vi j, pow2_mask (q_mask (vi_txq vi)) -> 0 <= j < Z.of_nat fuel ->
  id_at vi (Z.land (tx_removed (txq_state vi) + j) (q_mask (vi_txq vi))) = true ->
  exists vi', ts_rq_id_skip fuel vi = Some vi' /\ tx_of vi' = tx_of vi /\
    id_at vi' (Z.land (tx_removed (txq_state vi')) (q_mask (vi_txq vi'))) = true.
Proof.
  induction fuel as [|fuel IH]; intros vi j Hm Hj Hid; [lia|]. cbn [ts_rq_id_skip].
  destruct (_ =? _) eqn:E.
  - assert (Hj0 : j <> 0).
    { intros ->. rewrite Z.add_0_r in Hid. unfold id_at in Hid. by rewrite E in Hid. }
    set (vi1 := upd_txq _ vi). destruct (IH vi1 (j - 1)) as (vi' & E1 & E2 & E3); [done|lia| |by exists vi'].
    change (tx_removed (txq_state vi1)) with (u32 (tx_removed (txq_state vi) + 1)). change (vi_txq vi1) with (vi_txq vi).
    change (id_at vi1) with (id_at vi). rewrite slot_u32_add by done. by replace (_ + 1 + (j - 1)) with (tx_removed (txq_state vi) + j) by lia.
  - exists vi. split_and!; [done..|]. unfold id_at. by rewrite E.
Qed.

Lemma filter_remove_one (f g : Z -> bool) l i : NoDup l -> i ∈ l -> f i = true -> g i = false -> (forall j, j ∈ l -> j <> i -> g j = f j) ->
  length (List.filter f l) = S (length (List.filter g l)).
Proof.
  intros Hd Hi Hf Hg Hne. induction Hd as [|x l Hx Hd IH]; [by apply elem_of_nil in Hi|]. cbn [List.filter].
  destruct (decide (x = i)) as [->|Hxi].
  - rewrite Hf, Hg. cbn [length]. f_equal. clear -Hx Hne. induction l as [|y l IH]; [done|]. cbn [List.filter].
    apply not_elem_of_cons in Hx as [Hy Hx]. rewrite Hne; [|by apply list_elem_of_further, list_elem_of_here|done].
    assert (E : length (List.filter f l) = length (List.filter g l)).
    { apply IH; [done|]. intros j [->|Hj]%elem_of_cons Hj'; [done|]. apply Hne; [|done]. by do 2 apply list_elem_of_further. }
    destruct (f y); cbn [length]; by rewrite E.
  - rewrite Hne; [|apply list_elem_of_here|done]. apply elem_of_cons in Hi as [->|Hi]; [done|].
    assert (E : length (List.filter f l) = S (length (List.filter g l))).
    { apply IH; [done|]. intros j Hj. apply Hne. by apply list_elem_of_further. }
    destruct (f x); cbn [length]; by rewrite E.
Qed.

(** With an id in the ring the search ends, and takes one id out. *)
Lemma ts_rq_id_finds vi : pow2_mask (q_mask (vi_txq vi)) -> Z.of_nat (length (q_ids (vi_txq vi))) = q_mask (vi_txq vi) + 1 -> (0 < ids_held vi)%nat ->
  exists vi' id, ef10_tx_event_ts_rq_id vi = Some (vi', id) /\ ids_held vi = S (ids_held vi') /\
    q_mask (vi_txq vi') = q_mask (vi_txq vi) /\ length (q_ids (vi_txq vi')) = length (q_ids (vi_txq vi)) /\
    vi_flags vi' = vi_flags vi /\ tx_alt_num vi' = tx_alt_num vi.
Proof.
  intros Hm Hl Hn. pose proof (pow2_mask_range _ Hm) as Hr.
  assert (Hi : exists i, i ∈ seqZ 0 (q_mask (vi_txq vi) + 1) /\ id_at vi i = true).
  { unfold ids_held in Hn. destruct (List.filter _ _) as [|i l] eqn:E; [cbn in Hn; lia|]. exists i.
    assert (In i (i :: l)) as H by (by left). rewrite <- E in H. apply filter_In in H as [H1 H2]. by rewrite list_elem_of_In. }
  destruct Hi as (i & Hi & Hid). apply elem_of_seqZ in Hi. set (m := q_mask (vi_txq vi)) in *.
  set (j := (i - tx_removed (txq_state vi)) `mod` (m + 1)). pose proof (Z.mod_pos_bound (i - tx_removed (txq_state vi)) (m + 1) ltac:(lia)) as Hj.
  destruct (ts_rq_id_skip_finds (S (Z.to_nat m)) vi j Hm) as (vi1 & E1 & E2 & E3).
  { unfold j. lia. }
  { fold m. rewrite slot_mod by done. unfold j. rewrite Zplus_mod_idemp_r. replace (_ + (i - _)) with i by lia. by rewrite Z.mod_small by lia. }
  unfold ef10_tx_event_ts_rq_id. fold m. rewrite E1. injection E2 as Eq Ef Ea. eexists _, _. split; [reflexivity|].
  assert (Hi1 := E3). set (i1 := Z.land (tx_removed (txq_state vi1)) (q_mask (vi_txq vi1))) in *.
  assert (Hi1r : 0 <= i1 <= m) by (unfold i1; rewrite Eq; by apply slot_range).
  split_and!.
  - change (ids_held vi = S (length (List.filter (id_at (tx_set_id i1 EF_REQUEST_ID_MASK vi1)) (seqZ 0 (q_mask (vi_txq vi1) + 1))))).
    rewrite Eq. fold m. apply (filter_remove_one _ _ _ i1).
    + apply NoDup_seqZ.
    + apply elem_of_seqZ. lia.
    + unfold id_at in *. by rewrite Eq in E3.
    + unfold id_at, tx_set_id. cbn. rewrite Eq, aget_aset_eq by lia. by rewrite Z.eqb_refl.
    + intros j' Hj'%elem_of_seqZ Hne. unfold id_at, tx_set_id. cbn. rewrite Eq. by rewrite aget_aset_ne by (done || lia).
  - cbn. by rewrite Eq.
  - cbn. by rewrite Eq, length_aset.
  - done.
  - done.
Qed.

Lemma rx_event_vi_tx vi ev q_label : tx_of (fst (rx_event_vi vi ev q_label)) = tx_of vi.
Proof.
  unfold rx_event_vi, huntington_rx_desc_consumed, no_desc_trunc, ef10_packed_stream_rx_event,
    huntington_rx_descs_consumed.
  repeat (match goal with |- context [if ?c then _ else _] => destruct c end; try reflexivity).
Qed.

Lemma rx_event_tx (st : store) evq ev q : st !! evq = Some q ->
  exists q', fst (ef10_rx_event st evq ev) !! evq = Some q' /\ tx_of q' = tx_of q.
Proof.
  intros Eq. unfold ef10_rx_event. rewrite Eq. destruct (vi_of_label q _) as [pv|]; cbn [fst].
  - destruct (st !! pv) as [vi0|] eqn:Ep; [|by exists q].
    pose proof (rx_event_vi_tx vi0 ev (QWORD_GET_U ESF_DZ_RX_QLABEL ev)) as R.
    destruct (rx_event_vi vi0 ev _) as [vi evs]. cbn [fst] in *.
    destruct (decide (evq = pv)) as [<-|]; [|rewrite lookup_insert_ne by congruence; by exists q].
    rewrite lookup_insert_eq. exists vi. split; [done|]. congruence.
  - rewrite lookup_insert_eq. by eexists.
Qed.

Lemma mcdi_event_tx vi ev : tx_of (fst (ef10_mcdi_event vi ev)) = tx_of vi.
Proof.
  unfold ef10_mcdi_event.
  repeat (match goal with |- context [if ?c then _ else _] => destruct c end; try reflexivity).
Qed.

(** What the search needs to know of the ring (a VI may have none), and an event
    leaves of it. *)
Definition ids_ring (q : ef_vi) : Prop :=
  vi_flag q EF_VI_TX_TIMESTAMPS = true ->
  pow2_mask (q_mask (vi_txq q)) /\ Z.of_nat (length (q_ids (vi_txq q))) = q_mask (vi_txq q) + 1.

Definition ids_left (q q' : ef_vi) (n : nat) : Prop :=
  ids_held q = (n + ids_held q')%nat /\ ids_ring q' /\ vi_flags q' = vi_flags q /\ tx_alt_num q' = tx_alt_num q.

Lemma ids_left_same q q' : ids_ring q -> tx_of q' = tx_of q -> ids_left q q' 0.
Proof.
  intros Hr E. pose proof (ids_held_tx_of _ _ E). injection E as E1 E2 E3. unfold ids_left, ids_ring, vi_flag in *. by rewrite E1, E2.
Qed.

Lemma tx_event_returns q ev : ids_ring q -> CI_QWORD_FIELD ev ESF_DZ_EV_CODE = ESE_DZ_EV_CODE_TX_EV ->
  (takes_stamp q ev = true -> (0 < ids_held q)%nat) ->
  exists q' out, ef10_tx_event q ev = Some (q', out) /\ ids_left q q' (if takes_stamp q ev then 1 else 0).
Proof.
  intros Hr Hc Hs. unfold ef10_tx_event, takes_stamp in *. rewrite Hc, Z.eqb_refl in *. cbn [andb] in *.
  assert (Hflag : Z.land (vi_flags q) (Z.lor EF_VI_TX_TIMESTAMPS EF_VI_TX_ALT) = 0 -> vi_flag q EF_VI_TX_TIMESTAMPS = false).
  { intros E. unfold vi_flag, nz. apply negb_false_iff, Z.eqb_eq. apply Z.bits_inj_0. intros n.
    apply (f_equal (fun x => Z.testbit x n)) in E. rewrite Z.land_spec, Z.lor_spec, Z.bits_0 in E. rewrite Z.land_spec.
    destruct (Z.testbit (vi_flags q) n); cbn in *; [|done]. by apply orb_false_iff in E as [-> _]. }
  destruct (Z.eqb_spec (Z.land (vi_flags q) (Z.lor EF_VI_TX_TIMESTAMPS EF_VI_TX_ALT)) 0) as [E0|E0].
  { rewrite (Hflag E0), andb_false_r. eexists _, _. split; [reflexivity|]. by apply ids_left_same. }
  destruct (nz (tx_alt_num q)); cbn [negb andb] in *.
  { pose proof (tx_event_alt_vi q ev) as A. destruct (ef10_tx_event_alt q ev) as [vi1 evs1]. cbn [fst] in A. subst vi1.
    eexists _, _. split; [reflexivity|]. by apply ids_left_same. }
  destruct (vi_flag q EF_VI_TX_TIMESTAMPS) eqn:Ef; cbn [andb] in *.
  2: { eexists _, _. split; [reflexivity|]. by apply ids_left_same. }
  unfold ef10_tx_event_ts_enabled. set (ty := QWORD_GET_U ESF_EZ_TX_SOFT1 ev) in *.
  destruct ((ty =? TX_EV_COMPLETION) || (ty =? TX_EV_CTPIO_COMPLETION)) eqn:E1.
  { assert ((ty =? TX_EV_TSTAMP_HI) || (ty =? TX_EV_CTPIO_TS_HI) = false) as ->.
    { apply orb_true_iff in E1 as [->%Z.eqb_eq| ->%Z.eqb_eq]; reflexivity. }
    eexists _, _. split; [reflexivity|]. by apply ids_left_same. }
  destruct ((ty =? TX_EV_TSTAMP_LO) || (ty =? TX_EV_CTPIO_TS_LO)) eqn:E2.
  { assert ((ty =? TX_EV_TSTAMP_HI) || (ty =? TX_EV_CTPIO_TS_HI) = false) as ->.
    { apply orb_true_iff in E2 as [->%Z.eqb_eq| ->%Z.eqb_eq]; reflexivity. }
    eexists _, _. split; [reflexivity|]. by apply ids_left_same. }
  destruct (ef10_tx_event_ts_hi q ev) as [ts_sec ts_nsec]. destruct ((ty =? TX_EV_TSTAMP_HI) || _).
  - destruct (Hr Ef) as [Hr1 Hr2]. destruct (ts_rq_id_finds q Hr1 Hr2 (Hs eq_refl)) as (q' & id & F1 & F2 & F3 & F4 & F5 & F6). rewrite F1.
    eexists _, _. split; [reflexivity|]. split; [done|]. split; [|done]. intros _. by rewrite F3, F4.
  - eexists _, _. split; [reflexivity|]. by apply ids_left_same.
Qed.

Lemma dispatch_returns (st : store) evq ev q : st !! evq = Some q -> ids_ring q -> (takes_stamp q ev = true -> (0 < ids_held q)%nat) ->
  exists st' out q', dispatch_event st evq ev = Some (st', out) /\ st' !! evq = Some q' /\ ids_left q q' (if takes_stamp q ev then 1 else 0).
Proof.
  intros Eq Hr Hs. unfold dispatch_event. rewrite Eq.
  destruct (Z.eqb_spec (CI_QWORD_FIELD ev ESF_DZ_EV_CODE) ESE_DZ_EV_CODE_TX_EV) as [Ec|Ec].
  - rewrite Ec. cbn [Z.eqb ESE_DZ_EV_CODE_TX_EV ESE_DZ_EV_CODE_RX_EV]. destruct (tx_event_returns q ev Hr Ec Hs) as (q' & out & -> & L).
    eexists _, _, q'. split; [reflexivity|]. by rewrite lookup_insert_eq.
  - assert (takes_stamp q ev = false) as -> by (unfold takes_stamp; by rewrite (proj2 (Z.eqb_neq _ _))).
    destruct (_ =? ESE_DZ_EV_CODE_RX_EV).
    { destruct (rx_event_tx st evq ev q Eq) as (q' & E1 & E2). destruct (ef10_rx_event st evq ev) as [st' out].
      eexists _, _, q'. split; [reflexivity|]. split; [done|]. by apply ids_left_same. }
    destruct (_ =? ESE_DZ_EV_CODE_MCDI_EV).
    { pose proof (mcdi_event_tx q ev) as M. destruct (ef10_mcdi_event q ev) as [q' out]. eexists _, _, q'. split; [reflexivity|].
      rewrite lookup_insert_eq. split; [done|]. by apply ids_left_same. }
    eexists _, _, q. split; [reflexivity|]. split; [done|]. by apply ids_left_same.
Qed.

(** Handling a queue of events returns when there is an id for each time stamp. *)
Lemma dispatch_queue_returns evq : forall pending st q evs evs_len, st !! evq = Some q -> ids_ring q ->
  (stamps q pending <= ids_held q)%nat -> dispatch_queue st evq pending evs evs_len <> None.
Proof.
  induction pending as [|ev pending IH]; intros st q evs evs_len Eq Hr Hs; cbn [dispatch_queue]; [done|].
  destruct (held_back ev evs); [done|]. unfold stamps in Hs. cbn [List.filter] in Hs.
  destruct (dispatch_returns st evq ev q Eq Hr) as (st' & out & q' & E1 & E2 & L1 & L2 & L3 & L4).
  { intros E. rewrite E in Hs. cbn [length] in Hs. lia. }
  rewrite E1. destruct (_ =? 0); [done|]. apply (IH st' q'); [done|done|]. rewrite (stamps_flags q q') by done. unfold stamps.
  destruct (takes_stamp q ev); cbn [length] in Hs; lia.
Qed.

(** * Properties *)

Lemma set_ring_same q : set_ring (evq_base q) (evq_ptr (evq_state q)) q = q.
Proof. by destruct q as [? ? ? ? ? ? ? ? ? ? ? ? ? ? ? ? ? ? ? ? ? [[] ? ?] ? ? ? ? ? ? ? ? ? ?]. Qed.

Lemma poll_rel_start k evq (st : store) q pending :
  st !! evq = Some q -> evq_rep q k pending ->
  poll_rel k (evq_ptr (evq_state q) / 8 + Z.of_nat (length pending)) evq pending st st.
Proof.
  intros E Hr. exists (evq_base q), (evq_ptr (evq_state q)), q. split; [|done].
  apply map_eq. intros i. destruct (decide (i = evq)) as [->|].
  - rewrite lookup_alter_eq, E. cbn [fmap option_fmap option_map]. by rewrite set_ring_same.
  - by rewrite lookup_alter_ne by congruence.
Qed.

(** C2: [ef10_ef_eventq_poll] on a ring with lazily cleared slots does exactly
    what handling the list of pending events in order does: same store up to the
    ring, same events delivered and returned count, and the ring holds exactly the
    events left.  It never delivers more than the [evs_len] events the caller has
    room for.  It returns when the transmit ring holds a packet for every time stamp
    among the pending events; it does not return only if handling an event does not,
    and then there are more time stamps than packets. *)
Theorem eventq_poll_refines k evq (st : store) q pending evs_len :
  st !! evq = Some q -> evq_rep q k pending -> 0 < evs_len -> ids_ring q ->
  match dispatch_queue st evq pending [] evs_len with
  | None => (ids_held q < stamps q pending)%nat /\ ef10_ef_eventq_poll st evq evs_len = None
  | Some (sta, evs, rest) =>
      Z.of_nat (length evs) <= evs_len /\
      exists stc b p q', ef10_ef_eventq_poll st evq evs_len = Some (stc, evs, Z.of_nat (length evs)) /\
        stc = alter (set_ring b p) evq sta /\ stc !! evq = Some q' /\ evq_rep q' k rest
  end.
Proof.
  intros E Hr Hl Hi. pose proof (poll_refines_rel k evq _ pending st st evs_len
    (poll_rel_start k evq st q pending E Hr)) as P.
  pose proof (dispatch_queue_returns evq pending st q [] evs_len E Hi) as T.
  destruct (dispatch_queue st evq pending [] evs_len) as [[[sta evs] rest]|] eqn:Ed.
  2: { split; [|done]. apply Nat.nle_gt. intros Hs. by apply T. }
  apply dispatch_queue_bound in Ed as (out & -> & Hb); [|done]. split; [done|].
  destruct P as (stc & E1 & b & p & q' & E2 & E3 & E4 & _). by exists stc, b, p, q'.
Qed.

(** C1: the event queue over time: for any interleaving of NIC writes (within
    the ring's quota), polls and other operations on VIs, the library's events
    delivered to the application are those of the same actions on a plain FIFO
    queue of events: none lost, duplicated, reordered or read from a stale slot,
    across wrap-around of the ring and of the pointers. *)
Theorem eventq_system_refines k evq (st : store) q actions sp' :
  st !! evq = Some q -> evq_rep q k [] ->
  run (spec_step k evq) actions (mk_evq_spec st [] []) = Some sp' ->
  exists s', run (sys_step k evq) actions (mk_evq_sys st (evq_ptr (evq_state q) / 8) []) = Some s' /\
    es_app s' = ep_app sp' /\
    exists b p q', es_store s' = alter (set_ring b p) evq (ep_store sp') /\
      es_store s' !! evq = Some q' /\ evq_rep q' k (ep_pending sp').
Proof.
  intros E Hr Hrun.
  assert (H0 : sys_rel k evq (mk_evq_spec st [] []) (mk_evq_sys st (evq_ptr (evq_state q) / 8) [])).
  { split; [done|]. pose proof (poll_rel_start k evq st q [] E Hr) as P.
    cbn [length] in P. by rewrite Z.add_0_r in P. }
  destruct (run_simulates k evq actions _ sp' _ H0 Hrun) as (s' & E1 & E2 & b & p & q' & E3 & E4 & E5 & _).
  exists s'. split; [done|]. split; [done|]. by exists b, p, q'.
Qed.

(** C13: reassembly of a received packet in normal mode: for the events of the
    fragments of one packet, in buffers posted in order, the library reports each
    buffer's own id in posting order with the running byte count (the last event
    carries the packet's length), start-of-packet on the first only and
    continuation on all but the last, and frees exactly those buffers. *)
Theorem rx_packet_reassembly vi ids q p q_label evs :
  evs <> [] -> length ids = length evs ->
  rx_rep vi (ids ++ q) p -> Z.of_nat (length evs) <= p -> nz (vi_is_normal vi) = true ->
  rx_in_jumbo (rxq_state vi) = 0 ->
  packet_frags vi (rx_removed (rxq_state vi)) evs ->
  foldr Z.add 0 (map rx_bytes_of evs) < 65536 ->
  exists vi', rx_events_vi vi evs q_label = (vi', packet_events q_label true 0 ids evs) /\
    rx_rep vi' q (p - Z.of_nat (length evs)) /\ rx_in_jumbo (rxq_state vi') = 0.
Proof.
  intros Hne Hl Hr Hp Hn Hj Hf Hb.
  destruct (rx_packet_events evs vi ids q p q_label 0) as (vi' & E & R & J & _);
    [done..|by rewrite Hj|lia|lia|].
  rewrite Hj in E. by exists vi'.
Qed.

(** a TX timestamp event reports the id of the oldest packet in the ring,
    skipping and freeing the descriptors of the packet's earlier fragments; with no
    packet in the ring the search for an id runs round the ring for ever. *)
Theorem tx_timestamp_takes_next_packet vi q p :
  tx_rep vi q p ->
  (forall n id rest, q = replicate n EF_REQUEST_ID_MASK ++ id :: rest ->
     id <> EF_REQUEST_ID_MASK -> Z.of_nat n < p ->
     exists vi', ef10_tx_event_ts_rq_id vi = Some (vi', id) /\ tx_rep vi' rest (p - Z.of_nat n - 1)) /\
  (Forall (fun x => x = EF_REQUEST_ID_MASK) q -> forall fuel, ts_rq_id_skip fuel vi = None).
Proof.
  intros Hr. split.
  - intros n id rest -> Hid Hn. by apply ts_rq_id_spec.
  - intros Hq fuel. destruct Hr as [R _ _ _].
    apply ts_rq_id_skip_none; [by destruct R|]. by apply (ring_unused_slots _ _ _ _ q R).
Qed.

(** The clock state the event queue keeps. *)
Definition sync_of (q : ef_vi) : Z * Z * Z * Z * Z :=
  let s := evq_state q in
  (sync_timestamp_major s, sync_timestamp_minor s, sync_timestamp_minimum s,
   sync_timestamp_synchronised s, sync_flags s).

Lemma rx_event_vi_sync vi ev q_label : sync_of (fst (rx_event_vi vi ev q_label)) = sync_of vi.
Proof.
  unfold rx_event_vi, huntington_rx_desc_consumed, no_desc_trunc, ef10_packed_stream_rx_event,
    huntington_rx_descs_consumed.
  repeat (match goal with |- context [if ?c then _ else _] => destruct c end; try reflexivity).
Qed.

Lemma rx_event_sync (st : store) evq ev p :
  sync_of <$> (fst (ef10_rx_event st evq ev) !! p) = sync_of <$> (st !! p).
Proof.
  unfold ef10_rx_event. destruct (st !! evq) as [q|] eqn:Eq; [|done].
  destruct (vi_of_label q _) as [pv|].
  - destruct (st !! pv) as [vi0|] eqn:Ep; [|done].
    pose proof (rx_event_vi_sync vi0 ev (QWORD_GET_U ESF_DZ_RX_QLABEL ev)) as R.
    destruct (rx_event_vi vi0 ev _) as [vi evs]. cbn [fst] in *.
    destruct (decide (p = pv)) as [->|]; [|by rewrite lookup_insert_ne].
    rewrite lookup_insert_eq, Ep. cbn [fmap option_fmap option_map]. by rewrite R.
  - cbn [fst]. destruct (decide (p = evq)) as [->|]; [|by rewrite lookup_insert_ne].
    rewrite lookup_insert_eq, Eq. done.
Qed.

Lemma sync_of_upd_txq f vi : sync_of (upd_txq f vi) = sync_of vi.
Proof. reflexivity. Qed.

Lemma ts_rq_id_skip_sync fuel : forall vi vi',
  ts_rq_id_skip fuel vi = Some vi' -> sync_of vi' = sync_of vi.
Proof.
  induction fuel as [|fuel IH]; intros vi vi'; cbn [ts_rq_id_skip]; [discriminate|].
  destruct (_ =? _); [|by intros [= ->]]. intros E. rewrite (IH _ _ E). apply sync_of_upd_txq.
Qed.

Lemma tx_event_ts_sync vi ev vi' evs :
  ef10_tx_event_ts_enabled vi ev = Some (vi', evs) -> sync_of vi' = sync_of vi.
Proof.
  unfold ef10_tx_event_ts_enabled, ef10_tx_event_ts_rq_id.
  destruct (ef10_tx_event_ts_hi vi ev) as [ts_sec ts_nsec].
  destruct (_ || _); [intros H; apply some_fst in H as <-; reflexivity|].
  destruct (_ || _); [intros H; apply some_fst in H as <-; apply sync_of_upd_txq|].
  destruct (_ || _); [|intros H; apply some_fst in H as <-; reflexivity].
  destruct (ts_rq_id_skip _ vi) as [vi1|] eqn:E; [|discriminate].
  apply ts_rq_id_skip_sync in E. intros H. apply some_fst in H as <-.
  rewrite sync_of_upd_txq. exact E.
Qed.

Lemma tx_event_sync vi ev vi' evs :
  ef10_tx_event vi ev = Some (vi', evs) -> sync_of vi' = sync_of vi.
Proof.
  unfold ef10_tx_event, ef10_tx_event_completion.
  destruct (_ =? _); [intros H; apply some_fst in H as <-; reflexivity|].
  destruct (nz _).
  { pose proof (tx_event_alt_vi vi ev) as A. destruct (ef10_tx_event_alt vi ev) as [vi1 evs1].
    intros H. apply some_fst in H as <-. cbn [fst] in A. by rewrite A. }
  destruct (vi_flag _ _); [apply tx_event_ts_sync|intros H; apply some_fst in H as <-; reflexivity].
Qed.

(** Only MCDI events touch the clock state. *)
Lemma dispatch_event_sync (st : store) evq ev st' evs p :
  (CI_QWORD_FIELD ev ESF_DZ_EV_CODE =? ESE_DZ_EV_CODE_MCDI_EV) = false ->
  dispatch_event st evq ev = Some (st', evs) -> sync_of <$> (st' !! p) = sync_of <$> (st !! p).
Proof.
  intros Hc. unfold dispatch_event. rewrite Hc. pose proof (rx_event_sync st evq ev p) as Rx.
  destruct (st !! evq) as [q|] eqn:Eq; [|discriminate].
  destruct (_ =? ESE_DZ_EV_CODE_RX_EV).
  { destruct (ef10_rx_event st evq ev) as [st1 out1]. intros H. apply some_fst in H as <-. exact Rx. }
  destruct (_ =? ESE_DZ_EV_CODE_TX_EV); [|intros H; apply some_fst in H as <-; reflexivity].
  destruct (ef10_tx_event q ev) as [[vi out]|] eqn:Et; [|discriminate].
  intros H. apply some_fst in H as <-. apply tx_event_sync in Et.
  destruct (decide (p = evq)) as [->|]; [|rewrite lookup_insert_ne by congruence; reflexivity].
  rewrite lookup_insert_eq, Eq. cbn [fmap option_fmap option_map]. by rewrite Et.
Qed.

(** once a poll has delivered an event to the application, it handles no
    MCDI event and the clock state of every VI stays as it was, so a packet's
    timestamp can be completed from the clock state after the poll. *)
Theorem poll_keeps_clock_after_delivery fuel : forall (st : store) evq evs evs_len st' evs' p,
  evs <> [] -> poll_loop fuel st evq evs evs_len = Some (st', evs') ->
  sync_of <$> (st' !! p) = sync_of <$> (st !! p).
Proof.
  induction fuel as [|fuel IH]; intros st evq evs evs_len st' evs' p Hne; cbn [poll_loop]; [done|].
  destruct (st !! evq) as [q|] eqn:Eq; [|discriminate].
  destruct (held_back (event_at q 0) evs) eqn:Eh; [by intros [= <- <-]|].
  destruct (dispatch_event st evq (event_at q 0)) as [[st1 out]|] eqn:Ed; [|discriminate].
  assert (Hc : (CI_QWORD_FIELD (event_at q 0) ESF_DZ_EV_CODE =? ESE_DZ_EV_CODE_MCDI_EV) = false).
  { unfold held_back in Eh. destruct (_ =? ESE_DZ_EV_CODE_MCDI_EV); [|reflexivity].
    by destruct evs. }
  pose proof (dispatch_event_sync st evq (event_at q 0) st1 out p Hc Ed) as Es. clear Ed.
  set (st2 := on_vi st1 evq _).
  assert (E2 : sync_of <$> (st2 !! p) = sync_of <$> (st1 !! p)).
  { unfold st2, on_vi. destruct (decide (p = evq)) as [->|].
    - rewrite lookup_alter_eq. by destruct (st1 !! evq).
    - by rewrite lookup_alter_ne by congruence. }
  rewrite <- Es, <- E2.
  destruct (_ =? 0); [by intros [= <- <-]|].
  destruct (st2 !! evq) as [q2|]; [|discriminate].
  destruct (EF_VI_IS_EVENT _); [|by intros [= <- <-]].
  apply IH. by destruct evs.
Qed.

(** priming tells the NIC the slot the library will read next, through the
    plain register or, on hardware with bug 35388, in two writes whose low bytes
    are the high and low byte of the slot. *)
Theorem eventq_prime_slot q k l :
  evq_rep q k l -> k <= 16 ->
  let slot := Z.land (evq_ptr (evq_state q) / 8) (2 ^ k - 1) in
  io_log (ef10_ef_eventq_prime q) = io_log q ++ [Writel slot (io q + ER_DZ_EVQ_RPTR_REG)] /\
  exists hi lo,
    io_log (ef10_ef_eventq_prime_bug35388_workaround q) =
      io_log q ++ [Writel hi (io q + ER_DZ_TX_DESC_UPD_REG + 8);
                   Writel lo (io q + ER_DZ_TX_DESC_UPD_REG + 8)] /\
    hi `mod` 256 * 256 + lo `mod` 256 = slot /\ hi / 256 = 8 /\ lo / 256 = 9.
Proof.
  intros Hr Hk16 slot. pose proof Hr as [Hk Hm _ [Hp Hp8] _ _ _ _].
  assert (Es : Z.land (ef_eventq_current q) (evq_mask q) / 8 = slot).
  { pose proof (event_slot q k 0 Hk Hm Hp8) as E. unfold EF_VI_EVENT_OFFSET, EF_VI_EV_SIZE in E.
    rewrite Z.mul_0_l, !Z.add_0_r in E. unfold ef_eventq_current.
    rewrite u32_small by done. rewrite u64_small in E by lia. exact E. }
  assert (Hs : 0 <= slot < 65536).
  { unfold slot. rewrite land_mask by lia. pose proof (pow2_pos k ltac:(lia)).
    pose proof (Z.mod_pos_bound (evq_ptr (evq_state q) / 8) (2 ^ k)).
    assert (2 ^ k <= 2 ^ 16) by (apply Z.pow_le_mono_r; lia). lia. }
  unfold ef10_ef_eventq_prime, ef10_ef_eventq_prime_bug35388_workaround. rewrite Es.
  split.
  - cbn [ef10_update_evq_rptr writel fset io_log]. by rewrite u32_small by lia.
  - assert (Hhi : Z.lor 2048 (Z.land (Z.shiftr slot 8) 255) = 2048 + slot / 256).
    { change 255 with (2 ^ 8 - 1). rewrite land_mask, Z.shiftr_div_pow2 by lia.
      change (2 ^ 8) with 256. rewrite (Z.mod_small (slot / 256)) by word_lia.
      change 2048 with (Z.shiftl 8 8) at 1. rewrite lor_shiftl_add by (lia || word_lia). lia. }
    assert (Hlo : Z.lor 2304 (Z.land slot 255) = 2304 + slot `mod` 256).
    { change 255 with (2 ^ 8 - 1). rewrite land_mask by lia. change (2 ^ 8) with 256.
      change 2304 with (Z.shiftl 9 8) at 1. rewrite lor_shiftl_add by (lia || word_lia). lia. }
    eexists _, _. cbn [ef10_update_evq_rptr_bug35388_workaround writel fset io_log io].
    rewrite Hhi, Hlo, <- app_assoc. split; [reflexivity|].
    rewrite !u32_small by word_lia. word_lia.
Qed.

Lemma timer_ticks_ceil q v :
  0 < timer_quantum_ns q -> 0 < v -> v * 1000 + timer_quantum_ns q <= 2147483648 ->
  let ticks := timer_ticks q v in
  0 < ticks < 2147483648 /\ v * 1000 <= ticks * timer_quantum_ns q < v * 1000 + timer_quantum_ns q.
Proof.
  intros Hq Hv Hb ticks. unfold ticks, timer_ticks.
  rewrite (u32_small (v * 1000)), (u32_small (v * 1000 + _)), (u32_small (_ - 1)) by lia.
  set (t := (v * 1000 + timer_quantum_ns q - 1) / timer_quantum_ns q).
  assert (Ht : v * 1000 <= t * timer_quantum_ns q < v * 1000 + timer_quantum_ns q).
  { unfold t. Z.div_mod_to_equations. nia. }
  assert (0 < t < 2147483648) by nia.
  unfold s32. rewrite u32_small by lia. destruct (Z.ltb_spec t 2147483648); lia.
Qed.

Lemma timer_word a b n : 0 <= n -> 0 <= b < 2 ^ n -> 0 <= a ->
  let w := Z.lor b (Z.shiftl a n) in w `mod` 2 ^ n = b /\ w / 2 ^ n = a.
Proof.
  intros Hn Hb Ha. cbv zeta. rewrite Z.lor_comm, lor_shiftl_add by done.
  rewrite Z.add_comm, Z_mod_plus_full, Z.mod_small, Z.div_add, Z.div_small by lia. lia.
Qed.

(** starting the timer of an event queue, held or running, programs an
    interval of at least the microseconds asked for and less than one timer
    quantum more, in the count field below the mode; on hardware with bug 35388
    the count saturates at 255 instead of spilling into the mode. *)
Theorem timer_start_encodes q v mode start :
  (mode, start) = (FFE_CZ_TIMER_MODE_TRIG_START, ef10_ef_eventq_timer_prime) \/
  (mode, start) = (FFE_CZ_TIMER_MODE_IMMED_START, ef10_ef_eventq_timer_run) ->
  0 < timer_quantum_ns q -> 0 < v -> v * 1000 + timer_quantum_ns q <= 2147483648 ->
  exists ticks w,
    v * 1000 <= ticks * timer_quantum_ns q < v * 1000 + timer_quantum_ns q /\
    (bug35388_workaround_needed q = true ->
       io_log (start q v) = io_log q ++ [Writel w (io q + ER_DZ_TX_DESC_UPD_REG + 8)] /\
       w `mod` 256 = Z.min ticks 255 /\ (w / 256) `mod` 4 = mode /\ w / 1024 = 3) /\
    (bug35388_workaround_needed q = false -> ticks < 2 ^ 14 ->
       io_log (start q v) = io_log q ++ [Writel w (io q + ER_DZ_EVQ_TMR_REG)] /\
       w `mod` 2 ^ 14 = ticks /\ w / 2 ^ 14 = mode).
Proof.
  intros Hm Hq Hv Hb. destruct (timer_ticks_ceil q v Hq Hv Hb) as [H0 H1].
  assert (Em : start q v = eventq_timer_start mode q v) by (destruct Hm as [[= -> ->]|[= -> ->]]; done).
  assert (Hm2 : mode = 1 \/ mode = 2) by (destruct Hm as [[= -> _]|[= -> _]]; auto).
  rewrite Em. unfold eventq_timer_start. cbv zeta. set (ticks := timer_ticks q v) in *.
  destruct (bug35388_workaround_needed q).
  - set (vv := Z.min ticks 255).
    assert (Ev : (if 255 <? ticks then 255 else ticks) = vv) by (destruct (Z.ltb_spec 255 ticks); lia).
    rewrite Ev. exists ticks, (Z.lor (Z.lor vv (Z.shiftl mode 8)) (Z.shiftl 3 10)).
    split; [done|]. split; [|done]. intros _.
    assert (Ew : Z.lor (Z.lor vv (Z.shiftl mode 8)) (Z.shiftl 3 10) = 3072 + mode * 256 + vv).
    { rewrite (Z.lor_comm vv), lor_shiftl_add by lia. rewrite Z.lor_comm, lor_shiftl_add by lia. lia. }
    split; [|rewrite Ew; split_and!; Z.div_mod_to_equations; lia].
    change (Z.shiftl 3 10) with REV0_OP_TMR in *. unfold poke_timer_bug35388, REV0_TIMER_SHIFT.
    cbn [writel fset io_log]. rewrite Ew. by rewrite u32_small by lia.
  - exists ticks, (Z.lor ticks (Z.shiftl mode 14)). split; [done|]. split; [done|]. intros _ Ht.
    pose proof (timer_word mode ticks 14 ltac:(lia) ltac:(lia) ltac:(lia)) as [W1 W2].
    split; [|done]. unfold poke_timer, ERF_DZ_TC_TIMER_MODE_LBN. cbn [writel fset io_log].
    rewrite Z.lor_comm, lor_shiftl_add by lia. by rewrite u32_small by lia.
Qed.

(** Without that workaround nothing stops a long interval spilling into the
    mode: 16384 us at a quantum of 1 us asks for a held timer (mode 2) and writes
    mode 3 with count 0. *)
Lemma timer_prime_overflows_mode :
  let q := vi_zero <| timer_quantum_ns := 1000 |> in
  bug35388_workaround_needed q = false /\
  io_log (ef10_ef_eventq_timer_prime q 16384) = [Writel (3 * 2 ^ 14) ER_DZ_EVQ_TMR_REG].
Proof. split; reflexivity. Qed.

(** ** Witnesses *)

(** A VI with its own event queue of 8 events, its pointer about to wrap, and
    ten posted receive buffers. *)
Definition ex_with_evq (vi : ef_vi) : ef_vi :=
  let vi := vi <| vi_is_normal := 1 |> in
  let vi := vi <| vi_qs := replicate 32 (Some 0%nat) |> in
  let vi := vi <| evq_mask := 63 |> in
  let vi := vi <| evq_base := replicate 8 EV_NULL |> in
  upd_evq (fun _ => mk_eventq_state 4294967280 (-2) 0 0 0 0 0) vi.

Definition ex_evq : ef_vi := ex_with_evq (ef10_ef_vi_receive_push (ex_rx 10)).

Lemma ex_evq_rep : evq_rep ex_evq 3 [].
Proof.
  assert (Ep : evq_ptr (evq_state ex_evq) = 4294967280) by reflexivity.
  assert (Es : evq_clear_stride (evq_state ex_evq) = -2) by reflexivity.
  split; rewrite ?Ep, ?Es; [lia|reflexivity|reflexivity|split; [lia|reflexivity]|lia|cbn; lia|
    apply Forall_nil_2|].
  exists [EV_NULL; EV_NULL]. split; reflexivity.
Qed.

(** Completion of the descriptor with low pointer bits [ptr]. *)
Definition ex_rx_ev (bytes cont ptr : Z) : Z :=
  bytes + cont * 2 ^ 14 + ptr * 2 ^ 48.

Definition ex_mcdi_ev : Z := 12 * 2 ^ 60 + 26 * 2 ^ 44.

Definition ex_store : store := {[0%nat := ex_evq]}.

Definition ex_pending : store :=
  on_vi ex_store 0%nat (fun q => nic_write 3 536870911 ex_mcdi_ev
    (nic_write 3 536870910 (ex_rx_ev 60 0 9) q)).

Lemma ex_pending_rep :
  exists q, ex_pending !! 0%nat = Some q /\ evq_rep q 3 [ex_rx_ev 60 0 9; ex_mcdi_ev] /\ ids_ring q.
Proof.
  eexists. split; [reflexivity|]. split; [|unfold ids_ring; intros H; exfalso; revert H; vm_compute; discriminate].
  apply (nic_write_rep _ 3 [ex_rx_ev 60 0 9]); [|reflexivity|reflexivity|reflexivity].
  apply (nic_write_rep _ 3 []); [apply ex_evq_rep|reflexivity|reflexivity|reflexivity].
Qed.

(** The events delivered and those left by [dispatch_queue]. *)
Definition delivered (r : option (store * list ef_event * list Z)) : option (list ef_event * list Z) :=
  match r with Some (_, evs, rest) => Some (evs, rest) | None => None end.

Lemma eventq_poll_refines_witness :
  exists stc, ef10_ef_eventq_poll ex_pending 0%nat 4 = Some (stc, [EV_RX 0 7 60 1], 1) /\
    exists q', stc !! 0%nat = Some q' /\ evq_rep q' 3 [ex_mcdi_ev].
Proof.
  destruct ex_pending_rep as (q & Eq & Hr & Hi).
  pose proof (eventq_poll_refines 3 0%nat ex_pending q _ 4 Eq Hr ltac:(lia) Hi) as H.
  assert (C : delivered (dispatch_queue ex_pending 0%nat [ex_rx_ev 60 0 9; ex_mcdi_ev] [] 4) =
    Some ([EV_RX 0 7 60 1], [ex_mcdi_ev])) by (vm_compute; reflexivity).
  revert H C. generalize (dispatch_queue ex_pending 0%nat [ex_rx_ev 60 0 9; ex_mcdi_ev] [] 4).
  intros [[[sta evs] rest]|] H C; [|discriminate C]. injection C as -> ->.
  destruct H as [_ (stc & b & p & q' & E1 & _ & E2 & R)]. exists stc. split; [exact E1|].
  exists q'. split; [exact E2|exact R].
Defined.

(** The NIC writes two events, the application polls, posts a buffer, polls
    again: the MCDI event waits for the second poll. *)
Definition ex_actions : list evq_action :=
  [Act_nic (ex_rx_ev 60 0 9); Act_nic ex_mcdi_ev; Act_poll 4;
   Act_op 0 _ (receive_init_frame 8192 7); Act_nic (ex_rx_ev 64 0 10); Act_poll 4].

Lemma eventq_system_refines_witness :
  exists s', run (sys_step 3 0) ex_actions (mk_evq_sys ex_store 536870910 []) = Some s' /\
    es_app s' = [EV_RX 0 7 60 1; EV_RX 0 7 64 1].
Proof.
  assert (C : ep_app <$> run (spec_step 3 0) ex_actions (mk_evq_spec ex_store [] []) =
    Some [EV_RX 0 7 60 1; EV_RX 0 7 64 1]) by (vm_compute; reflexivity).
  destruct (run (spec_step 3 0) ex_actions (mk_evq_spec ex_store [] [])) as [sp|] eqn:E;
    [|discriminate C].
  destruct (eventq_system_refines 3 0 ex_store ex_evq ex_actions sp eq_refl ex_evq_rep E)
    as (s' & R & A & _).
  exists s'. split; [exact R|]. injection C as C. rewrite A. exact C.
Defined.

Lemma ex_with_evq_rx vi q p : rx_rep vi q p -> rx_rep (ex_with_evq vi) q p.
Proof. intros [R D P B S]. split; [exact R|exact D|exact P|exact B|exact S]. Qed.

Lemma ex_evq_rx_rep : exists p, rx_rep ex_evq (replicate 10 7) p /\ 3 <= p.
Proof.
  destruct (receive_push_rep (ex_rx 10) (replicate 10 7) 0 (ex_rx_rep_n 10 ltac:(lia)))
    as (p' & R & _ & L & _).
  exists p'. split; [|rewrite length_replicate in L; lia]. apply ex_with_evq_rx, R.
Qed.

Lemma rx_packet_reassembly_witness :
  exists vi', rx_events_vi ex_evq [ex_rx_ev 1792 1 9; ex_rx_ev 100 0 10] 0 =
    (vi', [EV_RX 0 7 1792 3; EV_RX 0 7 1892 0]).
Proof.
  destruct ex_evq_rx_rep as (p & R & Hp).
  destruct (rx_packet_reassembly ex_evq [7; 7] (replicate 8 7) p 0
    [ex_rx_ev 1792 1 9; ex_rx_ev 100 0 10]) as (vi' & E & _).
  - discriminate.
  - reflexivity.
  - exact R.
  - cbn [length]. lia.
  - reflexivity.
  - reflexivity.
  - vm_compute. intuition congruence.
  - vm_compute. reflexivity.
  - exists vi'. exact E.
Defined.

(** A three-descriptor send, pushed: the timestamp takes the id of its last. *)
Lemma tx_timestamp_takes_next_packet_witness :
  exists vi vi', ef10_tx_event_ts_rq_id (ef10_ef_vi_transmit_push vi) = Some (vi', 5) /\
    tx_rep vi' [] 0.
Proof.
  destruct (transmitv_init_ok ex_tx [] 0 (mk_ef_iovec 4000 200) [mk_ef_iovec 8192 60] 5
    ex_tx_rep ex_iov_wf) as (vi & _ & R & _); [vm_compute; discriminate|].
  apply transmit_push_rep in R. exists vi.
  destruct (tx_timestamp_takes_next_packet _ _ _ R) as [H _].
  destruct (H 2%nat 5 []) as (vi' & E & R').
  - reflexivity.
  - unfold EF_REQUEST_ID_MASK. lia.
  - vm_compute. reflexivity.
  - exists vi'. split; [exact E|exact R'].
Defined.

Lemma poll_keeps_clock_after_delivery_witness :
  exists st' evs', poll_loop 8 ex_pending 0 [EV_RX 0 7 60 1] 3 = Some (st', evs') /\
    sync_of <$> (st' !! 0%nat) = Some (0, 0, 0, 0, 0).
Proof.
  destruct (poll_loop 8 ex_pending 0 [EV_RX 0 7 60 1] 3) as [[st' evs']|] eqn:E.
  - exists st', evs'. split; [reflexivity|].
    rewrite (poll_keeps_clock_after_delivery 8 ex_pending 0 [EV_RX 0 7 60 1] 3 st' evs' 0);
      [reflexivity|discriminate|exact E].
  - apply (f_equal (fun r => match r with Some _ => true | None => false end)) in E.
    vm_compute in E. discriminate E.
Defined.

Lemma eventq_prime_slot_witness :
  io_log (ef10_ef_eventq_prime ex_evq) = io_log ex_evq ++ [Writel 6 1024].
Proof. apply (eventq_prime_slot ex_evq 3 [] ex_evq_rep ltac:(lia)). Defined.

Lemma timer_start_encodes_witness :
  exists ticks, 50000 <= ticks * 600 < 50600.
Proof.
  destruct (timer_start_encodes (ex_evq <| timer_quantum_ns := 600 |>) 50
    FFE_CZ_TIMER_MODE_TRIG_START ef10_ef_eventq_timer_prime) as (ticks & w & H & _).
  - left. reflexivity.
  - reflexivity.
  - reflexivity.
  - vm_compute. discriminate.
  - exists ticks. exact H.
Defined.
