(* ===== verification/Timestamp.v ===== *)
(** Hardware timestamps of received packets: the [ef10_..._get_timestamp...]
    functions of lib/ciul/ef10_event.c.

    The NIC stamps a packet with the sub-second part of its time only; the
    seconds come from the last time-sync event the event queue handled.  The
    theorems say that the two are put together correctly, in both of the
    hardware's formats, whenever packet and sync event are as close as the
    comments in the code say they are.

    A packet is the memory it lies in and its offset there.  The output
    parameters [ts_out] and [flags_out] are part of the result; [flags_out] is
    passed in too because the error paths leave it as it was.  [ef_timespec] is
    [struct timespec], two 64-bit [long]s. *)

From stdpp Require Import base list numbers.
From S2P Require Import Prelude Bitfield Vi Event.

Open Scope Z_scope.

Definition ES_DZ_RX_PREFIX_PKTLEN_OFST := 8.
Definition ES_DZ_RX_PREFIX_TSTAMP_OFST := 10.

Record ef_timespec := mk_timespec { tv_sec : Z; tv_nsec : Z }.

Definition timespec_zero := mk_timespec 0 0.

(** [evqs->sync_timestamp_synchronised = 0] *)
Definition desynchronise (vi : ef_vi) : ef_vi :=
  upd_evq (fun evqs => evqs <| sync_timestamp_synchronised := 0 |>) vi.

(** Result of the timestamp functions: the VI, [*ts_out], [*flags_out] and
    the return code. *)
Definition ts_result : Type := ef_vi * ef_timespec * Z * Z.

Definition ef10_ef_vi_receive_get_timestamp_with_sync_flags_from_tsync
    (vi : ef_vi) (buf : list Z) (pkt : Z) (flags_out tsync_minor tsync_major : Z) : ts_result :=
  let FLAG_NO_TIMESTAMP := 2147483648 in
  let ONE_SEC := 134217728 in
  let MAX_RX_PKT_DELAY := 13421772 in
  let MAX_TIME_SYNC_DELAY := 26843545 in
  let SYNC_EVENTS_PER_SECOND := 4 in
  let pkt_minor_raw := get32 buf (Z.to_nat (pkt + ES_DZ_RX_PREFIX_TSTAMP_OFST)) in
  let fail (vi : ef_vi) : ts_result :=
    (vi, timespec_zero, flags_out,
     if nz (Z.land pkt_minor_raw FLAG_NO_TIMESTAMP) then - ENODATA
     else if tsync_major =? 4294967295 then - ENOMSG else - EL2NSYNC) in
  if nz (Z.land (4294967295 - pkt_minor_raw) FLAG_NO_TIMESTAMP) then
    let pkt_minor := Z.land (u32 (pkt_minor_raw + rx_ts_correction vi)) 134217727 in
    let nsec := Z.shiftr (u64 (pkt_minor * 1000000000)) 27 in
    let diff := Z.land (u32 (pkt_minor - tsync_minor)) (ONE_SEC - 1) in
    if diff <? ONE_SEC / SYNC_EVENTS_PER_SECOND + MAX_TIME_SYNC_DELAY then
      (vi, mk_timespec (tsync_major + b2z (ONE_SEC <=? u32 (diff + tsync_minor))) nsec,
       sync_flags (evq_state vi), 0)
    else if ONE_SEC - MAX_RX_PKT_DELAY <? diff then
      (vi, mk_timespec (tsync_major - b2z (u32 (diff + tsync_minor) <? ONE_SEC)) nsec,
       sync_flags (evq_state vi), 0)
    else fail (desynchronise vi)
  else fail vi.

Definition ef10_ef_vi_receive_get_timestamp_with_sync_flags_from_tsync_qns
    (vi : ef_vi) (buf : list Z) (pkt : Z) (flags_out tsync_minor tsync_major : Z) : ts_result :=
  let NO_TIMESTAMP := 4294967295 in
  let ONE_SEC := 4000000000 in
  let MAX_RX_PKT_DELAY := 400000000 in
  let MAX_TIME_SYNC_DELAY := 800000000 in
  let SYNC_EVENTS_PER_SECOND := 4 in
  let BUG75412_OVERRUN := 20 in
  let pkt_minor := get32 buf (Z.to_nat (pkt + ES_DZ_RX_PREFIX_TSTAMP_OFST)) in
  let pkt_minor := u32 (pkt_minor + rx_ts_correction vi) in
  let wrapped :=
    if pkt_minor <? ONE_SEC then Some pkt_minor
    else if pkt_minor <? u32 (ONE_SEC + BUG75412_OVERRUN + 2) then Some (u32 (pkt_minor - ONE_SEC))
    else if negb (pkt_minor =? u32 (NO_TIMESTAMP + rx_ts_correction vi))
    then Some (u32 (pkt_minor + ONE_SEC))
    else None in
  match wrapped with
  | None => (vi, timespec_zero, flags_out, - ENODATA)
  | Some pkt_minor =>
    let pkt_lt_tsync := b2z (pkt_minor <? tsync_minor) in
    let diff := u32 (pkt_minor - tsync_minor + Z.land ONE_SEC (u32 (- pkt_lt_tsync))) in
    let ok (tsync_major : Z) : ts_result :=
      (vi, mk_timespec tsync_major (Z.shiftr pkt_minor 2), sync_flags (evq_state vi), 0) in
    if diff <? ONE_SEC / SYNC_EVENTS_PER_SECOND + MAX_TIME_SYNC_DELAY then
      ok (u32 (tsync_major + pkt_lt_tsync))
    else if ONE_SEC - MAX_RX_PKT_DELAY <? diff then
      ok (u32 (tsync_major - b2z (pkt_lt_tsync =? 0)))
    else (desynchronise vi, timespec_zero, flags_out,
          if tsync_major =? 4294967295 then - ENOMSG else - EL2NSYNC)
  end.

Definition ef10_receive_get_timestamp_with_sync_flags_internal
    (vi : ef_vi) (buf : list Z) (pkt : Z) (flags_out tsync_minor tsync_major : Z) : ts_result :=
  match ts_format vi with
  | TS_FORMAT_SECONDS_QTR_NANOSECONDS =>
      ef10_ef_vi_receive_get_timestamp_with_sync_flags_from_tsync_qns
        vi buf pkt flags_out tsync_minor tsync_major
  | TS_FORMAT_SECONDS_27FRACTION =>
      ef10_ef_vi_receive_get_timestamp_with_sync_flags_from_tsync
        vi buf pkt flags_out tsync_minor tsync_major
  end.

Definition ef10_receive_get_timestamp_with_sync_flags
    (vi : ef_vi) (buf : list Z) (pkt flags_out : Z) : ts_result :=
  let evqs := evq_state vi in
  if sync_timestamp_synchronised evqs =? 0 then (vi, timespec_zero, flags_out, - EL2NSYNC)
  else
    ef10_receive_get_timestamp_with_sync_flags_internal vi buf pkt flags_out
      (sync_timestamp_minor evqs) (sync_timestamp_major evqs).

Definition ef10_receive_get_bytes (buf : list Z) (pkt : Z) : Z :=
  get16 buf (Z.to_nat (pkt + ES_DZ_RX_PREFIX_PKTLEN_OFST)).

Definition ef_vi_receive_get_timestamp_with_sync_flags
    (vi : ef_vi) (buf : list Z) (pkt flags_out : Z) : ts_result :=
  ef10_receive_get_timestamp_with_sync_flags vi buf pkt flags_out.

(** [flags_out] is an uninitialised local here, and is not used. *)
Definition ef_vi_receive_get_timestamp (vi : ef_vi) (buf : list Z) (pkt : Z) : ef_vi * ef_timespec * Z :=
  let '(vi, ts, _, rc) := ef10_receive_get_timestamp_with_sync_flags vi buf pkt 0 in
  (vi, ts, if rc <? 0 then -1 else 0).

Definition ef_vi_receive_get_bytes (buf : list Z) (pkt : Z) : Z * Z :=
  (ef10_receive_get_bytes buf pkt, 0).

(** * The clock

    Times are counts of the format's sub-second unit, from the epoch. *)

Definition one_sec (fmt : ef_timestamp_format) : Z :=
  match fmt with TS_FORMAT_SECONDS_27FRACTION => 2 ^ 27 | TS_FORMAT_SECONDS_QTR_NANOSECONDS => 4000000000 end.

Definition nsec_of (fmt : ef_timestamp_format) (minor : Z) : Z :=
  match fmt with
  | TS_FORMAT_SECONDS_27FRACTION => minor * 1000000000 / 2 ^ 27
  | TS_FORMAT_SECONDS_QTR_NANOSECONDS => minor / 4
  end.

(** How long after the sync event, and before it, a packet's stamp may be:
    0.45 s and 0.1 s. *)
Definition after_sync (fmt : ef_timestamp_format) : Z :=
  match fmt with TS_FORMAT_SECONDS_27FRACTION => 60397977 | TS_FORMAT_SECONDS_QTR_NANOSECONDS => 1800000000 end.
Definition before_sync (fmt : ef_timestamp_format) : Z :=
  match fmt with TS_FORMAT_SECONDS_27FRACTION => 13421772 | TS_FORMAT_SECONDS_QTR_NANOSECONDS => 400000000 end.

(** The stamp [raw] is that of a packet at time [t]: the sub-second part of
    [t] with the MAC correction taken off; the quarter-nanosecond hardware may
    run up to 20 past the second (bug 75412). *)
Definition stamp_of (vi : ef_vi) (raw t : Z) : Prop :=
  (raw + rx_ts_correction vi) `mod` one_sec (ts_format vi) = t `mod` one_sec (ts_format vi) /\
  match ts_format vi with
  | TS_FORMAT_SECONDS_27FRACTION => 0 <= raw < 2 ^ 31
  | TS_FORMAT_SECONDS_QTR_NANOSECONDS =>
      0 <= raw < 4000000020 /\ -294967274 <= rx_ts_correction vi <= 0
  end.

(** The seconds of [tp] from those of [ts] and the two sub-second parts. *)
Lemma seconds_carry S ts tp a b :
  0 < S -> 0 < a -> 0 < b -> a + b < S -> - b < tp - ts < a ->
  let d := (tp `mod` S - ts `mod` S) `mod` S in
  (d < a /\ tp / S = ts / S + b2z (S <=? d + ts `mod` S) /\
     b2z (S <=? d + ts `mod` S) = b2z (tp `mod` S <? ts `mod` S)) \/
  (a <= d /\ S - b < d /\ tp / S = ts / S - b2z (d + ts `mod` S <? S) /\
     b2z (d + ts `mod` S <? S) = b2z (ts `mod` S <=? tp `mod` S)).
Proof.
  intros HS Ha Hb Hab Hw d.
  pose proof (Z.mod_pos_bound tp S HS). pose proof (Z.mod_pos_bound ts S HS).
  pose proof (Z.div_mod tp S ltac:(lia)) as Ep. pose proof (Z.div_mod ts S ltac:(lia)) as Es.
  set (p := tp `mod` S) in *. set (s := ts `mod` S) in *.
  set (P := tp / S) in *. set (Q := ts / S) in *.
  assert (Hq : P - Q = -1 \/ P - Q = 0 \/ P - Q = 1) by nia.
  assert (Hd : d = if p <? s then p - s + S else p - s).
  { unfold d. destruct (Z.ltb_spec p s).
    - rewrite <- (Z_mod_plus_full (p - s) 1 S), Z.mod_small by lia. lia.
    - apply Z.mod_small. lia. }
  rewrite Hd. clear Hd d. destruct (Z.ltb_spec p s) as [Hlt|Hge].
  - assert (Hq' : P = Q + 1 \/ P = Q) by nia. destruct Hq' as [-> | ->].
    + left. destruct (Z.leb_spec S (p - s + S + s)); [|lia]. cbn [b2z]. split_and!; nia.
    + right. destruct (Z.ltb_spec (p - s + S + s) S); destruct (Z.leb_spec s p); cbn [b2z];
        split_and!; nia.
  - assert (Hq' : P = Q \/ P = Q - 1) by nia. destruct Hq' as [-> | ->].
    + left. destruct (Z.leb_spec S (p - s + s)); [lia|]. cbn [b2z]. split_and!; nia.
    + right. destruct (Z.ltb_spec (p - s + s) S); destruct (Z.leb_spec s p); cbn [b2z];
        split_and!; nia.
Qed.

(** [~raw & FLAG_NO_TIMESTAMP] tests the flag bit the other way round. *)
Lemma land_flag z : nz (Z.land z 2147483648) = Z.testbit z 31.
Proof. by apply (nz_land_pow2 z 31). Qed.

Lemma not_flag raw : nz (Z.land (4294967295 - raw) 2147483648) = negb (nz (Z.land raw 2147483648)).
Proof.
  rewrite !land_flag. replace (4294967295 - raw) with (Z.lnot raw + 1 * 2 ^ 32) by (unfold Z.lnot; lia).
  rewrite <- (Z.mod_pow2_bits_low _ 32) by lia. rewrite Z_mod_plus_full, Z.mod_pow2_bits_low by lia.
  apply Z.lnot_spec. lia.
Qed.

Lemma no_timestamp_flag raw :
  0 <= raw < 2 ^ 31 -> nz (Z.land (4294967295 - raw) 2147483648) = true.
Proof.
  intros H. rewrite not_flag, land_flag, Z.testbit_odd, Z.shiftr_div_pow2, Z.div_small by lia. done.
Qed.

Lemma from_tsync_reconstructs vi buf pkt fl ts tp :
  ts_format vi = TS_FORMAT_SECONDS_27FRACTION ->
  stamp_of vi (get32 buf (Z.to_nat (pkt + ES_DZ_RX_PREFIX_TSTAMP_OFST))) tp ->
  - before_sync (ts_format vi) < tp - ts < after_sync (ts_format vi) ->
  ef10_ef_vi_receive_get_timestamp_with_sync_flags_from_tsync vi buf pkt fl
    (ts `mod` 2 ^ 27) (ts / 2 ^ 27) =
  (vi, mk_timespec (tp / 2 ^ 27) (nsec_of (ts_format vi) (tp `mod` 2 ^ 27)), sync_flags (evq_state vi), 0).
Proof.
  intros Hf [Hst Hraw] Hw. rewrite Hf in *. cbn [one_sec before_sync after_sync nsec_of] in *.
  unfold ef10_ef_vi_receive_get_timestamp_with_sync_flags_from_tsync. cbv zeta.
  set (raw := get32 buf _) in *. rewrite no_timestamp_flag by done.
  change 134217727 with (2 ^ 27 - 1). change 134217728 with (2 ^ 27).
  rewrite !land_mask, !u32_mod_pow2, Hst by lia.
  pose proof (Z.mod_pos_bound tp (2 ^ 27) ltac:(lia)) as Bp.
  pose proof (Z.mod_pos_bound ts (2 ^ 27) ltac:(lia)) as Bs.
  pose proof (seconds_carry (2 ^ 27) ts tp 60397977 13421772 ltac:(lia) ltac:(lia) ltac:(lia)
    ltac:(lia) Hw) as C. cbv zeta in C.
  set (d := (tp `mod` 2 ^ 27 - ts `mod` 2 ^ 27) `mod` 2 ^ 27) in *.
  assert (Bd : 0 <= d < 2 ^ 27) by (apply Z.mod_pos_bound; lia).
  rewrite u64_small, Z.shiftr_div_pow2, (u32_small (d + _)) by lia.
  change (2 ^ 27 / 4 + 26843545) with 60397977. change (2 ^ 27 - 13421772) with 120795956.
  destruct C as [(Hd & E & _)|(Hd & Hd' & E & _)].
  - destruct (Z.ltb_spec d 60397977); [|lia]. by rewrite E.
  - destruct (Z.ltb_spec d 60397977); [lia|]. destruct (Z.ltb_spec 120795956 d); [|lia]. by rewrite E.
Qed.

(** The stamp brought into the second. *)
Lemma qns_wrap raw corr tp :
  (raw + corr) `mod` 4000000000 = tp `mod` 4000000000 ->
  0 <= raw < 4000000020 -> -294967274 <= corr <= 0 ->
  (let m := u32 (raw + corr) in
   if m <? 4000000000 then Some m
   else if m <? u32 (4000000000 + 20 + 2) then Some (u32 (m - 4000000000))
   else if negb (m =? u32 (4294967295 + corr)) then Some (u32 (m + 4000000000)) else None) =
  Some (tp `mod` 4000000000).
Proof.
  intros <- Hr Hc. cbv zeta. change (u32 (4000000000 + 20 + 2)) with 4000000022.
  rewrite (u32_small (4294967295 + corr)) by lia.
  assert (Hcase : 0 <= raw + corr \/ raw + corr < 0) by lia.
  destruct Hcase.
  - rewrite (u32_small (raw + corr)) by lia.
    destruct (Z.ltb_spec (raw + corr) 4000000000); [by rewrite Z.mod_small by lia|].
    destruct (Z.ltb_spec (raw + corr) 4000000022); [|lia].
    rewrite u32_small by lia. f_equal. rewrite <- (Z_mod_plus_full (raw + corr) (-1)).
    rewrite Z.mod_small; lia.
  - assert (E : u32 (raw + corr) = raw + corr + 4294967296) by word_lia. rewrite E.
    destruct (Z.ltb_spec (raw + corr + 4294967296) 4000000000); [lia|].
    destruct (Z.ltb_spec (raw + corr + 4294967296) 4000000022); [lia|].
    assert (Hn : raw + corr + 4294967296 <> 4294967295 + corr) by lia.
    apply Z.eqb_neq in Hn. rewrite Hn. cbn [negb]. f_equal.
    rewrite <- (Z_mod_plus_full (raw + corr) 1), Z.mod_small by lia. word_lia.
Qed.

(** The difference taken without a jump is the difference modulo a second. *)
Lemma qns_diff p s : 0 <= p < 4000000000 -> 0 <= s < 4000000000 ->
  u32 (p - s + Z.land 4000000000 (u32 (- b2z (p <? s)))) = (p - s) `mod` 4000000000.
Proof.
  intros Hp Hs. destruct (Z.ltb_spec p s); cbn [b2z].
  - replace (Z.land 4000000000 (u32 (- (1)))) with 4000000000 by reflexivity.
    rewrite u32_small by lia.
    rewrite <- (Z_mod_plus_full (p - s) 1), Z.mod_small; lia.
  - replace (Z.land 4000000000 (u32 (- 0))) with 0 by reflexivity.
    rewrite u32_small, Z.mod_small; lia.
Qed.

Lemma from_tsync_qns_reconstructs vi buf pkt fl ts tp :
  ts_format vi = TS_FORMAT_SECONDS_QTR_NANOSECONDS ->
  stamp_of vi (get32 buf (Z.to_nat (pkt + ES_DZ_RX_PREFIX_TSTAMP_OFST))) tp ->
  - before_sync (ts_format vi) < tp - ts < after_sync (ts_format vi) ->
  0 <= tp / 4000000000 < 4294967296 ->
  ef10_ef_vi_receive_get_timestamp_with_sync_flags_from_tsync_qns vi buf pkt fl
    (ts `mod` 4000000000) (ts / 4000000000) =
  (vi, mk_timespec (tp / 4000000000) (nsec_of (ts_format vi) (tp `mod` 4000000000)),
   sync_flags (evq_state vi), 0).
Proof.
  intros Hf [Hst Hraw] Hw Hm. rewrite Hf in *. cbn [one_sec before_sync after_sync nsec_of] in *.
  destruct Hraw as [Hraw Hc]. unfold ef10_ef_vi_receive_get_timestamp_with_sync_flags_from_tsync_qns.
  set (raw := get32 buf _) in *.
  pose proof (qns_wrap raw (rx_ts_correction vi) tp Hst Hraw Hc) as W. cbv zeta in W |- *. rewrite W.
  pose proof (Z.mod_pos_bound tp 4000000000 ltac:(lia)) as Bp.
  pose proof (Z.mod_pos_bound ts 4000000000 ltac:(lia)) as Bs.
  pose proof (seconds_carry 4000000000 ts tp 1800000000 400000000 ltac:(lia) ltac:(lia) ltac:(lia)
    ltac:(lia) Hw) as C. cbv zeta in C.
  set (p := tp `mod` 4000000000) in *. set (s := ts `mod` 4000000000) in *.
  rewrite qns_diff by done. set (d := (p - s) `mod` 4000000000) in *.
  change (4000000000 / 4 + 800000000) with 1800000000. change (4000000000 - 400000000) with 3600000000.
  rewrite Z.shiftr_div_pow2 by lia. change (2 ^ 2) with 4.
  destruct C as [(Hd & E & Eb)|(Hd & Hd' & E & Eb)].
  - destruct (Z.ltb_spec d 1800000000); [|lia]. rewrite <- Eb, u32_small; [by rewrite E|lia].
  - destruct (Z.ltb_spec d 1800000000); [lia|]. destruct (Z.ltb_spec 3600000000 d); [|lia].
    replace (b2z (b2z (p <? s) =? 0)) with (b2z (s <=? p))
      by (rewrite Z.leb_antisym; by destruct (p <? s)).
    rewrite <- Eb, u32_small; [by rewrite E|lia].
Qed.

(** * Properties *)

(** C14: in both hardware formats, the timestamp of a packet stamped less than
    0.1 s before and 0.45 s after the last time-sync event is the packet's true
    time: seconds carried or borrowed across the second boundary as needed, and
    the sub-second part in nanoseconds, rounded down. *)
Theorem rx_timestamp_reconstructs vi buf pkt fl ts tp :
  let S := one_sec (ts_format vi) in
  sync_timestamp_synchronised (evq_state vi) <> 0 ->
  sync_timestamp_minor (evq_state vi) = ts `mod` S -> sync_timestamp_major (evq_state vi) = ts / S ->
  stamp_of vi (get32 buf (Z.to_nat (pkt + ES_DZ_RX_PREFIX_TSTAMP_OFST))) tp ->
  - before_sync (ts_format vi) < tp - ts < after_sync (ts_format vi) ->
  0 <= tp / S < 4294967296 ->
  ef_vi_receive_get_timestamp_with_sync_flags vi buf pkt fl =
    (vi, mk_timespec (tp / S) (nsec_of (ts_format vi) (tp `mod` S)), sync_flags (evq_state vi), 0).
Proof.
  intros S Hs Hmin Hmaj Hst Hw Hr.
  unfold ef_vi_receive_get_timestamp_with_sync_flags, ef10_receive_get_timestamp_with_sync_flags,
    ef10_receive_get_timestamp_with_sync_flags_internal.
  apply Z.eqb_neq in Hs. rewrite Hs, Hmin, Hmaj.
  unfold S in *. destruct (ts_format vi) eqn:Ef; cbn [one_sec] in *; rewrite <- Ef in *.
  - by apply from_tsync_reconstructs.
  - by apply from_tsync_qns_reconstructs.
Qed.

(** * Failures *)

(** The stamps the hardware writes: 27 bits with a flag, or a count of quarter
    nanoseconds and a value for no stamp; with a correction that keeps the latter
    apart from the former. *)
Definition stamp_valid (vi : ef_vi) (raw : Z) : Prop :=
  0 <= raw < 4294967296 /\
  match ts_format vi with
  | TS_FORMAT_SECONDS_27FRACTION => True
  | TS_FORMAT_SECONDS_QTR_NANOSECONDS =>
      (raw < 4000000020 \/ raw = 4294967295) /\ -294967273 <= rx_ts_correction vi <= 0
  end.

Definition stamp_absent (fmt : ef_timestamp_format) (raw : Z) : bool :=
  match fmt with
  | TS_FORMAT_SECONDS_27FRACTION => 2 ^ 31 <=? raw
  | TS_FORMAT_SECONDS_QTR_NANOSECONDS => raw =? 4294967295
  end.

(** The stamp is within the range of the last sync event, modulo a second
    ([stamp_near_iff]). *)
Definition stamp_near (vi : ef_vi) (raw : Z) : bool :=
  let fmt := ts_format vi in
  let d := (raw + rx_ts_correction vi - sync_timestamp_minor (evq_state vi)) `mod` one_sec fmt in
  (d <? after_sync fmt) || (one_sec fmt - before_sync fmt <? d).

Lemma mod_window S x a b : 0 < S -> 0 < a -> 0 < b -> a + b < S ->
  (x `mod` S <? a) || (S - b <? x `mod` S) = true <-> exists k, - b < x + k * S < a.
Proof.
  intros HS Ha Hb Hab. rewrite orb_true_iff, !Z.ltb_lt.
  pose proof (Z.mod_pos_bound x S HS). pose proof (Z.div_mod x S ltac:(lia)) as E. split.
  - intros [?|?]; [exists (- (x / S))|exists (- (x / S) - 1)]; nia.
  - intros [k Hk]. assert (x / S + k = 0 \/ x / S + k = -1) as [?|?] by nia; [left|right]; nia.
Qed.

(** Near means: some time with this sub-second part is less than 0.1 s before
    and 0.45 s after the sync event. *)
Lemma stamp_near_iff vi raw : stamp_near vi raw = true <->
  exists k, - before_sync (ts_format vi) <
    raw + rx_ts_correction vi - sync_timestamp_minor (evq_state vi) + k * one_sec (ts_format vi) <
    after_sync (ts_format vi).
Proof. unfold stamp_near. apply mod_window; destruct (ts_format vi); cbn; lia. Qed.

(** The result of a call on a synchronised queue, by stamp and distance. *)
Definition ts_outcome (vi : ef_vi) (raw fl : Z) (r : ts_result) : Prop :=
  let fmt := ts_format vi in
  if stamp_absent fmt raw then r = (vi, timespec_zero, fl, - ENODATA)
  else if stamp_near vi raw then
    exists sec, r = (vi, mk_timespec sec (nsec_of fmt ((raw + rx_ts_correction vi) `mod` one_sec fmt)),
      sync_flags (evq_state vi), 0)
  else r = (desynchronise vi, timespec_zero, fl,
    if sync_timestamp_major (evq_state vi) =? 4294967295 then - ENOMSG else - EL2NSYNC).

Lemma flag_of_stamp raw : 0 <= raw < 4294967296 -> nz (Z.land raw 2147483648) = (2 ^ 31 <=? raw).
Proof.
  intros H. rewrite land_flag, Z.testbit_odd, Z.shiftr_div_pow2 by lia.
  destruct (Z.leb_spec (2 ^ 31) raw); [|by rewrite Z.div_small by lia].
  assert (raw / 2 ^ 31 = 1) as -> by (symmetry; apply (Z.div_unique _ _ _ (raw - 2 ^ 31)); lia). done.
Qed.

Lemma from_tsync_outcome vi buf pkt fl :
  let evqs := evq_state vi in
  let raw := get32 buf (Z.to_nat (pkt + ES_DZ_RX_PREFIX_TSTAMP_OFST)) in
  ts_format vi = TS_FORMAT_SECONDS_27FRACTION -> stamp_valid vi raw ->
  ts_outcome vi raw fl (ef10_ef_vi_receive_get_timestamp_with_sync_flags_from_tsync vi buf pkt fl
    (sync_timestamp_minor evqs) (sync_timestamp_major evqs)).
Proof.
  intros evqs raw Hf [Hr _]. unfold ts_outcome, stamp_near. rewrite Hf.
  cbn [stamp_absent one_sec before_sync after_sync nsec_of].
  unfold ef10_ef_vi_receive_get_timestamp_with_sync_flags_from_tsync. cbv zeta. fold raw evqs.
  rewrite not_flag, flag_of_stamp by done. destruct (2 ^ 31 <=? raw); [done|]. cbn [negb].
  change 134217727 with (2 ^ 27 - 1). change 134217728 with (2 ^ 27).
  rewrite !land_mask, !u32_mod_pow2, Zminus_mod_idemp_l by lia.
  set (d := (raw + _ - _) `mod` 2 ^ 27). set (m := (raw + _) `mod` 2 ^ 27).
  assert (0 <= m < 2 ^ 27) by (apply Z.mod_pos_bound; lia).
  rewrite u64_small, Z.shiftr_div_pow2 by lia.
  change (2 ^ 27 / 4 + 26843545) with 60397977.
  destruct (d <? 60397977); [by eexists|]. destruct (2 ^ 27 - 13421772 <? d); [by eexists|done].
Qed.

Lemma from_tsync_qns_outcome vi buf pkt fl :
  let evqs := evq_state vi in
  let raw := get32 buf (Z.to_nat (pkt + ES_DZ_RX_PREFIX_TSTAMP_OFST)) in
  ts_format vi = TS_FORMAT_SECONDS_QTR_NANOSECONDS -> stamp_valid vi raw ->
  0 <= sync_timestamp_minor evqs < one_sec (ts_format vi) ->
  ts_outcome vi raw fl (ef10_ef_vi_receive_get_timestamp_with_sync_flags_from_tsync_qns vi buf pkt fl
    (sync_timestamp_minor evqs) (sync_timestamp_major evqs)).
Proof.
  intros evqs raw Hf [Hr Hv] Hm. unfold ts_outcome, stamp_near. rewrite Hf in *. destruct Hv as [Hv Hc].
  cbn [stamp_absent one_sec before_sync after_sync nsec_of] in *.
  unfold ef10_ef_vi_receive_get_timestamp_with_sync_flags_from_tsync_qns. cbv zeta. fold raw evqs.
  destruct (Z.eqb_spec raw 4294967295) as [E|E].
  - rewrite E. change (u32 (4000000000 + 20 + 2)) with 4000000022. rewrite u32_small, Z.eqb_refl by lia.
    destruct (Z.ltb_spec (4294967295 + rx_ts_correction vi) 4000000000); [lia|].
    destruct (Z.ltb_spec (4294967295 + rx_ts_correction vi) 4000000022); [lia|]. done.
  - pose proof (qns_wrap raw (rx_ts_correction vi) (raw + rx_ts_correction vi) eq_refl
      ltac:(lia) ltac:(lia)) as W. cbv zeta in W. rewrite W.
    rewrite qns_diff, Zminus_mod_idemp_l by (done || apply Z.mod_pos_bound; lia).
    change (4000000000 / 4 + 800000000) with 1800000000. rewrite Z.shiftr_div_pow2 by lia.
    set (d := (raw + _ - _) `mod` 4000000000).
    destruct (d <? 1800000000); [by eexists|]. destruct (4000000000 - 400000000 <? d); [by eexists|done].
Qed.

Lemma timestamp_unsynchronised vi buf pkt fl :
  sync_timestamp_synchronised (evq_state vi) = 0 ->
  ef_vi_receive_get_timestamp_with_sync_flags vi buf pkt fl = (vi, timespec_zero, fl, - EL2NSYNC).
Proof.
  intros E. unfold ef_vi_receive_get_timestamp_with_sync_flags,
    ef10_receive_get_timestamp_with_sync_flags. by rewrite E.
Qed.


(** ** Witnesses *)

(** Sync at 10.9 s; the packet at 11.1 s has wrapped into the next second. *)
Definition ex_ts_vi : ef_vi :=
  upd_evq (fun _ => mk_eventq_state 0 0 10 3600000000 9 1 3)
    (vi_zero <| ts_format := TS_FORMAT_SECONDS_QTR_NANOSECONDS |> <| rx_ts_correction := -76 |>).

Definition ex_ts_pkt : list Z := replicate 10 0 ++ [76; 132; 215; 23].

Lemma rx_timestamp_reconstructs_witness :
  ef_vi_receive_get_timestamp_with_sync_flags ex_ts_vi ex_ts_pkt 0 0 =
    (ex_ts_vi, mk_timespec 11 100000000, 3, 0).
Proof.
  apply (rx_timestamp_reconstructs ex_ts_vi ex_ts_pkt 0 0
    43600000000 44400000000).
  - discriminate.
  - reflexivity.
  - reflexivity.
  - split; [reflexivity|]. cbn [ex_ts_vi ts_format]. vm_compute. intuition congruence.
  - vm_compute. intuition congruence.
  - vm_compute. intuition congruence.
Defined.

(** The same queue and a packet stamped at .7 s: 0.2 s before the sync event, or
    0.8 s after it, and too far either way. *)
Definition ex_ts_far : list Z := replicate 10 0 ++ [76; 236; 229; 166].

