(* ===== verification/PackedStream.v ===== *)
(** Packed-stream receive: the end of lib/ciul/ef10_event.c and the inline
    accessors of include/etherfabric/packedstream.h.

    In packed-stream mode the NIC writes packets one after the other into large
    buffers.  [ef_vi_packed_stream_unbundle] walks the packets of one event,
    writes a header in front of each for the application, and returns credit to
    the NIC.  The memory is the list of its bytes and its first address
    [mem_base]; pointers are addresses, because the credit count depends on
    them.  A header is a [struct ef_packed_stream_packet] of 16 bytes, in memory. *)

From stdpp Require Import base list numbers.
From S2P Require Import Prelude Vi Rx Event Timestamp.

Open Scope Z_scope.

Definition ES_DZ_PS_RX_PREFIX_TSTAMP_OFST := 0.
Definition ES_DZ_PS_RX_PREFIX_CAP_LEN_OFST := 4.
Definition ES_DZ_PS_RX_PREFIX_ORIG_LEN_OFST := 6.
Definition ES_DZ_PS_RX_PREFIX_SIZE := 8.
Definition ES_DZ_PS_MAGIC_DOORBELL_CREDIT := 2048.
Definition EF_VI_PS_PACKET_GAP := 64.
Definition EF_VI_PS_ALIGNMENT := 64.
Definition EF_VI_PS_METADATA_OFFSET := 16.
Definition EF_VI_PS_SPACE_PER_CREDIT := 65536.

(** On [unsigned] operands, and on [ci_uintptr_t] ones. *)
Definition EF_VI_ROUND_UP (i align : Z) : Z :=
  Z.land (u32 (i + align - 1)) (u32 (Z.lnot (align - 1))).
Definition EF_VI_ALIGN_FWD (p align : Z) : Z :=
  Z.land (u64 (p + align - 1)) (u64 (Z.lnot (align - 1))).

Definition EF_VI_PS_MIN_PKT_SPACE : Z :=
  EF_VI_ROUND_UP (ES_DZ_PS_RX_PREFIX_SIZE + 60 + EF_VI_PS_PACKET_GAP) EF_VI_PS_ALIGNMENT.
Definition EF_VI_PS_MAX_EVENTS_PER_CREDIT : Z := EF_VI_PS_SPACE_PER_CREDIT / EF_VI_PS_MIN_PKT_SPACE.

(** ** Offsets of [ef_packed_stream_packet] *)
Definition ps_next_offset := 0.
Definition ps_pkt_start_offset := 2.
Definition ps_flags := 3.
Definition ps_cap_len := 4.
Definition ps_orig_len := 6.
Definition ps_ts_sec := 8.
Definition ps_ts_nsec := 12.

(** lib/ciul/vi_init.c: unsigned arithmetic, returned as [int]. *)
Definition ef_eventq_capacity (vi : ef_vi) : Z :=
  s32 (evq_mask vi / EF_VI_EV_SIZE - 1 + evq_clear_stride (evq_state vi)).

(** [EF_VI_PS_MAX_EVENTS_PER_CREDIT] is unsigned, so [events_available] is
    divided as an unsigned number. *)
Definition ef_ps_max_credits (vi : ef_vi) : Z :=
  let tx_reservation := ef_vi_transmit_capacity vi in
  let tx_reservation :=
    if vi_flag vi (Z.lor EF_VI_TX_TIMESTAMPS EF_VI_TX_ALT) then s32 (tx_reservation * 3)
    else tx_reservation in
  let events_available := s32 (ef_eventq_capacity vi - tx_reservation - 100) in
  let max_credit := s32 (u32 events_available / EF_VI_PS_MAX_EVENTS_PER_CREDIT) in
  if max_credit <? 0 then 0 else max_credit.

Definition ef_vi_packed_stream_alloc_credits (n_credits : Z) (vi : ef_vi) : ef_vi :=
  let vi := upd_rxq (fun qs => qs <| rx_ps_credit_avail := u16 (rx_ps_credit_avail qs + n_credits) |>) vi in
  writel (Z.lor ES_DZ_PS_MAGIC_DOORBELL_CREDIT n_credits) (io vi + ER_DZ_RX_DESC_UPD_REG) vi.

Definition ef_vi_packed_stream_update_credit (vi : ef_vi) : ef_vi :=
  if rx_ps_credit_avail (rxq_state vi) <? ef_ps_max_credits vi
  then ef_vi_packed_stream_alloc_credits
         (ef_ps_max_credits vi - rx_ps_credit_avail (rxq_state vi)) vi
  else vi.

Definition credits_consumed (start_addr end_addr : Z) : Z :=
  if nz (Z.land (Z.lxor start_addr end_addr) EF_VI_PS_SPACE_PER_CREDIT) then 1
  else if nz (Z.land (Z.lxor start_addr end_addr) (Z.shiftl EF_VI_PS_SPACE_PER_CREDIT 1)) then 2
  else 0.

Definition ef10_packed_stream_update_credit (vi : ef_vi) (start_addr end_addr : Z) : ef_vi :=
  let vi := upd_rxq (fun qs => qs <| rx_ps_credit_avail :=
    u16 (rx_ps_credit_avail qs - credits_consumed start_addr end_addr) |>) vi in
  ef_vi_packed_stream_update_credit vi.

Record ef_packed_stream_params := mk_ps_params {
  psp_buffer_size : Z;
  psp_buffer_align : Z;
  psp_start_offset : Z;
  psp_max_usable_buffers : Z
}.

(** [None] stands for [psp_out] left as it was. *)
Definition ef_vi_packed_stream_get_params (vi : ef_vi) : option ef_packed_stream_params * Z :=
  if vi_is_packed_stream vi =? 0 then (None, - EINVAL)
  else
    let size := s32 (vi_ps_buf_size vi) in
    let usable := s32 (Z.quot (s32 (ef_ps_max_credits vi * EF_VI_PS_SPACE_PER_CREDIT)) size + 1) in
    (Some (mk_ps_params size size (EF_VI_PS_DMA_START_OFFSET - EF_VI_PS_METADATA_OFFSET)
             (s32 (EF_VI_ROUND_UP usable 8 + 8))), 0).

Section memory.
Context (mem_base : Z).

(** The index in the memory of an address. *)
Definition at_ (addr : Z) : nat := Z.to_nat (addr - mem_base).

Definition ef10_unbundle_one_packet (vi : ef_vi) (mem : list Z) (pkt : Z) : ef_vi * list Z * Z :=
  let prefix := pkt + EF_VI_PS_METADATA_OFFSET in
  let ts_flags := 0 in
  let pkt_len := get16 mem (at_ (prefix + ES_DZ_PS_RX_PREFIX_CAP_LEN_OFST)) in
  let orig_len := get16 mem (at_ (prefix + ES_DZ_PS_RX_PREFIX_ORIG_LEN_OFST)) in
  let mem := put16 mem (at_ (pkt + ps_cap_len)) pkt_len in
  let mem := put16 mem (at_ (pkt + ps_orig_len)) orig_len in
  let mem := put8 mem (at_ (pkt + ps_pkt_start_offset))
               (EF_VI_PS_METADATA_OFFSET + ES_DZ_PS_RX_PREFIX_SIZE) in
  let '(vi, ts, ts_flags, rc) :=
    ef10_receive_get_timestamp_with_sync_flags vi mem
      (prefix + ES_DZ_PS_RX_PREFIX_TSTAMP_OFST - ES_DZ_RX_PREFIX_TSTAMP_OFST - mem_base) ts_flags in
  let mem := put32 mem (at_ (pkt + ps_ts_sec)) (tv_sec ts) in
  let mem := put32 mem (at_ (pkt + ps_ts_nsec)) (tv_nsec ts) in
  let mem := put32 mem (at_ (pkt + EF_VI_PS_METADATA_OFFSET)) 0 in
  let mem := put8 mem (at_ (pkt + ps_flags)) ts_flags in
  let offset := EF_VI_ALIGN_FWD (pkt_len + ES_DZ_PS_RX_PREFIX_SIZE + EF_VI_PS_PACKET_GAP)
                  EF_VI_PS_ALIGNMENT in
  let mem := put16 mem (at_ (pkt + ps_next_offset)) offset in
  (vi, mem, rc).

Definition ef_packed_stream_packet_first (start_of_buffer start_offset : Z) : Z :=
  start_of_buffer + start_offset.
Definition ef_packed_stream_packet_next (mem : list Z) (pkt : Z) : Z :=
  pkt + get16 mem (at_ (pkt + ps_next_offset)).
Definition ef_packed_stream_packet_payload (mem : list Z) (pkt : Z) : Z :=
  pkt + get8 mem (at_ (pkt + ps_pkt_start_offset)).

Fixpoint unbundle_loop (n : nat) (ev_flags : Z) (vi : ef_vi) (mem : list Z) (pkt bytes rc : Z)
    : ef_vi * list Z * Z * Z * Z :=
  match n with
  | O => (vi, mem, pkt, bytes, rc)
  | S n =>
    let '(vi, mem, rc) := ef10_unbundle_one_packet vi mem pkt in
    let mem := put8 mem (at_ (pkt + ps_flags))
                 (Z.lor (get8 mem (at_ (pkt + ps_flags))) ev_flags) in
    let bytes := s32 (bytes + get16 mem (at_ (pkt + ps_cap_len))) in
    let pkt := ef_packed_stream_packet_next mem pkt in
    unbundle_loop n ev_flags vi mem pkt bytes rc
  end.

(** Result: the VI, the memory, [*pkt_iter], [*n_pkts_out], [*n_bytes_out] and
    the return code. *)
Definition ef_vi_packed_stream_unbundle (vi : ef_vi) (n_pkts ev_flags : Z) (mem : list Z) (pkt_iter : Z)
    : ef_vi * list Z * Z * Z * Z * Z :=
  let '(vi, mem, pkt, bytes_unpacked, rc) :=
    unbundle_loop (Z.to_nat n_pkts) ev_flags vi mem pkt_iter 0 0 in
  let dma_start := pkt_iter + EF_VI_PS_METADATA_OFFSET in
  let dma_end := pkt + EF_VI_PS_METADATA_OFFSET in
  let vi := ef10_packed_stream_update_credit vi dma_start dma_end in
  (vi, mem, pkt, n_pkts, bytes_unpacked, rc).
End memory.

(** * Credits *)

(** Boundaries of 64 KB crossed between two addresses. *)
Definition crossings (a b : Z) : Z :=
  b / EF_VI_PS_SPACE_PER_CREDIT - a / EF_VI_PS_SPACE_PER_CREDIT.

Lemma testbit_div z n : 0 <= n -> Z.testbit z n = Z.odd (z / 2 ^ n).
Proof. intros. by rewrite Z.testbit_odd, Z.shiftr_div_pow2. Qed.

Lemma credits_consumed_crossings a b :
  0 <= crossings a b <= 2 -> credits_consumed a b = crossings a b.
Proof.
  unfold crossings, credits_consumed, EF_VI_PS_SPACE_PER_CREDIT. intros H.
  change (Z.shiftl 65536 1) with (2 ^ 17). change 65536 with (2 ^ 16) in *.
  rewrite !nz_land_pow2, !Z.lxor_spec, !testbit_div by lia.
  change (2 ^ 17) with (2 ^ 16 * 2). rewrite <- !Z.div_div by lia.
  set (x := a / 2 ^ 16) in *. set (y := b / 2 ^ 16) in *.
  assert (Hy : y = x \/ y = x + 1 \/ y = x + 2) by lia.
  destruct Hy as [-> |[-> | ->]].
  - rewrite !xorb_nilpotent. cbv iota. lia.
  - rewrite Z.odd_add. change (Z.odd 1) with true. destruct (Z.odd x); cbn [xorb]; lia.
  - replace (x + 2) with (x + 1 * 2) by lia. rewrite Z.div_add, !Z.odd_add by lia.
    change (Z.odd (1 * 2)) with false. change (Z.odd 1) with true.
    destruct (Z.odd x), (Z.odd (x / 2)); cbn [xorb]; lia.
Qed.

Lemma grant_word n : 0 < n < 2048 -> u32 (Z.lor ES_DZ_PS_MAGIC_DOORBELL_CREDIT n) = 2048 + n.
Proof.
  intros H. unfold ES_DZ_PS_MAGIC_DOORBELL_CREDIT. change 2048 with (Z.shiftl 1 11) at 1.
  rewrite lor_shiftl_add by (change (2 ^ 11) with 2048; lia). change (2 ^ 11) with 2048.
  rewrite u32_small; lia.
Qed.

(** * Walking the packets *)

(** [m'] is [m] but for the bytes from index [lo] on, up to [hi]. *)
Definition same_outside (lo hi : nat) (m m' : list Z) : Prop :=
  length m' = length m /\ forall j, (j < lo \/ hi <= j)%nat -> get8 m' j = get8 m j.

Lemma same_put8 lo hi m m' i v :
  same_outside lo hi m m' -> (lo <= i < hi)%nat -> same_outside lo hi m (put8 m' i v).
Proof.
  intros [L H] Hi. split; [by rewrite length_put8|]. intros j Hj.
  rewrite get8_put8_ne by lia. by apply H.
Qed.
Lemma same_put16 lo hi m m' i v :
  same_outside lo hi m m' -> (lo <= i /\ i + 2 <= hi)%nat -> same_outside lo hi m (put16 m' i v).
Proof. intros H Hi. unfold put16. do 2 (apply same_put8; [|lia]). done. Qed.
Lemma same_put32 lo hi m m' i v :
  same_outside lo hi m m' -> (lo <= i /\ i + 4 <= hi)%nat -> same_outside lo hi m (put32 m' i v).
Proof. intros H Hi. unfold put32. do 2 (apply same_put16; [|lia]). done. Qed.
Lemma same_refl lo hi m : same_outside lo hi m m.
Proof. by split. Qed.

Lemma get16_same lo hi m m' i :
  same_outside lo hi m m' -> (i + 2 <= lo \/ hi <= i)%nat -> get16 m' i = get16 m i.
Proof. intros [_ H] Hi. unfold get16. by rewrite !H by lia. Qed.
Lemma get32_same lo hi m m' i :
  same_outside lo hi m m' -> (i + 4 <= lo \/ hi <= i)%nat -> get32 m' i = get32 m i.
Proof. intros S Hi. unfold get32. by rewrite !(get16_same lo hi m m') by (done || lia). Qed.

Ltac same_region :=
  repeat first [apply same_put8; [|lia] | apply same_put16; [|lia] | apply same_put32; [|lia]];
  try apply same_refl.

(** Timestamp calls change at most the synchronised flag. *)
Lemma timestamp_vi vi buf pkt fl :
  let '(vi', _, _, _) := ef10_receive_get_timestamp_with_sync_flags vi buf pkt fl in
  vi' = vi \/ vi' = desynchronise vi.
Proof.
  unfold ef10_receive_get_timestamp_with_sync_flags, ef10_receive_get_timestamp_with_sync_flags_internal.
  destruct (_ =? _); [by left|]. destruct (ts_format vi).
  - unfold ef10_ef_vi_receive_get_timestamp_with_sync_flags_from_tsync. cbv zeta.
    destruct (nz _); [|by left]. do 2 (destruct (_ <? _); [by left|]). by right.
  - unfold ef10_ef_vi_receive_get_timestamp_with_sync_flags_from_tsync_qns. cbv zeta.
    match goal with |- context [match ?w with Some _ => _ | None => _ end] => destruct w end;
      [|by left]. do 2 (destruct (_ <? _); [by left|]). by right.
Qed.

(** The timestamp depends on the four bytes of the stamp only. *)
Lemma timestamp_reads vi buf buf' pkt fl :
  get32 buf' (Z.to_nat (pkt + ES_DZ_RX_PREFIX_TSTAMP_OFST)) =
    get32 buf (Z.to_nat (pkt + ES_DZ_RX_PREFIX_TSTAMP_OFST)) ->
  ef10_receive_get_timestamp_with_sync_flags vi buf' pkt fl =
    ef10_receive_get_timestamp_with_sync_flags vi buf pkt fl.
Proof.
  intros E. unfold ef10_receive_get_timestamp_with_sync_flags,
    ef10_receive_get_timestamp_with_sync_flags_internal,
    ef10_ef_vi_receive_get_timestamp_with_sync_flags_from_tsync,
    ef10_ef_vi_receive_get_timestamp_with_sync_flags_from_tsync_qns. by rewrite E.
Qed.

Lemma ps_offset len :
  0 <= len <= 65400 ->
  EF_VI_ALIGN_FWD (len + ES_DZ_PS_RX_PREFIX_SIZE + EF_VI_PS_PACKET_GAP) EF_VI_PS_ALIGNMENT =
    (len + 135) / 64 * 64 /\ len + 72 <= (len + 135) / 64 * 64 < 65536.
Proof.
  intros H. unfold EF_VI_ALIGN_FWD, ES_DZ_PS_RX_PREFIX_SIZE, EF_VI_PS_PACKET_GAP, EF_VI_PS_ALIGNMENT.
  replace (len + 8 + 64 + 64 - 1) with (len + 135) by lia. rewrite u64_small by lia.
  split; [|Z.div_mod_to_equations; lia].
  change (u64 (Z.lnot (64 - 1))) with (Z.ldiff 18446744073709551615 (Z.ones 6)).
  apply Z.bits_inj'. intros n Hn. rewrite Z.land_spec, Z.ldiff_spec.
  change 18446744073709551615 with (Z.ones 64).
  change ((len + 135) / 64 * 64) with ((len + 135) / 2 ^ 6 * 2 ^ 6).
  rewrite <- Z.shiftr_div_pow2, <- Z.shiftl_mul_pow2, Z.shiftl_spec by lia.
  destruct (Z.ltb_spec n 6).
  - rewrite (Z.ones_spec_low 6) by lia. rewrite (Z.testbit_neg_r _ (n - 6)) by lia.
    by rewrite andb_false_r, andb_false_r.
  - rewrite (Z.ones_spec_high 6), Z.shiftr_spec by lia. replace (n - 6 + 6) with n by lia.
    cbn [negb]. rewrite andb_true_r. destruct (Z.ltb_spec n 64).
    + rewrite Z.ones_spec_low by lia. apply andb_true_r.
    + rewrite Z.ones_spec_high by lia. rewrite andb_false_r. symmetry.
      rewrite <- (Z.mod_small (len + 135) (2 ^ 64)) by lia. apply Z.mod_pow2_bits_high. lia.
Qed.

Section walk.
Context (mem_base : Z).
Abbreviation at_ := (at_ mem_base).

Lemma at_add pkt k : mem_base <= pkt -> 0 <= k -> at_ (pkt + k) = (at_ pkt + Z.to_nat k)%nat.
Proof. intros. unfold PackedStream.at_. lia. Qed.

(** What [ef10_unbundle_one_packet], and then or-ing the event's flags in,
    does to the memory: the fields of the header, and nothing past it but the
    stamp, which is cleared. *)
Lemma unbundle_one_spec vi mem pkt fl :
  mem_base <= pkt -> (at_ pkt + 24 <= length mem)%nat -> Forall byte_ok mem ->
  let len := get16 mem (at_ (pkt + 20)) in
  0 <= len <= 65400 ->
  let '(vi', mem1, rc) := ef10_unbundle_one_packet mem_base vi mem pkt in
  let mem' := put8 mem1 (at_ (pkt + ps_flags)) (Z.lor (get8 mem1 (at_ (pkt + ps_flags))) fl) in
  let '(_, ts, ts_fl, rc_ts) := ef10_receive_get_timestamp_with_sync_flags vi mem (pkt + 6 - mem_base) 0 in
  same_outside (at_ pkt) (at_ pkt + 20) mem mem' /\ rc = rc_ts /\
  (vi' = vi \/ vi' = desynchronise vi) /\
  ef_packed_stream_packet_next mem_base mem' pkt = pkt + (len + 135) / 64 * 64 /\
  ef_packed_stream_packet_payload mem_base mem' pkt = pkt + 24 /\
  get16 mem' (at_ (pkt + ps_cap_len)) = len /\
  get16 mem' (at_ (pkt + ps_orig_len)) = get16 mem (at_ (pkt + 22)) /\
  get32 mem' (at_ (pkt + ps_ts_sec)) = u32 (tv_sec ts) /\
  get32 mem' (at_ (pkt + ps_ts_nsec)) = u32 (tv_nsec ts).
Proof.
  intros Hb Hl Hok len Hlen. unfold ef10_unbundle_one_packet,
    ef_packed_stream_packet_next, ef_packed_stream_packet_payload.
  destruct (ps_offset len Hlen) as [Eo Ho].
  assert (Hi : forall k, 0 <= k -> at_ (pkt + k) = (at_ pkt + Z.to_nat k)%nat) by (intros; by apply at_add).
  cbv zeta. change (pkt + EF_VI_PS_METADATA_OFFSET + ES_DZ_PS_RX_PREFIX_CAP_LEN_OFST)
    with (pkt + 16 + 4). change (pkt + EF_VI_PS_METADATA_OFFSET + ES_DZ_PS_RX_PREFIX_ORIG_LEN_OFST)
    with (pkt + 16 + 6). replace (pkt + 16 + 4) with (pkt + 20) by lia.
  replace (pkt + 16 + 6) with (pkt + 22) by lia. fold len. rewrite Eo.
  replace (pkt + EF_VI_PS_METADATA_OFFSET + ES_DZ_PS_RX_PREFIX_TSTAMP_OFST -
    ES_DZ_RX_PREFIX_TSTAMP_OFST - mem_base) with (pkt + 6 - mem_base)
    by (unfold EF_VI_PS_METADATA_OFFSET, ES_DZ_PS_RX_PREFIX_TSTAMP_OFST, ES_DZ_RX_PREFIX_TSTAMP_OFST; lia).
  unfold EF_VI_PS_METADATA_OFFSET, ps_cap_len, ps_orig_len, ps_pkt_start_offset, ps_ts_sec,
    ps_ts_nsec, ps_flags, ps_next_offset.
  rewrite !Hi by lia. set (i := at_ pkt) in *.
  rewrite (timestamp_reads vi mem).
  2:{ replace (Z.to_nat (pkt + 6 - mem_base + ES_DZ_RX_PREFIX_TSTAMP_OFST)) with (i + 16)%nat
        by (unfold i, PackedStream.at_, ES_DZ_RX_PREFIX_TSTAMP_OFST; lia). by mem_read. }
  pose proof (timestamp_vi vi mem (pkt + 6 - mem_base) 0) as Hvi.
  destruct (ef10_receive_get_timestamp_with_sync_flags _ _ _ _) as [[[vi' ts] ts_fl] rc].
  assert (Hlu : u16 len = len) by (apply Z.mod_small; lia).
  pose proof (get16_range mem (i + Z.to_nat 22) Hok) as Hor.
  assert (Hou : u16 (get16 mem (i + Z.to_nat 22)) = get16 mem (i + Z.to_nat 22)) by (by apply Z.mod_small).
  split; [same_region|]. split; [done|]. split; [done|].
  mem_read. split_and!; try done. f_equal. apply Z.mod_small. lia.
Qed.

(** The space a packet of [len] bytes takes. *)
Definition ps_space (len : Z) : Z := (len + 135) / 64 * 64.

Lemma ps_space_bounds len : 0 <= len -> len + 72 <= ps_space len.
Proof. intros. unfold ps_space. Z.div_mod_to_equations. lia. Qed.

(** The NIC has written packets of the lengths [lens] from [pkt] on. *)
Fixpoint ps_stream (mem : list Z) (pkt : Z) (lens : list Z) : Prop :=
  match lens with
  | [] => True
  | len :: lens =>
      get16 mem (at_ (pkt + 20)) = len /\ 0 <= len <= 65400 /\
      (at_ (pkt + ps_space len) <= length mem)%nat /\ ps_stream mem (pkt + ps_space len) lens
  end.

Fixpoint ps_end (pkt : Z) (lens : list Z) : Z :=
  match lens with [] => pkt | len :: lens => ps_end (pkt + ps_space len) lens end.

(** The application, following the headers of [mem'], finds those packets:
    lengths, links and payloads are those of [mem]. *)
Fixpoint ps_iterates (mem mem' : list Z) (pkt : Z) (lens : list Z) : Prop :=
  match lens with
  | [] => True
  | len :: lens =>
      get16 mem' (at_ (pkt + ps_cap_len)) = len /\
      get16 mem' (at_ (pkt + ps_orig_len)) = get16 mem (at_ (pkt + 22)) /\
      (forall j, 0 <= j < len ->
         get8 mem' (at_ (ef_packed_stream_packet_payload mem_base mem' pkt + j)) =
           get8 mem (at_ (pkt + 24 + j))) /\
      ps_iterates mem mem' (ef_packed_stream_packet_next mem_base mem' pkt) lens
  end.

(** Only the memory from [pkt] on matters. *)
Definition same_from (pkt : Z) (m m' : list Z) : Prop :=
  length m' = length m /\ forall j, (at_ pkt <= j)%nat -> get8 m' j = get8 m j.

Lemma same_from_le pkt pkt' m m' : pkt <= pkt' -> same_from pkt m m' -> same_from pkt' m m'.
Proof. intros H [L E]. split; [done|]. intros j Hj. apply E. unfold PackedStream.at_ in *. lia. Qed.

Lemma ps_stream_same lens : forall m m' pkt,
  mem_base <= pkt -> same_from pkt m m' -> ps_stream m pkt lens -> ps_stream m' pkt lens.
Proof.
  induction lens as [|len lens IH]; intros m m' pkt Hb Hs; [done|].
  cbn [ps_stream]. intros (E & H & Hl & Hr). pose proof Hs as [L Eq].
  pose proof (ps_space_bounds len ltac:(lia)).
  split; [|split; [done|split; [by rewrite L|]]].
  - rewrite <- E. unfold get16. rewrite !Eq by (rewrite at_add by lia; lia). done.
  - apply (IH m); [lia| |done]. apply (same_from_le pkt); [lia|done].
Qed.

Lemma ps_iterates_same lens : forall m m1 m2 pkt,
  mem_base <= pkt -> same_from pkt m m1 -> Forall (fun len => 0 <= len) lens ->
  ps_iterates m1 m2 pkt lens -> (forall j, ef_packed_stream_packet_next mem_base m2 j >= j) ->
  ps_iterates m m2 pkt lens.
Proof.
  induction lens as [|len lens IH]; intros m m1 m2 pkt Hb Hs Hlen; [done|].
  apply Forall_cons_1 in Hlen as [Hlen Hlens]. cbn [ps_iterates]. intros (E1 & E2 & E3 & E4) Hn.
  pose proof Hs as [L Eq]. split; [done|]. split; [|split].
  - rewrite E2. unfold get16. rewrite !Eq by (rewrite at_add by lia; lia). done.
  - intros j Hj. rewrite E3 by done. apply Eq. unfold PackedStream.at_. lia.
  - pose proof (Hn pkt). apply (IH m m1); [lia|apply (same_from_le pkt); [lia|done]|done|done|done].
Qed.

Lemma ps_stream_lens lens : forall mem pkt,
  ps_stream mem pkt lens -> Forall (fun len => 0 <= len) lens /\ 0 <= foldr Z.add 0 lens.
Proof.
  induction lens as [|len lens IH]; intros mem pkt Hs; [done|].
  destruct Hs as (_ & H & _ & Hs). apply IH in Hs as [F S]. cbn [foldr].
  split; [apply Forall_cons; [lia|done]|lia].
Qed.

Lemma unbundle_one_ok vi mem pkt :
  Forall byte_ok mem -> Forall byte_ok (snd (fst (ef10_unbundle_one_packet mem_base vi mem pkt))).
Proof.
  intros H. unfold ef10_unbundle_one_packet. cbv zeta.
  destruct (ef10_receive_get_timestamp_with_sync_flags _ _ _ _) as [[[vi' ts] ts_fl] rc]. cbn [fst snd].
  repeat first [apply put8_ok | apply put16_ok | apply put32_ok]. done.
Qed.

Lemma unbundle_loop_spec lens : forall vi mem pkt bytes rc fl,
  mem_base <= pkt -> Forall byte_ok mem -> ps_stream mem pkt lens ->
  0 <= bytes -> bytes + foldr Z.add 0 lens < 2147483648 ->
  let '(vi', mem', pkt', bytes', _) := unbundle_loop mem_base (length lens) fl vi mem pkt bytes rc in
  (vi' = vi \/ vi' = desynchronise vi) /\ Forall byte_ok mem' /\ length mem' = length mem /\
  (forall j, (j < at_ pkt)%nat -> get8 mem' j = get8 mem j) /\
  pkt' = ps_end pkt lens /\ bytes' = bytes + foldr Z.add 0 lens /\ ps_iterates mem mem' pkt lens.
Proof.
  induction lens as [|len lens IH]; intros vi mem pkt bytes rc fl Hb Hok Hs H0 Hsum.
  { cbn. rewrite Z.add_0_r. split_and!; auto. }
  cbn [ps_stream] in Hs. destruct Hs as (El & Hlen & Hl & Hs). cbn [foldr] in Hsum.
  pose proof (ps_space_bounds len ltac:(lia)) as Hsp.
  assert (Hl24 : (at_ pkt + 24 <= length mem)%nat) by (rewrite at_add in Hl by lia; lia).
  pose proof (ps_stream_lens _ _ _ Hs) as [Hnn Hsl].
  cbn [length unbundle_loop].
  pose proof (unbundle_one_spec vi mem pkt fl Hb Hl24 Hok ltac:(by rewrite El)) as U.
  pose proof (unbundle_one_ok vi mem pkt Hok) as Hok1.
  destruct (ef10_unbundle_one_packet mem_base vi mem pkt) as [[vi1 mem1] rc1]. cbn [fst snd] in Hok1.
  destruct (ef10_receive_get_timestamp_with_sync_flags _ _ _ _) as [[[vi0 ts] ts_fl] rc_ts].
  destruct U as (Hso & _ & Hvi & En & Ep & Ec & Eo & _). rewrite El in En, Ec. fold (ps_space len) in En.
  assert (Hok2 : Forall byte_ok (put8 mem1 (at_ (pkt + ps_flags))
    (Z.lor (get8 mem1 (at_ (pkt + ps_flags))) fl))) by (by apply put8_ok).
  set (mem2 := put8 mem1 _ _) in *. rewrite En, Ec.
  assert (Hfrom : same_from (pkt + ps_space len) mem mem2).
  { destruct Hso as [L E]. split; [done|]. intros j Hj. apply E. rewrite at_add in Hj by lia. lia. }
  rewrite (s32_small (bytes + len)) by lia.
  specialize (IH vi1 mem2 (pkt + ps_space len) (bytes + len) rc1 fl ltac:(lia) Hok2
    (ps_stream_same lens mem mem2 (pkt + ps_space len) ltac:(lia) Hfrom Hs) ltac:(lia) ltac:(lia)).
  destruct (unbundle_loop _ _ _ _ _ _ _ _) as [[[[vi' mem'] pkt'] bytes'] rc'].
  destruct IH as (Hvi' & Hok' & L' & Hlow & -> & -> & Hit). destruct Hso as [L Hso].
  assert (Hlow' : forall j, (j < at_ pkt + 24 + Z.to_nat len)%nat -> get8 mem' j = get8 mem2 j).
  { intros j Hj. apply Hlow. rewrite at_add by lia. lia. }
  assert (H16 : forall k, 0 <= k <= 22 -> get16 mem' (at_ (pkt + k)) = get16 mem2 (at_ (pkt + k))).
  { intros k Hk. unfold get16. rewrite !Hlow' by (rewrite at_add by lia; lia). done. }
  assert (Enext : ef_packed_stream_packet_next mem_base mem' pkt = pkt + ps_space len).
  { rewrite <- En. unfold ef_packed_stream_packet_next. by rewrite H16 by (unfold ps_next_offset; lia). }
  assert (Epay : ef_packed_stream_packet_payload mem_base mem' pkt = pkt + 24).
  { rewrite <- Ep. unfold ef_packed_stream_packet_payload. f_equal. apply Hlow'.
    unfold ps_pkt_start_offset. rewrite at_add by lia. lia. }
  split; [|split; [done|split; [by rewrite L'|split; [|split; [done|split; [cbn; lia|]]]]]].
  - destruct Hvi as [-> | ->], Hvi' as [-> | ->]; auto.
  - intros j Hj. rewrite Hlow' by lia. apply Hso. lia.
  - cbn [ps_iterates]. rewrite Enext, Epay, !H16 by (unfold ps_cap_len, ps_orig_len; lia).
    split; [done|]. split; [done|]. split.
    + intros j Hj. rewrite Hlow' by (rewrite <- Z.add_assoc, at_add by lia; lia).
      apply Hso. rewrite <- Z.add_assoc, at_add by lia. lia.
    + apply (ps_iterates_same _ _ mem2); [lia|done|done|done|]. intros j. unfold ef_packed_stream_packet_next.
      pose proof (get16_range mem' (at_ (j + ps_next_offset)) Hok'). unfold PackedStream.at_ in *. lia.
Qed.
End walk.

(** * Properties *)

(** C27: unbundling an event of [length lens] packets: the application,
    following the headers from the old iterator, finds exactly the packets the
    NIC wrote, with their lengths and with their payloads unharmed by the headers
    written between them; the new iterator is where the next packet will be, the
    byte count is the sum of the lengths, and memory before the first packet is
    untouched. *)
Theorem ps_unbundle_iterates mem_base vi mem pkt_iter lens fl :
  mem_base <= pkt_iter -> Forall byte_ok mem -> ps_stream mem_base mem pkt_iter lens ->
  foldr Z.add 0 lens < 2147483648 ->
  exists vi0 mem' rc,
    ef_vi_packed_stream_unbundle mem_base vi (Z.of_nat (length lens)) fl mem pkt_iter =
      (ef10_packed_stream_update_credit vi0 (pkt_iter + 16) (ps_end pkt_iter lens + 16), mem',
       ps_end pkt_iter lens, Z.of_nat (length lens), foldr Z.add 0 lens, rc) /\
    (vi0 = vi \/ vi0 = desynchronise vi) /\
    ps_iterates mem_base mem mem' pkt_iter lens /\ length mem' = length mem /\
    forall j, (j < at_ mem_base pkt_iter)%nat -> get8 mem' j = get8 mem j.
Proof.
  intros Hb Hok Hs Hsum. unfold ef_vi_packed_stream_unbundle. rewrite Nat2Z.id.
  pose proof (unbundle_loop_spec mem_base lens vi mem pkt_iter 0 0 fl Hb Hok Hs ltac:(lia) ltac:(lia)) as U.
  destruct (unbundle_loop _ _ _ _ _ _ _ _) as [[[[vi0 mem'] pkt'] bytes] rc].
  destruct U as (Hvi & _ & L & Hlow & -> & -> & Hit). by exists vi0, mem', rc.
Qed.

(** C35: credit accounting: after DMA from [a] to [b] the library takes back the
    64 KB boundaries crossed and grants the NIC exactly what brings it back to the
    maximum, in one doorbell, or writes nothing when nothing was used. *)
Theorem ps_credit_conserved vi a b :
  let avail := rx_ps_credit_avail (rxq_state vi) in
  let max := ef_ps_max_credits vi in
  0 <= crossings a b <= 2 -> crossings a b <= avail <= max -> max < 128 ->
  let vi' := ef10_packed_stream_update_credit vi a b in
  let granted := max - (avail - crossings a b) in
  rx_ps_credit_avail (rxq_state vi') = max /\
  io_log vi' = io_log vi ++
    (if granted =? 0 then [] else [Writel (2048 + granted) (io vi + ER_DZ_RX_DESC_UPD_REG)]).
Proof.
  intros avail max Hc Ha Hm vi' granted. unfold vi', ef10_packed_stream_update_credit.
  rewrite credits_consumed_crossings by done.
  assert (E : u16 (avail - crossings a b) = avail - crossings a b) by (apply Z.mod_small; lia).
  set (vi1 := upd_rxq _ vi). unfold ef_vi_packed_stream_update_credit.
  assert (E1 : rx_ps_credit_avail (rxq_state vi1) = avail - crossings a b) by exact E.
  change (ef_ps_max_credits vi1) with max. rewrite E1. fold granted.
  destruct (Z.ltb_spec (avail - crossings a b) max).
  - destruct (Z.eqb_spec granted 0); [lia|]. split.
    + change (u16 (rx_ps_credit_avail (rxq_state vi1) + granted) = max). rewrite E1.
      unfold granted. rewrite Z.add_comm, Z.sub_add. apply Z.mod_small. lia.
    + rewrite <- grant_word by lia. reflexivity.
  - destruct (Z.eqb_spec granted 0); [|lia]. rewrite app_nil_r. split; [lia|reflexivity].
Qed.

(** Events a packed-stream VI can spend on received packets. *)
Definition ps_events_available (vi : ef_vi) : Z :=
  ef_eventq_capacity vi -
    ef_vi_transmit_capacity vi * (if vi_flag vi (Z.lor EF_VI_TX_TIMESTAMPS EF_VI_TX_ALT) then 3 else 1) - 100.

(** C36: [ef_ps_max_credits] grants as many credits as the event queue has room
    for at 341 events per credit, as long as it has any; with too small an event
    queue the division is made on an unsigned number, so the clamp to zero never
    applies and the result is over six million credits. *)
Theorem ps_max_credits_bounds vi :
  0 <= ef_vi_transmit_capacity vi <= 65536 ->
  -1000000 <= ef_eventq_capacity vi <= 1000000 ->
  let n := ps_events_available vi in
  (0 <= n -> ef_ps_max_credits vi * 341 <= n < (ef_ps_max_credits vi + 1) * 341) /\
  (n < 0 -> 12000000 <= ef_ps_max_credits vi).
Proof.
  intros Ht He n. unfold ef_ps_max_credits.
  assert (En : s32 (ef_eventq_capacity vi -
    (if vi_flag vi (Z.lor EF_VI_TX_TIMESTAMPS EF_VI_TX_ALT) then s32 (ef_vi_transmit_capacity vi * 3)
     else ef_vi_transmit_capacity vi) - 100) = n).
  { unfold n, ps_events_available. destruct (vi_flag vi _).
    - rewrite (s32_small (ef_vi_transmit_capacity vi * 3)) by lia. rewrite s32_small; lia.
    - rewrite s32_small; lia. }
  cbv zeta. rewrite En. change EF_VI_PS_MAX_EVENTS_PER_CREDIT with 341.
  assert (Hn : -1300000 <= n <= 1000000).
  { unfold n, ps_events_available. destruct (vi_flag vi _); lia. }
  clearbody n. clear En.
  assert (Hd : 0 <= u32 n / 341 < 2147483648) by word_lia. rewrite s32_small by lia.
  destruct (Z.ltb_spec (u32 n / 341) 0); [lia|]. split; intros; word_lia.
Qed.

(** The return code is that of the last packet: with the clock in sync, a
    packet without a stamp followed by one with a stamp gives 0 although the two
    calls return different values. *)
Lemma ps_unbundle_hides_missing_stamp :
  let vi := ex_ts_vi <| ts_format := TS_FORMAT_SECONDS_27FRACTION |> in
  let vi := upd_evq (fun _ => mk_eventq_state 0 0 10 0 9 1 3) vi in
  let first := replicate 16 0 ++ [0; 0; 0; 128; 60; 0; 60; 0] ++ replicate 168 0 in
  let second := replicate 16 0 ++ [0; 0; 1; 0; 60; 0; 60; 0] ++ replicate 168 0 in
  let '(_, _, _, _, _, rc) := ef_vi_packed_stream_unbundle 0 vi 2 0 (first ++ second) 0 in
  let '(_, _, rc1) := ef10_unbundle_one_packet 0 vi (first ++ second) 0 in
  rc1 = - ENODATA /\ rc = 0.
Proof. vm_compute. split; reflexivity. Qed.

(** ** Witnesses *)

Definition ex_ps_mem : list Z :=
  replicate 256 0 ++ replicate 16 0 ++ [0; 0; 1; 0; 60; 0; 60; 0] ++ replicate 168 7
                  ++ replicate 16 0 ++ [0; 0; 1; 0; 70; 0; 70; 0] ++ replicate 232 8.

Lemma ps_unbundle_iterates_witness :
  exists vi' mem' rc,
    ef_vi_packed_stream_unbundle 4096 ex_ts_vi 2 0 ex_ps_mem 4352 =
      (vi', mem', 4352 + 192 + 192, 2, 130, rc) /\
    ps_iterates 4096 ex_ps_mem mem' 4352 [60; 70].
Proof.
  destruct (ps_unbundle_iterates 4096 ex_ts_vi ex_ps_mem 4352 [60; 70] 0) as (vi0 & mem' & rc & E & _ & I & _).
  - lia.
  - repeat (apply Forall_cons; [unfold byte_ok; lia|]). apply Forall_nil_2.
  - vm_compute. repeat split; try discriminate; lia.
  - reflexivity.
  - exists (ef10_packed_stream_update_credit vi0 4368 4752), mem', rc. split; [exact E|exact I].
Defined.

Definition ex_ps_vi : ef_vi :=
  vi_zero <| evq_mask := 32768 * 8 - 1 |> <| vi_txq := mk_ring 511 [] [] |>
    <| ep_state := mk_vi_state (mk_eventq_state 0 0 0 0 0 0 0) (mk_txq_state 0 0 0 0)
                     (mk_rxq_state 0 0 0 0 0 0 94) |>.

Lemma ps_credit_conserved_witness :
  rx_ps_credit_avail (rxq_state (ef10_packed_stream_update_credit ex_ps_vi 65000 140000)) = 94.
Proof.
  apply (ps_credit_conserved ex_ps_vi 65000 140000); vm_compute; intuition discriminate.
Defined.

(** 512 events and 511 descriptors: no room, so 12.6 million credits. *)
Lemma ps_max_credits_bounds_witness :
  12000000 <= ef_ps_max_credits (ex_ps_vi <| evq_mask := 4095 |>).
Proof.
  apply (ps_max_credits_bounds (ex_ps_vi <| evq_mask := 4095 |>)); vm_compute;
    (intuition discriminate) || reflexivity.
Defined.
