(* ===== verification/ViInit.v ===== *)
(** Initialisation of a virtual interface: lib/ciul/vi_init.c, vi_discard.c,
    [ef10_vi_init], [falcon_vi_init] and the part of [__ef_vi_alloc]
    (lib/ciul/pt_endpoint.c) that runs once the kernel has granted the resource.

    The rings come as memory with arbitrary contents; the theorems say that the
    initialisers put it in the state the data-path theorems start from.  What
    the code asks of its environment is a parameter: [getenv], [sys_is_numa],
    and the driver's answers to the timestamp queries.  A failed [abort] or an
    error exit of the allocation is [None]. *)

From stdpp Require Import base list numbers strings.
From S2P Require Import Prelude Bitfield Vi Ring Tx Rx Event PackedStream.

Open Scope Z_scope.

Definition EF_VI_INITED_NIC := 1.
Definition EF_VI_INITED_IO := 2.
Definition EF_VI_INITED_RXQ := 4.
Definition EF_VI_INITED_TXQ := 8.
Definition EF_VI_INITED_EVQ := 16.
Definition EF_VI_INITED_TIMER := 32.
Definition EF_VI_INITED_RX_TIMESTAMPING := 64.
Definition EF_VI_INITED_TX_TIMESTAMPING := 128.
Definition EF_VI_INITED_OUT_FLAGS := 256.
Definition EF_VI_EVS_PER_CACHE_LINE := 8.
Definition EFHW_VI_NIC_BUG35388_WORKAROUND := 1.

(** [vi->inited |= bit] *)
Definition set_inited (bit : Z) (vi : ef_vi) : ef_vi := vi <| inited ::= fun i => Z.lor i bit |>.

(** ** Sizes *)

(** [sizeof(ef_vi_state)] is a parameter of the build. *)
Definition EF_VI_STATE_BYTES (sizeof_state rxq_sz txq_sz : Z) : Z :=
  s32 (u64 (sizeof_state + rxq_sz * 4 + txq_sz * 4)).

Definition ef_vi_calc_state_bytes (sizeof_state rxq_sz txq_sz : Z) : Z :=
  EF_VI_STATE_BYTES sizeof_state rxq_sz txq_sz.

Definition ef_vi_state_bytes (sizeof_state : Z) (vi : ef_vi) : Z :=
  let rxq_sz := if nz (q_mask (vi_rxq vi)) then s32 (q_mask (vi_rxq vi) + 1) else 0 in
  let txq_sz := if nz (q_mask (vi_txq vi)) then s32 (q_mask (vi_txq vi) + 1) else 0 in
  EF_VI_STATE_BYTES sizeof_state rxq_sz txq_sz.

Definition rx_desc_bytes (vi : ef_vi) : Z :=
  match arch (nic_type vi) with
  | EF_VI_ARCH_FALCON => if vi_flag vi EF_VI_RX_PHYS_ADDR then 8 else 4
  | EF_VI_ARCH_EF10 => 8
  end.

Definition tx_desc_bytes (vi : ef_vi) : Z :=
  match arch (nic_type vi) with EF_VI_ARCH_FALCON => 8 | EF_VI_ARCH_EF10 => 8 end.

Definition ef_vi_rx_ring_bytes (vi : ef_vi) : Z := s32 (u32 (u32 (q_mask (vi_rxq vi) + 1) * rx_desc_bytes vi)).
Definition ef_vi_tx_ring_bytes (vi : ef_vi) : Z := s32 (u32 (u32 (q_mask (vi_txq vi) + 1) * tx_desc_bytes vi)).

(** ** Discards *)

Definition bit (n : Z) : Z := Z.shiftl 1 n.

Definition RX_EV_TOBE_DISC_LBN := 47.
Definition RX_EV_FRM_TRUNC_LBN := 49.
Definition RX_EV_ETH_CRC_ERR_LBN := 50.
Definition RX_EV_TCP_UDP_CHKSUM_ERR_LBN := 51.
Definition RX_EV_IP_HDR_CHKSUM_ERR_LBN := 52.
Definition RX_EV_BUF_OWNER_ID_ERR_LBN := 54.

(** [if( flags & flag ) mask |= 1LL << lbn;] *)
Definition add_if (flags flag lbn mask : Z) : Z :=
  if nz (Z.land flags flag) then Z.lor mask (bit lbn) else mask.

Definition falcon_ef_vi_receive_set_discards (vi : ef_vi) (discard_err_flags : Z) : ef_vi * Z :=
  let mask := Z.lor (bit RX_EV_FRM_TRUNC_LBN) (bit RX_EV_BUF_OWNER_ID_ERR_LBN) in
  let mask := add_if discard_err_flags EF_VI_DISCARD_RX_TOBE_DISC RX_EV_TOBE_DISC_LBN mask in
  let mask := add_if discard_err_flags EF_VI_DISCARD_RX_L4_CSUM_ERR RX_EV_TCP_UDP_CHKSUM_ERR_LBN mask in
  let mask := add_if discard_err_flags EF_VI_DISCARD_RX_L3_CSUM_ERR RX_EV_IP_HDR_CHKSUM_ERR_LBN mask in
  let mask := add_if discard_err_flags EF_VI_DISCARD_RX_ETH_FCS_ERR RX_EV_ETH_CRC_ERR_LBN mask in
  (vi <| rx_discard_mask := mask |>, 0).

Definition ef10_ef_vi_receive_set_discards (vi : ef_vi) (discard_err_flags : Z) : ef_vi * Z :=
  let mask := 0 in
  let mask := add_if discard_err_flags EF_VI_DISCARD_RX_ETH_LEN_ERR (LBN ESF_DZ_RX_ECC_ERR) mask in
  let mask := add_if discard_err_flags EF_VI_DISCARD_RX_L4_CSUM_ERR (LBN ESF_DZ_RX_TCPUDP_CKSUM_ERR) mask in
  let mask := add_if discard_err_flags EF_VI_DISCARD_RX_L3_CSUM_ERR (LBN ESF_DZ_RX_IPCKSUM_ERR) mask in
  let mask := add_if discard_err_flags EF_VI_DISCARD_RX_INNER_L4_CSUM_ERR
                (LBN ESF_DZ_RX_INNER_TCPUDP_CKSUM_ERR) mask in
  let mask := add_if discard_err_flags EF_VI_DISCARD_RX_INNER_L3_CSUM_ERR
                (LBN ESF_DZ_RX_INNER_IPCKSUM_ERR) mask in
  let mask := add_if discard_err_flags EF_VI_DISCARD_RX_ETH_FCS_ERR (LBN ESF_DZ_RX_ECRC_ERR) mask in
  (vi <| rx_discard_mask := mask |>, 0).

Definition ef_vi_receive_set_discards (vi : ef_vi) (discard_err_flags : Z) : ef_vi * Z :=
  match arch (nic_type vi) with
  | EF_VI_ARCH_FALCON => falcon_ef_vi_receive_set_discards vi discard_err_flags
  | EF_VI_ARCH_EF10 => ef10_ef_vi_receive_set_discards vi discard_err_flags
  end.

(** ** Plain setters *)

Definition ef_vi_set_stats_buf (s : option ef_vi_stats) (vi : ef_vi) : ef_vi := vi <| vi_stats := s |>.

Definition ef_vi_set_tx_push_threshold (threshold : Z) (vi : ef_vi) : ef_vi :=
  if decide (arch (nic_type vi) <> EF_VI_ARCH_FALCON) then vi <| tx_push_thresh := threshold |> else vi.

Definition ef_vi_init_io (io_area : Z) (vi : ef_vi) : ef_vi :=
  set_inited EF_VI_INITED_IO (vi <| io := io_area |>).

Definition ef_vi_init_rxq (ring_size : Z) (descriptors ids : list Z) (prefix_len : Z) (vi : ef_vi) : ef_vi :=
  let vi := vi <| vi_rxq := mk_ring (u32 (ring_size - 1)) descriptors ids |> in
  let vi := vi <| rx_prefix_len := prefix_len |> in
  set_inited EF_VI_INITED_RXQ vi.

Definition ef_vi_init_txq (ring_size : Z) (descriptors ids : list Z) (vi : ef_vi) : ef_vi :=
  let vi := vi <| vi_txq := mk_ring (u32 (ring_size - 1)) descriptors ids |> in
  let falcon := bool_decide (arch (nic_type vi) = EF_VI_ARCH_FALCON) in
  let vi := vi <| tx_push_thresh := if falcon then 1 else 16 |> in
  let vi := if vi_flag vi EF_VI_TX_PUSH_DISABLE then vi <| tx_push_thresh := 0 |> else vi in
  let vi := if vi_flag vi EF_VI_TX_PUSH_ALWAYS && negb falcon
            then vi <| tx_push_thresh := u32 (-1) |> else vi in
  set_inited EF_VI_INITED_TXQ vi.

Definition ef_vi_init_evq (ring_size : Z) (event_ring : list Z) (vi : ef_vi) : ef_vi :=
  let vi := vi <| evq_mask := u32 (ring_size * 8 - 1) |> in
  let vi := vi <| evq_base := event_ring |> in
  set_inited EF_VI_INITED_EVQ vi.

Definition ef_vi_init_timer (quantum : Z) (vi : ef_vi) : ef_vi :=
  set_inited EF_VI_INITED_TIMER (vi <| timer_quantum_ns := u32 quantum |>).

Definition ef_vi_init_rx_timestamping (correction : Z) (vi : ef_vi) : ef_vi :=
  let vi := vi <| rx_ts_correction := correction |> in
  let vi :=
    match ts_format vi with
    | TS_FORMAT_SECONDS_QTR_NANOSECONDS =>
        let vi := if rx_ts_correction vi =? 0 then vi <| rx_ts_correction := -76 |> else vi in
        if rx_ts_correction vi <=? -2 then vi <| rx_ts_correction ::= fun c => c + 2 |> else vi
    | TS_FORMAT_SECONDS_27FRACTION => vi
    end in
  set_inited EF_VI_INITED_RX_TIMESTAMPING vi.

Definition ef_vi_set_ts_format (fmt : ef_timestamp_format) (vi : ef_vi) : ef_vi :=
  vi <| ts_format := fmt |>.

(** [variant >= 'C'] *)
Definition ef_vi_init_tx_timestamping (correction : Z) (vi : ef_vi) : ef_vi :=
  let correction := if 67 <=? variant (nic_type vi) then Z.quot correction 4 else correction in
  let vi := vi <| tx_ts_correction_ns := Z.land correction (Z.lnot EF_EVENT_TX_WITH_TIMESTAMP_SYNC_MASK) |> in
  set_inited EF_VI_INITED_TX_TIMESTAMPING vi.

Definition ef_vi_init_out_flags (flags : Z) (vi : ef_vi) : ef_vi :=
  set_inited EF_VI_INITED_OUT_FLAGS vi <| vi_out_flags := flags |>.

(** [ef_vi_add_queue]: the label, or [-EBUSY]. *)
Definition ef_vi_add_queue (evq_vi : ef_vi) (add_vi : nat) : ef_vi * Z :=
  if vi_qs_n evq_vi =? EF_VI_MAX_QS then (evq_vi, - EBUSY)
  else
    let q_label := vi_qs_n evq_vi in
    let evq_vi := evq_vi <| vi_qs_n := q_label + 1 |> in
    (evq_vi <| vi_qs ::= fun l => <[Z.to_nat q_label := Some add_vi]> l |>, q_label).

(** ** Resetting the rings *)

(** [for( i = 0; i <= mask; ++i ) ids[i] = EF_REQUEST_ID_MASK;] *)
Fixpoint clear_ids (n : nat) (i : Z) (ids : list Z) : list Z :=
  match n with
  | O => ids
  | S n => clear_ids n (i + 1) (aset ids i EF_REQUEST_ID_MASK)
  end.

Definition ef_vi_reset_rxq (vi : ef_vi) : ef_vi :=
  let last := if nz (vi_is_packed_stream vi) then u16 (q_mask (vi_rxq vi)) else 0 in
  let vi := upd_rxq (fun qs =>
    qs <| rx_posted := 0 |> <| rx_added := 0 |> <| rx_removed := 0 |> <| rx_in_jumbo := 0 |>
       <| rx_bytes_acc := 0 |> <| rx_ps_credit_avail := 1 |> <| rx_last_desc_i := last |>) vi in
  if nz (q_mask (vi_rxq vi))
  then vi <| vi_rxq ::= fun q => q <| q_ids ::= clear_ids (Z.to_nat (q_mask q + 1)) 0 |> |>
  else vi.

Definition ef_vi_reset_txq (vi : ef_vi) : ef_vi :=
  let vi := upd_txq (fun qs =>
    qs <| tx_previous := 0 |> <| tx_added := 0 |> <| tx_removed := 0 |>
       <| tx_ts_nsec := EF_VI_TX_TIMESTAMP_TS_NSEC_INVALID |>) vi in
  if nz (q_mask (vi_txq vi))
  then vi <| vi_txq ::= fun q => q <| q_ids ::= clear_ids (Z.to_nat (q_mask q + 1)) 0 |> |>
  else vi.

(** [memset(vi->evq_base, 0xff, vi->evq_mask + 1)] *)
Definition memset_evq (vi : ef_vi) : ef_vi :=
  let n := Z.to_nat (u32 (evq_mask vi + 1) / EF_VI_EV_SIZE) in
  vi <| evq_base ::= fun l => replicate n EV_NULL ++ drop n l |>.

(** [atoi]: leading white space, a sign, digits up to the first other
    character. *)
Fixpoint atoi_digits (s : string) (acc : Z) : Z :=
  match s with
  | EmptyString => acc
  | String c s =>
      let d := Z.of_nat (Ascii.nat_of_ascii c) - 48 in
      if (0 <=? d) && (d <=? 9) then atoi_digits s (10 * acc + d) else acc
  end.

Fixpoint atoi (s : string) : Z :=
  match s with
  | EmptyString => 0
  | String c s' =>
      let n := Z.of_nat (Ascii.nat_of_ascii c) in
      if (n =? 32) || ((9 <=? n) && (n <=? 13)) then atoi s'
      else if n =? 45 then s32 (- atoi_digits s' 0)
      else if n =? 43 then s32 (atoi_digits s' 0)
      else s32 (atoi_digits s 0)
  end.

Section environment.
Context (getenv : string -> option string) (sys_is_numa : bool).

Definition ef_vi_evq_clear_stride : Z :=
  match getenv "EF_VI_EVQ_CLEAR_STRIDE"%string with
  | Some s => u32 (atoi s)
  | None => if sys_is_numa then EF_VI_EVS_PER_CACHE_LINE else 0
  end.

Definition ef_vi_reset_evq (clear_ring : bool) (vi : ef_vi) : ef_vi :=
  let vi := if clear_ring then memset_evq vi else vi in
  upd_evq (fun evqs =>
    evqs <| evq_ptr := 0 |>
         <| evq_clear_stride := s32 (- s32 ef_vi_evq_clear_stride) |>
         <| sync_timestamp_synchronised := 0 |>
         <| sync_timestamp_major := 4294967295 |>
         <| sync_flags := 0 |>) vi.

Definition ef_vi_init_state (vi : ef_vi) : ef_vi :=
  ef_vi_reset_evq false (ef_vi_reset_txq (ef_vi_reset_rxq vi)).

(** [None]: a bad mode, and the code aborts. *)
Definition select_ctpio_method : option ctpio_method :=
  match getenv "EF_VI_CTPIO_MODE"%string with
  | Some s =>
      if String.eqb s "fast" then Some Ctpio_fast
      else if String.eqb s "paced" then Some Ctpio_paced
      else if String.eqb s "in_order" then Some Ctpio_in_order
      else None
  | None => Some Ctpio_paced
  end.

Definition ef10_vi_initialise_ops (vi : ef_vi) : option ef_vi :=
  match select_ctpio_method with
  | None => None
  | Some m =>
      Some (vi <| ops := Ops_ef10 m (vi_flag vi EF_VI_RX_PACKED_STREAM)
        (nz (Z.land (nic_flags (nic_type vi)) EFHW_VI_NIC_BUG35388_WORKAROUND)) |>)
  end.

Definition ef10_vi_init (vi : ef_vi) : option ef_vi :=
  let vi := vi <| rx_buffer_len := 2048 - 256 |> in
  let vi := vi <| rx_discard_mask :=
    Z.lor (bit (LBN ESF_DZ_RX_ECC_ERR)) (Z.lor (bit (LBN ESF_DZ_RX_TCPUDP_CKSUM_ERR))
      (Z.lor (bit (LBN ESF_DZ_RX_IPCKSUM_ERR)) (Z.lor (bit (LBN ESF_DZ_RX_INNER_TCPUDP_CKSUM_ERR))
        (Z.lor (bit (LBN ESF_DZ_RX_INNER_IPCKSUM_ERR)) (bit (LBN ESF_DZ_RX_ECRC_ERR)))))) |> in
  ef10_vi_initialise_ops vi.

Definition falcon_vi_initialise_ops (vi : ef_vi) : ef_vi := vi <| ops := Ops_falcon |>.

Definition falcon_vi_init (vi : ef_vi) : ef_vi :=
  let vi := vi <| rx_buffer_len := 2048 - 256 |> in
  let vi := vi <| rx_discard_mask :=
    Z.lor (bit RX_EV_TOBE_DISC_LBN) (Z.lor (bit RX_EV_TCP_UDP_CHKSUM_ERR_LBN)
      (Z.lor (bit RX_EV_IP_HDR_CHKSUM_ERR_LBN) (Z.lor (bit RX_EV_ETH_CRC_ERR_LBN)
        (Z.lor (bit RX_EV_FRM_TRUNC_LBN) (bit RX_EV_BUF_OWNER_ID_ERR_LBN))))) |> in
  falcon_vi_initialise_ops vi.

(** [enum ef_vi_arch] as the [int] it is passed as. *)
Definition arch_of (a : Z) : option ef_vi_arch :=
  if a =? 0 then Some EF_VI_ARCH_FALCON else if a =? 1 then Some EF_VI_ARCH_EF10 else None.

(** [memset(vi, 0, ...)], then the fields.  The registers already written are
    not part of the structure.  [Some (vi, rc)], or [None] for the abort. *)
Definition ef_vi_init (a var rev flags nflags : Z) (state : ef_vi_state) (vi : ef_vi)
    : option (ef_vi * Z) :=
  let vi := vi_zero <| io_log := io_log vi |> in
  let vi := vi <| vi_flags := flags |> in
  let vi := vi <| ep_state := state |> in
  let vi := vi <| vi_is_normal :=
    b2z ((Z.land flags EF_VI_RX_EVENT_MERGE =? 0) && (Z.land flags EF_VI_RX_PACKED_STREAM =? 0)) |> in
  match arch_of a with
  | None => Some (vi, - EINVAL)
  | Some ar =>
      let vi := vi <| nic_type := mk_nic_type ar var rev nflags |> in
      let vi := match ar with EF_VI_ARCH_FALCON => Some (falcon_vi_init vi)
                            | EF_VI_ARCH_EF10 => ef10_vi_init vi end in
      match vi with Some vi => Some (set_inited EF_VI_INITED_NIC vi, 0) | None => None end
  end.

(** ** Allocation *)

(** What the kernel returned for the new resource, with its memory. *)
Record vi_resource := mk_vi_resource {
  r_arch : Z; r_variant : Z; r_revision : Z; r_nic_flags : Z;
  r_clock_sync_status : bool;
  r_io : Z;
  r_evq : option (Z * list Z);  (* capacity, ring; [None] for no queue *)
  r_rxq : option (Z * list Z * list Z * Z);  (* capacity, ring, ids, prefix_len *)
  r_txq : option (Z * list Z * list Z);
  r_state : ef_vi_state;
  r_ps_buf_size : option Z;
  r_ts_correction : option (Z * Z);  (* [get_ts_correction]: rx and tx, or an error *)
  r_ts_format : option ef_timestamp_format  (* the driver's answer, if it knows the query *)
}.

(** [get_ts_format]: an old driver means the old format; it cannot fail. *)
Definition get_ts_format (r : vi_resource) : ef_timestamp_format :=
  match r_ts_format r with Some f => f | None => TS_FORMAT_SECONDS_27FRACTION end.

(** The timestamping block of [__ef_vi_alloc]. *)
Definition alloc_timestamping (r : vi_resource) (vi : ef_vi) : option ef_vi :=
  if nz (Z.land (vi_flags vi) (Z.lor EF_VI_RX_TIMESTAMPS EF_VI_TX_TIMESTAMPS)) then
    match r_ts_correction r with
    | None => None
    | Some (rx, tx) =>
        let vi := match r_rxq r with Some _ => ef_vi_init_rx_timestamping rx vi | None => vi end in
        let vi := match r_txq r with Some _ => ef_vi_init_tx_timestamping tx vi | None => vi end in
        Some (ef_vi_set_ts_format (get_ts_format r) vi)
    end
  else Some vi.

(** [__ef_vi_alloc] from [ef_vi_init] to [ef_vi_init_state].  [ids] arrays
    come with the rings. *)
Definition vi_alloc_init (flags : Z) (r : vi_resource) (vi : ef_vi) : option ef_vi :=
  match ef_vi_init (r_arch r) (r_variant r) (r_revision r) flags (r_nic_flags r) (r_state r) vi with
  | None => None
  | Some (vi, _) =>
      let vi := ef_vi_init_out_flags (if r_clock_sync_status r then EF_VI_OUT_CLOCK_SYNC_STATUS else 0) vi in
      let vi := ef_vi_init_io (r_io r) vi in
      let vi := match r_evq r with Some (n, ring) => ef_vi_init_evq n ring vi | None => vi end in
      let vi := match r_rxq r with
                | Some (n, ring, ids, prefix_len) => ef_vi_init_rxq n ring ids prefix_len vi
                | None => vi end in
      let vi := match r_txq r with
                | Some (n, ring, ids) => ef_vi_init_txq n ring ids vi | None => vi end in
      match alloc_timestamping r vi with
      | None => None
      | Some vi =>
          let vi := vi <| vi_ps_buf_size := match r_ps_buf_size r with Some n => n | None => 1048576 end |> in
          let vi := vi <| vi_is_packed_stream := b2z (nz (Z.land flags EF_VI_RX_PACKED_STREAM)) |> in
          Some (ef_vi_init_state vi)
      end
  end.
End environment.

(** ** Re-initialisation after a NIC reset

    The callback is called for each id: here the list of ids, in order. *)

Fixpoint rxq_reinit_loop (fuel : nat) (vi : ef_vi) (called : list Z) : option (ef_vi * list Z) :=
  match fuel with
  | O => None
  | S fuel =>
    if rx_removed (rxq_state vi) <? rx_added (rxq_state vi) then
      let di := Z.land (rx_removed (rxq_state vi)) (q_mask (vi_rxq vi)) in
      let called := (called ++ [aget (q_ids (vi_rxq vi)) di])%list in
      let vi := rx_set_id di EF_REQUEST_ID_MASK vi in
      rxq_reinit_loop fuel
        (upd_rxq (fun qs => qs <| rx_removed := u32 (rx_removed qs + 1) |>) vi) called
    else Some (vi, called)
  end.

(** [removed] counts up to [added], so [added - removed + 1] is fuel enough. *)
Definition ef_vi_rxq_reinit (vi : ef_vi) : option (ef_vi * list Z) :=
  let fuel := S (Z.to_nat (rx_added (rxq_state vi) - rx_removed (rxq_state vi))) in
  match rxq_reinit_loop fuel vi [] with
  | None => None
  | Some (vi, called) =>
      let last := if nz (vi_is_packed_stream vi) then u16 (q_mask (vi_rxq vi)) else 0 in
      Some (upd_rxq (fun qs =>
        qs <| rx_added := 0 |> <| rx_removed := 0 |> <| rx_posted := 0 |>
           <| rx_last_desc_i := last |> <| rx_in_jumbo := 0 |> <| rx_bytes_acc := 0 |>) vi, called)
  end.

Fixpoint txq_reinit_loop (fuel : nat) (vi : ef_vi) (called : list Z) : option (ef_vi * list Z) :=
  match fuel with
  | O => None
  | S fuel =>
    if tx_removed (txq_state vi) <? tx_added (txq_state vi) then
      let di := Z.land (tx_removed (txq_state vi)) (q_mask (vi_txq vi)) in
      let id := aget (q_ids (vi_txq vi)) di in
      let called := (if negb (id =? EF_REQUEST_ID_MASK) then called ++ [id] else called)%list in
      let vi := tx_set_id di EF_REQUEST_ID_MASK vi in
      txq_reinit_loop fuel
        (upd_txq (fun qs => qs <| tx_removed := u32 (tx_removed qs + 1) |>) vi) called
    else Some (vi, called)
  end.

Definition ef_vi_txq_reinit (vi : ef_vi) : option (ef_vi * list Z) :=
  let fuel := S (Z.to_nat (tx_added (txq_state vi) - tx_removed (txq_state vi))) in
  match txq_reinit_loop fuel vi [] with
  | None => None
  | Some (vi, called) =>
      Some (upd_txq (fun qs =>
        qs <| tx_previous := 0 |> <| tx_added := 0 |> <| tx_removed := 0 |>) vi, called)
  end.

Definition ef_vi_evq_reinit (vi : ef_vi) : ef_vi :=
  upd_evq (fun evqs => evqs <| evq_ptr := 0 |>) (memset_evq vi).

(** * The rings after allocation *)

Lemma clear_ids_spec n : forall i ids,
  (i + n <= length ids)%nat ->
  clear_ids n (Z.of_nat i) ids =
    (take i ids ++ replicate n EF_REQUEST_ID_MASK ++ drop (i + n) ids)%list.
Proof.
  induction n as [|n IH]; intros i ids Hl; cbn [clear_ids replicate].
  - rewrite Nat.add_0_r. cbn [app]. by rewrite take_drop.
  - replace (Z.of_nat i + 1) with (Z.of_nat (S i)) by lia.
    rewrite IH by (rewrite length_aset; lia). unfold aset. rewrite Nat2Z.id.
    replace (i + S n)%nat with (S i + n)%nat by lia. rewrite drop_insert_lt by lia.
    assert (Et : take (S i) (<[i := EF_REQUEST_ID_MASK]> ids) = (take i ids ++ [EF_REQUEST_ID_MASK])%list).
    { rewrite (take_S_r _ i EF_REQUEST_ID_MASK) by (apply list_lookup_insert_eq; lia).
      by rewrite take_insert_ge by lia. }
    by rewrite Et, <- app_assoc.
Qed.

Lemma clear_ids_all ids :
  clear_ids (length ids) 0 ids = replicate (length ids) EF_REQUEST_ID_MASK.
Proof.
  change 0 with (Z.of_nat 0). rewrite clear_ids_spec by lia.
  cbn [take app Nat.add]. by rewrite drop_all, app_nil_r.
Qed.

Lemma reset_ring k ids :
  1 <= k <= 30 -> Z.of_nat (length ids) = 2 ^ k ->
  nz (2 ^ k - 1) = true /\
  ring_rep (2 ^ k - 1) (clear_ids (Z.to_nat (2 ^ k - 1 + 1)) 0 ids) 0 0 [].
Proof.
  intros Hk Hl. pose proof (Z.pow_lt_mono_r 2 0 k ltac:(lia) ltac:(lia)) as Hp. rewrite Z.pow_0_r in Hp.
  split; [unfold nz; apply negb_true_iff, Z.eqb_neq; lia|].
  replace (Z.to_nat (2 ^ k - 1 + 1)) with (length ids) by lia. rewrite clear_ids_all.
  replace (length ids) with (Z.to_nat (2 ^ k - 1 + 1)) by lia.
  apply ring_empty; [|lia]. exists k. lia.
Qed.

Lemma reset_rxq_rep k vi ids descs :
  1 <= k <= 30 -> vi_rxq vi = mk_ring (2 ^ k - 1) descs ids ->
  Z.of_nat (length ids) = 2 ^ k -> Z.of_nat (length descs) = 2 ^ k ->
  rx_rep (ef_vi_reset_rxq vi) [] 0.
Proof.
  intros Hk Eq Hi Hd. destruct (reset_ring k ids Hk Hi) as [Hnz R].
  unfold ef_vi_reset_rxq. cbv zeta. set (vi1 := upd_rxq _ vi).
  assert (E1 : vi_rxq vi1 = mk_ring (2 ^ k - 1) descs ids) by exact Eq. rewrite E1. cbn [q_mask]. rewrite Hnz.
  set (vi2 := vi1 <| vi_rxq ::= _ |>).
  assert (E2 : vi_rxq vi2 = mk_ring (2 ^ k - 1) descs (clear_ids (Z.to_nat (2 ^ k - 1 + 1)) 0 ids)).
  { change (vi_rxq vi2) with (vi_rxq vi1 <| q_ids ::= clear_ids (Z.to_nat (q_mask (vi_rxq vi1) + 1)) 0 |>).
    by rewrite E1. }
  split; rewrite ?E2; [exact R|cbn; lia|reflexivity|reflexivity|cbn; lia].
Qed.

Lemma reset_txq_rep k vi ids descs :
  1 <= k <= 30 -> vi_txq vi = mk_ring (2 ^ k - 1) descs ids ->
  Z.of_nat (length ids) = 2 ^ k -> Z.of_nat (length descs) = 2 ^ k ->
  tx_rep (ef_vi_reset_txq vi) [] 0.
Proof.
  intros Hk Eq Hi Hd. destruct (reset_ring k ids Hk Hi) as [Hnz R].
  unfold ef_vi_reset_txq. cbv zeta. set (vi1 := upd_txq _ vi).
  assert (E1 : vi_txq vi1 = mk_ring (2 ^ k - 1) descs ids) by exact Eq. rewrite E1. cbn [q_mask]. rewrite Hnz.
  set (vi2 := vi1 <| vi_txq ::= _ |>).
  assert (E2 : vi_txq vi2 = mk_ring (2 ^ k - 1) descs (clear_ids (Z.to_nat (2 ^ k - 1 + 1)) 0 ids)).
  { change (vi_txq vi2) with (vi_txq vi1 <| q_ids ::= clear_ids (Z.to_nat (q_mask (vi_txq vi1) + 1)) 0 |>).
    by rewrite E1. }
  split; rewrite ?E2; [exact R|cbn; lia|reflexivity|cbn; lia].
Qed.

Lemma rview_replicate mask base x :
  0 <= mask -> pow2_mask mask ->
  rview mask (replicate (Z.to_nat (mask + 1)) x) base = replicate (Z.to_nat (mask + 1)) x.
Proof.
  intros H Hm. apply rview_ext; [done|by rewrite length_replicate|]. intros j Hj.
  unfold aget. pose proof (slot_range mask (base + j) Hm).
  rewrite !lookup_replicate_2 by lia. done.
Qed.

(** The event ring as the kernel hands it over: the NIC may have written events. *)
Definition granted_ring (k : Z) (evs : list Z) : list Z := evs ++ replicate (Z.to_nat (2 ^ k - Z.of_nat (length evs))) EV_NULL.

Lemma reset_evq_rep getenv numa k vi evs :
  1 <= k <= 28 -> evq_mask vi = 2 ^ (k + 3) - 1 -> evq_base vi = granted_ring k evs -> Forall is_event evs ->
  0 <= ef_vi_evq_clear_stride getenv numa <= 2 ^ k - 2 ->
  Z.of_nat (length evs) + ef_vi_evq_clear_stride getenv numa < 2 ^ k ->
  evq_rep (ef_vi_reset_evq getenv numa false vi) k evs.
Proof.
  intros Hk Hm Hb He Hs Hfit. pose proof (pow2_pos k ltac:(lia)) as Hp.
  assert (Hp28 : 2 ^ k <= 2 ^ 28) by (apply Z.pow_le_mono_r; lia).
  set (s := ef_vi_evq_clear_stride getenv numa) in *.
  assert (Es : evq_clear_stride (evq_state (ef_vi_reset_evq getenv numa false vi)) = - s).
  { change (s32 (- s32 s) = - s). rewrite (s32_small s), s32_small; lia. }
  assert (Hl : Z.of_nat (length (granted_ring k evs)) = 2 ^ k) by (unfold granted_ring; rewrite length_app, length_replicate; lia).
  split; rewrite ?Es; try done.
  - lia.
  - change (evq_base (ef_vi_reset_evq getenv numa false vi)) with (evq_base vi). by rewrite Hb.
  - lia.
  - lia.
  - exists (replicate (Z.to_nat s) EV_NULL). rewrite length_replicate. split; [lia|].
    change (evq_base (ef_vi_reset_evq getenv numa false vi)) with (evq_base vi). rewrite Hb.
    change (evq_ptr (evq_state (ef_vi_reset_evq getenv numa false vi)) / 8) with 0.
    assert (E : replicate (Z.to_nat (2 ^ k - Z.of_nat (length evs + Z.to_nat s))) EV_NULL ++ replicate (Z.to_nat s) EV_NULL =
      replicate (Z.to_nat (2 ^ k - Z.of_nat (length evs))) EV_NULL) by (rewrite <- replicate_add; f_equal; lia).
    rewrite E. fold (granted_ring k evs). apply rview_ext; [lia|lia|]. intros j Hj.
    rewrite slot_mod, Z.add_0_l, Z.mod_small by (lia || apply pow2_mask_k; lia). unfold aget.
    destruct (lookup_lt_is_Some_2 (granted_ring k evs) (Z.to_nat j)) as [x ->]; [lia|done].
Qed.

Lemma rx_rep_frame vi vi' q p :
  vi_rxq vi' = vi_rxq vi -> rxq_state vi' = rxq_state vi -> rx_rep vi q p -> rx_rep vi' q p.
Proof. intros E1 E2 []. by split; rewrite ?E1, ?E2. Qed.

Lemma tx_rep_frame vi vi' q p :
  vi_txq vi' = vi_txq vi -> txq_state vi' = txq_state vi -> tx_rep vi q p -> tx_rep vi' q p.
Proof. intros E1 E2 []. by split; rewrite ?E1, ?E2. Qed.

Ltac case_ifs := repeat match goal with |- context [if ?c then _ else _] => destruct c end.

Lemma reset_rxq_frame vi :
  let vi' := ef_vi_reset_rxq vi in
  vi_txq vi' = vi_txq vi /\ evq_mask vi' = evq_mask vi /\ evq_base vi' = evq_base vi.
Proof. cbv zeta. unfold ef_vi_reset_rxq. cbv zeta. destruct (nz (q_mask _)); done. Qed.

Lemma reset_txq_frame vi :
  let vi' := ef_vi_reset_txq vi in
  vi_rxq vi' = vi_rxq vi /\ rxq_state vi' = rxq_state vi /\
  evq_mask vi' = evq_mask vi /\ evq_base vi' = evq_base vi.
Proof. cbv zeta. unfold ef_vi_reset_txq. cbv zeta. destruct (nz (q_mask _)); done. Qed.

(** [ef_vi_init_state] on rings of any contents. *)
Lemma init_state_rep getenv numa vi ke kr kt evs rx_descs rx_ids tx_descs tx_ids :
  1 <= ke <= 28 -> 1 <= kr <= 30 -> 1 <= kt <= 30 ->
  evq_mask vi = 2 ^ (ke + 3) - 1 -> evq_base vi = granted_ring ke evs -> Forall is_event evs ->
  vi_rxq vi = mk_ring (2 ^ kr - 1) rx_descs rx_ids -> vi_txq vi = mk_ring (2 ^ kt - 1) tx_descs tx_ids ->
  Z.of_nat (length rx_descs) = 2 ^ kr -> Z.of_nat (length rx_ids) = 2 ^ kr ->
  Z.of_nat (length tx_descs) = 2 ^ kt -> Z.of_nat (length tx_ids) = 2 ^ kt ->
  0 <= ef_vi_evq_clear_stride getenv numa <= 2 ^ ke - 2 ->
  Z.of_nat (length evs) + ef_vi_evq_clear_stride getenv numa < 2 ^ ke ->
  let vi' := ef_vi_init_state getenv numa vi in
  evq_rep vi' ke evs /\ rx_rep vi' [] 0 /\ tx_rep vi' [] 0 /\
  sync_timestamp_synchronised (evq_state vi') = 0.
Proof.
  intros Hke Hkr Hkt Em Eb He Er Et L1 L2 L3 L4 Hs Hfit vi'. unfold vi', ef_vi_init_state.
  pose proof (reset_rxq_frame vi) as (R1 & R2 & R3).
  pose proof (reset_rxq_rep kr vi rx_ids rx_descs Hkr Er L2 L1) as Rx.
  set (v1 := ef_vi_reset_rxq vi) in *. cbv zeta in R1, R2, R3. clearbody v1.
  pose proof (reset_txq_frame v1) as (T1 & T2 & T3 & T4).
  pose proof (reset_txq_rep kt v1 tx_ids tx_descs Hkt ltac:(by rewrite R1) L4 L3) as Tx.
  set (v2 := ef_vi_reset_txq v1) in *. cbv zeta in T1, T2, T3, T4. clearbody v2.
  split; [|split; [|split; [|reflexivity]]].
  - apply reset_evq_rep; [done|by rewrite T3, R2|by rewrite T4, R3|done..].
  - apply (rx_rep_frame v1); [exact T1|exact T2|exact Rx].
  - apply (tx_rep_frame v2); [reflexivity|reflexivity|exact Tx].
Qed.

Lemma alloc_timestamping_frame r vi vi' :
  alloc_timestamping r vi = Some vi' ->
  vi_rxq vi' = vi_rxq vi /\ vi_txq vi' = vi_txq vi /\ evq_mask vi' = evq_mask vi /\
  evq_base vi' = evq_base vi.
Proof.
  unfold alloc_timestamping. destruct (nz _); [|by intros [= <-]].
  destruct (r_ts_correction r) as [[rx tx]|]; [|discriminate]. intros [= <-].
  unfold ef_vi_init_rx_timestamping, ef_vi_init_tx_timestamping.
  destruct (r_rxq r); [destruct (ts_format _); [|destruct (_ =? 0); destruct (_ <=? -2)]|];
    destruct (r_txq r); done.
Qed.

Lemma init_txq_fields n descs ids vi :
  let vi' := ef_vi_init_txq n descs ids vi in
  vi_txq vi' = mk_ring (u32 (n - 1)) descs ids /\ vi_rxq vi' = vi_rxq vi /\
  evq_mask vi' = evq_mask vi /\ evq_base vi' = evq_base vi.
Proof.
  unfold ef_vi_init_txq. cbv zeta. destruct (bool_decide _), (vi_flag _ EF_VI_TX_PUSH_DISABLE);
    match goal with |- context [if ?c then _ else _] => destruct c end; done.
Qed.

Lemma ef_vi_init_ef10 getenv var rev flags nflags state vi :
  is_Some (select_ctpio_method getenv) ->
  exists v, ef_vi_init getenv 1 var rev flags nflags state vi = Some (v, 0).
Proof.
  intros [m Hm]. unfold ef_vi_init. change (arch_of 1) with (Some EF_VI_ARCH_EF10). cbv iota zeta.
  unfold ef10_vi_init, ef10_vi_initialise_ops. rewrite Hm. eexists. reflexivity.
Qed.

(** C26: a VI allocated on EF10 hardware starts in the state the data path
    needs: whatever was in the descriptor and id arrays, both descriptor rings are
    empty and all their ids unused; the event ring, which is not cleared, holds
    exactly the events [evs] the NIC had written into the cleared ring before (its
    initialisation event, or none, and few enough to leave the slots the library
    keeps clear), in order, and no time stamp is trusted before
    the first time-sync event. *)
Theorem alloc_establishes_rings getenv numa flags r vi0 ke kr kt evs rx_descs rx_ids prefix tx_descs tx_ids :
  r_arch r = 1 -> is_Some (select_ctpio_method getenv) -> is_Some (r_ts_correction r) ->
  r_evq r = Some (2 ^ ke, granted_ring ke evs) -> 1 <= ke <= 28 -> Forall is_event evs ->
  r_rxq r = Some (2 ^ kr, rx_descs, rx_ids, prefix) -> 1 <= kr <= 30 ->
  r_txq r = Some (2 ^ kt, tx_descs, tx_ids) -> 1 <= kt <= 30 ->
  Z.of_nat (length rx_descs) = 2 ^ kr -> Z.of_nat (length rx_ids) = 2 ^ kr ->
  Z.of_nat (length tx_descs) = 2 ^ kt -> Z.of_nat (length tx_ids) = 2 ^ kt ->
  0 <= ef_vi_evq_clear_stride getenv numa <= 2 ^ ke - 2 ->
  Z.of_nat (length evs) + ef_vi_evq_clear_stride getenv numa < 2 ^ ke ->
  exists vi, vi_alloc_init getenv numa flags r vi0 = Some vi /\
    evq_rep vi ke evs /\ rx_rep vi [] 0 /\ tx_rep vi [] 0 /\
    sync_timestamp_synchronised (evq_state vi) = 0.
Proof.
  intros Ha Hm [[rxc txc] Hc] He Hke Hevs Hrx Hkr Htx Hkt L1 L2 L3 L4 Hs Hfit.
  assert (P : forall k, 1 <= k <= 30 -> u32 (2 ^ k - 1) = 2 ^ k - 1).
  { intros k Hk. pose proof (pow2_pos k ltac:(lia)).
    assert (2 ^ k <= 2 ^ 30) by (apply Z.pow_le_mono_r; lia). apply u32_small. lia. }
  unfold vi_alloc_init. rewrite Ha.
  destruct (ef_vi_init_ef10 getenv (r_variant r) (r_revision r) flags (r_nic_flags r) (r_state r) vi0 Hm)
    as [v E]. rewrite E, He, Hrx, Htx. clear E.
  match goal with |- context [alloc_timestamping r (ef_vi_init_txq ?n ?d ?i ?v)] =>
    set (v0 := v); pose proof (init_txq_fields n d i v0) as (T1 & T2 & T3 & T4);
    set (v1 := ef_vi_init_txq n d i v0) in * end.
  assert (Ht : is_Some (alloc_timestamping r v1)).
  { unfold alloc_timestamping. rewrite Hc. destruct (nz _); by eexists. }
  destruct Ht as [v2 Ht]. rewrite Ht. apply alloc_timestamping_frame in Ht as (F1 & F2 & F3 & F4).
  eexists. split; [reflexivity|].
  rewrite T1 in F2. rewrite T2 in F1. rewrite T3 in F3. rewrite T4 in F4.
  change (vi_rxq v0) with (mk_ring (u32 (2 ^ kr - 1)) rx_descs rx_ids) in F1.
  change (evq_mask v0) with (u32 (2 ^ ke * 8 - 1)) in F3.
  change (evq_base v0) with (granted_ring ke evs) in F4.
  rewrite P in F1, F2 by lia. clear T1 T2 T3 T4 v1 v0.
  apply (init_state_rep getenv numa _ ke kr kt evs rx_descs rx_ids tx_descs tx_ids); try done.
  change (evq_mask (_ <| vi_is_packed_stream := _ |>)) with (evq_mask v2).
  rewrite F3, Z.pow_add_r by lia. change (2 ^ 3) with 8. apply u32_small.
  pose proof (pow2_pos ke ltac:(lia)). assert (2 ^ ke <= 2 ^ 28) by (apply Z.pow_le_mono_r; lia). lia.
Qed.

(** * Re-initialisation *)

Lemma ring_rebase mask ids removed added r :
  ring_rep mask ids removed added [] -> 0 <= r < 4294967296 -> ring_rep mask ids r r [].
Proof.
  intros R Hr. pose proof (ring_unused_slots _ _ _ _ [] R (Forall_nil_2 _)) as U.
  destruct R as [Hm Hl _ _ _ _]. pose proof (pow2_mask_range mask Hm).
  split; try done; cbn [length].
  - rewrite Z.add_0_r. symmetry. by apply u32_small.
  - lia.
  - rewrite Nat.sub_0_r. cbn [app]. apply rview_ext; [lia|apply length_replicate|]. intros j Hj.
    rewrite lookup_replicate_2 by lia. rewrite U; [done|]. by apply slot_range.
Qed.

Lemma reinit_running mask ids removed added q :
  ring_rep mask ids removed added q -> removed + Z.of_nat (length q) < 4294967296 ->
  added = removed + Z.of_nat (length q).
Proof. intros [_ _ Hr -> _ _] H. apply u32_small. lia. Qed.

Lemma rxq_reinit_loop_spec q : forall vi called fuel,
  ring_rep (q_mask (vi_rxq vi)) (q_ids (vi_rxq vi)) (rx_removed (rxq_state vi)) (rx_added (rxq_state vi)) q ->
  rx_removed (rxq_state vi) + Z.of_nat (length q) < 4294967296 -> (length q < fuel)%nat ->
  exists vi', rxq_reinit_loop fuel vi called = Some (vi', (called ++ q)%list) /\
    ring_rep (q_mask (vi_rxq vi)) (q_ids (vi_rxq vi')) (rx_removed (rxq_state vi'))
      (rx_added (rxq_state vi')) [] /\
    q_mask (vi_rxq vi') = q_mask (vi_rxq vi) /\
    q_descriptors (vi_rxq vi') = q_descriptors (vi_rxq vi).
Proof.
  induction q as [|x q IH]; intros vi called fuel R Hw Hf; (destruct fuel as [|fuel]; [lia|]);
    cbn [rxq_reinit_loop]; pose proof (reinit_running _ _ _ _ _ R Hw) as Ha.
  - cbn [length] in Ha. destruct (Z.ltb_spec (rx_removed (rxq_state vi)) (rx_added (rxq_state vi))); [lia|].
    exists vi. by rewrite app_nil_r.
  - cbn [length] in Ha, Hw, Hf.
    destruct (Z.ltb_spec (rx_removed (rxq_state vi)) (rx_added (rxq_state vi))); [|lia].
    rewrite (ring_head _ _ R). apply ring_pop in R as R'.
    set (v := upd_rxq _ _).
    destruct (IH v (called ++ [x])%list fuel R') as (vi' & E & R2 & M & D).
    + change (u32 (rx_removed (rxq_state vi) + 1) + Z.of_nat (length q) < 4294967296).
      destruct R as [_ _ [? ?] _ _ _]. rewrite u32_small by lia. lia.
    + lia.
    + exists vi'. split; [rewrite E, <- app_assoc; reflexivity|]. split; [exact R2|]. split; [exact M|exact D].
Qed.

Lemma txq_reinit_loop_spec q : forall vi called fuel,
  ring_rep (q_mask (vi_txq vi)) (q_ids (vi_txq vi)) (tx_removed (txq_state vi)) (tx_added (txq_state vi)) q ->
  tx_removed (txq_state vi) + Z.of_nat (length q) < 4294967296 -> (length q < fuel)%nat ->
  exists vi', txq_reinit_loop fuel vi called = Some (vi', (called ++ tx_ids q)%list) /\
    ring_rep (q_mask (vi_txq vi)) (q_ids (vi_txq vi')) (tx_removed (txq_state vi'))
      (tx_added (txq_state vi')) [] /\
    q_mask (vi_txq vi') = q_mask (vi_txq vi) /\
    q_descriptors (vi_txq vi') = q_descriptors (vi_txq vi).
Proof.
  induction q as [|x q IH]; intros vi called fuel R Hw Hf; (destruct fuel as [|fuel]; [lia|]);
    cbn [txq_reinit_loop]; pose proof (reinit_running _ _ _ _ _ R Hw) as Ha.
  - cbn [length] in Ha. destruct (Z.ltb_spec (tx_removed (txq_state vi)) (tx_added (txq_state vi))); [lia|].
    exists vi. by rewrite app_nil_r.
  - cbn [length] in Ha, Hw, Hf.
    destruct (Z.ltb_spec (tx_removed (txq_state vi)) (tx_added (txq_state vi))); [|lia].
    rewrite (ring_head _ _ R). apply ring_pop in R as R'.
    set (v := upd_txq _ _). match goal with |- context [txq_reinit_loop fuel v ?l] => set (c := l) end.
    destruct (IH v c fuel R') as (vi' & E & R2 & M & D).
    + change (u32 (tx_removed (txq_state vi) + 1) + Z.of_nat (length q) < 4294967296).
      destruct R as [_ _ [? ?] _ _ _]. rewrite u32_small by lia. lia.
    + lia.
    + exists vi'. split; [|split; [exact R2|split; [exact M|exact D]]]. rewrite E. do 2 f_equal.
      unfold c, tx_ids. cbn [List.filter]. destruct (negb (x =? EF_REQUEST_ID_MASK)); [|done].
      by rewrite <- app_assoc.
Qed.

Lemma rxq_reinit_spec vi q p :
  rx_rep vi q p ->
  exists vi' called, ef_vi_rxq_reinit vi = Some (vi', called) /\
    rx_added (rxq_state vi') = 0 /\
    if rx_removed (rxq_state vi) + Z.of_nat (length q) <? 4294967296
    then called = q /\ rx_rep vi' [] 0
    else called = [] /\ q_ids (vi_rxq vi') = q_ids (vi_rxq vi).
Proof.
  intros [Rr Dr _ _ _].
  unfold ef_vi_rxq_reinit. pose proof Rr as [Hm _ Hrem Ha Hfit _]. pose proof (pow2_mask_range _ Hm).
  destruct (Z.ltb_spec (rx_removed (rxq_state vi) + Z.of_nat (length q)) 4294967296) as [Hw|Hw].
  - rewrite (reinit_running _ _ _ _ _ Rr Hw).
    destruct (rxq_reinit_loop_spec q vi [] (S (Z.to_nat (rx_removed (rxq_state vi) + Z.of_nat (length q)
      - rx_removed (rxq_state vi)))) Rr Hw ltac:(lia)) as (vi' & E & R' & M & D).
    rewrite E. eexists _, _. split; [reflexivity|]. split; [reflexivity|]. split; [reflexivity|].
    apply (ring_rebase _ _ _ _ 0) in R'; [|lia]. rewrite <- M in R'.
    split; [exact R'| |reflexivity|reflexivity|cbn; lia].
    change (Z.of_nat (length (q_descriptors (vi_rxq vi'))) = q_mask (vi_rxq vi') + 1). by rewrite D, M.
  - assert (Ea : rx_added (rxq_state vi) = rx_removed (rxq_state vi) + Z.of_nat (length q) - 4294967296)
      by (rewrite Ha; word_lia).
    cbn [rxq_reinit_loop].
    destruct (Z.ltb_spec (rx_removed (rxq_state vi)) (rx_added (rxq_state vi))); [lia|].
    eexists _, _. split; [reflexivity|]. by split.
Qed.

Lemma txq_reinit_spec vi q p :
  tx_rep vi q p ->
  exists vi' called, ef_vi_txq_reinit vi = Some (vi', called) /\
    tx_added (txq_state vi') = 0 /\
    if tx_removed (txq_state vi) + Z.of_nat (length q) <? 4294967296
    then called = tx_ids q /\ tx_rep vi' [] 0
    else called = [] /\ q_ids (vi_txq vi') = q_ids (vi_txq vi).
Proof.
  intros [Rt Dt _ _].
  unfold ef_vi_txq_reinit. pose proof Rt as [Hm _ Hrem Ha Hfit _]. pose proof (pow2_mask_range _ Hm).
  destruct (Z.ltb_spec (tx_removed (txq_state vi) + Z.of_nat (length q)) 4294967296) as [Hw|Hw].
  - rewrite (reinit_running _ _ _ _ _ Rt Hw).
    destruct (txq_reinit_loop_spec q vi [] (S (Z.to_nat (tx_removed (txq_state vi) + Z.of_nat (length q)
      - tx_removed (txq_state vi)))) Rt Hw ltac:(lia)) as (vi' & E & R' & M & D).
    rewrite E. eexists _, _. split; [reflexivity|]. split; [reflexivity|]. split; [reflexivity|].
    apply (ring_rebase _ _ _ _ 0) in R'; [|lia]. rewrite <- M in R'.
    split; [exact R'| |reflexivity|cbn; lia].
    change (Z.of_nat (length (q_descriptors (vi_txq vi'))) = q_mask (vi_txq vi') + 1). by rewrite D, M.
  - assert (Ea : tx_added (txq_state vi) = tx_removed (txq_state vi) + Z.of_nat (length q) - 4294967296)
      by (rewrite Ha; word_lia).
    cbn [txq_reinit_loop].
    destruct (Z.ltb_spec (tx_removed (txq_state vi)) (tx_added (txq_state vi))); [lia|].
    eexists _, _. split; [reflexivity|]. by split.
Qed.

(** C37: re-initialisation after a NIC reset hands every buffer still in the
    rings back to the application, oldest first, and leaves both rings empty, as
    long as the free-running counters have not wrapped between the oldest and the
    newest entry; when they have ([removed] above [added]) the loop test is false
    from the start: nothing is handed back, and the ids stay in rings whose
    counters say they are empty. *)
Theorem reinit_returns_buffers vi rq rp tq tp :
  rx_rep vi rq rp -> tx_rep vi tq tp ->
  (exists vi' called, ef_vi_rxq_reinit vi = Some (vi', called) /\
    rx_added (rxq_state vi') = 0 /\
    if rx_removed (rxq_state vi) + Z.of_nat (length rq) <? 4294967296
    then called = rq /\ rx_rep vi' [] 0
    else called = [] /\ q_ids (vi_rxq vi') = q_ids (vi_rxq vi)) /\
  (exists vi' called, ef_vi_txq_reinit vi = Some (vi', called) /\
    tx_added (txq_state vi') = 0 /\
    if tx_removed (txq_state vi) + Z.of_nat (length tq) <? 4294967296
    then called = tx_ids tq /\ tx_rep vi' [] 0
    else called = [] /\ q_ids (vi_txq vi') = q_ids (vi_txq vi)).
Proof.
  intros Hr Ht. split; [exact (rxq_reinit_spec vi rq rp Hr)|exact (txq_reinit_spec vi tq tp Ht)].
Qed.

(** the correction for the quarter-nanosecond format (half a nanosecond of
    rounding, and a default when the firmware reports none) is made by
    [ef_vi_init_rx_timestamping] only when the format is already set; the
    allocation sets the format afterwards, so there it is never made. *)
Theorem alloc_skips_qns_correction r vi rx tx :
  r_ts_correction r = Some (rx, tx) -> is_Some (r_rxq r) -> r_txq r = None ->
  vi_flag vi EF_VI_RX_TIMESTAMPS = true -> ts_format vi = TS_FORMAT_SECONDS_27FRACTION ->
  r_ts_format r = Some TS_FORMAT_SECONDS_QTR_NANOSECONDS ->
  (exists vi', alloc_timestamping r vi = Some vi' /\
     ts_format vi' = TS_FORMAT_SECONDS_QTR_NANOSECONDS /\ rx_ts_correction vi' = rx) /\
  rx_ts_correction (ef_vi_init_rx_timestamping rx
    (ef_vi_set_ts_format TS_FORMAT_SECONDS_QTR_NANOSECONDS vi)) =
    (if rx =? 0 then -74 else if rx <=? -2 then rx + 2 else rx).
Proof.
  intros Hc [rxq Hr] Ht Hf Hts Hq. split.
  - unfold alloc_timestamping, get_ts_format. rewrite Hc, Hr, Ht, Hq.
    assert (E : nz (Z.land (vi_flags vi) (Z.lor EF_VI_RX_TIMESTAMPS EF_VI_TX_TIMESTAMPS)) = true).
    { unfold vi_flag, nz in *. apply negb_true_iff, Z.eqb_neq in Hf. apply negb_true_iff, Z.eqb_neq.
      rewrite Z.land_lor_distr_r. intros H. apply Z.lor_eq_0_iff in H as [H _]. done. }
    rewrite E. eexists. split; [reflexivity|]. split; [reflexivity|].
    unfold ef_vi_init_rx_timestamping. cbv zeta.
    change (ts_format (vi <| rx_ts_correction := rx |>)) with (ts_format vi). by rewrite Hts.
  - unfold ef_vi_init_rx_timestamping. cbv zeta.
    change (ts_format (_ <| rx_ts_correction := rx |>)) with TS_FORMAT_SECONDS_QTR_NANOSECONDS. cbv iota.
    change (rx_ts_correction (_ <| rx_ts_correction := rx |>)) with rx.
    destruct (Z.eqb_spec rx 0) as [->|]; [reflexivity|].
    change (rx_ts_correction (_ <| rx_ts_correction := rx |>)) with rx.
    destruct (rx <=? -2); reflexivity.
Qed.

(** ** Witnesses *)

Definition ex_resource : vi_resource :=
  mk_vi_resource 1 65 2 0 false 4096
    (Some (2 ^ 4, granted_ring 4 [ex_mcdi_ev]))
    (Some (2 ^ 3, replicate 8 0, [1; 2; 3; 4; 5; 6; 7; 8], 14))
    (Some (2 ^ 2, replicate 4 0, [9; 9; 9; 9]))
    (ep_state vi_zero) None (Some (-80, 178)) None.

Definition ex_getenv (s : string) : option string :=
  if String.eqb s "EF_VI_EVQ_CLEAR_STRIDE" then Some " 8"%string else None.

Lemma alloc_establishes_rings_witness :
  exists vi, vi_alloc_init ex_getenv true 0 ex_resource vi_zero = Some vi /\
    evq_rep vi 4 [ex_mcdi_ev] /\ rx_rep vi [] 0 /\ tx_rep vi [] 0.
Proof.
  destruct (alloc_establishes_rings ex_getenv true 0 ex_resource vi_zero 4 3 2 [ex_mcdi_ev]
    (replicate 8 0) [1; 2; 3; 4; 5; 6; 7; 8] 14 (replicate 4 0) [9; 9; 9; 9]) as (vi & E & H1 & H2 & H3 & _);
    [reflexivity|eexists; reflexivity|eexists; reflexivity|reflexivity|lia|repeat constructor|reflexivity|lia|reflexivity|lia|
     reflexivity|reflexivity|reflexivity|reflexivity|vm_compute; intuition discriminate|vm_compute; reflexivity|].
  exists vi. split; [exact E|]. split; [exact H1|]. split; [exact H2|exact H3].
Defined.

(** [ex_rx 10]'s receive ring beside [ex_tx]'s transmit ring. *)
Definition ex_with_tx (vi : ef_vi) : ef_vi :=
  upd_txq (fun _ => txq_state ex_tx) (vi <| vi_txq := vi_txq ex_tx |>).

Lemma ex_with_tx_rx vi q p : rx_rep vi q p -> rx_rep (ex_with_tx vi) q p.
Proof. intros R. apply (rx_rep_frame vi); [reflexivity|reflexivity|exact R]. Qed.

Lemma ex_with_tx_tx vi : tx_rep (ex_with_tx vi) [] 0.
Proof. apply (tx_rep_frame ex_tx); [reflexivity|reflexivity|apply ex_tx_rep]. Qed.

(** Buffers posted across the wrap of the counters are not returned. *)
Lemma reinit_returns_buffers_witness :
  exists vi', ef_vi_rxq_reinit (ex_with_tx (ex_rx 10)) = Some (vi', []).
Proof.
  destruct (reinit_returns_buffers (ex_with_tx (ex_rx 10)) (replicate 10 7) 0 [] 0) as [H _].
  - apply ex_with_tx_rx, ex_rx_rep_n. lia.
  - apply ex_with_tx_tx.
  - destruct H as (vi' & called & E & _ & H).
    assert (W : rx_removed (rxq_state (ex_with_tx (ex_rx 10))) = 4294967288) by (vm_compute; reflexivity).
    rewrite W in H. destruct H as [-> _]. exists vi'. exact E.
Defined.

Lemma alloc_skips_qns_correction_witness :
  exists vi', alloc_timestamping
      (mk_vi_resource 1 67 0 0 false 0 None (Some (8, [], [], 14)) None (ep_state vi_zero) None
         (Some (0, 0)) (Some TS_FORMAT_SECONDS_QTR_NANOSECONDS))
      (vi_zero <| vi_flags := EF_VI_RX_TIMESTAMPS |>) = Some vi' /\ rx_ts_correction vi' = 0.
Proof.
  destruct (alloc_skips_qns_correction
      (mk_vi_resource 1 67 0 0 false 0 None (Some (8, [], [], 14)) None (ep_state vi_zero) None
         (Some (0, 0)) (Some TS_FORMAT_SECONDS_QTR_NANOSECONDS))
      (vi_zero <| vi_flags := EF_VI_RX_TIMESTAMPS |>) 0 0) as [(vi' & E & _ & C) _];
    try reflexivity; [eexists; reflexivity|].
  exists vi'. split; [exact E|exact C].
Defined.
