(* ===== verification/Falcon.v ===== *)
(** The data path of Falcon NICs: lib/ciul/falcon_vi.c, and the hardware formats of
    lib/ciul/ef_vi_falcon.h and ef_vi_falcon_desc.h.  (Events are in file
    FalconEvent.)

    The rings are those of files Vi and Ring.  The loop of
    [falcon_ef_vi_transmitv_init] runs once per descriptor, so it has the fuel of
    its EF10 counterpart.  In a receive ring of buffer addresses the descriptors
    are 32-bit words. *)

From stdpp Require Import base list numbers.
From S2P Require Import Prelude Bitfield Vi Ring Tx Rx.

Open Scope Z_scope.

(** * Descriptors *)

Definition RX_KER_BUF_SIZE := Field 48 14.
Definition RX_KER_BUF_REGION := Field 46 2.
Definition RX_KER_BUF_ADR := Field 0 46.
Definition RX_USR_2BYTE_OFS := Field 20 12.
Definition RX_USR_BUF_ID := Field 0 20.
Definition TX_KER_PORT := Field 63 1.
Definition TX_KER_CONT := Field 62 1.
Definition TX_KER_BYTE_CNT := Field 48 14.
Definition TX_KER_BUF_REGION := Field 46 2.
Definition TX_KER_BUF_ADR := Field 0 46.
Definition TX_USR_PORT := Field 47 1.
Definition TX_USR_CONT := Field 46 1.
Definition TX_USR_BYTE_CNT := Field 33 13.
Definition TX_USR_BUF_ID := Field 13 20.
Definition TX_USR_BYTE_OFS := Field 0 13.

Definition EFVI_FALCON_DMA_TX_FRAG := 1.
Definition EFVI_FALCON_VADDR_4K_S := 12.
Definition EFVI_FALCON_VADDR_M := 0xfffff.
Definition EFVI_FALCON_BUFFER_4K_PAGE (vaddr : Z) : Z :=
  Z.land (Z.shiftr vaddr EFVI_FALCON_VADDR_4K_S) EFVI_FALCON_VADDR_M.
Definition EFVI_FALCON_BUFFER_4K_OFF (vaddr : Z) : Z := Z.land vaddr 4095.

Definition dma_addr_to_u46 (src_dma_addr : Z) : Z := Z.land src_dma_addr (2 ^ 46 - 1).

Definition __falcon_dma_rx_calc_ip_phys (dest_pa bytes : Z) : Z :=
  let region := 0 in
  let dest := dma_addr_to_u46 dest_pa in
  CI_POPULATE_QWORD [(RX_KER_BUF_SIZE, bytes); (RX_KER_BUF_REGION, region); (RX_KER_BUF_ADR, dest)].

Definition __falcon_dma_tx_calc_ip_buf (buf_id buf_ofs bytes port frag : Z) : Z :=
  CI_POPULATE_QWORD
    [(TX_USR_PORT, port); (TX_USR_CONT, frag); (TX_USR_BYTE_CNT, bytes); (TX_USR_BUF_ID, buf_id);
     (TX_USR_BYTE_OFS, buf_ofs)].

Definition falcon_dma_tx_calc_ip_buf_4k (buf_vaddr bytes port frag : Z) : Z :=
  let buf_id := EFVI_FALCON_BUFFER_4K_PAGE buf_vaddr in
  let buf_ofs := EFVI_FALCON_BUFFER_4K_OFF buf_vaddr in
  __falcon_dma_tx_calc_ip_buf buf_id buf_ofs bytes port frag.

Definition falcon_dma_tx_calc_ip_buf (buf_vaddr bytes port frag : Z) : Z :=
  falcon_dma_tx_calc_ip_buf_4k buf_vaddr bytes port frag.

Definition __falcon_dma_rx_calc_ip_buf (buf_id buf_ofs : Z) : Z :=
  let buf_ofs := Z.shiftr buf_ofs 1 in
  CI_POPULATE_DWORD [(RX_USR_2BYTE_OFS, buf_ofs); (RX_USR_BUF_ID, buf_id)].

Definition falcon_dma_rx_calc_ip_buf_4k (buf_vaddr : Z) : Z :=
  let buf_id := EFVI_FALCON_BUFFER_4K_PAGE buf_vaddr in
  let buf_ofs := EFVI_FALCON_BUFFER_4K_OFF buf_vaddr in
  __falcon_dma_rx_calc_ip_buf buf_id buf_ofs.

Definition falcon_dma_rx_calc_ip_buf (buf_vaddr : Z) : Z := falcon_dma_rx_calc_ip_buf_4k buf_vaddr.

Definition ef_physaddr (efaddr : Z) : Z := efaddr.
Definition ef_bufaddr (efaddr : Z) : Z := u32 efaddr.

Definition falcon_dma_tx_calc_ip_phys (src_dma_addr bytes port frag : Z) : Z :=
  let src := dma_addr_to_u46 src_dma_addr in
  let region := 0 in
  CI_POPULATE_QWORD
    [(TX_KER_PORT, port); (TX_KER_CONT, frag); (TX_KER_BYTE_CNT, bytes); (TX_KER_BUF_REGION, region);
     (TX_KER_BUF_ADR, src)].

(** * Transmit *)

(** Last 4 bytes of placeholder for the digest must be removed: what is left of
    the iovecs, and [last_len].  [None] when the code would read before the
    first. *)
Definition ddig_trim (iov : list ef_iovec) : option (list ef_iovec * Z) :=
  let n := length iov in
  match iov !! (n - 1)%nat with
  | None => None
  | Some v =>
    if iov_len v <=? 4 then
      let iov := take (n - 1) iov in
      match iov !! (n - 2)%nat with
      | None => None
      | Some v' => Some (iov, u32 (iov_len v' - u32 (4 - iov_len v)))
      end
    else Some (iov, u32 (iov_len v - 4))
  end.

(** The [while( 1 )] loop, as [transmitv_init_loop] of file Tx; [ddig] is
    [last_len] when the digest is on. *)
Fixpoint falcon_transmitv_init_loop (fuel : nat) (added_save : Z) (ddig : option Z) (vi : ef_vi)
    (dma_addr len : Z) (iov : list ef_iovec) : option (ef_vi * Z * Z) :=
  match fuel with
  | O => None
  | S fuel =>
    if tx_full vi then Some (tx_set_added added_save vi, - EAGAIN, 0)
    else
      let dma_len := u32 (Z.land (u32 (Z.lnot (u32 dma_addr))) 0xfff + 1) in
      let dma_len := if len <? dma_len then len else dma_len in
      let di := Z.land (tx_added (txq_state vi)) (q_mask (vi_txq vi)) in
      let vi := tx_set_added (tx_added (txq_state vi) + 1) vi in
      let last := match iov with [] => true | _ => false end in
      let frag := if last && (dma_len =? len) then 0 else EFVI_FALCON_DMA_TX_FRAG in
      let vi := tx_set_desc di
        (if vi_flag vi EF_VI_TX_PHYS_ADDR
         then falcon_dma_tx_calc_ip_phys (ef_physaddr dma_addr) dma_len 0 frag
         else falcon_dma_tx_calc_ip_buf (ef_bufaddr dma_addr) dma_len 0 frag) vi in
      let dma_addr := u64 (dma_addr + dma_len) in
      let len := u32 (len - dma_len) in
      if len =? 0 then
        match iov with
        | [] => Some (vi, 0, di)
        | v :: iov' =>
          let len := match ddig, iov' with Some last_len, [] => last_len | _, _ => iov_len v end in
          falcon_transmitv_init_loop fuel added_save ddig vi (iov_base v) len iov'
        end
      else falcon_transmitv_init_loop fuel added_save ddig vi dma_addr len iov
  end.

Definition falcon_ef_vi_transmitv_init (vi : ef_vi) (iov0 : ef_iovec) (iov : list ef_iovec) (dma_id : Z)
    : option (ef_vi * Z) :=
  let added_save := tx_added (txq_state vi) in
  let fuel := S (Z.to_nat (q_mask (vi_txq vi))) in
  let r :=
    if vi_flag vi EF_VI_ISCSI_TX_DDIG then
      match ddig_trim (iov0 :: iov) with
      | Some (v :: iov, last_len) =>
        let len := match iov with [] => last_len | _ => iov_len v end in
        falcon_transmitv_init_loop fuel added_save (Some last_len) vi (iov_base v) len iov
      | _ => None
      end
    else falcon_transmitv_init_loop fuel added_save None vi (iov_base iov0) (iov_len iov0) iov in
  match r with
  | None => None
  | Some (vi, rc, di) => if rc =? 0 then Some (tx_set_id di dma_id vi, 0) else Some (vi, rc)
  end.

Definition FR_BZ_TX_DESC_UPD_REGP0_OFST := 0xa10.
Definition FRF_AZ_TX_DESC_PUSH_CMD_LBN := 95.

Definition falcon_transmit_push_desc (vi : ef_vi) : ef_vi :=
  let di := Z.land (tx_removed (txq_state vi)) (q_mask (vi_txq vi)) in
  let dp := aget (q_descriptors (vi_txq vi)) di in
  vi <| io_log ::= fun l =>
    l ++ [WriteOword dp (Z.shiftl 1 (FRF_AZ_TX_DESC_PUSH_CMD_LBN - 64))
            (Z.land (tx_added (txq_state vi)) (q_mask (vi_txq vi))) (io vi + FR_BZ_TX_DESC_UPD_REGP0_OFST)] |>.

Definition falcon_transmit_push_doorbell (vi : ef_vi) : ef_vi :=
  writel (Z.land (tx_added (txq_state vi)) (q_mask (vi_txq vi))) (io vi + FR_BZ_TX_DESC_UPD_REGP0_OFST + 12) vi.

Definition falcon_ef_vi_transmit_push (vi : ef_vi) : ef_vi :=
  let qs := txq_state vi in
  let vi :=
    if u32 (tx_added qs - tx_removed qs) =? tx_push_thresh vi
    then falcon_transmit_push_desc vi else falcon_transmit_push_doorbell vi in
  upd_txq (fun qs => qs <| tx_previous := tx_added qs |>) vi.

Definition falcon_ef_vi_transmit_pio (vi : ef_vi) (offset len dma_id : Z) : ef_vi * Z := (vi, - EOPNOTSUPP).

Definition falcon_ef_vi_transmit_copy_pio (vi : ef_vi) (offset : Z) (src_buf : list Z) (dma_id : Z) : ef_vi * Z :=
  (vi, - EOPNOTSUPP).

Definition falcon_ef_vi_transmit (vi : ef_vi) (base len dma_id : Z) : option (ef_vi * Z) :=
  match falcon_ef_vi_transmitv_init vi (mk_ef_iovec base (u32 len)) [] dma_id with
  | None => None
  | Some (vi, rc) => Some (if rc =? 0 then falcon_ef_vi_transmit_push vi else vi, rc)
  end.

Definition falcon_ef_vi_transmitv (vi : ef_vi) (iov0 : ef_iovec) (iov : list ef_iovec) (dma_id : Z)
    : option (ef_vi * Z) :=
  match falcon_ef_vi_transmitv_init vi iov0 iov dma_id with
  | None => None
  | Some (vi, rc) => Some (if rc =? 0 then falcon_ef_vi_transmit_push vi else vi, rc)
  end.

(** * Receive *)

Definition falcon_ef_vi_receive_init (vi : ef_vi) (addr dma_id : Z) : ef_vi * Z :=
  if nz (ef_vi_receive_space vi) then
    let di := Z.land (rx_added (rxq_state vi)) (q_mask (vi_rxq vi)) in
    let vi := upd_rxq (fun qs => qs <| rx_added := u32 (rx_added qs + 1) |>) vi in
    let vi := rx_set_id di dma_id vi in
    let desc :=
      if negb (vi_flag vi EF_VI_RX_PHYS_ADDR)
      then falcon_dma_rx_calc_ip_buf (ef_bufaddr addr)
      else __falcon_dma_rx_calc_ip_phys addr 0 in
    (rx_set_desc di desc vi, 0)
  else (vi, - EAGAIN).

Definition FR_BZ_RX_DESC_UPD_REGP0_OFST := 0x830.

Definition falcon_ef_vi_receive_push (vi : ef_vi) : ef_vi :=
  writel (Z.land (rx_added (rxq_state vi)) (q_mask (vi_rxq vi))) (io vi + FR_BZ_RX_DESC_UPD_REGP0_OFST + 12) vi.

(** * What is sent *)

(** The iovecs without the digest's placeholder. *)
Fixpoint with_last_len (iov : list ef_iovec) (n : Z) : list ef_iovec :=
  match iov with
  | [] => []
  | [v] => [mk_ef_iovec (iov_base v) n]
  | v :: iov => v :: with_last_len iov n
  end.

(** Total bytes. *)
Definition iov_bytes (iov : list ef_iovec) : Z := foldr Z.add 0 (iov_len <$> iov).

(** The fragments: each iovec is cut at 4K boundaries, in either address mode. *)
Definition falcon_frags (iov : list ef_iovec) : list (Z * Z) := tx_frags false iov.

Definition falcon_desc (phys : bool) (frag : Z * Z) (cont : Z) : Z :=
  if phys then falcon_dma_tx_calc_ip_phys (ef_physaddr frag.1) frag.2 0 cont
  else falcon_dma_tx_calc_ip_buf (ef_bufaddr frag.1) frag.2 0 cont.

Fixpoint falcon_descs (phys : bool) (frags : list (Z * Z)) : list Z :=
  match frags with
  | [] => []
  | [f] => [falcon_desc phys f 0]
  | f :: frags => falcon_desc phys f EFVI_FALCON_DMA_TX_FRAG :: falcon_descs phys frags
  end.

(** * The transmit loop *)

Lemma length_falcon_descs phys frags : length (falcon_descs phys frags) = length frags.
Proof. induction frags as [|f [|f' frags] IH]; cbn [falcon_descs length] in *; congruence. Qed.

Lemma falcon_descs_cons phys f frags : frags <> [] ->
  falcon_descs phys (f :: frags) = falcon_desc phys f EFVI_FALCON_DMA_TX_FRAG :: falcon_descs phys frags.
Proof. by destruct frags. Qed.

Lemma falcon_descs_next phys f iov :
  falcon_descs phys (f :: falcon_frags iov) =
  falcon_desc phys f (if match iov with [] => true | _ => false end then 0 else EFVI_FALCON_DMA_TX_FRAG)
    :: falcon_descs phys (falcon_frags iov).
Proof. destruct iov as [|v iov]; [done|]. apply falcon_descs_cons, tx_frags_nonempty. Qed.

Lemma falcon_descs_nonempty phys frags : frags <> [] -> falcon_descs phys frags <> [].
Proof. by destruct frags as [|f [|f' frags]]. Qed.

Lemma pieces_app_nonempty addr len l : tx_pieces false addr len ++ l <> [].
Proof. intros [E _]%app_nil. by apply tx_pieces_nonempty in E. Qed.

Lemma page_left_bits32 addr : u32 (Z.land (u32 (Z.lnot (u32 addr))) 0xfff + 1) = page_left addr.
Proof.
  change 0xfff with (2 ^ 12 - 1). rewrite land_mask by lia. change (2 ^ 12) with 4096.
  unfold page_left, Z.lnot. rewrite u32_small; word_lia.
Qed.

Definition effective (ddig : option Z) (iov : list ef_iovec) : list ef_iovec :=
  match ddig with Some n => with_last_len iov n | None => iov end.

Lemma effective_cons ddig v iov : effective ddig (v :: iov) =
  mk_ef_iovec (iov_base v) (match ddig, iov with Some n, [] => n | _, _ => iov_len v end) :: effective ddig iov.
Proof. destruct ddig, iov, v; done. Qed.

Lemma effective_nil ddig iov : match effective ddig iov with [] => true | _ => false end = match iov with [] => true | _ => false end.
Proof. by destruct ddig, iov as [|? []]. Qed.

Lemma tx_room vi q p : tx_rep vi q p -> tx_full vi = false -> Z.of_nat (length q) < q_mask (vi_txq vi).
Proof. intros Hr. rewrite (tx_full_spec vi q p Hr). apply Z.leb_gt. Qed.

Lemma falcon_loop_spec fuel : forall vi q p added_save ddig addr len iov,
  tx_rep vi q p -> 0 <= addr < 18446744073709551616 -> 0 <= len < 4294967296 ->
  Forall iov_wf (effective ddig iov) -> q_mask (vi_txq vi) - Z.of_nat (length q) < Z.of_nat fuel ->
  falcon_transmitv_init_loop fuel added_save ddig vi addr len iov =
  Some (tx_outcome vi q (falcon_descs (tx_phys vi)
          (tx_pieces false addr len ++ falcon_frags (effective ddig iov))) added_save).
Proof.
  induction fuel as [|fuel IH]; intros vi q p added_save ddig addr len iov Hr Ha Hl Hiov Hfuel.
  { destruct Hr as [[_ _ _ _ ? _] _ _ _]. lia. }
  cbn [falcon_transmitv_init_loop]. set (phys := tx_phys vi).
  destruct (tx_full vi) eqn:Hfull.
  { destruct (falcon_descs phys (tx_pieces false addr len ++ falcon_frags (effective ddig iov))) as [|x descs] eqn:Ed.
    - by apply falcon_descs_nonempty in Ed; [|apply pieces_app_nonempty].
    - by rewrite (tx_outcome_full vi q p). }
  pose proof (tx_room vi q p Hr Hfull) as Hlt.
  (* the turn after a descriptor *)
  assert (Hturn : forall x addr' len' iov', 0 <= addr' < 18446744073709551616 -> 0 <= len' < 4294967296 ->
    Forall iov_wf (effective ddig iov') ->
    falcon_transmitv_init_loop fuel added_save ddig (tx_post vi x) addr' len' iov' =
    Some (tx_outcome vi q (x :: falcon_descs phys (tx_pieces false addr' len' ++ falcon_frags (effective ddig iov'))) added_save)).
  { intros x addr' len' iov' Ha' Hl' Hiov'. rewrite (IH (tx_post vi x) (q ++ [EF_REQUEST_ID_MASK]) p); try done.
    - by rewrite (tx_outcome_step vi q p) by (try done; apply falcon_descs_nonempty, pieces_app_nonempty).
    - by apply tx_post_rep.
    - rewrite length_app. unfold tx_post. vi_cbn. cbn [length]. lia. }
  (* the rest of the iovecs *)
  assert (Hnext : forall x,
    match iov with
    | [] => Some (tx_post vi x, 0, Z.land (tx_added (txq_state vi)) (q_mask (vi_txq vi)))
    | v :: iov' => falcon_transmitv_init_loop fuel added_save ddig (tx_post vi x) (iov_base v)
        (match ddig, iov' with Some last_len, [] => last_len | _, _ => iov_len v end) iov'
    end = Some (tx_outcome vi q (x :: falcon_descs phys (falcon_frags (effective ddig iov))) added_save)).
  { intros x. destruct iov as [|v iov].
    - replace (effective ddig []) with (@nil ef_iovec) by (by destruct ddig). cbn [falcon_frags tx_frags map concat falcon_descs].
      by rewrite (tx_outcome_last vi q p).
    - rewrite effective_cons in *. apply Forall_cons_1 in Hiov as [[Hv1 Hv2] Hiov]. by apply Hturn. }
  change (vi_flag (tx_set_added (tx_added (txq_state vi) + 1) vi) EF_VI_TX_PHYS_ADDR) with phys.
  rewrite page_left_bits32. cbv zeta. pose proof (page_left_range addr).
  rewrite <- (effective_nil ddig iov). destruct (Z.ltb_spec (page_left addr) len) as [Hgt|Hle].
  - destruct (Z.ltb_spec len (page_left addr)); [lia|]. destruct (Z.eqb_spec (page_left addr) len); [lia|].
    rewrite andb_false_r, u32_small by lia. destruct (Z.eqb_spec (len - page_left addr) 0); [lia|].
    rewrite pieces_more by lia. cbn [app]. rewrite falcon_descs_cons by apply pieces_app_nonempty.
    apply (Hturn (falcon_desc phys (addr, page_left addr) EFVI_FALCON_DMA_TX_FRAG)); [apply u64_range|lia|done].
  - replace (if len <? page_left addr then len else page_left addr) with len
      by (destruct (Z.ltb_spec len (page_left addr)); lia).
    rewrite Z.eqb_refl, andb_true_r, Z.sub_diag. cbn [u32 Z.modulo Z.eqb].
    rewrite pieces_last by lia. cbn [app]. rewrite falcon_descs_next. rewrite <- Hnext. done.
Qed.

(** * The digest's placeholder *)

(** Four bytes at the end of the last iovec, or of the last two, with some data
    before them: the splits the code allows for.  A placeholder that reaches into a
    third iovec is not one of them, see [ddig_trim_three_way]. *)
Inductive ddig_ok : list ef_iovec -> list ef_iovec -> Prop :=
  | Ddig_last pre v : 4 < iov_len v -> ddig_ok (pre ++ [v]) (pre ++ [mk_ef_iovec (iov_base v) (iov_len v - 4)])
  | Ddig_two pre v v' : iov_len v' <= 4 < iov_len v + iov_len v' ->
      ddig_ok (pre ++ [v; v']) (pre ++ [mk_ef_iovec (iov_base v) (iov_len v + iov_len v' - 4)]).

Lemma with_last_len_app pre v n : with_last_len (pre ++ [v]) n = pre ++ [mk_ef_iovec (iov_base v) n].
Proof.
  induction pre as [|w pre IH]; [done|]. cbn [app]. rewrite <- IH. by destruct pre.
Qed.

Lemma ddig_trim_spec iov iov' : ddig_ok iov iov' -> Forall iov_wf iov -> exists l n,
  ddig_trim iov = Some (l, n) /\ l <> [] /\ with_last_len l n = iov'.
Proof.
  intros [pre v Hv|pre v v' Hv] Hwf; unfold ddig_trim; rewrite length_app; cbn [length].
  - apply Forall_app in Hwf as [_ [[_ Hw] _]%Forall_cons_1]. rewrite lookup_app_r by lia.
    replace (length pre + 1 - 1 - length pre)%nat with 0%nat by lia. cbn [lookup list_lookup].
    destruct (Z.leb_spec (iov_len v) 4); [lia|]. rewrite u32_small by lia.
    eexists _, _. split; [done|]. split; [by destruct pre|apply with_last_len_app].
  - apply Forall_app in Hwf as [_ [[_ Hw] [[_ Hw'] _]%Forall_cons_1]%Forall_cons_1]. rewrite lookup_app_r by lia.
    replace (length pre + 2 - 1 - length pre)%nat with 1%nat by lia. cbn [lookup list_lookup].
    destruct (Z.leb_spec (iov_len v') 4); [|lia].
    replace (length pre + 2 - 1)%nat with (length pre + 1)%nat by lia.
    replace (take (length pre + 1) (pre ++ [v; v'])) with (pre ++ [v])
      by (rewrite take_app_ge by lia; by replace (length pre + 1 - length pre)%nat with 1%nat by lia).
    rewrite lookup_app_r by lia. replace (length pre + 2 - 2 - length pre)%nat with 0%nat by lia. cbn [lookup list_lookup].
    rewrite (u32_small (4 - _)) by lia. rewrite u32_small by lia.
    eexists _, _. split; [done|]. split; [by destruct pre|]. rewrite with_last_len_app. do 3 f_equal. lia.
Qed.

(** The code looks at two iovecs only: when the last two together hold fewer
    than the four bytes, [last_len] wraps around and the second-last iovec, of a
    byte or two, is handed to the NIC with a length close to 2^32. *)
Lemma ddig_trim_three_way pre v v' :
  0 <= iov_len v -> 0 <= iov_len v' -> iov_len v + iov_len v' < 4 ->
  ddig_trim (pre ++ [v; v']) = Some (pre ++ [v], 4294967292 + iov_len v + iov_len v').
Proof.
  intros Hv Hv' Hs. unfold ddig_trim. rewrite length_app. cbn [length]. rewrite lookup_app_r by lia.
  replace (length pre + 2 - 1 - length pre)%nat with 1%nat by lia. cbn [lookup list_lookup].
  destruct (Z.leb_spec (iov_len v') 4); [|lia].
  replace (length pre + 2 - 1)%nat with (length pre + 1)%nat by lia.
  replace (take (length pre + 1) (pre ++ [v; v'])) with (pre ++ [v])
    by (rewrite take_app_ge by lia; by replace (length pre + 1 - length pre)%nat with 1%nat by lia).
  rewrite lookup_app_r by lia. replace (length pre + 2 - 2 - length pre)%nat with 0%nat by lia. cbn [lookup list_lookup].
  do 2 f_equal. rewrite (u32_small (4 - _)) by lia. word_lia.
Qed.

Lemma foldr_add_app l l' : foldr Z.add 0 (l ++ l') = foldr Z.add 0 l + foldr Z.add 0 l'.
Proof. induction l as [|x l IH]; cbn; lia. Qed.

Lemma iov_bytes_app l l' : iov_bytes (l ++ l') = iov_bytes l + iov_bytes l'.
Proof. unfold iov_bytes. by rewrite fmap_app, foldr_add_app. Qed.

Lemma ddig_ok_bytes iov iov' : ddig_ok iov iov' -> iov_bytes iov' = iov_bytes iov - 4.
Proof. intros []; rewrite !iov_bytes_app; cbn; lia. Qed.

Lemma ddig_ok_wf iov iov' : ddig_ok iov iov' -> Forall iov_wf iov -> Forall iov_wf iov'.
Proof.
  intros [] [? Hv]%Forall_app; apply Forall_app_2; try done; apply Forall_cons_1 in Hv as [[??] Hv];
    (apply Forall_cons; [|done]); (split; cbn; [done|]); [lia|]. apply Forall_cons_1 in Hv as [[??] _]. lia.
Qed.

(** What is handed to the NIC. *)
Inductive falcon_handed (ddig : bool) (iov : list ef_iovec) : list ef_iovec -> Prop :=
  | Handed_all : ddig = false -> falcon_handed ddig iov iov
  | Handed_ddig iov' : ddig = true -> ddig_ok iov iov' -> falcon_handed ddig iov iov'.

(** Cutting at pages loses nothing. *)
Lemma falcon_frags_cut iov : Forall iov_wf iov ->
  foldr Z.add 0 (snd <$> falcon_frags iov) = iov_bytes iov /\
  Forall (fun '(a, n) => 0 <= n /\ a `mod` 4096 + n <= 4096) (falcon_frags iov).
Proof.
  induction 1 as [|v iov [Hb Hl] _ [IH1 IH2]]; [done|]. unfold falcon_frags, tx_frags in *. cbn [map concat].
  destruct (tx_pieces_split (iov_base v) (iov_len v) Hb Hl) as (_ & Hs & Hf). split.
  - rewrite fmap_app, foldr_add_app, IH1. change (snd <$> tx_pieces false (iov_base v) (iov_len v)) with
      (map snd (tx_pieces false (iov_base v) (iov_len v))). rewrite Hs. done.
  - by apply Forall_app_2.
Qed.

(** * What the NIC reads *)

Definition falcon_read (phys : bool) (desc : Z) : Z * Z * Z :=
  if phys then (CI_QWORD_FIELD desc TX_KER_BUF_ADR, CI_QWORD_FIELD desc TX_KER_BYTE_CNT, CI_QWORD_FIELD desc TX_KER_CONT)
  else (CI_QWORD_FIELD desc TX_USR_BUF_ID * 4096 + CI_QWORD_FIELD desc TX_USR_BYTE_OFS,
        CI_QWORD_FIELD desc TX_USR_BYTE_CNT, CI_QWORD_FIELD desc TX_USR_CONT).

(** Addresses of 46 bits, and of 32 in the buffer table. *)
Definition falcon_addr (phys : bool) (a : Z) : Z := a `mod` (if phys then 2 ^ 46 else 2 ^ 32).

Ltac fields_apart :=
  repeat (apply FOP_cons; [repeat (apply List.Forall_cons; [unfold disjoint_fields; cbn; lia|]); apply List.Forall_nil|]);
  apply FOP_nil.

Lemma falcon_desc_read phys a n c : 0 <= n <= 4096 -> 0 <= c <= 1 ->
  falcon_read phys (falcon_desc phys (a, n) c) = (falcon_addr phys a, n, c).
Proof.
  intros Hn Hc. destruct phys; unfold falcon_read, falcon_desc, falcon_addr; cbn [fst snd].
  - unfold falcon_dma_tx_calc_ip_phys, ef_physaddr, dma_addr_to_u46. rewrite land_mask by lia.
    pose proof (Z.mod_pos_bound a (2 ^ 46) ltac:(lia)) as Ha. revert Ha. generalize (a `mod` 2 ^ 46). intros a' Ha.
    match goal with |- context [CI_POPULATE_QWORD ?l] => set (fs := l) end.
    assert (Hfit : Forall fits fs) by (repeat (apply Forall_cons; [split; [split|]; cbn; lia|]); apply Forall_nil_2).
    assert (Hdis : ForallOrdPairs disjoint_fields fs) by fields_apart.
    by rewrite (populate_field fs TX_KER_BUF_ADR a'), (populate_field fs TX_KER_BYTE_CNT n), (populate_field fs TX_KER_CONT c)
      by (try done; cbn; auto 10).
  - unfold falcon_dma_tx_calc_ip_buf, falcon_dma_tx_calc_ip_buf_4k, ef_bufaddr, __falcon_dma_tx_calc_ip_buf,
      EFVI_FALCON_BUFFER_4K_PAGE, EFVI_FALCON_BUFFER_4K_OFF, EFVI_FALCON_VADDR_M, EFVI_FALCON_VADDR_4K_S.
    change 0xfffff with (2 ^ 20 - 1). change 4095 with (2 ^ 12 - 1). rewrite !land_mask by lia.
    change (a `mod` 2 ^ 32) with (u32 a). pose proof (u32_range a) as Ha. revert Ha. generalize (u32 a). intros a' Ha.
    rewrite Z.shiftr_div_pow2 by lia. rewrite (Z.mod_small (a' / 2 ^ 12)) by (split; [apply Z.div_pos; lia|apply Z.div_lt_upper_bound; lia]).
    pose proof (Z.mod_pos_bound a' (2 ^ 12) ltac:(lia)). assert (0 <= a' / 2 ^ 12 < 2 ^ 20)
      by (split; [apply Z.div_pos; lia|apply Z.div_lt_upper_bound; lia]).
    match goal with |- context [CI_POPULATE_QWORD ?l] => set (fs := l) end.
    assert (Hfit : Forall fits fs) by (repeat (apply Forall_cons; [split; [split|]; cbn; lia|]); apply Forall_nil_2).
    assert (Hdis : ForallOrdPairs disjoint_fields fs) by fields_apart.
    rewrite (populate_field fs TX_USR_BUF_ID (a' / 2 ^ 12)), (populate_field fs TX_USR_BYTE_OFS (a' `mod` 2 ^ 12)),
      (populate_field fs TX_USR_BYTE_CNT n), (populate_field fs TX_USR_CONT c); try done; try (by cbn; auto 10).
    do 2 f_equal. change (2 ^ 12) with 4096. rewrite Z.mul_comm. symmetry. apply Z.div_mod. lia.
Qed.

(** The packet as the NIC reads it: the fragments, all but the last continued. *)
Fixpoint falcon_packet (phys : bool) (frags : list (Z * Z)) : list (Z * Z * Z) :=
  match frags with
  | [] => []
  | [(a, n)] => [(falcon_addr phys a, n, 0)]
  | (a, n) :: frags => (falcon_addr phys a, n, 1) :: falcon_packet phys frags
  end.

Lemma falcon_descs_read phys frags : Forall (fun '(a, n) => 0 <= n /\ a `mod` 4096 + n <= 4096) frags ->
  falcon_read phys <$> falcon_descs phys frags = falcon_packet phys frags.
Proof.
  induction 1 as [|[a n] frags [Hn Ha] _ IH]; [done|]. pose proof (Z.mod_pos_bound a 4096 ltac:(lia)).
  destruct frags as [|f frags].
  - cbn [falcon_descs fmap list_fmap falcon_packet]. by rewrite falcon_desc_read by lia.
  - rewrite falcon_descs_cons by done. cbn [fmap list_fmap]. rewrite falcon_desc_read by (unfold EFVI_FALCON_DMA_TX_FRAG; lia).
    change (falcon_packet phys ((a, n) :: f :: frags)) with ((falcon_addr phys a, n, 1) :: falcon_packet phys (f :: frags)).
    rewrite <- IH. done.
Qed.

(** * [falcon_ef_vi_transmitv_init] *)

Lemma falcon_transmitv_init_outcome vi q p iov0 iov sent dma_id :
  tx_rep vi q p -> Forall iov_wf (iov0 :: iov) -> falcon_handed (vi_flag vi EF_VI_ISCSI_TX_DDIG) (iov0 :: iov) sent ->
  sent <> [] /\ Forall iov_wf sent /\
  falcon_ef_vi_transmitv_init vi iov0 iov dma_id =
    let '(vi', rc, di) := tx_outcome vi q (falcon_descs (tx_phys vi) (falcon_frags sent)) (tx_added (txq_state vi)) in
    if rc =? 0 then Some (tx_set_id di dma_id vi', 0) else Some (vi', rc).
Proof.
  intros Hr Hwf Hh. unfold falcon_ef_vi_transmitv_init.
  assert (Hfuel : q_mask (vi_txq vi) - Z.of_nat (length q) < Z.of_nat (S (Z.to_nat (q_mask (vi_txq vi))))).
  { destruct Hr as [[Hm _ _ _ ? _] _ _ _]. pose proof (pow2_mask_range _ Hm). lia. }
  destruct Hh as [Ed|sent Ed Hok]; rewrite Ed.
  - pose proof Hwf as [[Hb Hl] Hwf']%Forall_cons_1. split; [done|]. split; [done|].
    rewrite (falcon_loop_spec _ vi q p _ None) by done. by destruct (tx_outcome _ _ _ _) as [[vi' rc] di].
  - destruct (ddig_trim_spec _ _ Hok Hwf) as (l & n & -> & Hne & Hl). destruct l as [|v l]; [done|].
    change (with_last_len (v :: l) n) with (effective (Some n) (v :: l)) in Hl. rewrite effective_cons in Hl. subst sent.
    pose proof (ddig_ok_wf _ _ Hok Hwf) as Hs. pose proof Hs as [[Hb Hlen] Hs']%Forall_cons_1. split; [done|]. split; [done|].
    rewrite (falcon_loop_spec _ vi q p _ (Some n)) by done. by destruct (tx_outcome _ _ _ _) as [[vi' rc] di].
Qed.

(** The descriptors of the [length q] slots in flight. *)
Definition tx_in_flight (vi vi' : ef_vi) (q : list Z) : list Z :=
  take (length q) (rview (q_mask (vi_txq vi)) (q_descriptors (vi_txq vi')) (tx_removed (txq_state vi))).

(** Writing into the free slots leaves the descriptors in flight. *)
Lemma tx_written_in_flight vi q p descs : tx_rep vi q p ->
  Z.of_nat (length q) + Z.of_nat (length descs) <= q_mask (vi_txq vi) ->
  tx_in_flight vi (tx_written vi descs) q = tx_in_flight vi vi q.
Proof.
  intros [[Hm _ _ Ha _ _] Hd _ _] Hn. unfold tx_in_flight.
  pose proof (tx_written_view (tx_removed (txq_state vi)) descs vi (length q)) as V. cbv zeta in V.
  rewrite V; [|done|done|done|lia]. rewrite take_app_le, take_take by
    (rewrite length_take, length_rview; pose proof (pow2_mask_range _ Hm); lia).
  f_equal. lia.
Qed.

(** C30: [falcon_ef_vi_transmitv_init] terminates and appends to a bounded FIFO: with
    room it writes, from the slot of [added] on, descriptors in which the NIC
    reads the packet's bytes (less the placeholder of a digest, when that is on and
    lies within the last iovec or the last two) in pieces that do not cross a 4K
    page, all but the last continued, and the queue gains one entry per descriptor
    with the packet's id on the last; without room it returns [-EAGAIN] and
    counters, ids and doorbells are as before.  Either way the descriptors of the
    packets in flight are untouched.  Holds across 32-bit counter wrap-around. *)
Theorem falcon_transmitv_init_refines vi q p iov0 iov sent dma_id :
  tx_rep vi q p -> Forall iov_wf (iov0 :: iov) -> falcon_handed (vi_flag vi EF_VI_ISCSI_TX_DDIG) (iov0 :: iov) sent ->
  let frags := falcon_frags sent in
  let n := length frags in
  iov_bytes sent = iov_bytes (iov0 :: iov) - (if vi_flag vi EF_VI_ISCSI_TX_DDIG then 4 else 0) /\
  foldr Z.add 0 (snd <$> frags) = iov_bytes sent /\ Forall (fun '(a, n) => 0 <= n /\ a `mod` 4096 + n <= 4096) frags /\
  exists vi' rc, falcon_ef_vi_transmitv_init vi iov0 iov dma_id = Some (vi', rc) /\
    tx_in_flight vi vi' q = tx_in_flight vi vi q /\
    if Z.of_nat (length q) + Z.of_nat n <=? q_mask (vi_txq vi)
    then rc = 0 /\ tx_rep vi' (q ++ replicate (n - 1) EF_REQUEST_ID_MASK ++ [dma_id]) p /\
      falcon_read (tx_phys vi) <$>
        take n (rview (q_mask (vi_txq vi)) (q_descriptors (vi_txq vi')) (tx_added (txq_state vi))) =
      falcon_packet (tx_phys vi) frags
    else rc = - EAGAIN /\ tx_rep vi' q p /\ ep_state vi' = ep_state vi /\
      q_ids (vi_txq vi') = q_ids (vi_txq vi) /\ io_log vi' = io_log vi.
Proof.
  intros Hr Hwf Hh frags n.
  destruct (falcon_transmitv_init_outcome vi q p iov0 iov sent dma_id Hr Hwf Hh) as (Hne & Hs & ->).
  destruct (falcon_frags_cut sent Hs) as [Hb Hc]. split; [|split; [done|split; [done|]]].
  { destruct Hh as [->|sent -> Hok]; [lia|]. by apply ddig_ok_bytes. }
  assert (Hd : falcon_descs (tx_phys vi) (falcon_frags sent) <> []).
  { apply falcon_descs_nonempty. destruct sent as [|v sent]; [done|]. apply tx_frags_nonempty. }
  assert (En : length (falcon_descs (tx_phys vi) (falcon_frags sent)) = n) by apply length_falcon_descs.
  unfold tx_outcome. rewrite En. destruct (Z.leb_spec (Z.of_nat (length q) + Z.of_nat n) (q_mask (vi_txq vi))) as [Hle|Hgt].
  - pose proof (tx_outcome_fits vi q p _ dma_id Hr Hd) as T. cbv zeta in T. rewrite En in T. destruct (T Hle) as [T1 T2].
    eexists _, 0. split; [reflexivity|].
    split; [change (tx_in_flight vi (tx_written vi (falcon_descs (tx_phys vi) (falcon_frags sent))) q = tx_in_flight vi vi q);
      apply (tx_written_in_flight vi q p); [done|by rewrite En]|].
    split; [done|]. split; [exact T1|]. rewrite T2. by apply falcon_descs_read.
  - pose proof (tx_outcome_full_restores vi q p (falcon_descs (tx_phys vi) (falcon_frags sent)) Hr) as T. cbv zeta in T.
    rewrite En in T. destruct (T Hgt) as (T1 & T2 & T3 & T4). eexists _, (- EAGAIN). split; [reflexivity|].
    split; [|done].
    match goal with |- tx_in_flight _ (tx_set_added _ (tx_written _ ?l)) _ = _ =>
      change (tx_in_flight vi (tx_written vi l) q = tx_in_flight vi vi q) end.
    apply (tx_written_in_flight vi q p); [done|]. destruct Hr as [[_ _ _ _ ? _] _ _ _]. rewrite length_take. lia.
Qed.

(** The push: exactly one descriptor not completed is written with the doorbell. *)
Lemma falcon_transmit_push_spec vi q p : tx_rep vi q p ->
  tx_rep (falcon_ef_vi_transmit_push vi) q (Z.of_nat (length q)) /\
  exists w, io_log (falcon_ef_vi_transmit_push vi) = io_log vi ++ [w] /\
    doorbell_of w = Some (Z.land (tx_added (txq_state vi)) (q_mask (vi_txq vi))) /\
    forall desc c v a, w = WriteOword desc c v a -> Z.of_nat (length q) = tx_push_thresh vi /\
      desc = aget (q_descriptors (vi_txq vi)) (Z.land (tx_removed (txq_state vi)) (q_mask (vi_txq vi))).
Proof.
  intros [R D P S]. unfold falcon_ef_vi_transmit_push. rewrite (ring_count q R).
  assert (Hd : u32 (Z.land (tx_added (txq_state vi)) (q_mask (vi_txq vi))) =
    Z.land (tx_added (txq_state vi)) (q_mask (vi_txq vi))).
  { destruct R as [Hm _ _ _ _ _]. pose proof (slot_range _ (tx_added (txq_state vi)) Hm).
    pose proof (pow2_mask_range _ Hm). apply u32_small. lia. }
  destruct (Z.eqb_spec (Z.of_nat (length q)) (tx_push_thresh vi)) as [E|E]; split.
  - split; [exact R|exact D| |lia]. by destruct R.
  - eexists. split; [reflexivity|]. split; [done|]. by intros desc c v a [= <- _ _ _].
  - split; [exact R|exact D| |lia]. by destruct R.
  - eexists. split; [reflexivity|]. split; [cbn; by rewrite Hd|done].
Qed.

(** * The receive ring *)

(** The ring holds the buffers [q]. *)
Record falcon_rx_rep (vi : ef_vi) (q : list Z) : Prop := {
  fr_ring : ring_rep (q_mask (vi_rxq vi)) (q_ids (vi_rxq vi)) (rx_removed (rxq_state vi)) (rx_added (rxq_state vi)) q;
  fr_desc : Z.of_nat (length (q_descriptors (vi_rxq vi))) = q_mask (vi_rxq vi) + 1 }.

Lemma falcon_receive_space vi q : falcon_rx_rep vi q ->
  ef_vi_receive_space vi = q_mask (vi_rxq vi) - Z.of_nat (length q).
Proof.
  intros [R _]. unfold ef_vi_receive_space. rewrite (ring_count q R). destruct R as [Hm _ _ _ Hfit _].
  pose proof (pow2_mask_range _ Hm). rewrite u32_small by lia. unfold s32. rewrite u32_small by lia.
  destruct (Z.ltb_spec (q_mask (vi_rxq vi) - Z.of_nat (length q)) 2147483648); lia.
Qed.

(** A buffer is appended with its descriptor, or refused and nothing changed; the
    doorbell tells the NIC of all buffers. *)
Lemma falcon_receive_init_spec vi q addr dma_id : falcon_rx_rep vi q ->
  let '(vi', rc) := falcon_ef_vi_receive_init vi addr dma_id in
  if Z.of_nat (length q) <? q_mask (vi_rxq vi)
  then rc = 0 /\ falcon_rx_rep vi' (q ++ [dma_id]) /\
    aget (q_descriptors (vi_rxq vi')) (Z.land (rx_added (rxq_state vi)) (q_mask (vi_rxq vi))) =
      (if vi_flag vi EF_VI_RX_PHYS_ADDR then __falcon_dma_rx_calc_ip_phys addr 0 else falcon_dma_rx_calc_ip_buf (u32 addr))
  else rc = - EAGAIN /\ vi' = vi.
Proof.
  intros Hr. unfold falcon_ef_vi_receive_init. rewrite (falcon_receive_space vi q Hr). destruct Hr as [R D].
  destruct (Z.ltb_spec (Z.of_nat (length q)) (q_mask (vi_rxq vi))) as [Hlt|Hge].
  - unfold nz. rewrite (proj2 (Z.eqb_neq _ 0)) by lia. cbn [negb]. split; [done|]. split.
    + pose proof (ring_push q dma_id R Hlt) as R'. split; rx_cbn; rewrite ?length_aset; done.
    + rx_cbn. change (vi_flag (rx_set_id _ _ _) EF_VI_RX_PHYS_ADDR) with (vi_flag vi EF_VI_RX_PHYS_ADDR).
      destruct R as [Hm _ _ _ _ _]. pose proof (slot_range _ (rx_added (rxq_state vi)) Hm).
      rewrite aget_aset_eq by lia. by destruct (vi_flag vi EF_VI_RX_PHYS_ADDR).
  - destruct R as [_ _ _ _ Hfit _]. by replace (q_mask (vi_rxq vi) - Z.of_nat (length q)) with 0 by lia.
Qed.

(** * Example *)

(** A packet of two iovecs, the second inside the digest's placeholder. *)
Definition ex_falcon : ef_vi := ex_tx <| vi_flags := EF_VI_ISCSI_TX_DDIG |>.

Lemma falcon_transmitv_init_refines_witness : exists vi',
  falcon_ef_vi_transmitv_init ex_falcon (mk_ef_iovec 4000 200) [mk_ef_iovec 8192 3] 5 = Some (vi', 0) /\
  tx_rep vi' [EF_REQUEST_ID_MASK; 5] 0 /\
  falcon_read false <$> take 2 (rview 7 (q_descriptors (vi_txq vi')) 4294967294) = [(4000, 96, 1); (4096, 103, 0)].
Proof.
  destruct (falcon_transmitv_init_refines ex_falcon [] 0 (mk_ef_iovec 4000 200) [mk_ef_iovec 8192 3]
    [mk_ef_iovec 4000 199] 5) as (_ & _ & _ & vi' & rc & E & _ & H).
  - destruct ex_tx_rep as [R D P S]. split; [exact R|exact D|exact P|exact S].
  - repeat (apply Forall_cons; [unfold iov_wf; cbn; lia|]). apply Forall_nil_2.
  - apply Handed_ddig; [reflexivity|]. apply (Ddig_two [] (mk_ef_iovec 4000 200) (mk_ef_iovec 8192 3)). cbn. lia.
  - change (Z.of_nat 0 + Z.of_nat 2 <=? 7) with true in H. destruct H as (-> & R & V).
    exists vi'. split; [exact E|]. split; [exact R|exact V].
Defined.
