(* ===== verification/FalconEvent.v ===== *)
(** Events on Falcon NICs: lib/ciul/falcon_event.c and falcon_evtimer.c, with the
    formats of lib/ciul/ef_vi_falcon_event.h and the queries that all NICs share.

    The event ring is that of file Event.  Some handlers do not set all members of
    the event they deliver, so what the caller's array held before is a parameter
    of the poll: [old n] for its [n]-th entry.  The events delivered are a list; a
    list longer than [evs_len] is an array overrun. *)

From stdpp Require Import base list numbers gmap.
From S2P Require Import Prelude Bitfield Vi Ring Tx Rx Event Falcon.

Open Scope Z_scope.

(** * Event words *)

Definition EV_CODE := Field 60 4.
Definition RX_IP_EV_DECODE := 0.
Definition TX_IP_EV_DECODE := 2.
Definition DRV_GEN_EV_DECODE := 7.
Definition RX_EV_PKT_OK := Field 56 1.
Definition RX_EV_BUF_OWNER_ID_ERR := Field 54 1.
Definition RX_EV_IP_FRAG_ERR := Field 53 1.
Definition RX_EV_IP_HDR_CHKSUM_ERR := Field 52 1.
Definition RX_EV_TCP_UDP_CHKSUM_ERR := Field 51 1.
Definition RX_EV_ETH_CRC_ERR := Field 50 1.
Definition RX_EV_FRM_TRUNC := Field 49 1.
Definition RX_EV_TOBE_DISC := Field 47 1.
Definition RX_EV_MCAST_HASH_MATCH := Field 40 1.
Definition RX_EV_MCAST_PKT := Field 39 1.
Definition RX_EV_Q_LABEL := Field 32 5.
Definition RX_JUMBO_CONT := Field 31 1.
Definition RX_SOP := Field 15 1.
Definition RX_EV_BYTE_CNT := Field 16 14.
Definition RX_iSCSI_PKT_OK := Field 14 1.
Definition RX_EV_DESC_PTR := Field 0 12.
Definition TX_EV_PKT_ERR := Field 38 1.
Definition TX_EV_PKT_TOO_BIG := Field 37 1.
Definition TX_EV_Q_LABEL := Field 32 5.
Definition TX_EV_WQ_FF_FULL := Field 15 1.
Definition TX_EV_BUF_OWNER_ID_ERR := Field 14 1.
Definition TX_EV_COMP := Field 12 1.
Definition TX_EV_DESC_PTR := Field 0 12.

Definition EF_EVENT_RX_DISCARD_MCAST_MISMATCH := 1.
Definition EF_EVENT_RX_DISCARD_TRUNC := 3.
Definition EF_EVENT_RX_DISCARD_RIGHTS := 4.
Definition EF_EVENT_RX_DISCARD_EV_ERROR := 5.
Definition EF_EVENT_RX_DISCARD_OTHER := 6.
Definition EF_EVENT_TX_ERROR_RIGHTS := 0.
Definition EF_EVENT_TX_ERROR_OFLOW := 1.
Definition EF_EVENT_TX_ERROR_2BIG := 2.
Definition EF_EVENT_TX_ERROR_BUS := 3.

(** What an entry of the caller's array held: the members some handler leaves. *)
Record stale_event := mk_stale {
  stale_rx_flags : Z;    (** [rx_discard.flags] *)
  stale_tx_flags : Z;    (** [tx.flags] *)
  stale_subtype : Z      (** [tx_error.subtype] *)
}.

(** * Receive events *)

(** The labels of [falcon_rx_desc_consumed], which jump to each other. *)
Inductive rx_label := Dont_discard | Discard.

(** The flags, and the subtype if the event is a discard; [None] is running out of
    fuel. *)
Fixpoint rx_goto (fuel : nat) (label : rx_label) (ev interesting_errors flags : Z) : option (Z * option Z) :=
  match fuel with
  | O => None
  | S fuel =>
    let err f := QWORD_TEST_BIT f interesting_errors in
    match label with
    | Dont_discard =>
      let flags := if QWORD_TEST_BIT RX_iSCSI_PKT_OK ev then Z.lor flags EF_EVENT_FLAG_ISCSI_OK else flags in
      if QWORD_TEST_BIT RX_EV_MCAST_PKT ev then
        let flags := Z.lor flags EF_EVENT_FLAG_MULTICAST in
        if negb (QWORD_TEST_BIT RX_EV_MCAST_HASH_MATCH ev)
        then rx_goto fuel Discard ev interesting_errors flags else Some (flags, None)
      else Some (flags, None)
    | Discard =>
      if err RX_EV_BUF_OWNER_ID_ERR then Some (flags, Some EF_EVENT_RX_DISCARD_RIGHTS)
      else if err RX_EV_FRM_TRUNC then Some (flags, Some EF_EVENT_RX_DISCARD_TRUNC)
      else if err RX_EV_ETH_CRC_ERR then Some (flags, Some EF_EVENT_RX_DISCARD_CRC_BAD)
      else if QWORD_TEST_BIT RX_EV_MCAST_PKT ev && negb (QWORD_TEST_BIT RX_EV_MCAST_HASH_MATCH ev)
      then Some (flags, Some EF_EVENT_RX_DISCARD_MCAST_MISMATCH)
      else if err RX_EV_IP_HDR_CHKSUM_ERR then Some (flags, Some EF_EVENT_RX_DISCARD_CSUM_BAD)
      else if err RX_EV_TCP_UDP_CHKSUM_ERR then Some (flags, Some EF_EVENT_RX_DISCARD_CSUM_BAD)
      else if err RX_EV_TOBE_DISC then Some (flags, Some EF_EVENT_RX_DISCARD_OTHER)
      else if QWORD_TEST_BIT RX_EV_IP_FRAG_ERR ev then rx_goto fuel Dont_discard ev interesting_errors flags
      else Some (flags, Some EF_EVENT_RX_DISCARD_OTHER)
    end
  end.

(** No path takes more than one jump ([rx_goto_total]). *)
Definition falcon_rx_desc_consumed (vi : ef_vi) (ev q_label desc_i : Z) : option (ef_vi * list ef_event) :=
  let rq_id := aget (q_ids (vi_rxq vi)) desc_i in
  let vi := rx_set_id desc_i EF_REQUEST_ID_MASK vi in
  let vi := upd_rxq (fun qs => qs <| rx_removed := u32 (rx_removed qs + 1) |>) vi in
  let flags := if QWORD_TEST_BIT RX_SOP ev then EF_EVENT_FLAG_SOP else 0 in
  let flags := if QWORD_TEST_BIT RX_JUMBO_CONT ev then Z.lor flags EF_EVENT_FLAG_CONT else flags in
  let interesting_errors := Z.land ev (rx_discard_mask vi) in
  let len := QWORD_GET_U RX_EV_BYTE_CNT ev in
  let label := if QWORD_TEST_BIT RX_EV_PKT_OK ev || (interesting_errors =? 0) then Dont_discard else Discard in
  match rx_goto 2 label ev interesting_errors flags with
  | None => None
  | Some (flags, None) => Some (vi, [EV_RX (u8 q_label) rq_id len flags])
  | Some (flags, Some subtype) => Some (vi, [EV_RX_DISCARD (u8 q_label) rq_id len flags subtype])
  end.

Definition falcon_rx_no_desc_trunc (q_label : Z) : list ef_event := [EV_RX_NO_DESC_TRUNC (u8 q_label)].

Section poll.
Context (old : nat -> stale_event).

(** [n] is the entry of the array that is next. *)
Definition falcon_rx_unexpected (n : nat) (vi : ef_vi) (ev q_label desc_i : Z) : option (ef_vi * list ef_event) :=
  let mask := q_mask (vi_rxq vi) in
  if Z.land (u32 (desc_i - 1 - rx_removed (rxq_state vi))) mask =? 0 then
    let desc_i := Z.land (u32 (desc_i - 1)) mask in
    let lost := EV_RX_DISCARD (u8 q_label) (aget (q_ids (vi_rxq vi)) desc_i) 0 (stale_rx_flags (old n))
                  EF_EVENT_RX_DISCARD_EV_ERROR in
    let vi := rx_set_id desc_i EF_REQUEST_ID_MASK vi in
    let vi := upd_rxq (fun qs => qs <| rx_removed := u32 (rx_removed qs + 1) |>) vi in
    let vi := INC_ERROR_STAT (fun s => s <| rx_ev_lost ::= fun n => u32 (n + 1) |>) vi in
    let desc_i := Z.land (u32 (desc_i + 1)) mask in
    match falcon_rx_desc_consumed vi ev q_label desc_i with
    | None => None
    | Some (vi, evs) => Some (vi, lost :: evs)
    end
  else Some (INC_ERROR_STAT (fun s => s <| rx_ev_bad_desc_i ::= fun n => u32 (n + 1) |>) vi, []).

(** The VI an event is for. *)
Definition falcon_rx_event_vi (n : nat) (vi : ef_vi) (ev q_label : Z) : option (ef_vi * list ef_event) :=
  let mask := q_mask (vi_rxq vi) in
  let desc_i := Z.land mask (CI_QWORD_FIELD ev RX_EV_DESC_PTR) in
  if desc_i =? Z.land (rx_removed (rxq_state vi)) mask then falcon_rx_desc_consumed vi ev q_label desc_i
  else if Z.land (u32 (desc_i + 1 - rx_removed (rxq_state vi))) mask =? 0
  then Some (vi, falcon_rx_no_desc_trunc q_label)
  else falcon_rx_unexpected n vi ev q_label desc_i.

Definition falcon_rx_event (n : nat) (st : store) (evq : nat) (ev : Z) : option (store * list ef_event) :=
  match st !! evq with
  | None => None
  | Some evq_vi =>
    let q_label := QWORD_GET_U RX_EV_Q_LABEL ev in
    match vi_of_label evq_vi q_label with
    | Some p =>
      match st !! p with
      | None => Some (st, [])
      | Some vi =>
        match falcon_rx_event_vi n vi ev q_label with
        | None => None
        | Some (vi, evs) => Some (<[p := vi]> st, evs)
        end
      end
    | None =>
      Some (<[evq := INC_ERROR_STAT (fun s => s <| rx_ev_bad_q_label ::= fun n => u32 (n + 1) |>) evq_vi]> st, [])
    end
  end.

(** * Transmit and software events *)

Definition falcon_tx_event (n : nat) (ev : Z) : ef_event :=
  let q_id := u8 (QWORD_GET_U TX_EV_Q_LABEL ev) in
  let desc_id := u16 (QWORD_GET_U TX_EV_DESC_PTR ev + 1) in
  let flags := stale_tx_flags (old n) in
  if QWORD_TEST_BIT TX_EV_COMP ev then EV_TX q_id flags desc_id
  else
    EV_TX_ERROR q_id flags desc_id
      (if QWORD_TEST_BIT TX_EV_BUF_OWNER_ID_ERR ev then EF_EVENT_TX_ERROR_RIGHTS
       else if QWORD_TEST_BIT TX_EV_WQ_FF_FULL ev then EF_EVENT_TX_ERROR_OFLOW
       else if QWORD_TEST_BIT TX_EV_PKT_TOO_BIG ev then EF_EVENT_TX_ERROR_2BIG
       else if QWORD_TEST_BIT TX_EV_PKT_ERR ev then EF_EVENT_TX_ERROR_BUS
       else stale_subtype (old n)).

Definition falcon_drv_gen_event (ev : Z) : list ef_event := [EV_SW (u32 ev)].

(** * Polling *)

(** The [switch] on the event code. *)
Definition falcon_dispatch (n : nat) (st : store) (evq : nat) (ev : Z) : option (store * list ef_event) :=
  let code := CI_QWORD_FIELD ev EV_CODE in
  if code =? RX_IP_EV_DECODE then falcon_rx_event n st evq ev
  else if code =? TX_IP_EV_DECODE then Some (st, [falcon_tx_event n ev])
  else if code =? DRV_GEN_EV_DECODE then Some (st, falcon_drv_gen_event ev)
  else Some (st, []).

Definition consume (q : ef_vi) : ef_vi :=
  advance_evq_ptr (clear_event_at (evq_clear_stride (evq_state q)) q).

(** The [do ... while] loop. *)
Fixpoint falcon_poll_loop (fuel : nat) (st : store) (evq : nat) (evs : list ef_event) (evs_len : Z)
    : option (store * list ef_event) :=
  match fuel with
  | O => None
  | S fuel =>
    match st !! evq with
    | None => None
    | Some q =>
      let ev := event_at q 0 in
      let st := on_vi st evq consume in
      match falcon_dispatch (length evs) st evq ev with
      | None => None
      | Some (st, out) =>
        let evs := evs ++ out in
        let evs_len := evs_len - Z.of_nat (length out) in
        if evs_len =? 0 then Some (st, evs)
        else
          match st !! evq with
          | None => None
          | Some q => if EF_VI_IS_EVENT (event_at q 0) then falcon_poll_loop fuel st evq evs evs_len else Some (st, evs)
          end
      end
    end
  end.

(** The events written and the return value.  The loop runs at most once per slot
    of the ring. *)
Definition falcon_ef_eventq_poll (st : store) (evq : nat) (evs_len : Z) : option (store * list ef_event * Z) :=
  match st !! evq with
  | None => None
  | Some q =>
    let fuel := length (evq_base q) in
    if EF_VI_IS_EVENT (event_at q (evq_clear_stride (evq_state q) - 1)) then Some (st, [EV_OFLOW], 1)
    else if EF_VI_IS_EVENT (event_at q 0) then
      match falcon_poll_loop fuel st evq [] evs_len with
      | None => None
      | Some (st, evs) => Some (st, evs, Z.of_nat (length evs))
      end
    else if EF_VI_IS_EVENT (event_at q 1) then
      (* no event in this slot, but one in the next *)
      let st := on_vi st evq (fun q =>
        INC_ERROR_STAT (fun s => s <| evq_gap ::= fun n => u32 (n + 1) |>) (advance_evq_ptr q)) in
      match falcon_poll_loop fuel st evq [] evs_len with
      | None => None
      | Some (st, evs) => Some (st, evs, Z.of_nat (length evs))
      end
    else Some (st, [], 0)
  end.
End poll.

Definition ef_eventq_has_event (vi : ef_vi) : bool := EF_VI_IS_EVENT (event_at vi 0).
Definition ef_eventq_has_many_events (vi : ef_vi) (look_ahead : Z) : bool := EF_VI_IS_EVENT (event_at vi look_ahead).

(** * Priming and timers *)

Definition FR_BZ_EVQ_RPTR_REGP0_OFST := 0x400.
Definition FRF_AZ_EVQ_RPTR_LBN := 0.
Definition EF_VI_PAGE_SIZE := 4096.
Definition FR_BZ_TIMER_COMMAND_REGP0_OFST := 0x420.
Definition FRF_AB_TIMER_MODE_LBN := 12.
Definition FRF_CZ_TIMER_MODE_LBN := 14.
Definition FFE_AB_TIMER_MODE_DIS := 0.
Definition FFE_AB_TIMER_MODE_IMMED_START := 1.
Definition FFE_AB_TIMER_MODE_TRIG_START := 2.
Definition EFVI_FALCON_AB_EVQTIMER_HOLD := Z.shiftl FFE_AB_TIMER_MODE_TRIG_START FRF_AB_TIMER_MODE_LBN.
Definition EFVI_FALCON_AB_EVQTIMER_RUN := Z.shiftl FFE_AB_TIMER_MODE_IMMED_START FRF_AB_TIMER_MODE_LBN.
Definition EFVI_FALCON_AB_EVQTIMER_DISABLE := Z.shiftl FFE_AB_TIMER_MODE_DIS FRF_AB_TIMER_MODE_LBN.
Definition EFVI_FALCON_CZ_EVQTIMER_HOLD := Z.shiftl FFE_CZ_TIMER_MODE_TRIG_START FRF_CZ_TIMER_MODE_LBN.
Definition EFVI_FALCON_CZ_EVQTIMER_RUN := Z.shiftl FFE_CZ_TIMER_MODE_IMMED_START FRF_CZ_TIMER_MODE_LBN.
Definition EFVI_FALCON_CZ_EVQTIMER_DISABLE := Z.shiftl FFE_CZ_TIMER_MODE_DIS FRF_CZ_TIMER_MODE_LBN.

Definition falcon_ef_eventq_prime (vi : ef_vi) : ef_vi :=
  let ring_i := Z.land (ef_eventq_current vi) (evq_mask vi) / 8 in
  writel (Z.shiftl ring_i FRF_AZ_EVQ_RPTR_LBN)
    (io vi + Z.land FR_BZ_EVQ_RPTR_REGP0_OFST (EF_VI_PAGE_SIZE - 1)) vi.

Definition ef_eventq_timer_poke (v : Z) (vi : ef_vi) : ef_vi := writel v (io vi + FR_BZ_TIMER_COMMAND_REGP0_OFST) vi.

(** [q->nic_type.variant >= 'C'] *)
Definition is_cz (q : ef_vi) : bool := 67 <=? variant (nic_type q).

Definition falcon_ef_eventq_timer_prime (q : ef_vi) (v : Z) : ef_vi :=
  let vv := timer_ticks q v in
  if is_cz q then ef_eventq_timer_poke (Z.lor vv EFVI_FALCON_CZ_EVQTIMER_HOLD) q
  else ef_eventq_timer_poke (Z.lor vv EFVI_FALCON_AB_EVQTIMER_HOLD) q.

Definition falcon_ef_eventq_timer_run (q : ef_vi) (v : Z) : ef_vi :=
  let vv := timer_ticks q v in
  if is_cz q then ef_eventq_timer_poke (Z.lor vv EFVI_FALCON_CZ_EVQTIMER_RUN) q
  else ef_eventq_timer_poke (Z.lor vv EFVI_FALCON_AB_EVQTIMER_RUN) q.

Definition falcon_ef_eventq_timer_clear (q : ef_vi) : ef_vi :=
  if is_cz q then ef_eventq_timer_poke EFVI_FALCON_CZ_EVQTIMER_DISABLE q
  else ef_eventq_timer_poke EFVI_FALCON_AB_EVQTIMER_DISABLE q.

Definition falcon_ef_eventq_timer_zero (q : ef_vi) : ef_vi :=
  if is_cz q then ef_eventq_timer_poke (Z.lor 1 EFVI_FALCON_CZ_EVQTIMER_HOLD) q
  else ef_eventq_timer_poke (Z.lor 1 EFVI_FALCON_AB_EVQTIMER_HOLD) q.

(** * One received packet *)

(** When a packet is delivered: its multicast hash matches, and the NIC found it
    good, the errors found are all to be ignored, or fragmentation is all there
    is. *)
Definition mismatch (ev : Z) : bool := QWORD_TEST_BIT RX_EV_MCAST_PKT ev && negb (QWORD_TEST_BIT RX_EV_MCAST_HASH_MATCH ev).

Definition named_error (errs : Z) : bool :=
  existsb (fun f => QWORD_TEST_BIT f errs)
    [RX_EV_BUF_OWNER_ID_ERR; RX_EV_FRM_TRUNC; RX_EV_ETH_CRC_ERR; RX_EV_IP_HDR_CHKSUM_ERR; RX_EV_TCP_UDP_CHKSUM_ERR;
     RX_EV_TOBE_DISC].

Definition accepted (ev mask : Z) : bool :=
  negb (mismatch ev) &&
  (QWORD_TEST_BIT RX_EV_PKT_OK ev || (Z.land ev mask =? 0) ||
   (negb (named_error (Z.land ev mask)) && QWORD_TEST_BIT RX_EV_IP_FRAG_ERR ev)).

Definition or_if (b : bool) (f x : Z) : Z := if b then Z.lor x f else x.

Definition part_flags (ev : Z) : Z :=
  or_if (QWORD_TEST_BIT RX_JUMBO_CONT ev) EF_EVENT_FLAG_CONT (if QWORD_TEST_BIT RX_SOP ev then EF_EVENT_FLAG_SOP else 0).

Definition good_flags (ev : Z) : Z :=
  or_if (QWORD_TEST_BIT RX_EV_MCAST_PKT ev) EF_EVENT_FLAG_MULTICAST
    (or_if (QWORD_TEST_BIT RX_iSCSI_PKT_OK ev) EF_EVENT_FLAG_ISCSI_OK (part_flags ev)).

(** The event for buffer [id] says what became of the packet. *)
Inductive rx_reports (ev mask q_label id : Z) : ef_event -> Prop :=
  | Report_rx : accepted ev mask = true ->
      rx_reports ev mask q_label id (EV_RX (u8 q_label) id (QWORD_GET_U RX_EV_BYTE_CNT ev) (good_flags ev))
  | Report_discard flags subtype : accepted ev mask = false -> 0 <= subtype <= EF_EVENT_RX_DISCARD_OTHER ->
      subtype <> EF_EVENT_RX_DISCARD_EV_ERROR ->
      rx_reports ev mask q_label id (EV_RX_DISCARD (u8 q_label) id (QWORD_GET_U RX_EV_BYTE_CNT ev) flags subtype).

(** The jumps end. *)
Lemma rx_goto_total label ev errs flags : is_Some (rx_goto 2 label ev errs flags).
Proof.
  destruct label; cbn [rx_goto]; destruct (QWORD_TEST_BIT RX_EV_MCAST_PKT ev), (QWORD_TEST_BIT RX_EV_MCAST_HASH_MATCH ev);
    cbn [negb andb]; repeat (case_match; try (eexists; reflexivity)).
Qed.

Ltac rx_leaf :=
  first [split; reflexivity | split; [reflexivity|split; [split; discriminate|discriminate]]].

Lemma rx_goto_reports ev mask : let errs := Z.land ev mask in
  let label := if QWORD_TEST_BIT RX_EV_PKT_OK ev || (errs =? 0) then Dont_discard else Discard in
  match rx_goto 2 label ev errs (part_flags ev) with
  | None => False
  | Some (flags, None) => accepted ev mask = true /\ flags = good_flags ev
  | Some (flags, Some subtype) => accepted ev mask = false /\ 0 <= subtype <= EF_EVENT_RX_DISCARD_OTHER /\
      subtype <> EF_EVENT_RX_DISCARD_EV_ERROR
  end.
Proof.
  cbv zeta. unfold accepted, good_flags, or_if, mismatch, named_error. generalize (Z.land ev mask) as errs. intros errs.
  generalize (part_flags ev) as flags. intros flags. cbn [existsb].
  destruct (QWORD_TEST_BIT RX_EV_PKT_OK ev || (errs =? 0)); cbn [rx_goto];
    generalize (QWORD_TEST_BIT RX_EV_MCAST_PKT ev) as mc; generalize (QWORD_TEST_BIT RX_EV_MCAST_HASH_MATCH ev) as hm;
    generalize (QWORD_TEST_BIT RX_iSCSI_PKT_OK ev) as isc; generalize (QWORD_TEST_BIT RX_EV_IP_FRAG_ERR ev) as frag;
    generalize (QWORD_TEST_BIT RX_EV_BUF_OWNER_ID_ERR errs) as e1; generalize (QWORD_TEST_BIT RX_EV_FRM_TRUNC errs) as e2;
    generalize (QWORD_TEST_BIT RX_EV_ETH_CRC_ERR errs) as e3; generalize (QWORD_TEST_BIT RX_EV_IP_HDR_CHKSUM_ERR errs) as e4;
    generalize (QWORD_TEST_BIT RX_EV_TCP_UDP_CHKSUM_ERR errs) as e5; generalize (QWORD_TEST_BIT RX_EV_TOBE_DISC errs) as e6;
    intros e6 e5 e4 e3 e2 e1 frag isc hm mc;
    destruct mc, hm; cbn [negb andb orb]; try (split; reflexivity);
    destruct e1; try rx_leaf; destruct e2; try rx_leaf; destruct e3; try rx_leaf; destruct e4; try rx_leaf;
    destruct e5; try rx_leaf; destruct e6; try rx_leaf; destruct frag; rx_leaf.
Qed.

(** The oldest buffer is reported and leaves the ring. *)
Lemma falcon_consumed_spec vi x q ev q_label : falcon_rx_rep vi (x :: q) -> exists vi' e,
  falcon_rx_desc_consumed vi ev q_label (Z.land (rx_removed (rxq_state vi)) (q_mask (vi_rxq vi))) = Some (vi', [e]) /\
  rx_reports ev (rx_discard_mask vi) q_label x e /\ falcon_rx_rep vi' q.
Proof.
  intros [R D]. unfold falcon_rx_desc_consumed. rewrite (ring_head _ _ R).
  set (vi' := upd_rxq _ _). change (rx_discard_mask vi') with (rx_discard_mask vi).
  assert (Hr' : falcon_rx_rep vi' q) by (split; [exact (ring_pop _ _ R)|exact D]).
  pose proof (rx_goto_reports ev (rx_discard_mask vi)) as G. cbv zeta in G. unfold part_flags, or_if in G.
  destruct (rx_goto _ _ _ _ _) as [[flags [subtype|]]|]; [|..|done].
  - destruct G as (Ha & Hs & Hne). eexists _, _. split; [reflexivity|]. split; [by constructor|done].
  - destruct G as [Ha ->]. eexists _, _. split; [reflexivity|]. split; [by constructor|done].
Qed.

(** Slots by their distance from the oldest buffer. *)
Lemma slot_shift mask r d c : pow2_mask mask -> Z.land (u32 (Z.land (r + d) mask + c - r)) mask = Z.land (d + c) mask.
Proof.
  intros Hm. rewrite slot_u32, !slot_mod by done. pose proof (pow2_mask_range mask Hm).
  rewrite <- Z.add_sub_assoc, Zplus_mod_idemp_l. f_equal. lia.
Qed.

Lemma slot_zero mask d c : pow2_mask mask -> -1 <= d + c <= mask + 1 -> 0 < mask ->
  (Z.land (d + c) mask =? 0) = (d + c =? 0) || (d + c =? mask + 1).
Proof.
  intros Hm Hd Hp. rewrite slot_mod by done. apply Bool.eq_iff_eq_true. rewrite orb_true_iff, !Z.eqb_eq. split.
  - intros E. destruct (Z.eq_dec (d + c) (-1)) as [E1|].
    + rewrite E1 in E. replace (-1) with (mask + (-1) * (mask + 1)) in E by lia. rewrite Z_mod_plus_full, Z.mod_small in E; lia.
    + destruct (Z.eq_dec (d + c) (mask + 1)); [by right|left]. rewrite Z.mod_small in E; lia.
  - intros [->| ->]; [apply Z.mod_0_l; lia|]. apply Z_mod_same_full.
Qed.

(** C32: A receive event of a Falcon NIC for the buffer [d] places after the oldest.
    For the oldest, its id is reported, delivered or discarded as the errors and the
    VI's mask say, and it leaves the ring.  For the next, the event of the oldest
    was lost: both are reported, the oldest as a discard, and both leave the ring.
    For the one before, the packet was truncated for want of buffers; for any other
    the event is only counted, and the ring is as before.  The jumps between the
    labels end in all cases. *)
Theorem falcon_rx_event_recovers old n vi q ev q_label d :
  falcon_rx_rep vi q -> 1 < q_mask (vi_rxq vi) -> 0 <= d <= q_mask (vi_rxq vi) ->
  Z.land (q_mask (vi_rxq vi)) (CI_QWORD_FIELD ev RX_EV_DESC_PTR) =
    Z.land (rx_removed (rxq_state vi) + d) (q_mask (vi_rxq vi)) ->
  (d <= 1 -> d < Z.of_nat (length q)) ->
  exists vi' out, falcon_rx_event_vi old n vi ev q_label = Some (vi', out) /\
    if d =? 0 then exists x e q', q = x :: q' /\ out = [e] /\ rx_reports ev (rx_discard_mask vi) q_label x e /\ falcon_rx_rep vi' q'
    else if d =? q_mask (vi_rxq vi) then out = [EV_RX_NO_DESC_TRUNC (u8 q_label)] /\ vi' = vi
    else if d =? 1 then exists x y e q', q = x :: y :: q' /\
      out = [EV_RX_DISCARD (u8 q_label) x 0 (stale_rx_flags (old n)) EF_EVENT_RX_DISCARD_EV_ERROR; e] /\
      rx_reports ev (rx_discard_mask vi) q_label y e /\ falcon_rx_rep vi' q'
    else out = [] /\ falcon_rx_rep vi' q /\
      vi_stats vi' = option_map (fun s => s <| rx_ev_bad_desc_i ::= fun n => u32 (n + 1) |>) (vi_stats vi).
Proof.
  intros Hr Hm1 Hd Hp Hq. pose proof Hr as [R D]. pose proof R as [Hm _ Hrem _ _ _].
  unfold falcon_rx_event_vi. rewrite Hp.
  destruct (Z.eqb_spec d 0) as [->|Hd0].
  { rewrite Z.add_0_r, Z.eqb_refl. destruct q as [|x q]; [cbn in Hq; lia|].
    destruct (falcon_consumed_spec vi x q ev q_label Hr) as (vi' & e & E & He & Hr'). exists vi', [e]. split; [done|].
    by exists x, e, q. }
  destruct (Z.eqb_spec (Z.land (rx_removed (rxq_state vi) + d) (q_mask (vi_rxq vi)))
    (Z.land (rx_removed (rxq_state vi)) (q_mask (vi_rxq vi)))) as [E|_].
  { rewrite <- (Z.add_0_r (rx_removed (rxq_state vi))) in E at 2. apply slot_inj in E; [lia|done|lia..]. }
  rewrite slot_shift, (slot_zero _ d 1) by (done || lia). destruct (Z.eqb_spec (d + 1) 0); [lia|]. cbn [orb].
  destruct (Z.eqb_spec d (q_mask (vi_rxq vi))) as [Ed|Hdm].
  { rewrite Ed, Z.eqb_refl. by eexists _, _. }
  destruct (Z.eqb_spec (d + 1) (q_mask (vi_rxq vi) + 1)); [lia|]. unfold falcon_rx_unexpected.
  replace (Z.land (rx_removed (rxq_state vi) + d) (q_mask (vi_rxq vi)) - 1 - rx_removed (rxq_state vi))
    with (Z.land (rx_removed (rxq_state vi) + d) (q_mask (vi_rxq vi)) + (-1) - rx_removed (rxq_state vi)) by lia.
  rewrite slot_shift, (slot_zero _ d (-1)) by (done || lia).
  destruct (Z.eqb_spec (d + -1) (q_mask (vi_rxq vi) + 1)); [lia|]. rewrite orb_false_r.
  destruct (Z.eqb_spec d 1) as [->|Hd1].
  - cbn [Z.add Z.eqb Z.pos_sub].
    assert (E1 : Z.land (u32 (Z.land (rx_removed (rxq_state vi) + 1) (q_mask (vi_rxq vi)) - 1)) (q_mask (vi_rxq vi)) =
      Z.land (rx_removed (rxq_state vi)) (q_mask (vi_rxq vi))).
    { rewrite slot_u32, !slot_mod by done. rewrite Zminus_mod_idemp_l. f_equal. lia. }
    rewrite E1. destruct q as [|x [|y q]]; [cbn in Hq; lia..|]. rewrite (ring_head _ _ R). cbv zeta.
    set (vi1 := INC_ERROR_STAT _ _).
    assert (Hr1 : falcon_rx_rep vi1 (y :: q)) by (split; [exact (ring_pop _ _ R)|exact D]).
    assert (E2 : Z.land (u32 (Z.land (rx_removed (rxq_state vi)) (q_mask (vi_rxq vi)) + 1)) (q_mask (vi_rxq vi)) =
      Z.land (rx_removed (rxq_state vi1)) (q_mask (vi_rxq vi1))).
    { change (rx_removed (rxq_state vi1)) with (u32 (rx_removed (rxq_state vi) + 1)).
      change (q_mask (vi_rxq vi1)) with (q_mask (vi_rxq vi)). rewrite !slot_u32, !slot_mod by done. apply Zplus_mod_idemp_l. }
    rewrite E2. destruct (falcon_consumed_spec vi1 y q ev q_label Hr1) as (vi' & e & -> & He & Hr').
    eexists _, _. split; [reflexivity|]. by exists x, y, e, q.
  - destruct (Z.eqb_spec (d + -1) 0); [lia|]. by eexists _, _.
Qed.

(** * Handlers do not look at the event ring *)

Lemma falcon_consumed_frame b p vi ev q_label desc_i :
  falcon_rx_desc_consumed (set_ring b p vi) ev q_label desc_i =
  (fun r => (set_ring b p r.1, r.2)) <$> falcon_rx_desc_consumed vi ev q_label desc_i.
Proof.
  unfold falcon_rx_desc_consumed. change (vi_rxq (set_ring b p vi)) with (vi_rxq vi).
  match goal with |- context [rx_discard_mask ?x] => change (rx_discard_mask x) with (rx_discard_mask vi) end.
  match goal with |- context [Z.land ev (rx_discard_mask ?x)] => change (rx_discard_mask x) with (rx_discard_mask vi) end.
  by destruct (rx_goto _ _ _ _ _) as [[flags [subtype|]]|].
Qed.

Lemma falcon_consumed_ring vi ev q_label desc_i vi' evs :
  falcon_rx_desc_consumed vi ev q_label desc_i = Some (vi', evs) -> ring_of vi' = ring_of vi /\ length evs = 1%nat.
Proof.
  unfold falcon_rx_desc_consumed. destruct (rx_goto _ _ _ _ _) as [[flags [subtype|]]|]; [..|done]; by intros [= <- <-].
Qed.

Lemma falcon_consumed_total vi ev q_label desc_i : is_Some (falcon_rx_desc_consumed vi ev q_label desc_i).
Proof.
  unfold falcon_rx_desc_consumed.
  match goal with |- context [rx_goto 2 ?l ?e ?r ?f] => destruct (rx_goto_total l e r f) as [[flags [subtype|]] ->] end;
    eexists; reflexivity.
Qed.

(** An event for the buffer whose event was lost. *)
Definition is_lost (e : ef_event) : bool :=
  match e with EV_RX_DISCARD _ _ _ _ subtype => subtype =? EF_EVENT_RX_DISCARD_EV_ERROR | _ => false end.

(** What a handler promises: it is not concerned with the event ring, and it
    delivers at most one event, or two when an event was lost. *)
Definition few (evs : list ef_event) : Prop := (length evs <= 1)%nat \/ existsb is_lost evs = true.

Section handlers.
Context (old : nat -> stale_event).

Lemma falcon_rx_vi_frame b p n vi ev q_label : falcon_rx_event_vi old n (set_ring b p vi) ev q_label =
  (fun r => (set_ring b p r.1, r.2)) <$> falcon_rx_event_vi old n vi ev q_label.
Proof.
  unfold falcon_rx_event_vi, falcon_rx_unexpected. change (vi_rxq (set_ring b p vi)) with (vi_rxq vi).
  change (rxq_state (set_ring b p vi)) with (rxq_state vi). destruct (_ =? _); [apply falcon_consumed_frame|].
  destruct (_ =? _); [done|]. destruct (_ =? _); [|done]. cbv zeta.
  match goal with |- match falcon_rx_desc_consumed (INC_ERROR_STAT ?f (upd_rxq ?g (rx_set_id ?i ?d (set_ring b p vi)))) ev ?l ?j with _ => _ end = _ =>
    change (INC_ERROR_STAT f (upd_rxq g (rx_set_id i d (set_ring b p vi)))) with
      (set_ring b p (INC_ERROR_STAT f (upd_rxq g (rx_set_id i d vi)))) end.
  rewrite falcon_consumed_frame. by destruct (falcon_rx_desc_consumed _ _ _ _) as [[vi' evs]|].
Qed.

Lemma falcon_rx_vi_ring n vi ev q_label vi' evs : falcon_rx_event_vi old n vi ev q_label = Some (vi', evs) ->
  ring_of vi' = ring_of vi /\ few evs.
Proof.
  unfold falcon_rx_event_vi, falcon_rx_unexpected. destruct (_ =? _).
  { intros [H H']%falcon_consumed_ring. split; [done|]. left. lia. }
  destruct (_ =? _); [intros [= <- <-]; by split; [|left]|]. destruct (_ =? _).
  - destruct (falcon_rx_desc_consumed _ _ _ _) as [[vi1 evs1]|] eqn:E; [|done]. intros [= <- <-].
    apply falcon_consumed_ring in E as [E _]. split; [exact E|by right].
  - intros [= <- <-]. split; [done|]. left. cbn. lia.
Qed.

Lemma falcon_rx_vi_total n vi ev q_label : is_Some (falcon_rx_event_vi old n vi ev q_label).
Proof.
  unfold falcon_rx_event_vi, falcon_rx_unexpected. destruct (_ =? _); [apply falcon_consumed_total|].
  destruct (_ =? _); [by eexists|]. destruct (_ =? _); [|by eexists]. cbv zeta.
  match goal with |- context [falcon_rx_desc_consumed ?v ?e ?l ?i] => destruct (falcon_consumed_total v e l i) as [[vi' evs] ->] end.
  by eexists.
Qed.

Lemma falcon_dispatch_frame b p n (st : store) evq ev : falcon_dispatch old n (alter (set_ring b p) evq st) evq ev =
  (fun r => (alter (set_ring b p) evq r.1, r.2)) <$> falcon_dispatch old n st evq ev.
Proof.
  unfold falcon_dispatch. destruct (_ =? _); [|by repeat (destruct (_ =? _); [done|])].
  unfold falcon_rx_event. rewrite lookup_alter_eq.
  destruct (st !! evq) as [q|] eqn:Eq; cbn [fmap option_fmap option_map]; [|done].
  change (vi_of_label (set_ring b p q)) with (vi_of_label q). destruct (vi_of_label q _) as [pv|].
  - destruct (decide (pv = evq)) as [->|Hne].
    + rewrite lookup_alter_eq, Eq. cbn [fmap option_fmap option_map]. rewrite falcon_rx_vi_frame.
      destruct (falcon_rx_event_vi old n q ev _) as [[vi evs]|]; [|done]. cbn. by rewrite insert_with_ring.
    + rewrite lookup_alter_ne by congruence. destruct (st !! pv) as [vi0|]; [|done].
      destruct (falcon_rx_event_vi old n vi0 ev _) as [[vi evs]|]; [|done]. cbn. by rewrite alter_insert_ne by congruence.
  - cbn. by rewrite <- insert_with_ring.
Qed.

Lemma falcon_dispatch_ring n (st : store) evq ev st' evs p : falcon_dispatch old n st evq ev = Some (st', evs) ->
  ring_of <$> (st' !! p) = ring_of <$> (st !! p) /\ few evs.
Proof.
  assert (Hfew : forall e, few [e]) by (intros e; left; cbn; lia). assert (Hnil : few []) by (left; cbn; lia).
  unfold falcon_dispatch. destruct (_ =? _).
  2: { destruct (_ =? _); [|destruct (_ =? _)]; intros [= <- <-]; split; first [reflexivity | apply Hfew | apply Hnil]. }
  unfold falcon_rx_event. destruct (st !! evq) as [q|] eqn:Eq; [|done]. destruct (vi_of_label q _) as [pv|].
  - destruct (st !! pv) as [vi0|] eqn:Ep; [|by intros [= <- <-]].
    destruct (falcon_rx_event_vi old n vi0 ev _) as [[vi evs']|] eqn:Ev; [|done]. intros [= <- <-].
    apply falcon_rx_vi_ring in Ev as [Ev Hf]. split; [|done].
    destruct (decide (p = pv)) as [->|]; [|by rewrite lookup_insert_ne]. rewrite lookup_insert_eq, Ep. cbn. by rewrite Ev.
  - intros [= <- <-]. split; [|done]. destruct (decide (p = evq)) as [->|]; [|by rewrite lookup_insert_ne].
    by rewrite lookup_insert_eq, Eq.
Qed.

Lemma falcon_dispatch_total n (st : store) evq ev q : st !! evq = Some q -> is_Some (falcon_dispatch old n st evq ev).
Proof.
  intros Eq. unfold falcon_dispatch, falcon_rx_event. rewrite Eq. destruct (_ =? _).
  2: { repeat (destruct (_ =? _); [by eexists|]). by eexists. }
  destruct (vi_of_label q _) as [pv|]; [|by eexists]. destruct (st !! pv) as [vi|]; [|by eexists].
  destruct (falcon_rx_vi_total n vi ev (QWORD_GET_U RX_EV_Q_LABEL ev)) as [[vi' evs] ->]. by eexists.
Qed.

(** * Specification: handling a list of events *)

Fixpoint falcon_queue (st : store) (evq : nat) (pending : list Z) (evs : list ef_event) (evs_len : Z)
    : option (store * list ef_event * list Z) :=
  match pending with
  | [] => Some (st, evs, [])
  | ev :: pending =>
    match falcon_dispatch old (length evs) st evq ev with
    | None => None
    | Some (st, out) =>
      let evs_len := evs_len - Z.of_nat (length out) in
      if evs_len =? 0 then Some (st, evs ++ out, pending) else falcon_queue st evq pending (evs ++ out) evs_len
    end
  end.

Lemma falcon_queue_total evq : forall pending (st : store) evs evs_len q, st !! evq = Some q ->
  is_Some (falcon_queue st evq pending evs evs_len).
Proof.
  induction pending as [|ev pending IH]; intros st evs evs_len q Eq; cbn [falcon_queue]; [by eexists|].
  destruct (falcon_dispatch_total (length evs) st evq ev q Eq) as [[st' out] E]. rewrite E.
  destruct (_ =? 0); [by eexists|]. apply falcon_dispatch_ring with (p := evq) in E as [E _]. rewrite Eq in E.
  destruct (st' !! evq) as [q'|] eqn:Eq'; [|done]. by apply (IH st' _ _ q').
Qed.

Lemma falcon_queue_bound evq : forall pending st evs evs_len st' evs' rest, 0 < evs_len ->
  falcon_queue st evq pending evs evs_len = Some (st', evs', rest) ->
  exists out, evs' = evs ++ out /\ (existsb is_lost out = false -> Z.of_nat (length out) <= evs_len).
Proof.
  induction pending as [|ev pending IH]; intros st evs evs_len st' evs' rest Hl; cbn [falcon_queue].
  - intros [= <- <- <-]. exists []. rewrite app_nil_r. split; [done|]. cbn. lia.
  - destruct (falcon_dispatch _ _ _ _ _) as [[st1 out]|] eqn:E; [|done].
    destruct (falcon_dispatch_ring _ _ _ _ _ _ evq E) as [_ Hf].
    destruct (Z.eqb_spec (evs_len - Z.of_nat (length out)) 0).
    { intros [= <- <- <-]. exists out. split; [done|]. lia. }
    intros H. destruct Hf as [Hf|Hlost].
    + apply IH in H as (out' & -> & Hb); [|lia]. exists (out ++ out'). rewrite app_assoc, length_app, existsb_app.
      split; [done|]. intros [_ ?]%orb_false_iff. specialize (Hb H). lia.
    + assert (Happ : exists out', evs' = (evs ++ out) ++ out').
      { clear -H. revert H. generalize (evs ++ out), (evs_len - Z.of_nat (length out)). revert st1.
        induction pending as [|ev' pending IH]; intros st l n; cbn [falcon_queue].
        - intros [= _ <- _]. exists []. by rewrite app_nil_r.
        - destruct (falcon_dispatch _ _ _ _ _) as [[st2 out2]|]; [|done]. destruct (_ =? 0).
          + intros [= _ <- _]. by exists out2.
          + intros [out' ->]%IH. exists (out2 ++ out'). by rewrite app_assoc. }
      destruct Happ as [out' ->]. exists (out ++ out'). rewrite app_assoc, existsb_app, Hlost. by split.
Qed.
(** ** The ring *)

(** The concrete store is the abstract one up to the event ring of [evq], which
    holds the events left. *)
Definition ring_rel (k : Z) (evq : nat) (rest : list Z) (sta stc : store) : Prop :=
  exists b p q, stc = alter (set_ring b p) evq sta /\ stc !! evq = Some q /\ evq_rep q k rest.

Lemma ring_rel_start k evq (st : store) q pending : st !! evq = Some q -> evq_rep q k pending -> ring_rel k evq pending st st.
Proof. intros E Hr. destruct (poll_rel_start k evq st q pending E Hr) as (b & p & q' & H1 & H2 & H3 & _). by exists b, p, q'. Qed.

(** The slot is freed before its event is handled. *)
Lemma ring_rel_consume k evq ev rest sta stc : ring_rel k evq (ev :: rest) sta stc ->
  ring_rel k evq rest sta (on_vi stc evq consume).
Proof.
  intros (b & p & q & -> & Eq & Hr). destruct (consume_set_ring q) as (b' & p' & C).
  rewrite lookup_alter_eq in Eq. destruct (sta !! evq) as [q0|] eqn:E0; cbn in Eq; [|done]. injection Eq as Eq.
  specialize (C b p q0 (eq_sym Eq)). exists b', p', (set_ring b' p' q0). unfold on_vi. split; [|split].
  - apply map_eq. intros i. destruct (decide (i = evq)) as [->|]; [|by rewrite !lookup_alter_ne by congruence].
    rewrite !lookup_alter_eq, E0. cbn [fmap option_fmap option_map]. rewrite Eq. f_equal. exact C.
  - rewrite !lookup_alter_eq, E0. cbn [fmap option_fmap option_map]. rewrite Eq. f_equal. exact C.
  - rewrite <- C. by apply evq_consume_rep with (x := ev).
Qed.

Lemma ring_rel_dispatch k evq n ev rest sta stc sta' out : ring_rel k evq rest sta stc ->
  falcon_dispatch old n sta evq ev = Some (sta', out) ->
  exists stc', falcon_dispatch old n stc evq ev = Some (stc', out) /\ ring_rel k evq rest sta' stc'.
Proof.
  intros (b & p & q & -> & Eq & Hr) E. pose proof (falcon_dispatch_frame b p n sta evq ev) as F. rewrite E in F.
  exists (alter (set_ring b p) evq sta'). split; [exact F|]. cbn [fmap option_fmap option_map fst snd] in F.
  apply falcon_dispatch_ring with (p := evq) in F as [R _]. cbn [fst] in R. rewrite Eq in R.
  destruct (alter (set_ring b p) evq sta' !! evq) as [q'|] eqn:Eq'; cbn in R; [|done]. injection R as R.
  exists b, p, q'. split; [done|]. split; [exact Eq'|]. apply (evq_rep_ring q); [unfold ring_of in *; congruence|done].
Qed.

(** The loop over the ring simulates the specification. *)
Lemma falcon_loop_simulates k evq : forall rest fuel sta stc evs evs_len sta' evs' rest',
  rest <> [] -> (length rest <= fuel)%nat -> ring_rel k evq rest sta stc ->
  falcon_queue sta evq rest evs evs_len = Some (sta', evs', rest') ->
  exists stc', falcon_poll_loop old fuel stc evq evs evs_len = Some (stc', evs') /\ ring_rel k evq rest' sta' stc'.
Proof.
  induction rest as [|ev rest IH]; intros fuel sta stc evs evs_len sta' evs' rest' Hne Hf Hrel Hq; [done|].
  destruct fuel as [|fuel]; [cbn in Hf; lia|]. cbn [falcon_poll_loop]. cbn [falcon_queue] in Hq.
  pose proof Hrel as (b & p & q & _ & Eq & Hr). rewrite Eq, (event_at_head q k ev rest Hr).
  destruct (falcon_dispatch old (length evs) sta evq ev) as [[sta1 out]|] eqn:Ed; [|done].
  destruct (ring_rel_dispatch k evq _ ev rest sta _ sta1 out (ring_rel_consume _ _ _ _ _ _ Hrel) Ed) as (stc1 & Ec & Hrel1).
  cbv zeta. rewrite Ec. cbv zeta in Hq. destruct (_ =? 0).
  { injection Hq as <- <- <-. by exists stc1. }
  pose proof Hrel1 as (b1 & p1 & q1 & _ & Eq1 & Hr1). rewrite Eq1. destruct rest as [|ev' rest].
  - rewrite (event_at_empty q1 k 0 Hr1), null_not_event by lia. injection Hq as <- <- <-. by exists stc1.
  - rewrite (event_at_head q1 k ev' rest Hr1). pose proof Hr1 as [_ _ _ _ _ _ He _]. apply Forall_cons_1 in He as [He _].
    unfold is_event in He. rewrite He. apply (IH fuel sta1); [done|cbn in *; lia|done|done].
Qed.

Lemma falcon_poll_simulates k evq (st : store) q pending evs_len sta evs rest :
  st !! evq = Some q -> evq_rep q k pending -> falcon_queue st evq pending [] evs_len = Some (sta, evs, rest) ->
  exists stc, falcon_ef_eventq_poll old st evq evs_len = Some (stc, evs, Z.of_nat (length evs)) /\ ring_rel k evq rest sta stc.
Proof.
  intros Eq Hr Hq. unfold falcon_ef_eventq_poll. rewrite Eq. cbv zeta.
  rewrite (event_at_overflow q k pending Hr), null_not_event. destruct pending as [|ev pending].
  - rewrite !(event_at_empty q k) by (done || lia). rewrite null_not_event. injection Hq as <- <- <-.
    exists st. split; [done|]. by apply (ring_rel_start k evq st q).
  - rewrite (event_at_head q k ev pending Hr). pose proof Hr as [_ _ Hl _ Hs Hf He _]. apply Forall_cons_1 in He as [He _].
    unfold is_event in He. rewrite He.
    destruct (falcon_loop_simulates k evq (ev :: pending) (length (evq_base q)) st st [] evs_len sta evs rest)
      as (stc & -> & R); [done|lia|by apply (ring_rel_start k evq st q)|done|]. by exists stc.
Qed.
End handlers.

(** * Properties of the poll *)

(** C31: A poll of a Falcon event queue handles the pending events in order, each
    once, and returns the number delivered: from any fill of the ring and any
    position of its pointers, it ends with the store that handling the list of
    events gives, up to the ring, and the ring then holds the events not handled.
    When no receive event had been lost, the caller's array is not overrun. *)
Theorem falcon_eventq_poll_refines old k evq (st : store) q pending evs_len :
  st !! evq = Some q -> evq_rep q k pending -> 0 < evs_len ->
  exists sta evs rest stc b p q', falcon_queue old st evq pending [] evs_len = Some (sta, evs, rest) /\
    falcon_ef_eventq_poll old st evq evs_len = Some (stc, evs, Z.of_nat (length evs)) /\
    stc = alter (set_ring b p) evq sta /\ stc !! evq = Some q' /\ evq_rep q' k rest /\
    (existsb is_lost evs = false -> Z.of_nat (length evs) <= evs_len).
Proof.
  intros Eq Hr Hl. destruct (falcon_queue_total old evq pending st [] evs_len q Eq) as [[[sta evs] rest] Hq].
  destruct (falcon_poll_simulates old k evq st q pending evs_len sta evs rest Eq Hr Hq) as (stc & E & b & p & q' & E1 & E2 & R).
  destruct (falcon_queue_bound old evq _ _ _ _ _ _ _ Hl Hq) as (out & -> & Hb).
  exists sta, out, rest, stc, b, p, q'. by split_and!.
Qed.

(** A look-ahead sees the events pending and no other. *)
Lemma has_many_events_spec vi k pending look_ahead : evq_rep vi k pending ->
  0 <= look_ahead < 2 ^ k + evq_clear_stride (evq_state vi) ->
  ef_eventq_has_many_events vi look_ahead = (look_ahead <? Z.of_nat (length pending)).
Proof.
  intros Hr Hl. unfold ef_eventq_has_many_events. pose proof Hr as [Hk _ _ _ Hs Hf He (stale & Hst & V)].
  pose proof (pow2_pos k ltac:(lia)). destruct (Z.ltb_spec look_ahead (Z.of_nat (length pending))) as [Hlt|Hge].
  - destruct (lookup_lt_is_Some_2 pending (Z.to_nat look_ahead)) as [x Hx]; [lia|].
    rewrite (event_at_view vi k pending look_ahead x); [|done|lia|].
    + by apply (Forall_lookup_1 _ _ _ _ He Hx).
    + by rewrite V, lookup_app_l by lia.
  - rewrite (event_at_view vi k pending look_ahead EV_NULL); [done|done|lia|]. rewrite V.
    rewrite lookup_app_r, lookup_app_l by (rewrite ?length_replicate; lia). apply lookup_replicate_2. lia.
Qed.

(** Priming names the slot read next. *)
Lemma falcon_prime_slot q k l : evq_rep q k l ->
  io_log (falcon_ef_eventq_prime q) =
    io_log q ++ [Writel (Z.land (evq_ptr (evq_state q) / 8) (2 ^ k - 1)) (io q + FR_BZ_EVQ_RPTR_REGP0_OFST)].
Proof.
  intros [Hk Hm _ [Hp Hp8] _ _ _ _]. pose proof (event_slot q k 0 Hk Hm Hp8) as E.
  unfold EF_VI_EVENT_OFFSET, EF_VI_EV_SIZE in E. rewrite Z.mul_0_l, !Z.add_0_r, u64_small in E by lia.
  unfold falcon_ef_eventq_prime, ef_eventq_current. rewrite u32_small by done. rewrite E, Z.shiftl_0_r.
  cbn [writel fset io_log]. change (Z.land FR_BZ_EVQ_RPTR_REGP0_OFST (EF_VI_PAGE_SIZE - 1)) with FR_BZ_EVQ_RPTR_REGP0_OFST.
  rewrite u32_small; [done|]. rewrite land_mask by lia. pose proof (pow2_pos k ltac:(lia)).
  pose proof (Z.mod_pos_bound (evq_ptr (evq_state q) / 8) (2 ^ k) ltac:(lia)).
  assert (2 ^ k <= 2 ^ 28) by (apply Z.pow_le_mono_r; lia). lia.
Qed.

(** The timer is started for at least the microseconds asked for and less than one
    quantum more, if the count fits the field below the mode. *)
Lemma falcon_timer_start_encodes q v (hold : bool) : let bits := if is_cz q then 14 else 12 in
  0 < timer_quantum_ns q -> 0 < v -> v * 1000 + timer_quantum_ns q <= 2147483648 -> timer_ticks q v < 2 ^ bits ->
  exists w, io_log (if hold then falcon_ef_eventq_timer_prime q v else falcon_ef_eventq_timer_run q v) =
      io_log q ++ [Writel w (io q + FR_BZ_TIMER_COMMAND_REGP0_OFST)] /\
    w / 2 ^ bits = (if hold then 2 else 1) /\
    v * 1000 <= w `mod` 2 ^ bits * timer_quantum_ns q < v * 1000 + timer_quantum_ns q.
Proof.
  intros bits Hq Hv Hb Ht. destruct (timer_ticks_ceil q v Hq Hv Hb) as [H0 H1].
  set (mode := if hold then 2 else 1).
  assert (Hbits : bits = 14 \/ bits = 12) by (unfold bits; destruct (is_cz q); auto).
  destruct (timer_word mode (timer_ticks q v) bits) as [W1 W2]; [lia|lia|by destruct hold|].
  exists (Z.lor (timer_ticks q v) (Z.shiftl mode bits)). rewrite W1, W2. split; [|done].
  assert (Hw : 0 <= Z.lor (timer_ticks q v) (Z.shiftl mode bits) < 4294967296).
  { rewrite Z.lor_comm, lor_shiftl_add by lia. unfold mode. destruct Hbits as [Eb|Eb]; rewrite Eb in *; destruct hold; lia. }
  revert Hw. unfold mode, bits, falcon_ef_eventq_timer_prime, falcon_ef_eventq_timer_run, ef_eventq_timer_poke.
  destruct hold, (is_cz q); cbn [writel fset io_log]; intros Hw;
    match goal with |- _ ++ [Writel (u32 ?x) _] = _ => rewrite (u32_small x) by exact Hw; reflexivity end.
Qed.

(** ** Examples *)

(** A VI with its own event queue of 8 events, its pointer about to wrap, and three
    posted receive buffers, the oldest in slot 8. *)
Definition ex_post (id : Z) (vi : ef_vi) : ef_vi := fst (falcon_ef_vi_receive_init vi 8192 id).
Definition ex_falcon_rx : ef_vi := ex_post 8 (ex_post 6 (ex_post 5 (ex_with_evq (ex_rx 0)))).

Lemma ex_post_rep vi q id : falcon_rx_rep vi q -> Z.of_nat (length q) < q_mask (vi_rxq vi) -> falcon_rx_rep (ex_post id vi) (q ++ [id]).
Proof.
  intros Hr Hl. pose proof (falcon_receive_init_spec vi q 8192 id Hr) as H. unfold ex_post.
  destruct (falcon_ef_vi_receive_init vi 8192 id) as [vi' rc]. rewrite (proj2 (Z.ltb_lt _ _) Hl) in H. by destruct H as (_ & H & _).
Qed.

Lemma ex_falcon_rx_rep : falcon_rx_rep ex_falcon_rx [5; 6; 8].
Proof.
  apply (ex_post_rep _ [5; 6]); [|reflexivity]. apply (ex_post_rep _ [5]); [|reflexivity].
  apply (ex_post_rep _ []); [|reflexivity]. destruct ex_rx_rep as [R D _ _ _]. split; [exact R|exact D].
Qed.

(** A good packet of 60 bytes in the buffer of slot [ptr], and the completion of
    transmit descriptor [ptr]. *)
Definition ex_frx (ptr : Z) : Z := 2 ^ 56 + 60 * 2 ^ 16 + 2 ^ 15 + ptr.
Definition ex_ftx (ptr : Z) : Z := 2 * 2 ^ 60 + 2 ^ 12 + ptr.
Definition ex_old (n : nat) : stale_event := mk_stale 0 0 0.

(** The event of slot 8 was lost. *)
Lemma falcon_rx_event_recovers_witness : exists vi' e,
  falcon_rx_event_vi ex_old 0 ex_falcon_rx (ex_frx 9) 0 = Some (vi', [EV_RX_DISCARD 0 5 0 0 EF_EVENT_RX_DISCARD_EV_ERROR; e]) /\
  falcon_rx_rep vi' [8].
Proof.
  destruct (falcon_rx_event_recovers ex_old 0 ex_falcon_rx [5; 6; 8] (ex_frx 9) 0 1 ex_falcon_rx_rep)
    as (vi' & out & E & x & y & e & q' & Eq & -> & _ & R).
  - reflexivity.
  - split; [lia|vm_compute; discriminate].
  - vm_compute. reflexivity.
  - intros _. cbn. lia.
  - injection Eq as <- <- <-. exists vi', e. split; [exact E|exact R].
Defined.

(** The NIC writes three events. *)
Definition ex_falcon_evq (e1 e2 e3 : Z) : ef_vi :=
  nic_write 3 536870912 e3 (nic_write 3 536870911 e2 (nic_write 3 536870910 e1 ex_falcon_rx)).

Lemma ex_falcon_evq_rep e1 e2 e3 : is_event e1 -> is_event e2 -> is_event e3 -> evq_rep (ex_falcon_evq e1 e2 e3) 3 [e1; e2; e3].
Proof.
  intros. apply (nic_write_rep _ 3 [e1; e2]); [|done..]. apply (nic_write_rep _ 3 [e1]); [|done..].
  apply (nic_write_rep _ 3 []); [|done..].
  apply (evq_rep_ring ex_evq); [reflexivity|apply ex_evq_rep].
Qed.

Lemma falcon_eventq_poll_refines_witness : exists stc,
  falcon_ef_eventq_poll ex_old {[0%nat := ex_falcon_evq (ex_frx 8) (ex_ftx 3) (ex_frx 9)]} 0 2 =
    Some (stc, [EV_RX 0 5 60 1; EV_TX 0 0 4], 2) /\
  exists q', stc !! 0%nat = Some q' /\ evq_rep q' 3 [ex_frx 9].
Proof.
  destruct (falcon_eventq_poll_refines ex_old 3 0 {[0%nat := ex_falcon_evq (ex_frx 8) (ex_ftx 3) (ex_frx 9)]}
    (ex_falcon_evq (ex_frx 8) (ex_ftx 3) (ex_frx 9)) [ex_frx 8; ex_ftx 3; ex_frx 9] 2)
    as (sta & evs & rest & stc & b & p & q' & Eq & E & _ & E' & R & _).
  - reflexivity.
  - apply ex_falcon_evq_rep; reflexivity.
  - lia.
  - assert (C : delivered (falcon_queue ex_old {[0%nat := ex_falcon_evq (ex_frx 8) (ex_ftx 3) (ex_frx 9)]} 0
      [ex_frx 8; ex_ftx 3; ex_frx 9] [] 2) = Some ([EV_RX 0 5 60 1; EV_TX 0 0 4], [ex_frx 9])) by (vm_compute; reflexivity).
    rewrite Eq in C. injection C as -> ->. exists stc. split; [exact E|]. exists q'. split; [exact E'|exact R].
Defined.

(** With room for one event left, a lost receive event makes two: the room is then
    -1, the test for 0 does not stop the loop, and four events are written to an
    array of two. *)
Lemma falcon_poll_overruns :
  match falcon_ef_eventq_poll ex_old {[0%nat := ex_falcon_evq (ex_ftx 3) (ex_frx 9) (ex_ftx 4)]} 0 2 with
  | Some (_, evs, n) => evs = [EV_TX 0 0 4; EV_RX_DISCARD 0 5 0 0 EF_EVENT_RX_DISCARD_EV_ERROR; EV_RX 0 6 60 1; EV_TX 0 0 5] /\ n = 4
  | None => False
  end.
Proof. vm_compute. by split. Qed.

(** Entries written before show through: the flags of a lost packet and of a
    completion, and the subtype of an error with no cause set. *)
Lemma falcon_events_stale : let old n := mk_stale 1 2 3 in
  snd <$> falcon_rx_event_vi old 0 ex_falcon_rx (ex_frx 9) 0 =
    Some [EV_RX_DISCARD 0 5 0 1 EF_EVENT_RX_DISCARD_EV_ERROR; EV_RX 0 6 60 1] /\
  falcon_tx_event old 0 (ex_ftx 3) = EV_TX 0 2 4 /\ falcon_tx_event old 0 (2 * 2 ^ 60) = EV_TX_ERROR 0 2 1 3.
Proof. vm_compute. by split_and!. Qed.
