(* ===== verification/Dllist.v ===== *)
(** Intrusive circular doubly linked lists, at the level of their pointers.

    [Section ci_dllist] models include/ci/tools/dllist.h and [Section
    oo_p_dllist] include/onload/oo_p_dllist.h, whose links are offsets into
    the shared stack state.  A heap maps the address of a link to its [prev]
    and [next]; every assignment of the C code is one update of the heap, in
    the code's order.  [dll h a l] says that the circle anchored at [a] holds
    exactly the links [l], in order; the refinement theorem runs any sequence
    of list calls on the pointers and on plain lists side by side. *)

From stdpp Require Import base gmap list sorting.
From S2P Require Import Prelude.

Open Scope nat_scope.
Open Scope Z_scope.

Record ci_dllink (P : Type) := mk_dllink { prev : P; next : P }.
Arguments mk_dllink {P} _ _.
Arguments prev {P} _.
Arguments next {P} _.

Abbreviation heap P := (gmap P (ci_dllink P)).

Section heap.
Context {P : Type} `{Countable P} (NULL : P).

Definition link_at (h : heap P) (p : P) : ci_dllink P := default (mk_dllink NULL NULL) (h !! p).
(** [p->next] and [p->prev] *)
Definition lnext (h : heap P) (p : P) : P := next (link_at h p).
Definition lprev (h : heap P) (p : P) : P := prev (link_at h p).
(** [p->next = v] and [p->prev = v] *)
Definition set_next (p v : P) (h : heap P) : heap P := <[p := mk_dllink (lprev h p) v]> h.
Definition set_prev (p v : P) (h : heap P) : heap P := <[p := mk_dllink v (lnext h p)]> h.

(** * ci_dllist *)

Definition ci_dllist_init (list : P) (h : heap P) : heap P :=
  let h := set_next list list h in
  set_prev list (lnext h list) h.

Definition ci_dllist_is_empty (list : P) (h : heap P) : bool := bool_decide (lnext h list = list).
Definition ci_dllist_not_empty (list : P) (h : heap P) : bool := bool_decide (lnext h list <> list).

Definition ci_dllist_insert_after (before after : P) (h : heap P) : heap P :=
  let h := set_next after (lnext h before) h in
  let h := set_prev after before h in
  let h := set_prev (lnext h before) after h in
  set_next before after h.

Definition ci_dllist_insert_before (after insert : P) (h : heap P) : heap P :=
  let h := set_next insert after h in
  let h := set_prev insert (lprev h after) h in
  let h := set_next (lprev h after) insert h in
  set_prev after insert h.

Definition ci_dllist_remove (link : P) (h : heap P) : heap P :=
  let h := set_next (lprev h link) (lnext h link) h in
  set_prev (lnext h link) (lprev h link) h.

Definition ci_dllist_remove_safe (link : P) (h : heap P) : heap P :=
  let h := set_next (lprev h link) (lnext h link) h in
  let h := set_prev (lnext h link) (lprev h link) h in
  let h := set_prev link link h in
  set_next link (lprev h link) h.

Definition ci_dllist_head (list : P) (h : heap P) : P := lnext h list.
Definition ci_dllist_tail (list : P) (h : heap P) : P := lprev h list.

Definition ci_dllist_push (list link : P) (h : heap P) : heap P :=
  let h := set_next link (lnext h list) h in
  let h := set_prev link list h in
  let h := set_prev (lnext h link) link h in
  set_next list link h.

Definition ci_dllist_push_tail (list link : P) (h : heap P) : heap P :=
  let h := set_next link list h in
  let h := set_prev link (lprev h list) h in
  let h := set_next (lprev h link) link h in
  set_prev list link h.

Definition ci_dllist_pop (list : P) (h : heap P) : P * heap P :=
  let l := lnext h list in (l, ci_dllist_remove l h).

Definition ci_dllist_pop_tail (list : P) (h : heap P) : P * heap P :=
  let l := lprev h list in (l, ci_dllist_remove l h).

Definition ci_dllist_try_pop (list : P) (h : heap P) : P * heap P :=
  if ci_dllist_is_empty list h then (NULL, h) else ci_dllist_pop list h.

Definition ci_dllist_try_pop_tail (list : P) (h : heap P) : P * heap P :=
  if ci_dllist_is_empty list h then (NULL, h) else ci_dllist_pop_tail list h.

Definition ci_dllist_rehome (to from : P) (h : heap P) : heap P :=
  if ci_dllist_is_empty from h then ci_dllist_init to h
  else
    let h := set_next to (lnext h from) h in
    let h := set_prev to (lprev h from) h in
    let h := set_next (lprev h to) to h in
    let h := set_prev (lnext h to) to h in
    ci_dllist_init from h.

Definition ci_dllist_join (list from : P) (h : heap P) : heap P :=
  if ci_dllist_not_empty from h then
    let h := set_next (lprev h list) (lnext h from) h in
    let h := set_prev (lnext h from) (lprev h list) h in
    let h := set_prev list (lprev h from) h in
    let h := set_next (lprev h from) list h in
    ci_dllist_init from h
  else h.

(** [CI_DLLIST_FOR_EACH], counting and searching; [None] is a circle longer
    than the fuel. *)
Fixpoint count_loop (fuel : nat) (list l : P) (h : heap P) (count : Z) : option Z :=
  match fuel with
  | O => None
  | S fuel =>
    if decide (l = list) then Some count
    else count_loop fuel list (lnext h l) h (count + 1)
  end.

Definition ci_dllist_count (fuel : nat) (list : P) (h : heap P) : option Z :=
  count_loop fuel list (lnext h list) h 0.

Fixpoint is_member_loop (fuel : nat) (list link l : P) (h : heap P) : option bool :=
  match fuel with
  | O => None
  | S fuel =>
    if decide (l = list) then Some false
    else if decide (l = link) then Some true
    else is_member_loop fuel list link (lnext h l) h
  end.

Definition ci_dllist_is_member (fuel : nat) (list link : P) (h : heap P) : option bool :=
  is_member_loop fuel list link (lnext h list) h.

Definition ci_dllink_self_link (link : P) (h : heap P) : heap P :=
  let h := set_prev link link h in set_next link (lprev h link) h.
Definition ci_dllink_is_self_linked (link : P) (h : heap P) : bool :=
  bool_decide (link = lnext h link).
Definition ci_dllink_mark_free (link : P) (h : heap P) : heap P := set_next link NULL h.
Definition ci_dllink_is_free (link : P) (h : heap P) : bool := bool_decide (lnext h link = NULL).

(** * oo_p_dllist

    A [struct oo_p_dllink_state] pairs a link's address with its offset in
    the shared state; both name the same link, so one [P] stands for the
    pair. *)

Definition oo_p_dllink_init (state : P) (h : heap P) : heap P :=
  let h := set_prev state state h in set_next state (lprev h state) h.

Definition oo_p_dllink_del (link : P) (h : heap P) : heap P :=
  let h := set_next (lprev h link) (lnext h link) h in
  set_prev (lnext h link) (lprev h link) h.

Definition oo_p_dllink_del_init (link : P) (h : heap P) : heap P :=
  oo_p_dllink_init link (oo_p_dllink_del link h).

Definition __oo_p_dllink_add (prev next new : P) (h : heap P) : heap P :=
  let h := set_prev next new h in
  let h := set_next new next h in
  let h := set_prev new prev h in
  set_next prev new h.

Definition oo_p_dllink_add (list link : P) (h : heap P) : heap P :=
  __oo_p_dllink_add list (lnext h list) link h.

Definition oo_p_dllink_add_tail (list link : P) (h : heap P) : heap P :=
  __oo_p_dllink_add (lprev h list) list link h.

Definition oo_p_dllink_is_empty (list : P) (h : heap P) : bool := bool_decide (lnext h list = list).

(** Insert the links of [list] between [prev] and [next]. *)
Definition __oo_p_dllink_splice (list prev next : P) (h : heap P) : heap P :=
  let first := lnext h list in
  let last := lprev h list in
  let h := set_prev first prev h in
  let h := set_next prev first h in
  let h := set_next last next h in
  set_prev next last h.

Definition oo_p_dllink_splice (list into : P) (h : heap P) : heap P :=
  if negb (oo_p_dllink_is_empty list h) then __oo_p_dllink_splice list into (lnext h into) h else h.

Definition oo_p_dllink_splice_tail (list into : P) (h : heap P) : heap P :=
  if negb (oo_p_dllink_is_empty list h) then __oo_p_dllink_splice list (lprev h into) into h else h.

(** [contended] is the outcome of the compare-and-swap on [list->next]. *)
Definition oo_p_dllink_concurrent_add (contended : bool) (list link : P) (h : heap P)
    : heap P * bool :=
  let next := lnext h list in
  let next_orig := lnext h link in
  let prev_orig := lprev h link in
  let h := set_next link next h in
  let h := set_prev link list h in
  if contended then
    let h := set_next link next_orig h in
    (set_prev link prev_orig h, false)
  else
    let h := set_next list link h in
    (set_prev next (lnext h list) h, true).

(** * Reading a heap after a write *)

Lemma lnext_set_next p v q h : lnext (set_next p v h) q = if decide (q = p) then v else lnext h q.
Proof.
  unfold set_next, lprev, lnext, link_at. destruct (decide (q = p)) as [->|].
  - by rewrite lookup_insert_eq.
  - by rewrite lookup_insert_ne by done.
Qed.

Lemma lprev_set_next p v q h : lprev (set_next p v h) q = lprev h q.
Proof.
  unfold set_next, lprev, lnext, link_at. destruct (decide (q = p)) as [->|].
  - by rewrite lookup_insert_eq.
  - by rewrite lookup_insert_ne by done.
Qed.

Lemma lprev_set_prev p v q h : lprev (set_prev p v h) q = if decide (q = p) then v else lprev h q.
Proof.
  unfold set_prev, lprev, lnext, link_at. destruct (decide (q = p)) as [->|].
  - by rewrite lookup_insert_eq.
  - by rewrite lookup_insert_ne by done.
Qed.

Lemma lnext_set_prev p v q h : lnext (set_prev p v h) q = lnext h q.
Proof.
  unfold set_prev, lprev, lnext, link_at. destruct (decide (q = p)) as [->|].
  - by rewrite lookup_insert_eq.
  - by rewrite lookup_insert_ne by done.
Qed.

End heap.

(** Evaluates the reads of a heap that was written to. *)
Ltac heap_read :=
  repeat first
    [ rewrite lnext_set_prev | rewrite lprev_set_next
    | rewrite lnext_set_next | rewrite lprev_set_prev ].

Ltac heap_solve :=
  heap_read; repeat (case_decide; subst; try congruence; heap_read); try congruence.

(** Membership in lists built with [::] and [++], by propositional reasoning. *)
Ltac mem_unfold H :=
  repeat first [rewrite not_elem_of_app in H | rewrite not_elem_of_cons in H
               | rewrite elem_of_app in H | rewrite elem_of_cons in H | rewrite elem_of_nil in H].
Ltac mem :=
  repeat match goal with
  | H : NoDup _ |- _ => clear H
  | H : _ ∉ _ |- _ => progress (mem_unfold H)
  | H : _ ∈ _ |- _ => progress (mem_unfold H)
  end;
  repeat first [rewrite not_elem_of_app | rewrite not_elem_of_cons
               | rewrite elem_of_app | rewrite elem_of_cons | rewrite elem_of_nil];
  intuition congruence.

(** * Circles *)

Section circles.
Context {P : Type} `{Countable P} (NULL : P).
Implicit Types (h : heap P) (a p q x y z : P) (l : list P).

#[local] Abbreviation lnext := (lnext NULL).
#[local] Abbreviation lprev := (lprev NULL).

(** Following [next] from [x] one meets exactly [l] and then [z], and
    following [prev] the same backwards. *)
Fixpoint path h x l z : Prop :=
  match l with
  | [] => lnext h x = z /\ lprev h z = x
  | y :: l' => lnext h x = y /\ lprev h y = x /\ path h y l' z
  end.

(** The list anchored at [a] holds the links [l]. *)
Definition dll h a l : Prop := NoDup (a :: l) /\ path h a l a.

Lemma path_app h x l1 y l2 z : path h x (l1 ++ y :: l2) z <-> path h x l1 y /\ path h y l2 z.
Proof. revert x. induction l1 as [|u l1 IH]; intros x; cbn; [tauto|]. rewrite IH. tauto. Qed.

Lemma path_frame h h' x l z :
  (forall y, y ∈ x :: l -> lnext h' y = lnext h y) ->
  (forall y, y ∈ l ++ [z] -> lprev h' y = lprev h y) ->
  path h x l z -> path h' x l z.
Proof.
  revert x. induction l as [|u l IH]; intros x Hn Hp; cbn.
  - intros [? ?]. rewrite Hn, Hp by set_solver. done.
  - intros (? & ? & ?). rewrite Hn, Hp by set_solver. split_and!; [done..|].
    apply IH; [| |done]; intros; [apply Hn|apply Hp]; set_solver.
Qed.

Lemma path_next h x l z y : path h x l z -> y ∈ x :: l -> lnext h y ∈ l ++ [z].
Proof.
  revert x. induction l as [|u l IH]; intros x; cbn.
  - intros [? ?] ?. set_solver.
  - intros (? & ? & Hp) [->|Hy]%elem_of_cons; [set_solver|]. specialize (IH _ Hp Hy). set_solver.
Qed.

Lemma path_prev h x l z y : path h x l z -> y ∈ l ++ [z] -> lprev h y ∈ x :: l.
Proof.
  revert x. induction l as [|u l IH]; intros x; cbn.
  - intros [? ?] ?. set_solver.
  - intros (? & ? & Hp) [->|Hy]%elem_of_cons; [set_solver|]. specialize (IH _ Hp Hy). set_solver.
Qed.

(** [h'] is [h] with [x] linked in between [p] and [q]. *)
Definition inserted h h' p x q : Prop :=
  (forall y, lnext h' y = if decide (y = p) then x else if decide (y = x) then q else lnext h y) /\
  (forall y, lprev h' y = if decide (y = q) then x else if decide (y = x) then p else lprev h y).

(** [h'] is [h] with what lies between [p] and [q] taken out, up to the
    links in [X], of which nothing is said. *)
Definition bypassed h h' p q (X : list P) : Prop :=
  (forall y, y ∉ X -> lnext h' y = if decide (y = p) then q else lnext h y) /\
  (forall y, y ∉ X -> lprev h' y = if decide (y = q) then p else lprev h y).

Lemma path_insert h h' p x l z :
  path h p l z -> inserted h h' p x (lnext h p) ->
  NoDup (l ++ [z]) -> p ∉ l -> x ∉ p :: l ++ [z] -> path h' p (x :: l) z.
Proof.
  intros Hpath [Hn Hp] Hnd Hpl Hx. destruct l as [|y l]; cbn in *.
  - destruct Hpath as [Hnp ?]. rewrite Hnp in *. rewrite !Hn, !Hp.
    repeat case_decide; set_solver.
  - destruct Hpath as (Hnp & ? & Hpath). rewrite Hnp in *. apply NoDup_cons in Hnd as [Hy Hnd].
    rewrite !Hn, !Hp.
    destruct (decide (p = p)); [|done]. destruct (decide (y = y)); [|done].
    destruct (decide (x = p)); [set_solver|]. destruct (decide (x = x)); [|done].
    destruct (decide (x = y)); [set_solver|]. split_and!; [done..|].
    apply (path_frame h); [| |done]; intros u Hu; rewrite ?Hn, ?Hp; clear Hn Hp Hpath;
      repeat case_decide; try done; exfalso; subst; set_solver.
Qed.

Lemma dll_insert_head h h' a x l :
  dll h a l -> x ∉ a :: l -> inserted h h' a x (lnext h a) -> dll h' a (x :: l).
Proof.
  intros [Hnd Hp] Hx Hins. apply NoDup_cons in Hnd as [Ha Hnd]. split.
  - apply NoDup_cons. split; [set_solver|]. apply NoDup_cons. set_solver.
  - eapply path_insert; [done..| | |]; [|done|set_solver].
    apply NoDup_app. split_and!; [done|set_solver|apply NoDup_singleton].
Qed.

Lemma dll_insert_mid h h' a x p l1 l2 :
  dll h a (l1 ++ p :: l2) -> x ∉ a :: l1 ++ p :: l2 -> inserted h h' p x (lnext h p) ->
  dll h' a (l1 ++ p :: x :: l2).
Proof.
  intros [Hnd Hp] Hx Hins. apply path_app in Hp as [Hp1 Hp2]. split.
  { apply NoDup_cons in Hnd as [Ha Hnd]. apply NoDup_app in Hnd as (H1 & H2 & H3).
    apply NoDup_cons in H3 as [H3 H4].
    apply NoDup_cons. split; [set_solver|]. apply NoDup_app.
    split_and!; [done|set_solver|]. apply NoDup_cons. split; [set_solver|].
    apply NoDup_cons. set_solver. }
  apply NoDup_cons in Hnd as [Ha Hnd]. apply NoDup_app in Hnd as (Hnd1 & Hd & Hnd2).
  apply NoDup_cons in Hnd2 as [Hpl2 Hnd2].
  apply path_app. split.
  - pose proof (path_next _ _ _ _ p Hp2 ltac:(set_solver)) as Hq.
    revert Hq Hins. generalize (lnext h p) as q. intros q Hq [Hn Hpr].
    apply (path_frame h); [| |done]; intros u Hu; rewrite ?Hn, ?Hpr; clear Hn Hpr Hp1 Hp2;
      repeat case_decide; try done; exfalso; subst; set_solver.
  - eapply path_insert; [done..| | |]; [|done|set_solver].
    apply NoDup_app. split_and!; [done|set_solver|apply NoDup_singleton].
Qed.

Lemma path_bypass h h' X s l1 x l2 z :
  path h s l1 x -> path h x l2 z -> bypassed h h' (lprev h x) (lnext h x) X ->
  (forall y, y ∈ X -> y ∉ s :: l1 ++ l2 ++ [z]) ->
  NoDup (s :: l1 ++ l2) -> x ∉ s :: l1 ++ l2 ++ [z] -> z ∉ l1 ++ l2 ->
  path h' s (l1 ++ l2) z.
Proof.
  revert s. induction l1 as [|u l1 IH]; intros s H1 H2 [Hn Hp] HX Hnd Hx Hz; cbn [app] in *.
  - destruct H1 as [Hs Hxs]. rewrite Hxs in *.
    destruct l2 as [|y l2]; cbn in H2 |- *; destruct H2 as [Hnx H2]; rewrite Hnx in *.
    + rewrite Hn, Hp by set_solver. repeat case_decide; done.
    + destruct H2 as [Hpy H2]. rewrite Hn, Hp by set_solver.
      destruct (decide (s = s)); [|done]. destruct (decide (y = y)); [|done].
      split_and!; [done..|].
      apply NoDup_cons in Hnd as [Hs' Hnd]. apply NoDup_cons in Hnd as [Hy Hnd].
      apply (path_frame h); [| |done]; intros w Hw; rewrite ?Hn, ?Hp by set_solver;
        clear Hn Hp HX; case_decide; try done; exfalso; subst; set_solver.
  - cbn in H1. destruct H1 as (Hs & Hu & H1). apply NoDup_cons in Hnd as [Hs' Hnd].
    cbn. pose proof (path_prev _ _ _ _ x H1 ltac:(set_solver)) as Hpx.
    pose proof (path_next _ _ _ _ x H2 ltac:(set_solver)) as Hnx.
    pose proof (NoDup_cons_1_1 _ _ Hnd) as Hu'.
    assert (s <> lprev h x) by (intros E; rewrite <- E in Hpx; clear -Hs' Hpx; mem).
    assert (u <> lnext h x) by (intros E; rewrite <- E in Hnx; clear -Hu' Hz Hnx; mem).
    rewrite Hn, Hp by (intros E; apply (HX _ E); mem).
    rewrite !decide_False by done. split_and!; [done..|].
    apply IH; [done|done|done| |done|mem|mem].
    intros w Hw Hw'. apply (HX _ Hw). mem.
Qed.

Lemma dll_bypass h h' X a x l1 l2 :
  dll h a (l1 ++ x :: l2) -> bypassed h h' (lprev h x) (lnext h x) X ->
  (forall y, y ∈ X -> y ∉ a :: l1 ++ l2) -> dll h' a (l1 ++ l2).
Proof.
  intros [Hnd Hp] Hb HX. apply path_app in Hp as [Hp1 Hp2].
  apply NoDup_cons in Hnd as [Ha Hnd]. apply NoDup_app in Hnd as (Hnd1 & Hd & Hnd2).
  apply NoDup_cons in Hnd2 as [Hxl2 Hnd2].
  assert (NoDup (a :: l1 ++ l2)).
  { apply NoDup_cons. split; [set_solver|]. apply NoDup_app. split_and!; [done|set_solver|done]. }
  assert (x ∉ l1) by (intros E; apply (Hd _ E); mem).
  split; [done|]. apply (path_bypass h h' X _ _ x); [done..| |done| |]; [|mem|mem].
  intros w Hw Hw'. apply (HX _ Hw). mem.
Qed.

Lemma dll_frame h h' a l :
  (forall y, y ∈ a :: l -> lnext h' y = lnext h y /\ lprev h' y = lprev h y) ->
  dll h a l -> dll h' a l.
Proof.
  intros Hf [Hnd Hp]. split; [done|]. apply (path_frame h); [| |done]; intros y Hy;
    apply Hf; set_solver.
Qed.

Lemma dll_init h a : lnext h a = a -> lprev h a = a -> dll h a [].
Proof. intros ??. split; [apply NoDup_singleton|done]. Qed.

Lemma dll_next_nil h a : dll h a [] -> lnext h a = a.
Proof. by intros [_ [? _]]. Qed.
Lemma dll_next_cons h a x l : dll h a (x :: l) -> lnext h a = x.
Proof. by intros [_ [? _]]. Qed.
Lemma dll_prev_snoc h a x l : dll h a (l ++ [x]) -> lprev h a = x.
Proof. intros [_ Hp]. apply path_app in Hp as [_ [_ ?]]. done. Qed.

Lemma dll_empty h a l : dll h a l -> ci_dllist_is_empty NULL a h = bool_decide (l = []).
Proof.
  intros Hd. unfold ci_dllist_is_empty. apply bool_decide_ext. destruct l as [|x l].
  - by rewrite (dll_next_nil _ _ Hd).
  - rewrite (dll_next_cons _ _ _ _ Hd). destruct Hd as [Hnd _].
    apply NoDup_cons in Hnd as [Hnd _]. set_solver.
Qed.

(** A link on a list has its neighbours on the list. *)
Lemma dll_next_in h a l x : dll h a l -> x ∈ a :: l -> lnext h x ∈ a :: l.
Proof. intros [_ Hp] Hx. pose proof (path_next _ _ _ _ _ Hp Hx). set_solver. Qed.
Lemma dll_prev_in h a l x : dll h a l -> x ∈ a :: l -> lprev h x ∈ a :: l.
Proof. intros [_ Hp] Hx. apply (path_prev _ _ _ _ _ Hp). set_solver. Qed.

(** ** What each operation does to the links *)

Lemma insert_after_inserted h p x :
  x <> p -> x <> lnext h p -> inserted h (ci_dllist_insert_after NULL p x h) p x (lnext h p).
Proof. intros. unfold ci_dllist_insert_after. split; intros y; heap_solve. Qed.

Lemma insert_before_inserted h q x :
  x <> q -> x <> lprev h q -> inserted h (ci_dllist_insert_before NULL q x h) (lprev h q) x q.
Proof. intros. unfold ci_dllist_insert_before. split; intros y; heap_solve. Qed.

Lemma push_inserted h a x :
  x <> a -> x <> lnext h a -> inserted h (ci_dllist_push NULL a x h) a x (lnext h a).
Proof. intros. unfold ci_dllist_push. split; intros y; heap_solve. Qed.

Lemma push_tail_inserted h a x :
  x <> a -> x <> lprev h a -> inserted h (ci_dllist_push_tail NULL a x h) (lprev h a) x a.
Proof. intros. unfold ci_dllist_push_tail. split; intros y; heap_solve. Qed.

Lemma oo_add_inserted h a x :
  x <> a -> x <> lnext h a -> inserted h (oo_p_dllink_add NULL a x h) a x (lnext h a).
Proof. intros. unfold oo_p_dllink_add, __oo_p_dllink_add. split; intros y; heap_solve. Qed.

Lemma oo_add_tail_inserted h a x :
  x <> a -> x <> lprev h a -> inserted h (oo_p_dllink_add_tail NULL a x h) (lprev h a) x a.
Proof. intros. unfold oo_p_dllink_add_tail, __oo_p_dllink_add. split; intros y; heap_solve. Qed.

Lemma remove_bypassed h x :
  bypassed h (ci_dllist_remove NULL x h) (lprev h x) (lnext h x) [].
Proof. unfold ci_dllist_remove. split; intros y _; heap_solve. Qed.

Lemma remove_safe_bypassed h x :
  bypassed h (ci_dllist_remove_safe NULL x h) (lprev h x) (lnext h x) [x].
Proof.
  unfold ci_dllist_remove_safe. split; intros y Hy; apply not_elem_of_cons in Hy as [Hy _];
    heap_solve.
Qed.

Lemma oo_del_init_bypassed h x :
  bypassed h (oo_p_dllink_del_init NULL x h) (lprev h x) (lnext h x) [x].
Proof.
  unfold oo_p_dllink_del_init, oo_p_dllink_del, oo_p_dllink_init.
  split; intros y Hy; apply not_elem_of_cons in Hy as [Hy _]; heap_solve.
Qed.

(** A path led to another end. *)
Lemma path_retarget h h' x l z z' :
  path h x l z -> NoDup (x :: l) -> z ∉ l ->
  (forall y, y ∈ x :: l -> lnext h' y = if decide (y = lprev h z) then z' else lnext h y) ->
  (forall y, y ∈ l -> lprev h' y = lprev h y) -> lprev h' z' = lprev h z ->
  path h' x l z'.
Proof.
  revert x. induction l as [|u l IH]; intros x Hpath Hnd Hz Hn Hp Hz'; cbn in *.
  - destruct Hpath as [? Hpz]. rewrite Hpz in *. rewrite Hn by mem. by rewrite decide_True.
  - destruct Hpath as (Hx & Hu & Hpath). apply NoDup_cons in Hnd as [Hxl Hnd].
    pose proof (path_prev _ _ _ _ z Hpath ltac:(mem)) as Hpz.
    assert (x <> lprev h z) by (intros E; rewrite <- E in Hpz; done).
    rewrite Hn, Hp by mem. rewrite decide_False by done.
    split_and!; [done..|]. apply IH; [done|done|mem| | |done]; intros y Hy; [apply Hn|apply Hp]; mem.
Qed.

End circles.

(** * Several lists in one heap *)

Section lists.
Context {P : Type} `{Countable P} (NULL : P).
Implicit Types (h : heap P) (a b p q x y z : P) (l m : list P) (L : gmap P (list P)).

#[local] Abbreviation lnext := (lnext NULL).
#[local] Abbreviation lprev := (lprev NULL).
#[local] Abbreviation dll := (dll NULL).

(** The heap holds exactly the lists of [L], indexed by their anchors. *)
Definition dlls h L : Prop :=
  (forall a l, L !! a = Some l -> dll h a l) /\
  (forall a b l m x, L !! a = Some l -> L !! b = Some m -> x ∈ a :: l -> x ∈ b :: m -> a = b).

(** [x] is neither an anchor nor a member. *)
Definition fresh x L : Prop := map_Forall (fun a l => x ∉ a :: l) L.
Definition member x L : Prop := map_Exists (fun _ l => x ∈ l) L.

#[global] Instance fresh_dec x L : Decision (fresh x L).
Proof. unfold fresh. apply _. Defined.

#[global] Instance member_dec x L : Decision (member x L).
Proof. unfold member. apply _. Defined.

Definition without x l : list P := filter (fun y => y <> x) l.

Fixpoint after y x l : list P :=
  match l with
  | [] => []
  | z :: l' => if decide (z = y) then z :: x :: l' else z :: after y x l'
  end.

Fixpoint before y x l : list P :=
  match l with
  | [] => []
  | z :: l' => if decide (z = y) then x :: z :: l' else z :: before y x l'
  end.

(** The list calls a client makes. *)
Inductive dl_cmd :=
| Push (a x : P) | PushTail (a x : P) | InsertAfter (y x : P) | InsertBefore (y x : P)
| Remove (x : P) | RemoveSafe (x : P) | TryPop (a : P) | TryPopTail (a : P)
| Join (a b : P) | Rehome (b a : P) | Init (a : P)
| OoAdd (a x : P) | OoAddTail (a x : P) | OoDelInit (x : P)
| OoDel (x : P) | OoInit (a : P) | OoSpliceInit (b a : P) | OoSpliceTailInit (b a : P).

(** A call on the pointers; the second component is the link returned. *)
Definition dl_run (c : dl_cmd) h : heap P * P :=
  match c with
  | Push a x => (ci_dllist_push NULL a x h, NULL)
  | PushTail a x => (ci_dllist_push_tail NULL a x h, NULL)
  | InsertAfter y x => (ci_dllist_insert_after NULL y x h, NULL)
  | InsertBefore y x => (ci_dllist_insert_before NULL y x h, NULL)
  | Remove x => (ci_dllist_remove NULL x h, NULL)
  | RemoveSafe x => (ci_dllist_remove_safe NULL x h, NULL)
  | TryPop a => let '(x, h) := ci_dllist_try_pop NULL a h in (h, x)
  | TryPopTail a => let '(x, h) := ci_dllist_try_pop_tail NULL a h in (h, x)
  | Join a b => (ci_dllist_join NULL a b h, NULL)
  | Rehome b a => (ci_dllist_rehome NULL b a h, NULL)
  | Init a => (ci_dllist_init NULL a h, NULL)
  | OoAdd a x => (oo_p_dllink_add NULL a x h, NULL)
  | OoAddTail a x => (oo_p_dllink_add_tail NULL a x h, NULL)
  | OoDelInit x => (oo_p_dllink_del_init NULL x h, NULL)
  | OoDel x => (oo_p_dllink_del NULL x h, NULL)
  | OoInit a => (oo_p_dllink_init NULL a h, NULL)
  | OoSpliceInit b a => (oo_p_dllink_init NULL b (oo_p_dllink_splice NULL b a h), NULL)
  | OoSpliceTailInit b a => (oo_p_dllink_init NULL b (oo_p_dllink_splice_tail NULL b a h), NULL)
  end.

(** The same call on plain lists; [None] is a call that breaks the rules: a
    link already on a list is added, a link on no list is removed, or a list is
    spliced into one that is not empty at its head. *)
Definition dl_spec (c : dl_cmd) L : option (gmap P (list P) * P) :=
  match c with
  | Init a | OoInit a => guard (fresh a L);; Some (<[a := []]> L, NULL)
  | Push a x | OoAdd a x => l ← L !! a; guard (fresh x L);; Some (<[a := x :: l]> L, NULL)
  | PushTail a x | OoAddTail a x => l ← L !! a; guard (fresh x L);; Some (<[a := l ++ [x]]> L, NULL)
  | InsertAfter y x => guard (member y L);; guard (fresh x L);; Some (after y x <$> L, NULL)
  | InsertBefore y x => guard (member y L);; guard (fresh x L);; Some (before y x <$> L, NULL)
  | Remove x | RemoveSafe x | OoDelInit x | OoDel x => guard (member x L);; Some (without x <$> L, NULL)
  | TryPop a => l ← L !! a;
      match l with [] => Some (L, NULL) | x :: l => Some (<[a := l]> L, x) end
  | TryPopTail a => l ← L !! a;
      match last l with None => Some (L, NULL) | Some x => Some (<[a := removelast l]> L, x) end
  | Join a b | OoSpliceTailInit b a => l ← L !! a; m ← L !! b; guard (a <> b);;
      Some (<[b := []]> (<[a := l ++ m]> L), NULL)
  | Rehome b a | OoSpliceInit a b => l ← L !! b; m ← L !! a; guard (a <> b /\ l = []);;
      Some (<[a := []]> (<[b := m]> L), NULL)
  end.

(** A change confined to one list and to links on no list. *)
Lemma dlls_update h h' L a l l' (N : list P) :
  dlls h L -> L !! a = Some l -> dll h' a l' ->
  (forall y, y ∉ a :: l -> y ∉ N -> lnext h' y = lnext h y /\ lprev h' y = lprev h y) ->
  (forall y, y ∈ N -> fresh y L) -> (forall y, y ∈ l' -> y ∈ l \/ y ∈ N) ->
  dlls h' (<[a := l']> L).
Proof.
  intros [Hd Hx] Ha Hd' Hf HN Hl'. split.
  - intros b m. destruct (decide (a = b)) as [<-|Hab].
    + rewrite lookup_insert_eq. by intros [= <-].
    + rewrite lookup_insert_ne by done. intros Hb. apply (dll_frame NULL h); [|by apply Hd].
      intros y Hy. apply Hf.
      * intros Hy'. apply Hab. by apply (Hx a b l m y).
      * intros Hy'. by apply (HN y Hy' b m).
  - assert (Hin : forall b m x, <[a := l']> L !! b = Some m -> x ∈ b :: m ->
      (exists m', L !! b = Some m' /\ x ∈ b :: m') \/ (b = a /\ x ∈ N)).
    { intros b m x. destruct (decide (a = b)) as [<-|].
      - rewrite lookup_insert_eq. intros [= <-] [->|Hy]%elem_of_cons.
        + left. exists l. split; [done|left].
        + destruct (Hl' _ Hy); [left; exists l; split; [done|by right]|by right].
      - rewrite lookup_insert_ne by done. intros. left. by exists m. }
    intros b c m1 m2 x Hb Hc Hxb Hxc.
    destruct (Hin _ _ _ Hb Hxb) as [(m1' & Hb' & Hxb')|[-> Hxb']];
      destruct (Hin _ _ _ Hc Hxc) as [(m2' & Hc' & Hxc')|[-> Hxc']]; [| | |done].
    + by apply (Hx b c m1' m2' x).
    + exfalso. by apply (HN _ Hxc' _ _ Hb').
    + exfalso. by apply (HN _ Hxb' _ _ Hc').
Qed.

Lemma fresh_notin x L a l : fresh x L -> L !! a = Some l -> x ∉ a :: l.
Proof. intros Hf Ha. by apply (Hf a l). Qed.

(** A member is on one list only. *)
Lemma member_split h L x : dlls h L -> member x L ->
  exists a l1 l2, L !! a = Some (l1 ++ x :: l2) /\ x ∉ l1 /\ x ∉ l2 /\
    (forall b m, L !! b = Some m -> b <> a -> x ∉ m).
Proof.
  intros [Hd Hx] (a & l & Ha & Hxl). destruct (list_elem_of_split l x Hxl) as (l1 & l2 & ->).
  exists a, l1, l2. destruct (Hd _ _ Ha) as [Hnd _].
  apply NoDup_cons in Hnd as [_ Hnd]. apply NoDup_app in Hnd as (_ & Hd1 & Hnd2).
  apply NoDup_cons in Hnd2 as [Hd2 _]. split_and!; [done| |done|].
  - intros E. apply (Hd1 _ E). left.
  - intros b m Hb Hne Hxm. apply Hne. apply (Hx b a _ _ x Hb Ha); mem.
Qed.

Lemma fmap_one (f : list P -> list P) L a l :
  L !! a = Some l -> (forall b m, L !! b = Some m -> b <> a -> f m = m) -> f <$> L = <[a := f l]> L.
Proof.
  intros Ha Hf. apply map_eq. intros b. rewrite lookup_fmap. destruct (decide (a = b)) as [<-|].
  - by rewrite Ha, lookup_insert_eq.
  - rewrite lookup_insert_ne by done. destruct (L !! b) as [m|] eqn:E; [|done]. cbn.
    by rewrite (Hf b m).
Qed.

Lemma without_notin x l : x ∉ l -> without x l = l.
Proof.
  unfold without. induction l as [|y l IH]; [done|]. intros Hx.
  rewrite filter_cons_True by mem. by rewrite IH by mem.
Qed.
Lemma without_split x l1 l2 : x ∉ l1 -> x ∉ l2 -> without x (l1 ++ x :: l2) = l1 ++ l2.
Proof.
  intros. unfold without. rewrite filter_app, filter_cons_False by (by intros []).
  fold (without x l1) (without x l2). by rewrite !without_notin.
Qed.
Lemma after_notin y x l : y ∉ l -> after y x l = l.
Proof.
  induction l as [|z l IH]; [done|]. intros Hy. cbn. rewrite decide_False by mem.
  rewrite IH; [done|mem].
Qed.
Lemma after_split y x l1 l2 : y ∉ l1 -> after y x (l1 ++ y :: l2) = l1 ++ y :: x :: l2.
Proof.
  induction l1 as [|z l1 IH]; intros Hy; cbn; [by rewrite decide_True|].
  rewrite decide_False by mem. rewrite IH; [done|mem].
Qed.
Lemma before_notin y x l : y ∉ l -> before y x l = l.
Proof.
  induction l as [|z l IH]; [done|]. intros Hy. cbn. rewrite decide_False by mem.
  rewrite IH; [done|mem].
Qed.
Lemma before_split y x l1 l2 : y ∉ l1 -> before y x (l1 ++ y :: l2) = l1 ++ x :: y :: l2.
Proof.
  induction l1 as [|z l1 IH]; intros Hy; cbn; [by rewrite decide_True|].
  rewrite decide_False by mem. rewrite IH; [done|mem].
Qed.

(** ** One call *)

Lemma inserted_footprint h h' p x q y :
  inserted NULL h h' p x q -> y <> p -> y <> x -> y <> q ->
  lnext h' y = lnext h y /\ lprev h' y = lprev h y.
Proof. intros [Hn Hp] ???. rewrite Hn, Hp, !decide_False by done. done. Qed.

Lemma bypassed_footprint h h' p q X y :
  bypassed NULL h h' p q X -> y <> p -> y ∉ X -> y <> q ->
  lnext h' y = lnext h y /\ lprev h' y = lprev h y.
Proof. intros [Hn Hp] ???. rewrite Hn, Hp, !decide_False by done. done. Qed.

Lemma dlls_insert_head h h' L a l x :
  dlls h L -> L !! a = Some l -> fresh x L -> inserted NULL h h' a x (lnext h a) ->
  dlls h' (<[a := x :: l]> L).
Proof.
  intros HL Ha Hx Hins. pose proof (proj1 HL _ _ Ha) as Hd.
  pose proof (fresh_notin _ _ _ _ Hx Ha) as Hxl.
  pose proof (dll_next_in NULL _ _ _ a Hd ltac:(mem)) as Hq.
  apply (dlls_update h _ _ _ l _ [x]); [done..| | | |].
  - by apply (dll_insert_head NULL h).
  - intros y Hy HyN. apply (inserted_footprint _ _ _ _ _ _ Hins); [mem|mem|].
    intros ->. done.
  - intros y Hy. assert (y = x) as -> by mem. done.
  - intros y Hy. mem.
Qed.

Lemma dlls_insert_mid h h' L a l1 p l2 x :
  dlls h L -> L !! a = Some (l1 ++ p :: l2) -> fresh x L -> inserted NULL h h' p x (lnext h p) ->
  dlls h' (<[a := l1 ++ p :: x :: l2]> L).
Proof.
  intros HL Ha Hx Hins. pose proof (proj1 HL _ _ Ha) as Hd.
  pose proof (fresh_notin _ _ _ _ Hx Ha) as Hxl.
  pose proof (dll_next_in NULL _ _ _ p Hd ltac:(mem)) as Hq.
  apply (dlls_update h _ _ _ (l1 ++ p :: l2) _ [x]); [done..| | | |].
  - by apply (dll_insert_mid NULL h).
  - intros y Hy HyN. apply (inserted_footprint _ _ _ _ _ _ Hins); [mem|mem|].
    intros ->. done.
  - intros y Hy. assert (y = x) as -> by mem. done.
  - intros y Hy. mem.
Qed.

Lemma dlls_bypass h h' L a l1 x l2 X :
  dlls h L -> L !! a = Some (l1 ++ x :: l2) -> bypassed NULL h h' (lprev h x) (lnext h x) X ->
  (forall y, y ∈ X -> y = x) -> dlls h' (<[a := l1 ++ l2]> L).
Proof.
  intros HL Ha Hb HX. pose proof (proj1 HL _ _ Ha) as Hd.
  pose proof (dll_next_in NULL _ _ _ x Hd ltac:(mem)) as Hq.
  pose proof (dll_prev_in NULL _ _ _ x Hd ltac:(mem)) as Hp.
  apply (dlls_update h _ _ _ (l1 ++ x :: l2) _ []); [done..| | | |].
  - apply (dll_bypass NULL h _ X _ x); [done..|]. intros y Hy%HX. subst y.
    destruct Hd as [Hnd _]. apply NoDup_cons in Hnd as [Hnd1 Hnd].
    apply NoDup_app in Hnd as (_ & Hnd2 & Hnd3). apply NoDup_cons in Hnd3 as [Hnd3 _].
    assert (x ∉ l1) by (intros E; apply (Hnd2 _ E); mem). mem.
  - intros y Hy _. apply (bypassed_footprint _ _ _ _ _ _ Hb).
    + intros ->. done.
    + intros ->%HX. mem.
    + intros ->. done.
  - intros y Hy. mem.
  - intros y Hy. mem.
Qed.

Lemma dlls_insert_tail h h' L a l x :
  dlls h L -> L !! a = Some l -> fresh x L -> inserted NULL h h' (lprev h a) x a ->
  dlls h' (<[a := l ++ [x]]> L).
Proof.
  intros HL Ha Hx Hins. pose proof (proj1 HL _ _ Ha) as Hd.
  destruct l as [|p l' _] using rev_ind.
  - apply (dlls_insert_head h); [done..|]. destruct Hd as [_ [Hn Hp]].
    rewrite Hp in Hins. by rewrite Hn.
  - rewrite <- app_assoc. apply (dlls_insert_mid h); [done..|].
    rewrite (dll_prev_snoc NULL _ _ _ _ Hd) in Hins. destruct Hd as [_ Hd].
    apply path_app in Hd as [_ [-> _]]. done.
Qed.

Lemma dlls_insert_before h h' L a l1 y l2 x :
  dlls h L -> L !! a = Some (l1 ++ y :: l2) -> fresh x L -> inserted NULL h h' (lprev h y) x y ->
  dlls h' (<[a := l1 ++ x :: y :: l2]> L).
Proof.
  intros HL Ha Hx Hins. pose proof (proj1 HL _ _ Ha) as Hd.
  destruct l1 as [|p l' _] using rev_ind; cbn [app] in *.
  - apply (dlls_insert_head h); [done..|]. destruct Hd as [_ (Hn & Hp & _)].
    rewrite Hp in Hins. by rewrite Hn.
  - rewrite <- app_assoc in *. apply (dlls_insert_mid h _ _ _ l' p (y :: l2)); [done..|].
    destruct Hd as [_ Hd]. apply path_app in Hd as [_ (Hn & Hp & _)]. rewrite Hp in Hins.
    by rewrite Hn.
Qed.

Lemma last_removelast (l : list P) :
  match last l with None => l = [] | Some x => l = removelast l ++ [x] end.
Proof.
  destruct l as [|y l]; [done|]. destruct (last (y :: l)) as [x|] eqn:E.
  - apply last_Some in E as [l' E]. rewrite E. by rewrite removelast_last.
  - by apply last_None in E.
Qed.

(** A change confined to two lists that moves the links of one to the other. *)
Lemma dlls_move h h' L a b l m :
  dlls h L -> a <> b -> L !! a = Some l -> L !! b = Some m ->
  dll h' a (l ++ m) -> dll h' b [] ->
  (forall y, y ∉ a :: l -> y ∉ b :: m -> lnext h' y = lnext h y /\ lprev h' y = lprev h y) ->
  dlls h' (<[b := []]> (<[a := l ++ m]> L)).
Proof.
  intros [Hd Hx] Hab Ha Hb Ha' Hb' Hf.
  assert (Hin : forall c k, <[b := []]> (<[a := l ++ m]> L) !! c = Some k ->
    (c = b /\ k = []) \/ (c = a /\ k = l ++ m) \/ (c <> a /\ c <> b /\ L !! c = Some k)).
  { intros c k. destruct (decide (b = c)) as [<-|]; [rewrite lookup_insert_eq; naive_solver|].
    rewrite lookup_insert_ne by done.
    destruct (decide (a = c)) as [<-|]; [rewrite lookup_insert_eq; naive_solver|].
    rewrite lookup_insert_ne by done. naive_solver. }
  assert (Hout : forall c k x, c <> a -> c <> b -> L !! c = Some k -> x ∈ c :: k ->
    x ∉ a :: l /\ x ∉ b :: m).
  { intros c k x ?? Hc Hxc. split; intros E.
    - by apply (Hx a c l k x) in E. - by apply (Hx b c m k x) in E. }
  assert (Hb0 : b ∉ a :: l) by (intros E; apply Hab; apply (Hx a b l m b Ha Hb E); mem).
  assert (Hbm : b ∉ m) by (destruct (Hd _ _ Hb) as [Hnd _]; by apply NoDup_cons in Hnd as [? _]).
  split.
  - intros c k [[-> ->]|[[-> ->]|(? & ? & Hc)]]%Hin; [done..|].
    apply (dll_frame NULL h); [|by apply Hd]. intros y Hy.
    destruct (Hout c k y) as [??]; [done..|]. by apply Hf.
  - intros c d k1 k2 x [[-> ->]|[[-> ->]|(? & ? & Hc)]]%Hin [[-> ->]|[[-> ->]|(? & ? & Hd')]]%Hin
      Hx1 Hx2; try done.
    + exfalso. mem.
    + exfalso. destruct (Hout d k2 x) as [_ Hn]; [done..|]. mem.
    + exfalso. mem.
    + exfalso. destruct (Hout d k2 x) as [??]; [done..|]. mem.
    + exfalso. destruct (Hout c k1 x) as [??]; [done..|]. mem.
    + exfalso. destruct (Hout c k1 x) as [??]; [done..|]. mem.
    + by apply (Hx c d k1 k2 x).
Qed.

(** [b]'s links, led from [a] instead, closing the circle at [a]. *)
Lemma path_readopt h h' b f m a :
  path NULL h b (f :: m) b -> NoDup (b :: f :: m) -> a ∉ b :: f :: m ->
  (forall y, y ∈ f :: m -> lnext h' y = if decide (y = lprev h b) then a else lnext h y) ->
  (forall y, y ∈ m -> lprev h' y = lprev h y) -> lprev h' a = lprev h b ->
  path NULL h' f m a.
Proof.
  intros (_ & _ & Hp) Hnd Ha Hn Hpr Hz. apply NoDup_cons in Hnd as [Hb Hnd].
  eapply path_retarget; [done..| | | |]; [mem|done..].
Qed.

Lemma dll_join h a b l m :
  dll h a l -> dll h b m -> (forall x, x ∈ a :: l -> x ∉ b :: m) ->
  let h' := ci_dllist_join NULL a b h in
  dll h' a (l ++ m) /\ dll h' b [] /\
  (forall y, y ∉ a :: l -> y ∉ b :: m -> lnext h' y = lnext h y /\ lprev h' y = lprev h y).
Proof.
  intros Ha Hb Hd. cbv zeta. unfold ci_dllist_join, ci_dllist_not_empty.
  destruct m as [|f m].
  { rewrite bool_decide_eq_false_2 by (rewrite (dll_next_nil NULL _ _ Hb); naive_solver).
    rewrite app_nil_r. done. }
  pose proof (dll_next_cons NULL _ _ _ _ Hb) as Hnb.
  destruct Ha as [Hnda Hpa], Hb as [Hndb Hpb].
  assert (Hbf : b ∉ f :: m) by (by apply NoDup_cons in Hndb as [? _]).
  rewrite bool_decide_eq_true_2 by (rewrite Hnb; intros ->; mem).
  set (p := lprev h a). set (e := lprev h b).
  assert (Hp : p ∈ a :: l) by (apply (path_prev NULL _ _ _ _ _ Hpa); mem).
  assert (He : e ∈ f :: m).
  { destruct Hpb as (_ & _ & Hpb). apply (path_prev NULL _ _ _ _ _ Hpb). mem. }
  assert (Hpn : p ∉ b :: f :: m) by (by apply Hd).
  assert (Han : a ∉ b :: f :: m) by (apply Hd; mem).
  assert (Hen : e ∉ a :: l) by (intros E; apply (Hd _ E); mem).
  match goal with |- dll ?h' _ _ /\ _ => set (h1 := h') end.
  assert (Hn1 : forall y, lnext h1 y = if decide (y = b) then b else
    if decide (y = e) then a else if decide (y = p) then f else lnext h y).
  { intros y. subst h1. unfold ci_dllist_init. rewrite Hnb. fold p. heap_read. fold p e. 
    repeat (rewrite ?Hnb; case_decide; subst; heap_read); try done; mem. }
  assert (Hp1 : forall y, lprev h1 y = if decide (y = b) then b else
    if decide (y = a) then e else if decide (y = f) then p else lprev h y).
  { intros y. subst h1. unfold ci_dllist_init. rewrite Hnb. fold p. heap_read. fold p e.
    repeat (rewrite ?Hnb; case_decide; subst; heap_read); try done; mem. }
  clearbody h1. pose proof Hnda as Hnda'. apply NoDup_cons in Hnda' as [Hal Hndl].
  pose proof Hndb as Hndb'. apply NoDup_cons in Hndb' as [_ Hndm].
  assert (Hfm : f ∉ m) by (by apply NoDup_cons in Hndm as [? _]).
  split_and!; [split|apply dll_init|].
  - apply NoDup_cons. split.
    + intros E. apply elem_of_app in E as [E|E]; [done|]. mem.
    + apply NoDup_app. split_and!; [done| |done]. intros x Hx E. apply (Hd x); mem.
  - apply path_app. split.
    + apply (path_retarget NULL h _ _ _ a); [done..| | |].
      * intros y Hy. rewrite Hn1. assert (y ∉ b :: f :: m) by (by apply Hd).
        rewrite !(decide_False (P := y = b)), !(decide_False (P := y = e)); [done|..];
          intros ->; mem.
      * intros y Hy. rewrite Hp1. assert (y ∉ b :: f :: m) by (apply Hd; mem).
        rewrite !decide_False; [done|..]; intros ->; mem.
      * rewrite Hp1. rewrite !(decide_False (P := f = _)) by (intros ->; mem).
        by rewrite decide_True.
    + apply (path_readopt h _ b); [done..| | |].
      * intros y Hy. rewrite Hn1. rewrite (decide_False (P := y = b)) by (intros ->; done).
        fold e. case_decide; [done|]. rewrite decide_False; [done|]. intros ->; mem.
      * intros y Hy. rewrite Hp1. rewrite !decide_False; [done|..]; intros ->; mem.
      * rewrite Hp1. rewrite decide_False by (intros ->; mem). by rewrite decide_True.
  - rewrite Hn1. by rewrite decide_True.
  - rewrite Hp1. by rewrite decide_True.
  - intros y Hy1 Hy2. rewrite Hn1, Hp1. rewrite !decide_False; [done|..]; intros ->; mem.
Qed.

Lemma dll_rehome h b a m :
  dll h b [] -> dll h a m -> b ∉ a :: m ->
  let h' := ci_dllist_rehome NULL b a h in
  dll h' b m /\ dll h' a [] /\
  (forall y, y <> b -> y ∉ a :: m -> lnext h' y = lnext h y /\ lprev h' y = lprev h y).
Proof.
  intros Hb Ha Hd. cbv zeta. unfold ci_dllist_rehome. rewrite (dll_empty NULL _ _ _ Ha).
  destruct m as [|f m].
  { rewrite bool_decide_eq_true_2 by done. split_and!.
    - apply dll_init; unfold ci_dllist_init; heap_solve.
    - apply (dll_frame NULL h); [|done]. intros y Hy. unfold ci_dllist_init.
      assert (y <> b) by (intros ->; done). split; heap_solve.
    - intros y Hy _. unfold ci_dllist_init. split; heap_solve. }
  rewrite bool_decide_eq_false_2 by done.
  pose proof (dll_next_cons NULL _ _ _ _ Ha) as Hna. destruct Ha as [Hnda Hpa].
  pose proof Hnda as Hnda'. apply NoDup_cons in Hnda' as [Haf Hndm].
  assert (Hfm : f ∉ m) by (by apply NoDup_cons in Hndm as [? _]).
  set (e := lprev h a).
  assert (He : e ∈ f :: m).
  { destruct Hpa as (_ & _ & Hpa'). apply (path_prev NULL _ _ _ _ _ Hpa'). mem. }
  match goal with |- dll ?h' _ _ /\ _ => set (h1 := h') end.
  assert (Hn1 : forall y, lnext h1 y = if decide (y = a) then a else
    if decide (y = e) then b else if decide (y = b) then f else lnext h y).
  { intros y. subst h1. unfold ci_dllist_init. rewrite Hna. heap_read. fold e.
    repeat (rewrite ?Hna; case_decide; subst; heap_read); try done; mem. }
  assert (Hp1 : forall y, lprev h1 y = if decide (y = a) then a else
    if decide (y = f) then b else if decide (y = b) then e else lprev h y).
  { intros y. subst h1. unfold ci_dllist_init. rewrite Hna. heap_read. fold e.
    repeat (rewrite ?Hna; case_decide; subst; heap_read); try done; mem. }
  clearbody h1. split_and!; [split|apply dll_init|].
  - apply NoDup_cons. split; [mem|done].
  - cbn. split_and!.
    + rewrite Hn1. rewrite !(decide_False (P := b = _)) by (intros ->; mem). by rewrite decide_True.
    + rewrite Hp1. rewrite (decide_False (P := f = a)) by (intros ->; mem). by rewrite decide_True.
    + apply (path_readopt h _ a); [done..| | |].
      * intros y Hy. rewrite Hn1, decide_False by (intros ->; done). fold e.
        case_decide; [done|]. rewrite decide_False; [done|]. intros ->; mem.
      * intros y Hy. rewrite Hp1. rewrite !decide_False; [done|..]; intros ->; mem.
      * rewrite Hp1. rewrite !(decide_False (P := b = _)) by (intros ->; mem). by rewrite decide_True.
  - rewrite Hn1. by rewrite decide_True.
  - rewrite Hp1. by rewrite decide_True.
  - intros y Hy1 Hy2. rewrite Hn1, Hp1. rewrite !decide_False; [done|..]; intros ->; mem.
Qed.

Lemma fresh_ne_next h L a l x p :
  dlls h L -> L !! a = Some l -> fresh x L -> p ∈ a :: l ->
  x <> p /\ x <> lnext h p /\ x <> lprev h p.
Proof.
  intros HL Ha Hx Hp. pose proof (fresh_notin _ _ _ _ Hx Ha) as Hxl. pose proof (proj1 HL _ _ Ha) as Hd.
  split_and!; intros ->; [done|..]; apply Hxl;
    [by apply (dll_next_in NULL)|by apply (dll_prev_in NULL)].
Qed.

Lemma dl_pop_step h L a l1 x l2 :
  dlls h L -> L !! a = Some (l1 ++ x :: l2) ->
  dlls (ci_dllist_remove NULL x h) (<[a := l1 ++ l2]> L).
Proof.
  intros HL Ha. apply (dlls_bypass h _ _ _ _ x _ [] HL Ha); [apply remove_bypassed|].
  intros y Hy. mem.
Qed.

Lemma dl_join_step h L a b l m :
  dlls h L -> L !! a = Some l -> L !! b = Some m -> a <> b ->
  dlls (ci_dllist_join NULL a b h) (<[b := []]> (<[a := l ++ m]> L)).
Proof.
  intros HL Ha Hb Hab. destruct (dll_join h a b l m) as (? & ? & ?); [by apply HL..| |].
  - intros x Hx1 Hx2. apply Hab. by apply (proj2 HL a b l m x).
  - by apply (dlls_move h).
Qed.

Lemma dl_rehome_step h L b a m :
  dlls h L -> L !! b = Some [] -> L !! a = Some m -> a <> b ->
  dlls (ci_dllist_rehome NULL b a h) (<[a := []]> (<[b := m]> L)).
Proof.
  intros HL Hb Ha Hab. destruct (dll_rehome h b a m) as (? & ? & Hf); [by apply HL..| |].
  - intros E. apply Hab. symmetry. apply (proj2 HL b a [] m b); [done..|mem|done].
  - apply (dlls_move h _ _ b a [] m); [done..|]. intros y Hy. apply Hf. mem.
Qed.

Lemma dl_init_step h L a :
  dlls h L -> fresh a L -> dlls (ci_dllist_init NULL a h) (<[a := []]> L).
Proof.
  intros [Hd Hx] Hf. split.
  - intros b m. destruct (decide (a = b)) as [<-|].
    + rewrite lookup_insert_eq. intros [= <-]. apply dll_init; unfold ci_dllist_init; heap_solve.
    + rewrite lookup_insert_ne by done. intros Hb. apply (dll_frame NULL h); [|by apply Hd].
      intros y Hy. assert (y <> a) by (intros ->; by apply (Hf b m)).
      unfold ci_dllist_init. split; heap_solve.
  - intros b c l m x. destruct (decide (a = b)) as [<-|], (decide (a = c)) as [<-|];
      rewrite ?lookup_insert_eq, ?lookup_insert_ne by done; [done|..].
    + intros [= <-] Hc Hx1 Hx2. exfalso. apply (Hf c m Hc). mem.
    + intros Hb [= <-] Hx1 Hx2. exfalso. apply (Hf b l Hb). mem.
    + apply Hx.
Qed.

(** Heaps with the same pointers hold the same lists. *)
Lemma dlls_ext h h' L :
  (forall y, lnext h' y = lnext h y /\ lprev h' y = lprev h y) -> dlls h L -> dlls h' L.
Proof.
  intros He [Hd Hx]. split; [|done]. intros a l Ha. apply (dll_frame NULL h); [|by apply Hd].
  intros; apply He.
Qed.

Lemma splice_tail_join h a b l m y :
  dll h a l -> dll h b m -> (forall x, x ∈ a :: l -> x ∉ b :: m) ->
  let h1 := oo_p_dllink_init NULL b (oo_p_dllink_splice_tail NULL b a h) in
  let h2 := ci_dllist_join NULL a b h in
  lnext h1 y = lnext h2 y /\ lprev h1 y = lprev h2 y.
Proof.
  intros Ha Hb Hd. cbv zeta. unfold oo_p_dllink_splice_tail, ci_dllist_join, ci_dllist_not_empty.
  unfold oo_p_dllink_is_empty. destruct m as [|f m].
  { pose proof (dll_next_nil NULL _ _ Hb) as Hn. destruct Hb as [_ [_ Hp]].
    rewrite bool_decide_eq_true_2, bool_decide_eq_false_2 by (rewrite Hn; naive_solver).
    cbn [negb]. unfold oo_p_dllink_init. split; heap_solve. }
  pose proof (dll_next_cons NULL _ _ _ _ Hb) as Hnb. pose proof (proj1 Hb) as Hnd.
  apply NoDup_cons in Hnd as [Hbf _].
  rewrite bool_decide_eq_false_2, bool_decide_eq_true_2 by (rewrite Hnb; intros ->; mem). cbn [negb].
  pose proof (dll_prev_in NULL _ _ _ b Hb ltac:(left)) as Hpb.
  pose proof (dll_prev_in NULL _ _ _ a Ha ltac:(left)) as Hpa. pose proof (Hd _ Hpa) as Hpa'.
  pose proof (Hd a ltac:(left)) as Hab.
  assert (Hlb : lprev h b <> b).
  { destruct Hb as [_ (_ & _ & Hpath)]. pose proof (path_prev NULL _ _ _ _ b Hpath ltac:(mem)) as E.
    intros E'. rewrite E' in E. mem. }
  unfold __oo_p_dllink_splice, oo_p_dllink_init, ci_dllist_init. rewrite Hnb.
  remember (lprev h b) as e eqn:Ee. remember (lprev h a) as p eqn:Ep. symmetry in Ee, Ep.
  assert (e <> p) by (intros ->; done). assert (e <> a) by (intros ->; done).
  assert (f <> b /\ f <> a /\ f <> p /\ p <> b /\ a <> b) as (? & ? & ? & ? & ?)
    by (split_and!; intros ->; mem).
  split; heap_read; repeat (rewrite ?Hnb, ?Ee, ?Ep; case_decide; try subst y; try done; heap_read);
    rewrite ?Hnb, ?Ee, ?Ep; congruence.
Qed.

Lemma splice_rehome h a b m y :
  dll h b [] -> dll h a m -> b ∉ a :: m ->
  let h1 := oo_p_dllink_init NULL a (oo_p_dllink_splice NULL a b h) in
  let h2 := ci_dllist_rehome NULL b a h in
  lnext h1 y = lnext h2 y /\ lprev h1 y = lprev h2 y.
Proof.
  intros Hb Ha Hd. cbv zeta. unfold oo_p_dllink_splice, ci_dllist_rehome, ci_dllist_is_empty.
  unfold oo_p_dllink_is_empty. pose proof (dll_next_nil NULL _ _ Hb) as Hnb.
  pose proof (proj2 (proj2 Hb)) as Hpb. destruct m as [|f m].
  { pose proof (dll_next_nil NULL _ _ Ha) as Hn. destruct Ha as [_ [_ Hp]].
    rewrite !bool_decide_eq_true_2 by done. cbn [negb]. unfold oo_p_dllink_init, ci_dllist_init.
    split; heap_solve. }
  pose proof (dll_next_cons NULL _ _ _ _ Ha) as Hna. pose proof (proj1 Ha) as Hnd.
  apply NoDup_cons in Hnd as [Haf _].
  rewrite !bool_decide_eq_false_2 by (rewrite Hna; intros ->; mem). cbn [negb].
  assert (He : lprev h a ∈ f :: m).
  { destruct Ha as [_ (_ & _ & Hpath)]. apply (path_prev NULL _ _ _ _ a Hpath). mem. }
  unfold __oo_p_dllink_splice, oo_p_dllink_init, ci_dllist_init. rewrite Hna, Hnb.
  remember (lprev h a) as e eqn:Ee. symmetry in Ee.
  assert (f <> b /\ f <> a /\ e <> a /\ e <> b /\ a <> b) as (? & ? & ? & ? & ?)
    by (split_and!; intros ->; mem).
  split; heap_read; repeat (rewrite ?Hna, ?Hnb, ?Hpb, ?Ee; case_decide; try subst y; try done; heap_read);
    rewrite ?Hna, ?Hnb, ?Hpb, ?Ee; congruence.
Qed.

(** The call on the pointers does what the call on the lists does. *)
Lemma dl_step h L c L' r : dlls h L -> dl_spec c L = Some (L', r) ->
  (dl_run c h).2 = r /\ dlls (dl_run c h).1 L'.
Proof.
  intros HL. destruct c as [a x|a x|y x|y x|x|x|a|a|a b|b a|a|a x|a x|x|x|a|b a|b a]; cbn; intros Hs;
    repeat (case_guard || (simplify_option_eq; [])); simplify_option_eq;
    try (exfalso; by destruct (L !! b));
    try (match goal with Hm : member ?y ?L |- _ =>
           destruct (member_split h L y HL Hm) as (a & l1 & l2 & Ha & Hy1 & Hy2 & Hy3) end;
         rewrite (fmap_one _ _ a _ Ha)
           by (intros; first [apply after_notin|apply before_notin|apply without_notin]; eauto));
    try (split; [done|]).
  - apply (dlls_insert_head h); [done..|].
    edestruct (fresh_ne_next h) as (? & ? & ?); [done..|left|]. by apply push_inserted.
  - apply (dlls_insert_tail h); [done..|].
    edestruct (fresh_ne_next h) as (? & ? & ?); [done..|left|]. by apply push_tail_inserted.
  - rewrite after_split by done. apply (dlls_insert_mid h); [done..|].
    destruct (fresh_ne_next h L a (l1 ++ y :: l2) x y) as (? & ? & ?); [done..|mem|]. by apply insert_after_inserted.
  - rewrite before_split by done. apply (dlls_insert_before h); [done..|].
    destruct (fresh_ne_next h L a (l1 ++ y :: l2) x y) as (? & ? & ?); [done..|mem|]. by apply insert_before_inserted.
  - rewrite without_split by done. by apply dl_pop_step.
  - rewrite without_split by done.
    apply (dlls_bypass h _ _ _ _ x _ [x] HL Ha); [apply remove_safe_bypassed|]. intros; mem.
  - unfold ci_dllist_try_pop, ci_dllist_pop.
    match goal with Ha : L !! a = Some ?l |- _ =>
      pose proof (proj1 HL _ _ Ha) as Hd; rewrite (dll_empty NULL _ _ _ Hd); destruct l as [|x l]
    end; simplify_eq; [done|]. rewrite bool_decide_eq_false_2 by done. cbn.
    rewrite (dll_next_cons NULL _ _ _ _ Hd). split; [done|]. by apply (dl_pop_step h L a []).
  - unfold ci_dllist_try_pop_tail, ci_dllist_pop_tail.
    match goal with Ha : L !! a = Some ?l |- _ =>
      pose proof (proj1 HL _ _ Ha) as Hd; rewrite (dll_empty NULL _ _ _ Hd);
      pose proof (last_removelast l) as Hl; destruct (last l) as [x|]; revert Ha Hd;
      [generalize dependent (removelast l); intros k ? ? Ha Hd; subst l|subst l; intros Ha Hd]
    end; simplify_eq; [|done].
    rewrite bool_decide_eq_false_2 by (by destruct k). cbn.
    rewrite (dll_prev_snoc NULL _ _ _ _ Hd). split; [done|].
    rewrite <- (app_nil_r k). by apply (dl_pop_step h L a k _ []).
  - by apply dl_join_step.
  - destruct_and?. subst. by apply dl_rehome_step.
  - by apply dl_init_step.
  - apply (dlls_insert_head h); [done..|].
    edestruct (fresh_ne_next h) as (? & ? & ?); [done..|left|]. by apply oo_add_inserted.
  - apply (dlls_insert_tail h); [done..|].
    edestruct (fresh_ne_next h) as (? & ? & ?); [done..|left|]. by apply oo_add_tail_inserted.
  - rewrite without_split by done.
    apply (dlls_bypass h _ _ _ _ x _ [x] HL Ha); [apply oo_del_init_bypassed|]. intros; mem.
  - rewrite without_split by done. by apply dl_pop_step.
  - apply (dlls_ext (ci_dllist_init NULL a h)); [|by apply dl_init_step].
    intros y. unfold oo_p_dllink_init, ci_dllist_init. split; heap_solve.
  - destruct_and?. subst. apply (dlls_ext (ci_dllist_rehome NULL a b h)); [|by apply dl_rehome_step].
    intros y. eapply splice_rehome; [by apply HL..|]. intros E.
    match goal with Hne : b <> a |- _ => apply Hne end. symmetry. by eapply (proj2 HL a b [] _ a); [..|left|].
  - apply (dlls_ext (ci_dllist_join NULL a b h)); [|by apply dl_join_step].
    intros y. eapply splice_tail_join; [by apply HL..|]. intros x Hx1 Hx2.
    match goal with Hne : a <> b |- _ => apply Hne end. by eapply (proj2 HL a b _ _ x).
Qed.

(** ** Traversal *)

Lemma count_loop_path h fuel z x l c :
  path NULL h x l z -> z ∉ l -> (length l < fuel)%nat ->
  count_loop NULL fuel z (lnext h x) h c = Some (c + Z.of_nat (length l)).
Proof.
  revert fuel x c. induction l as [|y l IH]; intros [|fuel] x c Hp Hz Hf; try (cbn in Hf; lia).
  - destruct Hp as [Hx _]. cbn. rewrite Hx, decide_True by done. f_equal. lia.
  - destruct Hp as (Hx & _ & Hp). cbn [count_loop]. rewrite Hx, decide_False by mem.
    rewrite IH; [f_equal; cbn [length]; lia|done|mem|cbn in Hf; lia].
Qed.

Lemma is_member_loop_path h fuel z w x l :
  path NULL h x l z -> z ∉ l -> (length l < fuel)%nat ->
  is_member_loop NULL fuel z w (lnext h x) h = Some (bool_decide (w ∈ l)).
Proof.
  revert fuel x. induction l as [|y l IH]; intros [|fuel] x Hp Hz Hf; try (cbn in Hf; lia).
  - destruct Hp as [Hx _]. cbn. by rewrite Hx, decide_True by done.
  - destruct Hp as (Hx & _ & Hp). cbn [is_member_loop]. rewrite Hx, decide_False by mem.
    destruct (decide (y = w)) as [->|Hne].
    + f_equal. symmetry. apply bool_decide_eq_true_2. mem.
    + rewrite IH; [|done|mem|cbn in Hf; lia]. f_equal. apply bool_decide_ext. mem.
Qed.

(** * Sequences of calls *)

Fixpoint dl_runs (cs : list dl_cmd) h : heap P * list P :=
  match cs with
  | [] => (h, [])
  | c :: cs => let '(h, r) := dl_run c h in let '(h, rs) := dl_runs cs h in (h, r :: rs)
  end.

Fixpoint dl_specs (cs : list dl_cmd) L : option (gmap P (list P) * list P) :=
  match cs with
  | [] => Some (L, [])
  | c :: cs => '(L, r) ← dl_spec c L; '(L, rs) ← dl_specs cs L; Some (L, r :: rs)
  end.

Lemma dl_runs_refine cs h L L' rs :
  dlls h L -> dl_specs cs L = Some (L', rs) ->
  (dl_runs cs h).2 = rs /\ dlls (dl_runs cs h).1 L'.
Proof.
  revert h L L' rs. induction cs as [|c cs IH]; intros h L L' rs HL; cbn.
  { intros [= <- <-]. done. }
  destruct (dl_spec c L) as [[L1 r]|] eqn:E; [|done]. cbn.
  destruct (dl_specs cs L1) as [[L2 rs']|] eqn:E'; [|done]. cbn. intros [= <- <-].
  destruct (dl_step _ _ _ _ _ HL E) as [Hr HL1]. destruct (dl_run c h) as [h1 r1].
  cbn in Hr, HL1. subst r1.
  destruct (IH _ _ _ _ HL1 E') as [Hrs HL2]. destruct (dl_runs cs h1) as [h2 rs2]. cbn in *.
  by subst.
Qed.

(** C19: any sequence of ci_dllist and oo_p_dllink calls that follows the rules
    (no link is put on a list while it is on one, none is taken off when it is
    on none) does to the pointers what it does to plain lists: the links popped
    are the same, the circles left hold exactly the lists' members in order,
    and a traversal of any of them terminates within its length and counts and
    finds exactly those members. *)
Theorem dllist_system_refines cs h L L' rs :
  dlls h L -> dl_specs cs L = Some (L', rs) ->
  (dl_runs cs h).2 = rs /\
  forall a l, L' !! a = Some l ->
    let h' := (dl_runs cs h).1 in
    dll h' a l /\ ci_dllist_is_empty NULL a h' = bool_decide (l = []) /\
    forall fuel, (length l < fuel)%nat ->
      ci_dllist_count NULL fuel a h' = Some (Z.of_nat (length l)) /\
      forall x, ci_dllist_is_member NULL fuel a x h' = Some (bool_decide (x ∈ l)).
Proof.
  intros HL Hs. destruct (dl_runs_refine _ _ _ _ _ HL Hs) as [Hr HL']. split; [done|].
  intros a l Ha h'. pose proof (proj1 HL' _ _ Ha) as Hd. fold h' in Hd.
  split_and!; [done|by apply dll_empty|]. destruct Hd as [Hnd Hp].
  apply NoDup_cons in Hnd as [Hal _]. intros fuel Hf.
  split; [by apply (count_loop_path _ _ _ _ l)|intros x; by apply is_member_loop_path].
Qed.

(** The lock-free insertion either inserts like [oo_p_dllink_add] or, when the
    list changed under it, leaves every link as it was. *)
Lemma oo_concurrent_add_outcomes contended h a x :
  x <> a -> x <> lnext h a ->
  let '(h', ok) := oo_p_dllink_concurrent_add NULL contended a x h in
  ok = negb contended /\
  if contended then forall y, lnext h' y = lnext h y /\ lprev h' y = lprev h y
  else inserted NULL h h' a x (lnext h a).
Proof.
  intros. unfold oo_p_dllink_concurrent_add. destruct contended; cbn; split; try done.
  - intros y. split; heap_solve.
  - split; intros y; heap_solve.
Qed.

End lists.

(** Two lists anchored at 1 and 2; links 10 to 13. *)
Definition ex_dl_cmds : list (dl_cmd (P := Z)) :=
  [Init 1; Init 2; Push 1 10; PushTail 1 11; InsertBefore 11 12; OoAdd 2 13; Join 1 2;
   TryPop 1; Remove 12; TryPopTail 1; TryPop 2].

Lemma dllist_system_refines_witness :
  (dl_runs 0 ex_dl_cmds ∅).2 = [0; 0; 0; 0; 0; 0; 0; 10; 0; 13; 0] /\
  ci_dllist_count 0 2 1 (dl_runs 0 ex_dl_cmds ∅).1 = Some 1.
Proof.
  destruct (dllist_system_refines 0 ex_dl_cmds ∅ ∅ {[1 := [11]; 2 := []]}
              [0; 0; 0; 0; 0; 0; 0; 10; 0; 13; 0]) as [Hr Hl].
  - split; intros *; by rewrite lookup_empty.
  - vm_compute. reflexivity.
  - split; [exact Hr|]. destruct (Hl 1 [11]) as (_ & _ & Hc); [vm_compute; reflexivity|].
    apply (Hc 2%nat). cbn. lia.
Defined.
