(* ===== verification/Tiling.v ===== *)
(** Power-of-two blocks: the abstract state of the buddy allocators.

    A block [(o, a)] is the 2^o units from [a], a multiple of 2^o.  A set of
    blocks tiles [0, 2^n) when every unit lies in exactly one of them; splitting
    a block and merging two buddies keep a tiling.  File Buddy relates the
    allocators' memory to a tiling by free and allocated blocks. *)

From stdpp Require Import base gmap list.
From S2P Require Import Prelude.

Open Scope Z_scope.

Abbreviation blocks := (gset (Z * Z)).

(** Unit [x] lies in the block [(o, a)]. *)
Definition covers (o a x : Z) : Prop := x / 2 ^ o = a / 2 ^ o.

Definition aligned (o a : Z) : Prop := a `mod` 2 ^ o = 0.

(** The other half of the block of order [o + 1] that [(o, a)] is half of. *)
Definition buddy_of (o a : Z) : Z := Z.lxor a (2 ^ o).

Record tiling (n : Z) (B : blocks) : Prop := mk_tiling {
  t_range o a : (o, a) ∈ B -> 0 <= o <= n /\ 0 <= a < 2 ^ n /\ aligned o a;
  t_disj o a o' a' x : (o, a) ∈ B -> (o', a') ∈ B -> covers o a x -> covers o' a' x ->
    o = o' /\ a = a';
  t_cover x : 0 <= x < 2 ^ n -> exists o a, (o, a) ∈ B /\ covers o a x }.

(** * Arithmetic of blocks *)

Lemma pow2_succ o : 0 <= o -> 2 ^ (o + 1) = 2 * 2 ^ o.
Proof. intros. rewrite Z.pow_add_r by lia. lia. Qed.

Lemma div_pow2_add x o k : 0 <= o -> 0 <= k -> x / 2 ^ (o + k) = x / 2 ^ o / 2 ^ k.
Proof.
  intros. rewrite Z.pow_add_r by lia. rewrite Z.div_div; [done| |].
  - pose proof (pow2_pos o). lia. - by apply pow2_pos.
Qed.

Lemma covers_refl o a : covers o a a.
Proof. done. Qed.

(** A block is determined by its order and any of its units. *)
Lemma aligned_div o a : 0 <= o -> aligned o a -> a = 2 ^ o * (a / 2 ^ o).
Proof.
  intros Ho Ha. unfold aligned in Ha. pose proof (pow2_pos o Ho).
  rewrite (Z.div_mod a (2 ^ o)) at 1 by lia. lia.
Qed.

Lemma covers_unique o a b : 0 <= o -> aligned o a -> aligned o b -> covers o a b -> a = b.
Proof.
  intros Ho Ha Hb Hc. unfold covers in Hc.
  rewrite (aligned_div o a), (aligned_div o b) by done. by rewrite Hc.
Qed.

Lemma mul_div_pow2 o j : 0 <= o -> 2 ^ o * j / 2 ^ o = j.
Proof. intros. rewrite Z.mul_comm, Z.div_mul; [done|]. pose proof (pow2_pos o). lia. Qed.

Lemma mul_aligned o j : 0 <= o -> aligned o (2 ^ o * j).
Proof. intros. unfold aligned. rewrite Z.mul_comm. apply Z.mod_mul. pose proof (pow2_pos o). lia. Qed.

(** Larger blocks are unions of smaller ones. *)
Lemma covers_mono o o' a x : 0 <= o <= o' -> covers o a x -> covers o' a x.
Proof.
  unfold covers. intros Ho Hc. replace o' with (o + (o' - o)) by lia.
  rewrite !div_pow2_add by lia. by rewrite Hc.
Qed.

Lemma covers_trans o o' a c x : 0 <= o <= o' -> covers o' c a -> covers o a x -> covers o' c x.
Proof. intros Ho Hc Hx. pose proof (covers_mono _ _ _ _ Ho Hx). unfold covers in *. congruence. Qed.

Lemma aligned_mono o o' a : 0 <= o <= o' -> aligned o' a -> aligned o a.
Proof.
  intros Ho Ha. rewrite (aligned_div o' a) by (done || lia).
  replace o' with (o + (o' - o)) by lia. rewrite Z.pow_add_r by lia.
  rewrite <- Z.mul_assoc. apply mul_aligned. lia.
Qed.

(** The unit an aligned smaller block starts at. *)
Lemma covers_start o o' a c : 0 <= o' <= o -> aligned o a -> aligned o' c -> covers o' c a -> c = a.
Proof.
  intros Ho Ha Hc Hcov. apply (covers_unique o'); [lia|done| |done].
  by apply (aligned_mono o' o).
Qed.

Lemma covers_range n o a x : 0 <= o <= n -> 0 <= a < 2 ^ n -> covers o a x -> 0 <= x < 2 ^ n.
Proof.
  intros Ho Ha Hc%(covers_mono o n); [|lia]. unfold covers in Hc.
  rewrite (Z.div_small a) in Hc by done. apply Z.div_small_iff in Hc; [|pose proof (pow2_pos n); lia].
  destruct Hc; [done|]. lia.
Qed.

(** ** Halves *)

Lemma covers_split o a x : 0 <= o -> aligned (o + 1) a ->
  covers (o + 1) a x <-> covers o a x \/ covers o (a + 2 ^ o) x.
Proof.
  intros Ho Ha. rewrite (aligned_div (o + 1) a) by (done || lia).
  generalize (a / 2 ^ (o + 1)) as k. intros k. clear Ha. unfold covers.
  rewrite mul_div_pow2, div_pow2_add by lia. rewrite pow2_succ by lia.
  replace (2 * 2 ^ o * k) with (2 ^ o * (2 * k)) by lia.
  replace (2 ^ o * (2 * k) + 2 ^ o) with (2 ^ o * (2 * k + 1)) by lia.
  rewrite !mul_div_pow2 by lia. change (2 ^ 1) with 2. Z.div_mod_to_equations. lia.
Qed.

Lemma aligned_half o a : 0 <= o -> aligned (o + 1) a -> aligned o a /\ aligned o (a + 2 ^ o).
Proof.
  intros Ho Ha. rewrite (aligned_div (o + 1) a) by (done || lia).
  generalize (a / 2 ^ (o + 1)) as k. intros k. rewrite pow2_succ by lia.
  replace (2 * 2 ^ o * k) with (2 ^ o * (2 * k)) by lia.
  replace (2 ^ o * (2 * k) + 2 ^ o) with (2 ^ o * (2 * k + 1)) by lia.
  split; by apply mul_aligned.
Qed.

(** The two halves do not overlap. *)
Lemma halves_ne o a : 0 <= o -> ~ covers o a (a + 2 ^ o).
Proof.
  intros Ho Hc. unfold covers in Hc. pose proof (pow2_pos o Ho).
  replace (a + 2 ^ o) with (a + 1 * 2 ^ o) in Hc by lia. rewrite Z.div_add in Hc by lia. lia.
Qed.

Lemma lxor_even i : Z.lxor (2 * i) 1 = 2 * i + 1.
Proof.
  rewrite Z.add_nocarry_lxor; [done|]. change (Z.land (2 * i) (Z.ones 1) = 0).
  rewrite Z.land_ones by lia. rewrite Z.mul_comm. apply Z.mod_mul. lia.
Qed.

(** A block and its buddy are the halves of the block at the lower address. *)
Lemma buddy_halves o a : 0 <= o -> aligned o a ->
  exists p, aligned (o + 1) p /\
    ((a = p /\ buddy_of o a = p + 2 ^ o) \/ (a = p + 2 ^ o /\ buddy_of o a = p)).
Proof.
  intros Ho Ha. rewrite (aligned_div o a) by (done || lia).
  generalize (a / 2 ^ o) as j. intros j. clear Ha a. unfold buddy_of.
  assert (E : Z.lxor (2 ^ o * j) (2 ^ o) = 2 ^ o * Z.lxor j 1).
  { replace (2 ^ o * j) with (Z.shiftl j o) by (rewrite Z.shiftl_mul_pow2; lia).
    replace (2 ^ o) with (Z.shiftl 1 o) at 1 by (rewrite Z.shiftl_mul_pow2; lia).
    rewrite <- Z.shiftl_lxor, Z.shiftl_mul_pow2; lia. }
  rewrite E. exists (2 ^ (o + 1) * (j / 2)). split; [apply mul_aligned; lia|].
  rewrite pow2_succ by lia. destruct (Z.Even_or_Odd j) as [[i ->]|[i ->]].
  - left. replace (2 * i / 2) with i by (Z.div_mod_to_equations; lia).
    rewrite lxor_even. lia.
  - right. replace ((2 * i + 1) / 2) with i by (Z.div_mod_to_equations; lia).
    rewrite <- lxor_even, Z.lxor_assoc, Z.lxor_nilpotent, Z.lxor_0_r, lxor_even. lia.
Qed.

Lemma buddy_involutive o a : buddy_of o (buddy_of o a) = a.
Proof. unfold buddy_of. by rewrite Z.lxor_assoc, Z.lxor_nilpotent, Z.lxor_0_r. Qed.

(** The upper half of a block is not a block of the next order. *)
Lemma aligned_not_both o a : 0 <= o -> aligned (o + 1) a -> aligned (o + 1) (a + 2 ^ o) -> False.
Proof.
  intros Ho Ha Hb. apply (aligned_div (o + 1)) in Ha, Hb; [|lia..].
  rewrite pow2_succ in Ha, Hb by lia. pose proof (pow2_pos o Ho). revert Ha Hb.
  generalize ((a + 2 ^ o) / (2 * 2 ^ o)) as k', (a / (2 * 2 ^ o)) as k.
  intros k' k Ha Hb. assert (E : 2 ^ o * (2 * k + 1 - 2 * k') = 0) by lia.
  apply Z.mul_eq_0 in E. lia.
Qed.

(** * Tilings *)

Section tilings.
Context (n : Z).
Implicit Types (B C : blocks).

(** Blocks that tile the same units tile. *)
Lemma tiling_replace B C (X Y : blocks) :
  tiling n (C ∪ X) -> (forall b, b ∈ X -> b ∉ C) ->
  (forall o a, (o, a) ∈ Y -> 0 <= o <= n /\ 0 <= a < 2 ^ n /\ aligned o a) ->
  (forall o a o' a' x, (o, a) ∈ Y -> (o', a') ∈ Y -> covers o a x -> covers o' a' x ->
     o = o' /\ a = a') ->
  (forall x, (exists o a, (o, a) ∈ X /\ covers o a x) <-> (exists o a, (o, a) ∈ Y /\ covers o a x)) ->
  tiling n (C ∪ Y) /\ (forall b, b ∈ Y -> b ∉ C).
Proof.
  intros [Hr Hd Hc] HXC HYr HYd Hxy.
  assert (Hcross : forall o a o' a' x, (o, a) ∈ C -> (o', a') ∈ Y -> covers o a x ->
    covers o' a' x -> False).
  { intros o a o' a' x HC HY Hx Hx'.
    destruct (proj2 (Hxy x)) as (o2 & a2 & HX & Hx2); [by exists o', a'|].
    destruct (Hd o a o2 a2 x) as [-> ->]; [set_solver..|]. by apply (HXC (o2, a2)). }
  split; [constructor|].
  - intros o a [HC|HY]%elem_of_union; [apply Hr; set_solver|by apply HYr].
  - intros o a o' a' x [HC|HY]%elem_of_union [HC'|HY']%elem_of_union Hx Hx'.
    + apply (Hd _ _ _ _ x); set_solver.
    + exfalso. by apply (Hcross o a o' a' x).
    + exfalso. by apply (Hcross o' a' o a x).
    + by apply (HYd _ _ _ _ x).
  - intros x Hx. destruct (Hc x Hx) as (o & a & [HC|HX]%elem_of_union & Hcov).
    + exists o, a. set_solver.
    + destruct (proj1 (Hxy x)) as (o2 & a2 & HY & Hx2); [by exists o, a|].
      exists o2, a2. set_solver.
  - intros [o a] HY HC. by apply (Hcross o a o a a).
Qed.

Lemma tiling_split C o a :
  0 <= o -> tiling n (C ∪ {[(o + 1, a)]}) -> (o + 1, a) ∉ C ->
  tiling n (C ∪ {[(o, a); (o, a + 2 ^ o)]}) /\ (o, a) ∉ C /\ (o, a + 2 ^ o) ∉ C.
Proof.
  intros Ho Ht HC. destruct (t_range _ _ Ht (o + 1) a) as (Hon & Ha & Hal); [set_solver|].
  destruct (aligned_half o a) as [Hal1 Hal2]; [done..|].
  assert (Hr2 : 0 <= a + 2 ^ o < 2 ^ n).
  { apply (covers_range n (o + 1) a); [lia|done|]. apply covers_split; [done..|]. by right. }
  destruct (tiling_replace (C ∪ {[(o + 1, a)]}) C {[(o + 1, a)]} {[(o, a); (o, a + 2 ^ o)]})
    as [Ht' HY]; [done|set_solver| | | |].
  - intros o' a' [[= -> ->]%elem_of_singleton|[= -> ->]%elem_of_singleton]%elem_of_union;
      split_and!; done || lia.
  - intros o1 a1 o2 a2 x [[= -> ->]%elem_of_singleton|[= -> ->]%elem_of_singleton]%elem_of_union
      [[= -> ->]%elem_of_singleton|[= -> ->]%elem_of_singleton]%elem_of_union H1 H2; try done;
      exfalso; apply (halves_ne o a Ho); unfold covers in *; congruence.
  - intros x. transitivity (covers (o + 1) a x).
    + split; [intros (? & ? & [= -> ->]%elem_of_singleton & ?); done|].
      intros. exists (o + 1), a. set_solver.
    + rewrite covers_split by done. split.
      * intros [?|?]; [exists o, a|exists o, (a + 2 ^ o)]; set_solver.
      * intros (? & ? & [[= -> ->]%elem_of_singleton|[= -> ->]%elem_of_singleton]%elem_of_union & ?);
          [by left|by right].
  - split; [done|]. split; apply HY; set_solver.
Qed.

Lemma tiling_join C o p :
  0 <= o < n -> aligned (o + 1) p -> tiling n (C ∪ {[(o, p); (o, p + 2 ^ o)]}) ->
  (o, p) ∉ C -> (o, p + 2 ^ o) ∉ C ->
  tiling n (C ∪ {[(o + 1, p)]}) /\ (o + 1, p) ∉ C.
Proof.
  intros Ho Hal Ht H1 H2. destruct (t_range _ _ Ht o p) as (_ & Hp & _); [set_solver|].
  destruct (tiling_replace (C ∪ {[(o, p); (o, p + 2 ^ o)]}) C {[(o, p); (o, p + 2 ^ o)]}
    {[(o + 1, p)]}) as [Ht' HY]; [done|set_solver| | | |].
  - intros o' a' [= -> ->]%elem_of_singleton. split_and!; done || lia.
  - by intros o1 a1 o2 a2 x [= -> ->]%elem_of_singleton [= -> ->]%elem_of_singleton.
  - intros x. transitivity (covers (o + 1) p x).
    + rewrite covers_split by (done || lia). split.
      * intros (? & ? & [[= -> ->]%elem_of_singleton|[= -> ->]%elem_of_singleton]%elem_of_union & ?);
          [by left|by right].
      * intros [?|?]; [exists o, p|exists o, (p + 2 ^ o)]; set_solver.
    + split; [intros; exists (o + 1), p; set_solver|].
      by intros (? & ? & [= -> ->]%elem_of_singleton & ?).
  - split; [done|]. apply HY. set_solver.
Qed.

(** The block two buddies make when they are merged. *)
Lemma tiling_merge C o a :
  0 <= o < n -> tiling n (C ∪ {[(o, a); (o, buddy_of o a)]}) ->
  (o, a) ∉ C -> (o, buddy_of o a) ∉ C ->
  let p := if buddy_of o a <? a then buddy_of o a else a in
  tiling n (C ∪ {[(o + 1, p)]}) /\ (o + 1, p) ∉ C.
Proof.
  intros Ho Ht H1 H2. destruct (t_range _ _ Ht o a) as (_ & _ & Hal); [set_solver|].
  pose proof (pow2_pos o ltac:(lia)).
  destruct (buddy_halves o a) as (p & Hp & [[-> E]|[-> E]]); [lia|done|..]; rewrite E in *; cbv zeta.
  - destruct (Z.ltb_spec (p + 2 ^ o) p); [lia|]. by apply tiling_join.
  - destruct (Z.ltb_spec p (p + 2 ^ o)); [|lia]. apply tiling_join; [done|done| |done|done].
    by replace {[(o, p); (o, p + 2 ^ o)]} with ({[(o, p + 2 ^ o); (o, p)]} : blocks) by set_solver.
Qed.

(** The buddy's address is where some block no larger starts. *)
Lemma buddy_starts_block C o a :
  o < n -> tiling n (C ∪ {[(o, a)]}) -> exists o', 0 <= o' <= o /\ (o', buddy_of o a) ∈ C.
Proof.
  intros Hon Ht. destruct (t_range _ _ Ht o a) as (Ho & Ha & Hal); [set_solver|].
  assert (Hb : aligned o (buddy_of o a) /\ covers (o + 1) a (buddy_of o a) /\
               ~ covers o a (buddy_of o a)).
  { destruct (buddy_halves o a) as (p & Hp & [[-> ->]|[-> ->]]); [lia|done|..];
      destruct (aligned_half o p) as [Hp1 Hp2]; try done; try lia;
      (split; [done|split]).
    - apply covers_split; [lia|done|]. by right.
    - apply halves_ne. lia.
    - symmetry. apply covers_split; [lia|done|]. by right.
    - intros Hc. apply (halves_ne o p); [lia|]. unfold covers in *. congruence. }
  destruct Hb as (Hbal & Hbc & Hbn).
  destruct (t_cover _ _ Ht (buddy_of o a)) as (o' & c & HB & Hc).
  { apply (covers_range n (o + 1) a); [lia|done..]. }
  destruct (t_range _ _ Ht o' c HB) as (Ho' & _ & Hcal).
  destruct (decide (o' <= o)) as [Hle|Hgt].
  - apply elem_of_union in HB as [HC|[= -> ->]%elem_of_singleton]; [|done].
    exists o'. split; [lia|]. by rewrite <- (covers_start o o' (buddy_of o a) c) by (done || lia).
  - destruct (t_disj _ _ Ht o' c o a a HB) as [-> ->]; [set_solver| |done|lia].
    apply (covers_mono (o + 1) o') in Hbc; [|lia]. unfold covers in *. congruence.
Qed.

(** With no two free buddies, units free of allocated blocks lie in a free
    block at least as large. *)
Lemma tiling_complete (F A : blocks) :
  tiling n (F ∪ A) -> (forall o a, (o, a) ∈ F -> o < n -> (o, buddy_of o a) ∉ F) ->
  forall o a, 0 <= o <= n -> 0 <= a < 2 ^ n -> aligned o a ->
    (forall o' a' x, (o', a') ∈ A -> covers o a x -> ~ covers o' a' x) ->
    exists o' c, o <= o' /\ (o', c) ∈ F /\ covers o' c a.
Proof.
  intros Ht Hm o a [Ho Hon]. revert a Hon. pattern o. apply natlike_ind; [| |done]; clear o Ho.
  - intros a _ Ha Hal Hfree. destruct (t_cover _ _ Ht a Ha) as (o' & c & HB & Hc).
    destruct (t_range _ _ Ht _ _ HB) as ([? ?] & _ & _).
    apply elem_of_union in HB as [HF|HA]; [by exists o', c|].
    exfalso. by apply (Hfree o' c a).
  - intros o Ho IH a Hon Ha Hal Hfree. rewrite <- Z.add_1_r in *.
    destruct (aligned_half o a Ho Hal) as [Hal1 Hal2].
    assert (Hcov : forall x, covers o a x \/ covers o (a + 2 ^ o) x -> covers (o + 1) a x).
    { intros x Hx. by apply covers_split. }
    assert (Hr : covers (o + 1) a (a + 2 ^ o)) by (apply Hcov; by right).
    destruct (IH a) as (o1 & c1 & Ho1 & HF1 & Hc1); [lia|done|done| |].
    { intros o' a' x HA Hx. apply (Hfree o' a' x HA). apply Hcov. by left. }
    destruct (IH (a + 2 ^ o)) as (o2 & c2 & Ho2 & HF2 & Hc2); [lia| |done| |].
    { apply (covers_range n (o + 1) a); [lia|done..]. }
    { intros o' a' x HA Hx. apply (Hfree o' a' x HA). apply Hcov. by right. }
    destruct (decide (o + 1 <= o1)); [by exists o1, c1|].
    destruct (decide (o + 1 <= o2)) as [Hge|].
    { exists o2, c2. split_and!; [done|done|]. apply (covers_trans (o + 1) _ (a + 2 ^ o)); [lia|done|].
      by symmetry. }
    exfalso. assert (o1 = o) as -> by lia. assert (o2 = o) as -> by lia.
    destruct (t_range _ _ Ht o c1) as (_ & _ & Hc1al); [set_solver|].
    destruct (t_range _ _ Ht o c2) as (_ & _ & Hc2al); [set_solver|].
    apply (covers_unique o) in Hc1; [|done..]. apply (covers_unique o) in Hc2; [|done..]. subst c1 c2.
    apply (Hm o a HF1); [lia|].
    destruct (buddy_halves o a) as (p & Hp & [[-> ->]|[Ep Eb]]); [done..|].
    exfalso. subst a. destruct (aligned_half o p) as [Hp1 _]; [done..|].
    by apply (aligned_not_both o p).
Qed.

End tilings.
