(* ===== verification/Buddy.v ===== *)
(** The three buddy allocators of the tree.

    - lib/efrm/buddy.c, which hands out VI instances (Section efrm);
    - lib/citools/buddy.c, the general one (Section citools);
    - lib/transport/ip/pio_buddy.c, which cuts up the PIO region of a NIC
      (Section pio).
    They share their three loops (search for a large enough block, split,
    merge) and differ in how a link is marked as not being on a free list;
    [free_list_ops] is the interface between the loops and the linked lists of
    file Dllist, [FreeLists] its laws, discharged for each implementation.
    The invariant [binv] relates the arrays and pointers to a tiling of the
    units by free and allocated blocks (file Tiling). *)

From stdpp Require Import base gmap list.
From S2P Require Import Prelude Dllist Tiling.

Open Scope Z_scope.

(** Addresses of links: [&b->free_lists[o]] and [&b->links[a]]. *)
Inductive bptr := NULL | FL (o : Z) | LINK (a : Z).

#[global] Instance bptr_eq_dec : EqDecision bptr.
Proof. solve_decision. Defined.

#[global] Instance bptr_countable : Countable bptr.
Proof.
  refine (inj_countable'
    (fun p => match p with NULL => inl () | FL o => inr (inl o) | LINK a => inr (inr a) end)
    (fun s => match s with inl _ => NULL | inr (inl o) => FL o | inr (inr a) => LINK a end) _).
  by intros [].
Defined.

(** [l - b->links] *)
Definition LINK_TO_ADDR (l : bptr) : Z := match l with LINK a => a | _ => 0 end.

(** [struct efrm_buddy_allocator] and [ci_buddy_allocator]: [links] is the
    memory of the two arrays of links. *)
Record allocator := mk_allocator {
  links : heap bptr;
  orders : list Z;
  order : Z }.

#[global] Instance allocator_eta : Eta allocator.
Proof.
  refine {| eta := fun r => mk_allocator (links r) (orders r) (order r) |}. solve_eta.
Defined.

(** * The interface to the free lists *)

Record free_list_ops := mk_ops {
  fl_push : Z -> Z -> heap bptr -> heap bptr;
  fl_del : Z -> heap bptr -> heap bptr;
  fl_pop : Z -> heap bptr -> Z * heap bptr;
  fl_empty : Z -> heap bptr -> bool;
  fl_linked : Z -> heap bptr -> bool }.

(** * The loops *)

Section loops.
Context (ops : free_list_ops).

(** [while (smallest <= max && empty(smallest)) ++smallest] *)
Fixpoint find_smallest (fuel : nat) (max smallest : Z) (h : heap bptr) : option Z :=
  match fuel with
  | O => None
  | S fuel =>
    if (smallest <=? max) && fl_empty ops smallest h then find_smallest fuel max (smallest + 1) h
    else Some smallest
  end.

Definition free_list_add (b : allocator) (order addr : Z) : allocator :=
  b <| links ::= fl_push ops order addr |> <| orders ::= fun l => aset l addr (u8 order) |>.

(** [while (smallest-- > order) add(smallest, addr + (1 << smallest))] *)
Fixpoint split_loop (fuel : nat) (b : allocator) (smallest order addr : Z) : option allocator :=
  match fuel with
  | O => None
  | S fuel =>
    if order <? smallest then
      let smallest := smallest - 1 in
      split_loop fuel (free_list_add b smallest (u32 (addr + Z.shiftl 1 smallest)))
        smallest order addr
    else Some b
  end.

(** [while (order < max) { ... }] of the free routines *)
Fixpoint merge_loop (fuel : nat) (b : allocator) (max order addr : Z)
    : option (allocator * Z * Z) :=
  match fuel with
  | O => None
  | S fuel =>
    if order <? max then
      let buddy_addr := Z.lxor addr (Z.shiftl 1 order) in
      if negb (fl_linked ops buddy_addr (links b)) || negb (aget (orders b) buddy_addr =? order)
      then Some (b, order, addr)
      else
        let b := b <| links ::= fl_del ops buddy_addr |> in
        merge_loop fuel b max (order + 1) (if buddy_addr <? addr then buddy_addr else addr)
    else Some (b, order, addr)
  end.

End loops.

(** Enough turns for any of the loops: orders are below 32. *)
Definition loop_fuel : nat := 300.

(** * lib/efrm/buddy.c *)

Section efrm.

Definition efrm_buddy_free_list_del (addr : Z) (h : heap bptr) : heap bptr :=
  set_next NULL (LINK addr) NULL (ci_dllist_remove NULL (LINK addr) h).

Definition efrm_buddy_free_list_empty (order : Z) (h : heap bptr) : bool :=
  ci_dllist_is_empty NULL (FL order) h.

Definition efrm_buddy_free_list_pop (order : Z) (h : heap bptr) : Z * heap bptr :=
  let '(l, h) := ci_dllist_pop NULL (FL order) h in
  (LINK_TO_ADDR l, set_next NULL l NULL h).

Definition efrm_buddy_addr_in_free_list (addr : Z) (h : heap bptr) : bool :=
  bool_decide (lnext NULL h (LINK addr) <> NULL).

Definition efrm_ops : free_list_ops :=
  mk_ops (fun order addr => ci_dllist_push NULL (FL order) (LINK addr))
    efrm_buddy_free_list_del efrm_buddy_free_list_pop efrm_buddy_free_list_empty
    efrm_buddy_addr_in_free_list.

Definition efrm_buddy_free_list_add := free_list_add efrm_ops.

(** [for (o = 0; o <= b->order; ++o) INIT_LIST_HEAD(b->free_lists + o)] *)
Fixpoint init_lists (k : nat) (o : Z) (h : heap bptr) : heap bptr :=
  match k with
  | O => h
  | S k => init_lists k (o + 1) (ci_dllist_init NULL (FL o) h)
  end.

(** The three allocations succeed or not; the memory they return is zeroed for
    the links ([memset]) and arbitrary for the orders. *)
Definition efrm_buddy_ctor (kmalloc vmalloc1 vmalloc2 : bool) (garbage : list Z) (order : Z)
    : option allocator * Z :=
  if negb kmalloc then (None, - ENOMEM)
  else if negb vmalloc1 then (None, - ENOMEM)
  else if negb vmalloc2 then (None, - ENOMEM)
  else
    let size := Z.to_nat (Z.shiftl 1 order) in
    let b := mk_allocator (init_lists (S (Z.to_nat order)) 0 ∅)
               (take size (garbage ++ replicate size 0)) order in
    (Some (efrm_buddy_free_list_add b order 0), 0).

Definition efrm_buddy_alloc (b : allocator) (ord : Z) : option (allocator * Z) :=
  smallest ← find_smallest efrm_ops loop_fuel (order b) ord (links b);
  if order b <? smallest then Some (b, - ENOMEM)
  else
    let '(addr, h) := efrm_buddy_free_list_pop smallest (links b) in
    b ← split_loop efrm_ops loop_fuel (b <| links := h |>) smallest ord addr;
    Some (b, addr).

Definition efrm_buddy_free (b : allocator) (addr ord : Z) : option allocator :=
  '(b, ord, addr) ← merge_loop efrm_ops loop_fuel b (order b) ord addr;
  Some (efrm_buddy_free_list_add b ord addr).

(** The rejected blocks, last first.  The code chains them through
    [links[addr].prev] of blocks that are on no free list; nothing else reads these
    until [efrm_buddy_free] puts the block back and overwrites them, so the chain
    is kept as a list here. *)
Fixpoint special_loop (fuel : nat) (accept_fn : Z -> bool) (b : allocator) (ord : Z)
    (rejects : list Z) : option (allocator * Z * list Z) :=
  match fuel with
  | O => None
  | S fuel =>
    '(b, addr) ← efrm_buddy_alloc b ord;
    if (addr <? 0) || accept_fn addr then Some (b, addr, rejects)
    else special_loop fuel accept_fn b ord (addr :: rejects)
  end.

Fixpoint free_rejects (b : allocator) (ord : Z) (rejects : list Z) : option allocator :=
  match rejects with
  | [] => Some b
  | l :: rejects => b ← efrm_buddy_free b l ord; free_rejects b ord rejects
  end.

Definition efrm_buddy_alloc_special (b : allocator) (ord : Z) (accept_fn : Z -> bool)
    : option (allocator * Z) :=
  '(b, addr, rejects) ← special_loop (S (Z.to_nat (2 ^ order b))) accept_fn b ord [];
  b ← free_rejects b ord rejects;
  Some (b, addr).

(** [fls(n)], which the user-level build defines as [ci_log2_ge(n + 1, 0)]:
    the smallest [o] with [(1ul << o) >= n + 1]. *)
Fixpoint log2_ge_loop (fuel : nat) (n order : Z) : Z :=
  match fuel with
  | O => order
  | S fuel => if Z.shiftl 1 order <? n then log2_ge_loop fuel n (order + 1) else order
  end.

Definition ci_log2_ge (n min_order : Z) : Z := log2_ge_loop 64 n min_order.
Definition fls (n : Z) : Z := ci_log2_ge (n + 1) 0.

Fixpoint alloc_units (k : nat) (b : allocator) : option allocator :=
  match k with
  | O => Some b
  | S k => '(b, rc) ← efrm_buddy_alloc b 0; alloc_units k b
  end.

Fixpoint free_units (k : nat) (i : Z) (b : allocator) : option allocator :=
  match k with
  | O => Some b
  | S k => b ← efrm_buddy_free b i 0; free_units k (i + 1) b
  end.

Definition efrm_buddy_range_ctor (kmalloc vmalloc1 vmalloc2 : bool) (garbage : list Z)
    (low high : Z) : option (option allocator * Z) :=
  let log2_n := fls (high - 1) in
  match efrm_buddy_ctor kmalloc vmalloc1 vmalloc2 garbage log2_n with
  | (None, rc) => Some (None, rc)
  | (Some b, _) =>
    b ← alloc_units (Z.to_nat (Z.shiftl 1 log2_n)) b;
    b ← free_units (Z.to_nat (high - low)) low b;
    Some (Some b, 0)
  end.

End efrm.

(** * lib/citools/buddy.c *)

Section citools.

Definition IS_BUSY (a : Z) (h : heap bptr) : bool := ci_dllink_is_free NULL (LINK a) h.
Definition SET_BUSY (a : Z) (h : heap bptr) : heap bptr := ci_dllink_mark_free NULL (LINK a) h.

(** A link taken off its list is not marked by the removal. *)
Definition ci_ops : free_list_ops :=
  mk_ops (fun order addr => ci_dllist_push NULL (FL order) (LINK addr))
    (fun addr => ci_dllist_remove NULL (LINK addr))
    (fun order h => let '(l, h) := ci_dllist_pop NULL (FL order) h in (LINK_TO_ADDR l, h))
    (fun order h => ci_dllist_is_empty NULL (FL order) h)
    (fun addr h => negb (IS_BUSY addr h)).

(** Outside debug builds the links are not zeroed: [garbage_links] is what the
    memory held. *)
Definition ci_buddy_ctor2 (alloc1 alloc2 alloc3 : bool) (garbage_links : heap bptr)
    (garbage : list Z) (order : Z) : option allocator * Z :=
  if negb alloc1 then (None, - ENOMEM)
  else if negb alloc2 then (None, - ENOMEM)
  else if negb alloc3 then (None, - ENOMEM)
  else
    let size := Z.to_nat (Z.shiftl 1 order) in
    let h := init_lists (S (Z.to_nat order)) 0 garbage_links in
    let h := ci_dllist_push NULL (FL order) (LINK 0) h in
    (Some (mk_allocator h (aset (take size (garbage ++ replicate size 0)) 0 (u8 order)) order), 0).

Definition ci_buddy_alloc (b : allocator) (ord : Z) : option (allocator * Z) :=
  smallest ← find_smallest ci_ops loop_fuel (order b) ord (links b);
  if order b <? smallest then Some (b, - ENOMEM)
  else
    let '(l, h) := ci_dllist_pop NULL (FL smallest) (links b) in
    let addr := LINK_TO_ADDR l in
    b ← split_loop ci_ops loop_fuel (b <| links := h |>) smallest ord addr;
    Some (b <| links ::= SET_BUSY addr |>, addr).

Definition ci_buddy_free (b : allocator) (addr ord : Z) : option allocator :=
  '(b, ord, addr) ← merge_loop ci_ops loop_fuel b (order b) ord addr;
  Some (free_list_add ci_ops b ord addr).

(** [CI_DLLIST_FOR_EACH4(l, FL(b, order), _l)] of [ci_buddy_reserve]: [_l] is
    read before the body runs. *)
Fixpoint reserve_scan (fuel : nat) (b : allocator) (order addr size : Z) (l _l : bptr)
    (allocated : Z) : option (allocator * Z) :=
  match fuel with
  | O => None
  | S fuel =>
    if decide (l = FL order) then Some (b, allocated)
    else
      let block_size := Z.shiftl 1 order in
      let next_order := order - 1 in
      let block_addr := LINK_TO_ADDR l in
      let '(b, allocated) :=
        if (addr <=? block_addr) && (block_addr + block_size <=? addr + size) then
          (b <| links ::= ci_dllist_remove NULL l |>, u32 (allocated + block_size))
        else if (addr <? block_addr + block_size) && (block_addr <? addr + size) then
          let h := ci_dllist_remove NULL l (links b) in
          let h := ci_dllist_push NULL (FL next_order) l h in
          let l := LINK (block_addr + Z.shiftl 1 next_order) in
          (b <| links := ci_dllist_push NULL (FL next_order) l h |>, allocated)
        else (b, allocated) in
      reserve_scan fuel b order addr size _l (lnext NULL (links b) _l) allocated
  end.

Fixpoint reserve_loop (k : nat) (b : allocator) (order addr size allocated : Z)
    : option allocator :=
  match k with
  | O => Some b
  | S k =>
    if (0 <=? order) && (allocated <? size) then
      let l := lnext NULL (links b) (FL order) in
      '(b, allocated) ← reserve_scan (S (length (orders b))) b order addr size l
                          (lnext NULL (links b) l) allocated;
      reserve_loop k b (order - 1) addr size allocated
    else Some b
  end.

Definition ci_buddy_reserve (b : allocator) (addr size : Z) : option allocator :=
  reserve_loop (S (Z.to_nat (order b))) b (order b) addr size 0.

End citools.

(** * lib/transport/ip/pio_buddy.c *)

Section pio.

Definition CI_CFG_MIN_PIO_BLOCK_ORDER := 7.
Definition CI_PIO_BUF_ORDER := 12.
Definition CI_PIO_BUDDY_MAX_ORDER := CI_PIO_BUF_ORDER - CI_CFG_MIN_PIO_BLOCK_ORDER.
Definition ENOSPC := 28.

(** Links of blocks on no free list are linked to themselves. *)
Definition ci_pio_buddy_free_list_empty (order : Z) (h : heap bptr) : bool :=
  oo_p_dllink_is_empty NULL (FL order) h.
Definition ci_pio_buddy_addr_in_free_list (addr : Z) (h : heap bptr) : bool :=
  negb (oo_p_dllink_is_empty NULL (LINK addr) h).
Definition ci_pio_buddy_free_list_remove (addr : Z) (h : heap bptr) : heap bptr :=
  oo_p_dllink_del_init NULL (LINK addr) h.
Definition ci_pio_buddy_free_list_pop (order : Z) (h : heap bptr) : Z * heap bptr :=
  let l := lnext NULL h (FL order) in (LINK_TO_ADDR l, oo_p_dllink_del_init NULL l h).

Definition pio_ops : free_list_ops :=
  mk_ops (fun order addr => oo_p_dllink_add NULL (FL order) (LINK addr))
    ci_pio_buddy_free_list_remove ci_pio_buddy_free_list_pop ci_pio_buddy_free_list_empty
    ci_pio_buddy_addr_in_free_list.

Definition ci_pio_buddy_free_list_add := free_list_add pio_ops.

(** [ci_pio_buddy_allocator]: the order of the arrays is a constant. *)
Record ci_pio_buddy_allocator := mk_pio { pio_b : allocator; initialised : Z }.

(** The largest [o] such that [(1ul << o) <= n]. *)
Fixpoint log2_le_loop (fuel : nat) (n order : Z) : Z :=
  match fuel with
  | O => order - 1
  | S fuel => if Z.shiftl 1 order <=? n then log2_le_loop fuel n (order + 1) else order - 1
  end.

Definition ci_log2_le (n : Z) : Z := log2_le_loop 64 n 1.

Fixpoint pio_init_lists (k : nat) (o : Z) (h : heap bptr) : heap bptr :=
  match k with
  | O => h
  | S k => pio_init_lists k (o + 1) (oo_p_dllink_init NULL (FL o) h)
  end.

Fixpoint pio_init_links (k : nat) (a : Z) (h : heap bptr) : heap bptr :=
  match k with
  | O => h
  | S k => pio_init_links k (a + 1) (oo_p_dllink_init NULL (LINK a) h)
  end.

Definition ci_pio_buddy_ctor (h : heap bptr) (ords : list Z) (pio_len : Z)
    : ci_pio_buddy_allocator :=
  let pio_order := ci_log2_le pio_len in
  let h := pio_init_lists (S (Z.to_nat CI_PIO_BUDDY_MAX_ORDER)) 0 h in
  let h := pio_init_links (Z.to_nat (Z.shiftl 1 CI_PIO_BUDDY_MAX_ORDER)) 0 h in
  let b := mk_allocator h ords CI_PIO_BUDDY_MAX_ORDER in
  mk_pio (ci_pio_buddy_free_list_add b (u8 (pio_order - CI_CFG_MIN_PIO_BLOCK_ORDER)) 0) 1.

Definition ci_pio_buddy_dtor (b : ci_pio_buddy_allocator) : ci_pio_buddy_allocator :=
  mk_pio (pio_b b) 0.

Definition ci_pio_buddy_alloc (b : ci_pio_buddy_allocator) (ord : Z)
    : option (ci_pio_buddy_allocator * Z) :=
  if nz (initialised b) then
    let ord := u8 (ord - CI_CFG_MIN_PIO_BLOCK_ORDER) in
    smallest ← find_smallest pio_ops loop_fuel CI_PIO_BUDDY_MAX_ORDER ord (links (pio_b b));
    if CI_PIO_BUDDY_MAX_ORDER <? smallest then Some (b, - ENOMEM)
    else
      let '(addr, h) := ci_pio_buddy_free_list_pop smallest (links (pio_b b)) in
      b' ← split_loop pio_ops loop_fuel (pio_b b <| links := h |>) smallest ord addr;
      let b' := b' <| orders ::= fun l => aset l addr (u8 ord) |> in
      Some (mk_pio b' (initialised b),
            s32 (u32 (addr * Z.shiftl 1 CI_CFG_MIN_PIO_BLOCK_ORDER)))
  else Some (b, - ENOSPC).

Definition ci_pio_buddy_free (b : ci_pio_buddy_allocator) (offset ord : Z)
    : option ci_pio_buddy_allocator :=
  let addr := u32 offset / Z.shiftl 1 CI_CFG_MIN_PIO_BLOCK_ORDER in
  let ord := u8 (ord - CI_CFG_MIN_PIO_BLOCK_ORDER) in
  '(b', ord, addr) ← merge_loop pio_ops loop_fuel (pio_b b) CI_PIO_BUDDY_MAX_ORDER ord addr;
  Some (mk_pio (ci_pio_buddy_free_list_add b' ord addr) (initialised b)).

End pio.

(** * The promises of the free lists *)

Definition upd (f : Z -> list Z) (o : Z) (l : list Z) (o' : Z) : list Z :=
  if decide (o' = o) then l else f o'.

(** The block at [a] is on none of the lists. *)
Definition unlisted (n : Z) (f : Z -> list Z) (a : Z) : Prop := forall o, 0 <= o <= n -> a ∉ f o.

(** The list heads of orders 0 to [n] anchor circles that hold the links of
    the addresses [f] gives them. *)
Definition lists_rep (n : Z) (h : heap bptr) (f : Z -> list Z) : Prop :=
  exists L, dlls NULL h L /\
    (forall o, 0 <= o <= n -> L !! FL o = Some (LINK <$> f o)) /\
    (forall p l, L !! p = Some l -> exists o, 0 <= o <= n /\ p = FL o).

Class FreeLists (ops : free_list_ops) := {
  law_push n h f o a : lists_rep n h f -> 0 <= o <= n -> unlisted n f a ->
    lists_rep n (fl_push ops o a h) (upd f o (a :: f o)) /\
    forall c, c <> a -> unlisted n f c -> fl_linked ops c (fl_push ops o a h) = fl_linked ops c h;
  law_del n h f o a : lists_rep n h f -> 0 <= o <= n -> a ∈ f o ->
    lists_rep n (fl_del ops a h) (upd f o (without a (f o))) /\
    forall c, c <> a -> unlisted n f c -> fl_linked ops c (fl_del ops a h) = fl_linked ops c h;
  law_pop n h f o a l : lists_rep n h f -> 0 <= o <= n -> f o = a :: l ->
    (fl_pop ops o h).1 = a /\ lists_rep n (fl_pop ops o h).2 (upd f o l) /\
    forall c, c <> a -> unlisted n f c -> fl_linked ops c (fl_pop ops o h).2 = fl_linked ops c h;
  law_empty n h f o : lists_rep n h f -> 0 <= o <= n -> fl_empty ops o h = bool_decide (f o = []);
  law_linked n h f o a : lists_rep n h f -> 0 <= o <= n -> a ∈ f o -> fl_linked ops a h = true }.

#[local] Instance LINK_inj : Inj (=) (=) LINK.
Proof. by intros ?? [=]. Qed.

Lemma LINK_in a (l : list Z) : LINK a ∈ LINK <$> l <-> a ∈ l.
Proof. apply list_elem_of_fmap_inj. apply _. Qed.

Section rep.
Context (n : Z) (h : heap bptr) (f : Z -> list Z).

Lemma rep_update L h' o l :
  dlls NULL h' (<[FL o := LINK <$> l]> L) -> 0 <= o <= n ->
  (forall o, 0 <= o <= n -> L !! FL o = Some (LINK <$> f o)) ->
  (forall p l, L !! p = Some l -> exists o, 0 <= o <= n /\ p = FL o) ->
  lists_rep n h' (upd f o l).
Proof.
  intros Hd Ho Hf HL. exists (<[FL o := LINK <$> l]> L). split_and!; [done| |].
  - intros o' Ho'. unfold upd. destruct (decide (o' = o)) as [->|].
    + by rewrite lookup_insert_eq.
    + rewrite lookup_insert_ne by congruence. by apply Hf.
  - intros p l'. destruct (decide (FL o = p)) as [<-|]; [by exists o|].
    rewrite lookup_insert_ne by done. apply HL.
Qed.

Lemma unlisted_fresh L a :
  (forall o, 0 <= o <= n -> L !! FL o = Some (LINK <$> f o)) ->
  (forall p l, L !! p = Some l -> exists o, 0 <= o <= n /\ p = FL o) ->
  unlisted n f a -> fresh (LINK a) L.
Proof.
  intros Hf HL Ha p l Hp. destruct (HL p l Hp) as (o & Ho & ->). rewrite (Hf o Ho) in Hp.
  apply (inj Some) in Hp as <-. rewrite not_elem_of_cons, LINK_in. split; [done|]. by apply Ha.
Qed.

Lemma rep_dll o : lists_rep n h f -> 0 <= o <= n -> dll NULL h (FL o) (LINK <$> f o).
Proof. intros (L & Hd & Hf & _) Ho. by apply Hd, Hf. Qed.

(** Neither end of a listed link's neighbourhood is an unlisted link. *)
Lemma rep_next_ne o p c : lists_rep n h f -> 0 <= o <= n -> p ∈ FL o :: (LINK <$> f o) ->
  unlisted n f c -> LINK c <> p /\ LINK c <> lnext NULL h p /\ LINK c <> lprev NULL h p.
Proof.
  intros Hr Ho Hp Hc. assert (Hn : LINK c ∉ FL o :: (LINK <$> f o)).
  { rewrite not_elem_of_cons, LINK_in. split; [done|]. by apply Hc. }
  pose proof (rep_dll o Hr Ho) as Hd.
  split_and!; intros E; apply Hn; rewrite E; [done|by apply dll_next_in|by apply dll_prev_in].
Qed.

Lemma rep_push h' o a : lists_rep n h f -> 0 <= o <= n -> unlisted n f a ->
  (LINK a <> FL o -> LINK a <> lnext NULL h (FL o) ->
   inserted NULL h h' (FL o) (LINK a) (lnext NULL h (FL o))) ->
  lists_rep n h' (upd f o (a :: f o)) /\
  forall c, c <> a -> unlisted n f c -> lnext NULL h' (LINK c) = lnext NULL h (LINK c).
Proof.
  intros Hr Ho Ha Hins. destruct (rep_next_ne o (FL o) a Hr Ho ltac:(left) Ha) as (Ha1 & Ha2 & _).
  specialize (Hins Ha1 Ha2). split.
  - destruct Hr as (L & Hd & Hf & HL).
    apply (rep_update L); [|done..]. rewrite fmap_cons. apply (dlls_insert_head _ h); [done|by apply Hf| |done].
    by apply unlisted_fresh.
  - intros c Hca Hc. destruct (rep_next_ne o (FL o) c Hr Ho ltac:(left) Hc) as (? & ? & ?).
    apply (inserted_footprint _ _ _ _ _ _ (LINK c) Hins); congruence.
Qed.

Lemma LINK_without a l : LINK <$> without a l = without (LINK a) (LINK <$> l).
Proof.
  induction l as [|c l IH]; [done|]. unfold without in *. cbn [fmap list_fmap].
  destruct (decide (c = a)) as [->|].
  - rewrite !filter_cons_False by naive_solver. done.
  - rewrite !filter_cons_True by naive_solver. cbn. by rewrite IH.
Qed.

Lemma rep_del h' o a X : lists_rep n h f -> 0 <= o <= n -> a ∈ f o ->
  bypassed NULL h h' (lprev NULL h (LINK a)) (lnext NULL h (LINK a)) X ->
  (forall y, y ∈ X -> y = LINK a) ->
  lists_rep n h' (upd f o (without a (f o))) /\
  forall c, c <> a -> unlisted n f c -> lnext NULL h' (LINK c) = lnext NULL h (LINK c).
Proof.
  intros Hr Ho Ha Hby HX. pose proof (rep_dll o Hr Ho) as [Hnd _]. split.
  - destruct Hr as (L & Hd & Hf & HL). apply (rep_update L); [|done..]. rewrite LINK_without.
    pose proof (Hf o Ho) as HLo. apply NoDup_cons in Hnd as [_ Hnd].
    destruct (list_elem_of_split (LINK <$> f o) (LINK a)) as (l1 & l2 & E); [by apply LINK_in|].
    rewrite E in *. apply NoDup_app in Hnd as (_ & Hnd1 & Hnd2).
    apply NoDup_cons in Hnd2 as [Hnd2 _].
    assert (LINK a ∉ l1) by (intros Ein; apply (Hnd1 _ Ein); left).
    rewrite without_split by done. by apply (dlls_bypass _ h _ _ _ _ (LINK a) _ X).
  - intros c Hca Hc.
    destruct (rep_next_ne o (LINK a) c Hr Ho) as (? & ? & ?); [right; by apply LINK_in|done|].
    apply (bypassed_footprint _ _ _ _ _ _ (LINK c) Hby); [done| |done].
    intros Hin%HX. congruence.
Qed.

Lemma rep_pop_next o a l : lists_rep n h f -> 0 <= o <= n -> f o = a :: l ->
  lnext NULL h (FL o) = LINK a /\ a ∈ f o /\ without a (f o) = l.
Proof.
  intros Hr Ho E. pose proof (rep_dll o Hr Ho) as Hd. rewrite E in *. cbn in Hd.
  split_and!; [by apply (dll_next_cons _ _ _ _ _ Hd)|left|].
  destruct Hd as [Hnd _]. apply NoDup_cons in Hnd as [_ Hnd]. apply NoDup_cons in Hnd as [Hnd _].
  rewrite LINK_in in Hnd. apply (without_split a [] l); [apply not_elem_of_nil|done].
Qed.

Lemma rep_linked o a : lists_rep n h f -> 0 <= o <= n -> a ∈ f o ->
  lnext NULL h (LINK a) <> NULL /\ lnext NULL h (LINK a) <> LINK a.
Proof.
  intros Hr Ho Ha. pose proof (rep_dll o Hr Ho) as Hd.
  assert (HLa : LINK a ∈ FL o :: (LINK <$> f o)) by (right; by apply LINK_in).
  pose proof (dll_next_in _ _ _ _ _ Hd HLa) as Hn. split.
  - intros E. rewrite E in Hn. apply elem_of_cons in Hn as [Hn|Hn]; [done|].
    apply list_elem_of_fmap in Hn as (? & ? & _). done.
  - intros E. destruct Hd as [Hnd Hp]. apply NoDup_cons in Hnd as [_ Hnd].
    apply list_elem_of_split in HLa as (l1 & l2 & E').
    destruct l1 as [|p l1]; [done|]. cbn in E'. injection E' as <- E'. rewrite E' in *.
    apply path_app in Hp as [_ Hp]. apply NoDup_app in Hnd as (_ & _ & Hnd).
    apply NoDup_cons in Hnd as [Hnd _].
    destruct l2 as [|q l2]; cbn in Hp; [by destruct Hp; congruence|].
    destruct Hp as [Hp _]. rewrite E in Hp. subst q. apply Hnd. left.
Qed.

End rep.

(** ** Each implementation keeps them *)

Lemma lnext_mark p v c h : LINK c <> p -> lnext NULL (set_next NULL p v h) (LINK c) = lnext NULL h (LINK c).
Proof. intros. rewrite lnext_set_next. by rewrite decide_False by done. Qed.

(** Marking a link that is on no list. *)
Lemma rep_mark n h f a v : lists_rep n h f -> unlisted n f a ->
  lists_rep n (set_next NULL (LINK a) v h) f.
Proof.
  intros (L & [Hd Hx] & Hf & HL) Ha. exists L. split_and!; [split; [|done]|done..].
  intros p l Hp. apply (dll_frame _ h); [|by apply Hd]. intros y Hy.
  assert (y <> LINK a) by (intros ->; by apply (unlisted_fresh n f L a Hf HL Ha p l Hp)).
  rewrite lprev_set_next, lnext_set_next, decide_False by done. done.
Qed.

(** Addresses are on at most one list, so one taken off a list is unlisted. *)
Lemma unlisted_removed n h f o a : lists_rep n h f -> 0 <= o <= n -> a ∈ f o ->
  unlisted n (upd f o (without a (f o))) a.
Proof.
  intros (L & [_ Hx] & Hf & _) Ho Ha o' Ho'. unfold upd. destruct (decide (o' = o)) as [->|Hne].
  - unfold without. rewrite list_elem_of_filter. by intros [? _].
  - intros Ha'. apply Hne. assert (E : FL o' = FL o); [|congruence].
    apply (Hx _ _ _ _ (LINK a) (Hf o' Ho') (Hf o Ho)); right; by apply LINK_in.
Qed.

#[global] Instance efrm_lists : FreeLists efrm_ops.
Proof.
  constructor; cbn.
  - intros n h f o a Hr Ho Ha. unfold efrm_buddy_addr_in_free_list.
    destruct (rep_push n h f (ci_dllist_push NULL (FL o) (LINK a) h) o a Hr Ho Ha) as [Hr' Hc].
    { apply push_inserted. }
    split; [done|]. intros c ??. by rewrite Hc.
  - intros n h f o a Hr Ho Ha. unfold efrm_buddy_addr_in_free_list, efrm_buddy_free_list_del.
    destruct (rep_del n h f (ci_dllist_remove NULL (LINK a) h) o a [] Hr Ho Ha) as [Hr' Hc].
    { apply remove_bypassed. } { intros y Hy%elem_of_nil. done. }
    split; [|intros c ??; rewrite lnext_mark by congruence; by rewrite Hc].
    apply rep_mark; [done|]. by apply (unlisted_removed n h).
  - intros n h f o a l Hr Ho E. destruct (rep_pop_next n h f o a l Hr Ho E) as (Hn & Ha & Hw).
    unfold efrm_buddy_addr_in_free_list, efrm_buddy_free_list_pop, ci_dllist_pop. cbn. rewrite Hn.
    destruct (rep_del n h f (ci_dllist_remove NULL (LINK a) h) o a [] Hr Ho Ha) as [Hr' Hc].
    { apply remove_bypassed. } { intros y Hy%elem_of_nil. done. }
    split_and!; [done| |intros c ??; rewrite lnext_mark by congruence; by rewrite Hc].
    rewrite <- Hw. apply rep_mark; [done|]. by apply (unlisted_removed n h).
  - intros n h f o Hr Ho. unfold efrm_buddy_free_list_empty.
    rewrite (dll_empty _ _ _ _ (rep_dll n h f o Hr Ho)). apply bool_decide_ext. by destruct (f o).
  - intros n h f o a Hr Ho Ha. apply bool_decide_eq_true_2. by apply (rep_linked n h f o a).
Qed.

#[global] Instance ci_lists : FreeLists ci_ops.
Proof.
  constructor; cbn.
  - intros n h f o a Hr Ho Ha. unfold IS_BUSY, ci_dllink_is_free.
    destruct (rep_push n h f (ci_dllist_push NULL (FL o) (LINK a) h) o a Hr Ho Ha) as [Hr' Hc].
    { apply push_inserted. }
    split; [done|]. intros c ??. by rewrite Hc.
  - intros n h f o a Hr Ho Ha. unfold IS_BUSY, ci_dllink_is_free.
    destruct (rep_del n h f (ci_dllist_remove NULL (LINK a) h) o a [] Hr Ho Ha) as [Hr' Hc].
    { apply remove_bypassed. } { intros y Hy%elem_of_nil. done. }
    split; [done|]. intros c ??. by rewrite Hc.
  - intros n h f o a l Hr Ho E. destruct (rep_pop_next n h f o a l Hr Ho E) as (Hn & Ha & Hw).
    unfold IS_BUSY, ci_dllink_is_free, ci_dllist_pop. cbn. rewrite Hn.
    destruct (rep_del n h f (ci_dllist_remove NULL (LINK a) h) o a [] Hr Ho Ha) as [Hr' Hc].
    { apply remove_bypassed. } { intros y Hy%elem_of_nil. done. }
    split_and!; [done|by rewrite <- Hw|]. intros c ??. by rewrite Hc.
  - intros n h f o Hr Ho.
    rewrite (dll_empty _ _ _ _ (rep_dll n h f o Hr Ho)). apply bool_decide_ext. by destruct (f o).
  - intros n h f o a Hr Ho Ha. unfold IS_BUSY, ci_dllink_is_free.
    apply negb_true_iff, bool_decide_eq_false_2. by apply (rep_linked n h f o a).
Qed.

#[global] Instance pio_lists : FreeLists pio_ops.
Proof.
  constructor; cbn.
  - intros n h f o a Hr Ho Ha. unfold ci_pio_buddy_addr_in_free_list, oo_p_dllink_is_empty.
    destruct (rep_push n h f (oo_p_dllink_add NULL (FL o) (LINK a) h) o a Hr Ho Ha) as [Hr' Hc].
    { apply oo_add_inserted. }
    split; [done|]. intros c ??. by rewrite Hc.
  - intros n h f o a Hr Ho Ha.
    unfold ci_pio_buddy_addr_in_free_list, oo_p_dllink_is_empty, ci_pio_buddy_free_list_remove.
    destruct (rep_del n h f (oo_p_dllink_del_init NULL (LINK a) h) o a [LINK a] Hr Ho Ha) as [Hr' Hc].
    { apply oo_del_init_bypassed. } { intros y Hy%list_elem_of_singleton. done. }
    split; [done|]. intros c ??. by rewrite Hc.
  - intros n h f o a l Hr Ho E. destruct (rep_pop_next n h f o a l Hr Ho E) as (Hn & Ha & Hw).
    unfold ci_pio_buddy_addr_in_free_list, oo_p_dllink_is_empty, ci_pio_buddy_free_list_pop.
    cbn. rewrite Hn.
    destruct (rep_del n h f (oo_p_dllink_del_init NULL (LINK a) h) o a [LINK a] Hr Ho Ha) as [Hr' Hc].
    { apply oo_del_init_bypassed. } { intros y Hy%list_elem_of_singleton. done. }
    split_and!; [done|by rewrite <- Hw|]. intros c ??. by rewrite Hc.
  - intros n h f o Hr Ho. unfold ci_pio_buddy_free_list_empty, oo_p_dllink_is_empty.
    pose proof (dll_empty _ _ _ _ (rep_dll n h f o Hr Ho)) as He.
    unfold ci_dllist_is_empty in He. rewrite He. apply bool_decide_ext. by destruct (f o).
  - intros n h f o a Hr Ho Ha. unfold ci_pio_buddy_addr_in_free_list, oo_p_dllink_is_empty.
    apply negb_true_iff, bool_decide_eq_false_2. by apply (rep_linked n h f o a).
Qed.

(** * The invariant *)

Section invariant.
Context (ops : free_list_ops) `{!FreeLists ops} (n : Z) (Hn : 0 <= n <= 30).
#[local] Set Default Proof Using "All".

(** [F] are the free blocks, [A] the allocated ones and [X] those an operation
    has in hand; together they tile the units.  The free lists hold [F], whose
    blocks know their order; no two buddies are both free; the link of an
    allocated block is marked as being on no list. *)
Record binv (b : allocator) (F A X : blocks) : Prop := mk_binv {
  bi_order : order b = n;
  bi_lists : exists f, lists_rep n (links b) f /\
    forall o a, 0 <= o <= n -> a ∈ f o <-> (o, a) ∈ F;
  bi_length : Z.of_nat (length (orders b)) = 2 ^ n;
  bi_orders o a : (o, a) ∈ F -> aget (orders b) a = o;
  bi_busy o a : (o, a) ∈ A -> fl_linked ops a (links b) = false;
  bi_tiling : tiling n (F ∪ A ∪ X);
  bi_disj : F ## A /\ F ## X /\ A ## X;
  bi_merged o a : (o, a) ∈ F -> o < n -> (o, buddy_of o a) ∉ F }.

(** Two blocks at the same address are the same block. *)
Lemma tiling_addr (B : blocks) o o' a : tiling n B -> (o, a) ∈ B -> (o', a) ∈ B -> o = o'.
Proof. intros Ht H1 H2. by destruct (t_disj _ _ Ht o a o' a a H1 H2). Qed.

Lemma binv_unlisted b F A X f o a :
  binv b F A X -> (forall o a, 0 <= o <= n -> a ∈ f o <-> (o, a) ∈ F) -> (o, a) ∈ A ∪ X ->
  unlisted n f a.
Proof.
  intros Hb Hf Hoa o' Ho' Ha'. apply Hf in Ha'; [|done].
  assert (o = o') as -> by (apply (tiling_addr _ o o' a (bi_tiling _ _ _ _ Hb)); set_solver).
  destruct (bi_disj _ _ _ _ Hb) as (H1 & H2 & H3). set_solver.
Qed.

(** ** Moves between the free lists, the allocated blocks and the hand *)

Lemma binv_push b F A X o a :
  binv b F A (X ∪ {[(o, a)]}) -> (o, a) ∉ X -> (o < n -> (o, buddy_of o a) ∉ F) ->
  binv (free_list_add ops b o a) (F ∪ {[(o, a)]}) A X.
Proof.
  intros Hb HX Hbuddy. pose proof (bi_tiling _ _ _ _ Hb) as Ht.
  destruct (t_range _ _ Ht o a) as (Ho & Ha & Hal); [set_solver|].
  destruct (bi_disj _ _ _ _ Hb) as (Hd1 & Hd2 & Hd3).
  destruct (bi_lists _ _ _ _ Hb) as (f & Hr & Hf).
  assert (Hu : unlisted n f a) by (apply (binv_unlisted b F A (X ∪ {[(o, a)]}) f o); set_solver).
  destruct (law_push n (links b) f o a Hr Ho Hu) as [Hr' Hlink].
  assert (Hne : forall o' c, (o', c) ∈ F ∪ A -> c <> a).
  { intros o' c Hc ->. assert (o' = o) as -> by (apply (tiling_addr _ _ _ a Ht); set_solver).
    set_solver. }
  constructor; cbn.
  - apply Hb.
  - exists (upd f o (a :: f o)). split; [done|]. intros o' c Ho'. unfold upd.
    destruct (decide (o' = o)) as [->|].
    + rewrite elem_of_cons, Hf by done. set_solver.
    + rewrite Hf by done. set_solver.
  - rewrite length_aset. apply Hb.
  - pose proof (bi_length _ _ _ _ Hb) as Hlen.
    intros o' c [Hc|[= -> ->]%elem_of_singleton]%elem_of_union.
    + pose proof (Hne o' c ltac:(set_solver)) as Hca.
      destruct (t_range _ _ Ht o' c) as (_ & Hcr & _); [set_solver|].
      rewrite aget_aset_ne by lia. by apply Hb.
    + rewrite aget_aset_eq by lia. apply u8_small. lia.
  - intros o' c Hc. rewrite Hlink.
    + by apply (bi_busy _ _ _ _ Hb o').
    + apply (Hne o'). set_solver.
    + apply (binv_unlisted b F A (X ∪ {[(o, a)]}) f o'); set_solver.
  - replace (F ∪ {[(o, a)]} ∪ A ∪ X) with (F ∪ A ∪ (X ∪ {[(o, a)]})) by set_solver. done.
  - set_solver.
  - intros o' c [Hc|[= -> ->]%elem_of_singleton]%elem_of_union Ho'.
    + pose proof (bi_merged _ _ _ _ Hb o' c Hc Ho') as Hm.
      intros [?|[= -> E]%elem_of_singleton]%elem_of_union; [done|].
      apply (Hbuddy Ho'). rewrite <- E, buddy_involutive. done.
    + intros [?|[= E]%elem_of_singleton]%elem_of_union; [by apply Hbuddy|].
      unfold buddy_of in E. apply (f_equal (Z.lxor a)) in E.
      rewrite <- Z.lxor_assoc, Z.lxor_nilpotent, Z.lxor_0_l in E.
      pose proof (pow2_pos o ltac:(lia)). lia.
Qed.

Lemma binv_set_links b F A X o a h :
  binv b F A X -> (o, a) ∈ F ->
  (forall f, lists_rep n (links b) f -> (forall o a, 0 <= o <= n -> a ∈ f o <-> (o, a) ∈ F) ->
   lists_rep n h (upd f o (without a (f o))) /\
   forall c, c <> a -> unlisted n f c -> fl_linked ops c h = fl_linked ops c (links b)) ->
  binv (b <| links := h |>) (F ∖ {[(o, a)]}) A (X ∪ {[(o, a)]}).
Proof.
  intros Hb HF Hlaw. pose proof (bi_tiling _ _ _ _ Hb) as Ht.
  destruct (bi_disj _ _ _ _ Hb) as (Hd1 & Hd2 & Hd3).
  destruct (bi_lists _ _ _ _ Hb) as (f & Hr & Hf). destruct (Hlaw f Hr Hf) as [Hr' Hlink].
  constructor; cbn.
  - apply Hb.
  - exists (upd f o (without a (f o))). split; [done|]. intros o' c Ho'. unfold upd.
    destruct (decide (o' = o)) as [->|].
    + unfold without. rewrite list_elem_of_filter, Hf by done. set_solver.
    + rewrite Hf by done. set_solver.
  - apply Hb.
  - intros o' c Hc. apply Hb. set_solver.
  - intros o' c Hc. rewrite Hlink; [by apply (bi_busy _ _ _ _ Hb o')| |].
    + intros ->. assert (o' = o) as -> by (apply (tiling_addr _ _ _ a Ht); set_solver). set_solver.
    + apply (binv_unlisted b F A X f o'); set_solver.
  - replace (F ∖ {[(o, a)]} ∪ A ∪ (X ∪ {[(o, a)]})) with (F ∪ A ∪ X); [done|].
    apply leibniz_equiv. intros [o' c]. destruct (decide ((o', c) = (o, a))) as [->|]; set_solver.
  - set_solver.
  - intros o' c Hc Ho'. pose proof (bi_merged _ _ _ _ Hb o' c). set_solver.
Qed.

Lemma binv_take b F A o a :
  binv b F A {[(o, a)]} -> fl_linked ops a (links b) = false -> binv b F (A ∪ {[(o, a)]}) ∅.
Proof.
  intros Hb Hl. destruct (bi_disj _ _ _ _ Hb) as (Hd1 & Hd2 & Hd3). constructor; try apply Hb.
  - intros o' c [Hc|[= -> ->]%elem_of_singleton]%elem_of_union; [by apply (bi_busy _ _ _ _ Hb o')|done].
  - replace (F ∪ (A ∪ {[(o, a)]}) ∪ ∅) with (F ∪ A ∪ {[(o, a)]}) by set_solver. apply Hb.
  - set_solver.
Qed.

Lemma binv_give b F A o a :
  binv b F (A ∪ {[(o, a)]}) ∅ -> (o, a) ∉ A -> binv b F A {[(o, a)]}.
Proof.
  intros Hb Ha. destruct (bi_disj _ _ _ _ Hb) as (Hd1 & Hd2 & Hd3). constructor; try apply Hb.
  - intros o' c Hc. apply (bi_busy _ _ _ _ Hb o'). set_solver.
  - replace (F ∪ A ∪ {[(o, a)]}) with (F ∪ (A ∪ {[(o, a)]}) ∪ ∅) by set_solver. apply Hb.
  - set_solver.
Qed.

(** ** The loops *)

Lemma find_smallest_spec h f s fuel :
  lists_rep n h f -> 0 <= s -> n + 1 - s < Z.of_nat fuel -> (0 < fuel)%nat ->
  exists r, find_smallest ops fuel n s h = Some r /\ s <= r /\
    (r <= n -> f r <> []) /\ (forall o, s <= o < r -> o <= n -> f o = []).
Proof.
  intros Hr. revert s. induction fuel as [|fuel IH]; intros s Hs Hf Hp; [lia|]. cbn [find_smallest].
  destruct (Z.leb_spec s n) as [Hle|Hgt]; cbn [andb].
  - rewrite (law_empty n h f s Hr) by lia. case_bool_decide as E.
    + destruct (IH (s + 1)) as (r & -> & Hsr & Hr1 & Hr2); [lia..|].
      exists r. split_and!; [done|lia|done|]. intros o Ho Hon.
      destruct (decide (o = s)) as [->|]; [done|]. apply Hr2; lia.
    + exists s. split_and!; [done|lia|done|]. intros; lia.
  - exists s. split_and!; [done|lia|lia|]. intros; lia.
Qed.

Lemma split_loop_spec F A b s o a fuel :
  binv b F A {[(s, a)]} -> 0 <= o <= s -> s - o < Z.of_nat fuel ->
  exists b' F', split_loop ops fuel b s o a = Some b' /\ binv b' F' A {[(o, a)]} /\
    fl_linked ops a (links b') = fl_linked ops a (links b).
Proof.
  revert F b s. induction fuel as [|fuel IH]; intros F b s Hb Ho Hfuel; [lia|].
  cbn [split_loop]. destruct (Z.ltb_spec o s) as [Hlt|Hge].
  2:{ assert (s = o) as -> by lia. by exists b, F. }
  rewrite Z.shiftl_1_l. set (t := s - 1).
  pose proof (bi_tiling _ _ _ _ Hb) as Ht. destruct (bi_disj _ _ _ _ Hb) as (Hd1 & Hd2 & Hd3).
  assert (E : s = t + 1) by lia. rewrite E in Ht, Hd2, Hd3.
  destruct (t_range _ _ Ht (t + 1) a) as (Hs & Ha & Hal); [set_solver|].
  destruct (tiling_split n (F ∪ A) t a) as (Ht' & H1 & H2); [lia|done|set_solver|].
  destruct (t_range _ _ Ht' t (a + 2 ^ t)) as (_ & Hr2 & _); [set_solver|].
  pose proof (pow2_pos t ltac:(lia)). assert (2 ^ n <= 2 ^ 30) by (apply Z.pow_le_mono_r; lia).
  assert (Hb' : binv b F A ({[(t, a)]} ∪ {[(t, a + 2 ^ t)]})).
  { constructor; try apply Hb; [done|]. set_solver. }
  rewrite u32_small by lia.
  apply binv_push in Hb' as Hb2; [| |].
  - destruct (IH _ _ t Hb2) as (b' & F' & -> & HF' & Hl); [lia..|]. exists b', F'.
    split_and!; [done|done|]. rewrite Hl.
    destruct (bi_lists _ _ _ _ Hb') as (f & Hr & Hf). cbn.
    apply (law_push n (links b) f t (a + 2 ^ t) Hr); [lia| |lia|].
    + apply (binv_unlisted b F A ({[(t, a)]} ∪ {[(t, a + 2 ^ t)]}) f t); [done..|set_solver].
    + apply (binv_unlisted b F A ({[(t, a)]} ∪ {[(t, a + 2 ^ t)]}) f t); [done..|set_solver].
  - intros [= ?]%elem_of_singleton. lia.
  - intros _ HF. apply H1.
    destruct (buddy_halves t (a + 2 ^ t)) as (p & Hp & [[E1 E2]|[E1 E2]]).
    + lia. + by apply (aligned_half t a); [lia|].
    + exfalso. subst p. apply (aligned_not_both t a); [lia|done..].
    + assert (a = p) as -> by lia. rewrite E2 in HF. set_solver.
Qed.

Lemma merge_loop_spec F A b o a fuel :
  binv b F A {[(o, a)]} -> n - o < Z.of_nat fuel ->
  exists b' F' o' a', merge_loop ops fuel b n o a = Some (b', o', a') /\
    binv b' F' A {[(o', a')]} /\ (o' < n -> (o', buddy_of o' a') ∉ F').
Proof.
  revert F b o a. induction fuel as [|fuel IH]; intros F b o a Hb Hfuel.
  { destruct (t_range _ _ (bi_tiling _ _ _ _ Hb) o a) as ((? & ?) & _); [set_solver|lia]. }
  cbn [merge_loop]. destruct (Z.ltb_spec o n) as [Hlt|Hge]; [|exists b, F, o, a; split_and!; by (done || lia)].
  rewrite Z.shiftl_1_l. fold (buddy_of o a).
  pose proof (bi_tiling _ _ _ _ Hb) as Ht. destruct (bi_disj _ _ _ _ Hb) as (Hd1 & Hd2 & Hd3).
  destruct (t_range _ _ Ht o a) as (Ho & Ha & Hal); [set_solver|].
  destruct (bi_lists _ _ _ _ Hb) as (f & Hr & Hf).
  destruct (buddy_starts_block n (F ∪ A) o a) as (o' & Ho' & Hin); [done..|].
  destruct (decide ((o, buddy_of o a) ∈ F)) as [HF|HF].
  - rewrite (law_linked n (links b) f o) by (done || lia || by apply Hf).
    rewrite (bi_orders _ _ _ _ Hb o) by done. rewrite Z.eqb_refl. cbn [negb orb].
    assert (Hb2 : binv (b <| links ::= fl_del ops (buddy_of o a) |>) (F ∖ {[(o, buddy_of o a)]}) A
              ({[(o, a)]} ∪ {[(o, buddy_of o a)]})).
    { apply binv_set_links; [done..|]. intros f' Hr' Hf'. apply law_del; [done|lia|by apply Hf']. }
    destruct (tiling_merge n (F ∖ {[(o, buddy_of o a)]} ∪ A) o a) as [Ht' Hnew].
    + lia.
    + apply (bi_tiling _ _ _ _ Hb2).
    + set_solver.
    + set_solver.
    + apply (IH (F ∖ {[(o, buddy_of o a)]})); [|lia]. constructor; try apply Hb2; [done|].
      destruct (bi_disj _ _ _ _ Hb2) as (? & ? & ?). set_solver.
  - assert (Hstop : negb (fl_linked ops (buddy_of o a) (links b)) ||
      negb (aget (orders b) (buddy_of o a) =? o) = true).
    { apply elem_of_union in Hin as [HF'|HA'].
      - apply orb_true_iff. right. rewrite (bi_orders _ _ _ _ Hb o') by done.
        apply negb_true_iff, Z.eqb_neq. intros ->. done.
      - by rewrite (bi_busy _ _ _ _ Hb o'). }
    rewrite Hstop. exists b, F, o, a. done.
Qed.

(** ** Allocation and release over the loops *)

(** Every unit of the block [(o, a)] is outside the blocks [A]. *)
Definition clear_of (A : blocks) (o a : Z) : Prop :=
  forall o' a' x, (o', a') ∈ A -> covers o a x -> ~ covers o' a' x.

(** [(o, a)] is a place for a block. *)
Definition placed (o a : Z) : Prop := 0 <= o <= n /\ 0 <= a < 2 ^ n /\ aligned o a.

Lemma hand_placed b F A o a : binv b F A {[(o, a)]} -> placed o a /\ clear_of A o a /\ (o, a) ∉ A.
Proof.
  intros Hb. pose proof (bi_tiling _ _ _ _ Hb) as Ht. destruct (bi_disj _ _ _ _ Hb) as (_ & _ & Hd).
  split_and!; [apply (t_range _ _ Ht); set_solver| |set_solver].
  intros o' a' x HA H1 H2. destruct (t_disj _ _ Ht o' a' o a x) as [-> ->]; [set_solver..|]. set_solver.
Qed.

Lemma no_large_block b F A f ord :
  binv b F A ∅ -> (forall o a, 0 <= o <= n -> a ∈ f o <-> (o, a) ∈ F) -> 0 <= ord ->
  (forall o, ord <= o <= n -> f o = []) -> forall a, placed ord a -> ~ clear_of A ord a.
Proof.
  intros Hb Hf Hord Hnil a ([? ?] & Ha & Hal) Hc. pose proof (bi_tiling _ _ _ _ Hb) as Ht.
  rewrite union_empty_r_L in Ht.
  destruct (tiling_complete n F A Ht (bi_merged _ _ _ _ Hb) ord a) as (o' & c & Ho' & HF & _); [done..|].
  destruct (t_range _ _ Ht o' c) as ([? ?] & _); [set_solver|].
  apply Hf in HF; [|lia]. rewrite Hnil in HF by lia. by apply elem_of_nil in HF.
Qed.

Lemma alloc_loops b F A ord :
  binv b F A ∅ -> 0 <= ord ->
  exists r, find_smallest ops loop_fuel n ord (links b) = Some r /\
    if n <? r then forall a, placed ord a -> ~ clear_of A ord a
    else exists b' F', split_loop ops loop_fuel (b <| links := (fl_pop ops r (links b)).2 |>) r ord
                         (fl_pop ops r (links b)).1 = Some b' /\
      binv b' F' A {[(ord, (fl_pop ops r (links b)).1)]} /\
      fl_linked ops (fl_pop ops r (links b)).1 (links b') =
      fl_linked ops (fl_pop ops r (links b)).1 (fl_pop ops r (links b)).2 /\
      lnext NULL (links b) (FL r) = LINK (fl_pop ops r (links b)).1.
Proof.
  intros Hb Hord. destruct (bi_lists _ _ _ _ Hb) as (f & Hr & Hf).
  assert (Hfuel : Z.of_nat loop_fuel = 300) by reflexivity.
  destruct (find_smallest_spec (links b) f ord loop_fuel Hr) as (r & E & Hle & Hne & Hnil); [lia..|].
  exists r. split; [done|]. destruct (Z.ltb_spec n r) as [Hlt|Hge].
  - apply (no_large_block b F A f); [done..|]. intros o Ho. apply Hnil; lia.
  - destruct (f r) as [|a l] eqn:Er; [by destruct Hne|].
    destruct (law_pop n (links b) f r a l Hr ltac:(lia) Er) as (Ea & Hr' & Hlink).
    assert (HF : (r, a) ∈ F) by (apply Hf; [lia|]; rewrite Er; left).
    rewrite Ea. destruct (rep_pop_next n (links b) f r a l Hr ltac:(lia) Er) as (Hhd & _ & _).
    assert (Hb2 : binv (b <| links := (fl_pop ops r (links b)).2 |>) (F ∖ {[(r, a)]}) A (∅ ∪ {[(r, a)]})).
    { apply binv_set_links; [done..|]. intros f' Hr2 Hf'.
      assert (Hin : a ∈ f' r) by (apply Hf'; [lia|done]).
      destruct (f' r) as [|a' l'] eqn:Er'; [by apply elem_of_nil in Hin|].
      destruct (law_pop n (links b) f' r a' l' Hr2 ltac:(lia) Er') as (Ea' & Hr2' & Hlink').
      rewrite Ea in Ea'. subst a'.
      destruct (rep_pop_next n (links b) f' r a l' Hr2 ltac:(lia) Er') as (_ & _ & Hw').
      rewrite Er' in Hw'. by rewrite Hw'. }
    rewrite union_empty_l_L in Hb2.
    destruct (split_loop_spec _ _ _ _ ord a loop_fuel Hb2) as (b' & F' & Es & Hb' & Hl); [lia..|].
    by exists b', F'.
Qed.

Lemma free_loops b F A o a :
  binv b F (A ∪ {[(o, a)]}) ∅ -> (o, a) ∉ A ->
  exists b' o' a', merge_loop ops loop_fuel b n o a = Some (b', o', a') /\
    exists F', binv (free_list_add ops b' o' a') F' A ∅.
Proof.
  intros Hb Ha. apply binv_give in Hb; [|done].
  assert (Hfuel : Z.of_nat loop_fuel = 300) by reflexivity.
  destruct (t_range _ _ (bi_tiling _ _ _ _ Hb) o a) as ([? ?] & _); [set_solver|].
  destruct (merge_loop_spec F A b o a loop_fuel Hb) as (b' & F' & o' & a' & E & Hb' & Hm); [lia|].
  exists b', o', a'. split; [done|]. exists (F' ∪ {[(o', a')]}).
  apply binv_push; [|apply not_elem_of_empty|exact Hm]. rewrite union_empty_l_L. exact Hb'.
Qed.

End invariant.

(** * Construction *)

Lemma tiling_whole n : 0 <= n -> tiling n {[(n, 0)]}.
Proof.
  intros Hn. pose proof (pow2_pos n Hn). constructor.
  - intros o a [= -> ->]%elem_of_singleton. split_and!; [lia..|]. apply Z.mod_0_l. lia.
  - by intros o a o' a' x [= -> ->]%elem_of_singleton [= -> ->]%elem_of_singleton.
  - intros x Hx. exists n, 0. split; [set_solver|]. unfold covers.
    rewrite Z.div_0_l by lia. by apply Z.div_small.
Qed.

(** The heads of orders below [o] are initialised and anchor empty lists. *)
Definition heads_ready (o : Z) (h : heap bptr) : Prop :=
  exists L, dlls NULL h L /\ (forall o', 0 <= o' < o -> L !! FL o' = Some []) /\
    (forall p l, L !! p = Some l -> exists o', 0 <= o' < o /\ p = FL o').

Lemma heads_fresh o (L : gmap bptr (list bptr)) p :
  (forall o', 0 <= o' < o -> L !! FL o' = Some []) ->
  (forall p l, L !! p = Some l -> exists o', 0 <= o' < o /\ p = FL o') ->
  (forall o', 0 <= o' < o -> p <> FL o') -> fresh p L.
Proof.
  intros H1 H2 Hp q l Hq. destruct (H2 q l Hq) as (o' & Ho' & ->). rewrite H1 in Hq by done.
  apply (inj Some) in Hq as <-. rewrite list_elem_of_singleton. by apply Hp.
Qed.

Lemma heads_ready_step o h :
  0 <= o -> heads_ready o h -> heads_ready (o + 1) (ci_dllist_init NULL (FL o) h).
Proof.
  intros Ho (L & Hd & H1 & H2). exists (<[FL o := []]> L). split_and!.
  - apply dl_init_step; [done|]. apply (heads_fresh o); [done..|]. intros o' ? [= ->]. lia.
  - intros o' Ho'. destruct (decide (o' = o)) as [->|]; [by rewrite lookup_insert_eq|].
    rewrite lookup_insert_ne by congruence. apply H1. lia.
  - intros p l. destruct (decide (FL o = p)) as [<-|]; [intros _; exists o; split; [lia|done]|].
    rewrite lookup_insert_ne by done. intros (o' & ? & ->)%H2. exists o'. split; [lia|done].
Qed.

Lemma heads_ready_rep n h : heads_ready (n + 1) h -> lists_rep n h (fun _ => []).
Proof.
  intros (L & Hd & H1 & H2). exists L. split_and!; [done| |].
  - intros o Ho. apply H1. lia.
  - intros p l (o & ? & ->)%H2. exists o. split; [lia|done].
Qed.

Lemma init_lists_ready k o h :
  0 <= o -> heads_ready o h -> heads_ready (o + Z.of_nat k) (init_lists k o h).
Proof.
  revert o h. induction k as [|k IH]; intros o h Ho Hr; cbn [init_lists].
  - by rewrite Z.add_0_r.
  - replace (o + Z.of_nat (S k)) with (o + 1 + Z.of_nat k) by lia.
    apply IH; [lia|]. by apply heads_ready_step.
Qed.

Lemma heads_ready_0 h : heads_ready 0 h.
Proof.
  exists ∅. split_and!; [split; intros *; by rewrite lookup_empty|lia|].
  intros p l. by rewrite lookup_empty.
Qed.

(** An allocator whose lists are empty, with one block in hand. *)
Lemma binv_fresh ops n b X :
  0 <= n <= 30 -> order b = n -> lists_rep n (links b) (fun _ => []) ->
  Z.of_nat (length (orders b)) = 2 ^ n -> forall A, A ## X -> tiling n (A ∪ X) ->
  (forall o a, (o, a) ∈ A -> fl_linked ops a (links b) = false) -> binv ops n b ∅ A X.
Proof.
  intros Hn Ho Hl Hlen A HAX Ht Hbusy. constructor; try done.
  - exists (fun _ => []). split; [done|]. intros o a _. rewrite elem_of_nil. set_solver.
  - by rewrite union_empty_l_L.
Qed.

Lemma length_garbage (g : list Z) n : 0 <= n ->
  Z.of_nat (length (take (Z.to_nat (Z.shiftl 1 n)) (g ++ replicate (Z.to_nat (Z.shiftl 1 n)) 0))) = 2 ^ n.
Proof.
  intros Hn. rewrite Z.shiftl_1_l, length_take, length_app, length_replicate.
  pose proof (pow2_pos n Hn). lia.
Qed.

(** What a client relies on: [A] are the blocks it holds. *)
Definition buddy_inv (ops : free_list_ops) (n : Z) (b : allocator) (A : blocks) : Prop :=
  exists F, binv ops n b F A ∅.

Lemma efrm_ctor_inv g n : 0 <= n <= 30 ->
  exists b, efrm_buddy_ctor true true true g n = (Some b, 0) /\ buddy_inv efrm_ops n b ∅.
Proof.
  intros Hn. eexists. split; [reflexivity|]. exists (∅ ∪ {[(n, 0)]}).
  apply binv_push; [apply _|done| |apply not_elem_of_empty|set_solver].
  apply binv_fresh; cbn [order links orders]; [done|done| |by apply length_garbage; lia|set_solver| |set_solver].
  - apply heads_ready_rep. replace (n + 1) with (0 + Z.of_nat (S (Z.to_nat n))) by lia.
    apply init_lists_ready; [lia|]. apply heads_ready_0.
  - rewrite !union_empty_l_L. apply tiling_whole. lia.
Qed.

(** Zeroing the links is not needed: whatever the memory held, it works. *)
Lemma ci_ctor_inv g gl n : 0 <= n <= 30 ->
  exists b, ci_buddy_ctor2 true true true gl g n = (Some b, 0) /\ buddy_inv ci_ops n b ∅.
Proof.
  intros Hn. eexists. split; [reflexivity|]. exists (∅ ∪ {[(n, 0)]}).
  set (b0 := mk_allocator (init_lists (S (Z.to_nat n)) 0 gl)
    (take (Z.to_nat (Z.shiftl 1 n)) (g ++ replicate (Z.to_nat (Z.shiftl 1 n)) 0)) n).
  change (binv ci_ops n (free_list_add ci_ops b0 n 0) (∅ ∪ {[(n, 0)]}) ∅ ∅).
  apply binv_push; [apply _|done| |apply not_elem_of_empty|set_solver].
  apply binv_fresh; cbn [b0 order links orders]; [done|done| |by apply length_garbage; lia|set_solver| |set_solver].
  - apply heads_ready_rep. replace (n + 1) with (0 + Z.of_nat (S (Z.to_nat n))) by lia.
    apply init_lists_ready; [lia|]. apply heads_ready_0.
  - rewrite !union_empty_l_L. apply tiling_whole. lia.
Qed.

(** * Allocation and release *)

(** What an allocation of order [ord] may do to a client holding [A]: fail,
    change nothing, and then there is no place clear of [A]; or return a place
    clear of [A] that becomes the client's. *)
Definition alloc_outcome (ops : free_list_ops) (n : Z) (A : blocks) (ord : Z)
    (b b' : allocator) (r : Z) : Prop :=
  (r = - ENOMEM /\ b' = b /\ forall a, placed n ord a -> ~ clear_of A ord a) \/
  (placed n ord r /\ clear_of A ord r /\ (ord, r) ∉ A /\ buddy_inv ops n b' (A ∪ {[(ord, r)]})).

Lemma set_links_id b : b <| links := links b |> = b.
Proof. by destruct b. Qed.

Lemma efrm_alloc_spec n b A ord : 0 <= n <= 30 -> buddy_inv efrm_ops n b A -> 0 <= ord ->
  exists b' r, efrm_buddy_alloc b ord = Some (b', r) /\ alloc_outcome efrm_ops n A ord b b' r.
Proof.
  intros Hn [F Hb] Hord. pose proof (bi_order _ _ _ _ _ _ Hb) as En.
  destruct (alloc_loops efrm_ops n Hn b F A ord Hb Hord) as (s & Es & Hs).
  unfold efrm_buddy_alloc. rewrite En, Es. cbn [mbind option_bind]. destruct (n <? s).
  { exists b, (- ENOMEM). split; [done|]. by left. }
  destruct Hs as (b' & F' & Esp & Hb' & Hl & Hhd).
  cbn [fl_pop efrm_ops] in Esp, Hb', Hl, Hhd.
  assert (Ep : (efrm_buddy_free_list_pop s (links b)).2 =
    set_next NULL (lnext NULL (links b) (FL s)) NULL
      (ci_dllist_remove NULL (lnext NULL (links b) (FL s)) (links b))) by reflexivity.
  destruct (efrm_buddy_free_list_pop s (links b)) as [addr h]. cbn [fst snd] in *.
  rewrite Esp. cbn [mbind option_bind]. exists b', addr. split; [done|]. right.
  destruct (hand_placed efrm_ops n Hn b' F' A ord addr Hb') as (Hp & Hc & Hni). split_and!; [done..|].
  exists F'. apply binv_take; [apply _|exact Hn|exact Hb'|]. rewrite Hl, Ep, Hhd. cbn [fl_linked efrm_ops].
  unfold efrm_buddy_addr_in_free_list. rewrite lnext_set_next, decide_True by done.
  apply bool_decide_eq_false_2. intros Hne. by apply Hne.
Qed.

(** Marking the block in hand as busy, as the citools allocator does at the end. *)
Lemma binv_mark n b F A o a : 0 <= n <= 30 -> binv ci_ops n b F A {[(o, a)]} ->
  binv ci_ops n (b <| links ::= SET_BUSY a |>) F A {[(o, a)]}.
Proof.
  intros Hn Hb. destruct (bi_disj _ _ _ _ _ _ Hb) as (Hd1 & Hd2 & Hd3).
  destruct (bi_lists _ _ _ _ _ _ Hb) as (f & Hr & Hf).
  pose proof (bi_tiling _ _ _ _ _ _ Hb) as Ht. constructor; try apply Hb.
  - exists f. split; [|done]. apply rep_mark; [done|].
    apply (binv_unlisted ci_ops n Hn b F A {[(o, a)]} f o); [done..|set_solver].
  - intros o' c Hc. cbn. unfold IS_BUSY, ci_dllink_is_free, SET_BUSY, ci_dllink_mark_free.
    rewrite lnext_mark; [apply (bi_busy _ _ _ _ _ _ Hb o' c Hc)|]. intros [= ->].
    assert (o' = o) as -> by (apply (tiling_addr ci_ops n Hn _ _ _ a Ht); set_solver). set_solver.
Qed.

Lemma ci_alloc_spec n b A ord : 0 <= n <= 30 -> buddy_inv ci_ops n b A -> 0 <= ord ->
  exists b' r, ci_buddy_alloc b ord = Some (b', r) /\ alloc_outcome ci_ops n A ord b b' r.
Proof.
  intros Hn [F Hb] Hord. pose proof (bi_order _ _ _ _ _ _ Hb) as En.
  destruct (alloc_loops ci_ops n Hn b F A ord Hb Hord) as (s & Es & Hs).
  unfold ci_buddy_alloc. rewrite En, Es. cbn [mbind option_bind]. destruct (n <? s).
  { exists b, (- ENOMEM). split; [done|]. by left. }
  destruct Hs as (b' & F' & Esp & Hb' & _ & _).
  change (fl_pop ci_ops s (links b)) with
    (let '(l, h) := ci_dllist_pop NULL (FL s) (links b) in (LINK_TO_ADDR l, h)) in Esp, Hb'.
  destruct (ci_dllist_pop NULL (FL s) (links b)) as [l h]. cbn [fst snd] in *.
  rewrite Esp. cbn [mbind option_bind]. eexists _, (LINK_TO_ADDR l). split; [done|]. right.
  destruct (hand_placed ci_ops n Hn b' F' A ord _ Hb') as (Hp & Hc & Hni). split_and!; [done..|].
  exists F'. apply binv_take; [apply _|done|by apply binv_mark|]. cbn.
  unfold IS_BUSY, ci_dllink_is_free, SET_BUSY, ci_dllink_mark_free.
  rewrite lnext_set_next, decide_True by done. by rewrite bool_decide_eq_true_2.
Qed.

Lemma efrm_free_spec n b A o a : 0 <= n <= 30 -> buddy_inv efrm_ops n b (A ∪ {[(o, a)]}) ->
  (o, a) ∉ A -> exists b', efrm_buddy_free b a o = Some b' /\ buddy_inv efrm_ops n b' A.
Proof.
  intros Hn [F Hb] Ha. pose proof (bi_order _ _ _ _ _ _ Hb) as En.
  destruct (free_loops efrm_ops n Hn b F A o a Hb Ha) as (b' & o' & a' & E & F' & Hb').
  unfold efrm_buddy_free. rewrite En, E. cbn [mbind option_bind]. eexists. split; [done|]. by exists F'.
Qed.

Lemma ci_free_spec n b A o a : 0 <= n <= 30 -> buddy_inv ci_ops n b (A ∪ {[(o, a)]}) ->
  (o, a) ∉ A -> exists b', ci_buddy_free b a o = Some b' /\ buddy_inv ci_ops n b' A.
Proof.
  intros Hn [F Hb] Ha. pose proof (bi_order _ _ _ _ _ _ Hb) as En.
  destruct (free_loops ci_ops n Hn b F A o a Hb Ha) as (b' & o' & a' & E & F' & Hb').
  unfold ci_buddy_free. rewrite En, E. cbn [mbind option_bind]. eexists. split; [done|]. by exists F'.
Qed.

(** ** Allocation subject to the caller's approval *)

Definition blocks_at (ord : Z) (l : list Z) : blocks := list_to_set (pair ord <$> l).

Lemma blocks_at_cons ord a l : blocks_at ord (a :: l) = {[(ord, a)]} ∪ blocks_at ord l.
Proof. done. Qed.

Lemma elem_of_blocks_at ord l o a : (o, a) ∈ blocks_at ord l <-> o = ord /\ a ∈ l.
Proof.
  unfold blocks_at. rewrite elem_of_list_to_set, list_elem_of_fmap. split.
  - by intros (? & [= -> ->] & ?).
  - intros [-> ?]. by exists a.
Qed.

Lemma units_bound n (l : list Z) : NoDup l -> (forall a, a ∈ l -> 0 <= a < 2 ^ n) ->
  Z.of_nat (length l) <= 2 ^ n \/ l = [].
Proof.
  intros Hnd Hl. destruct l as [|a l]; [by right|left].
  assert (Hs : a :: l ⊆+ seqZ 0 (2 ^ n)).
  { apply NoDup_submseteq; [done|]. intros x Hx. apply elem_of_seqZ. specialize (Hl x Hx). lia. }
  apply submseteq_length in Hs. rewrite length_seqZ in Hs.
  specialize (Hl a ltac:(left)). lia.
Qed.

Lemma special_loop_spec n accept ord A fuel b rej :
  0 <= n <= 30 -> 0 <= ord -> buddy_inv efrm_ops n b (A ∪ blocks_at ord rej) ->
  NoDup rej -> (forall a, a ∈ rej -> accept a = false /\ placed n ord a /\ (ord, a) ∉ A) ->
  2 ^ n - Z.of_nat (length rej) < Z.of_nat fuel ->
  exists b' r rej', special_loop fuel accept b ord rej = Some (b', r, rej') /\
    NoDup rej' /\ (forall a, a ∈ rej' -> accept a = false /\ placed n ord a /\ (ord, a) ∉ A) /\
    ((r = - ENOMEM /\ buddy_inv efrm_ops n b' (A ∪ blocks_at ord rej') /\
      (forall a, placed n ord a -> ~ clear_of (A ∪ blocks_at ord rej') ord a)) \/
     (placed n ord r /\ accept r = true /\ clear_of A ord r /\ (ord, r) ∉ A /\ r ∉ rej' /\
      buddy_inv efrm_ops n b' (A ∪ {[(ord, r)]} ∪ blocks_at ord rej'))).
Proof.
  intros Hn Hord. revert b rej. induction fuel as [|fuel IH]; intros b rej Hb Hnd Hrej Hfuel.
  { destruct (units_bound n rej Hnd) as [?| ->]; [intros a Ha; apply Hrej, Ha|lia|].
    pose proof (pow2_pos n ltac:(lia)). cbn in Hfuel. lia. }
  cbn [special_loop]. destruct (efrm_alloc_spec n b _ ord Hn Hb Hord) as (b' & r & E & Ho).
  rewrite E. cbn [mbind option_bind]. destruct Ho as [(-> & -> & Hno)|(Hp & Hc & Hni & Hb')].
  { cbn. exists b, (- ENOMEM), rej. split_and!; [done..|]. by left. }
  assert (Hr0 : 0 <= r) by apply Hp.
  assert (Hc' : clear_of A ord r) by (intros o' a' x HA; apply Hc; set_solver).
  assert (Hnr : r ∉ rej).
  { intros Hin. apply Hni. apply elem_of_union. right. by apply elem_of_blocks_at. }
  destruct (Z.ltb_spec r 0) as [?|_]; [lia|]. cbn [orb]. destruct (accept r) eqn:Ea.
  - exists b', r, rej. split_and!; [done..|]. right. split_and!; [done|done|done|set_solver|done|].
    by replace (A ∪ {[(ord, r)]} ∪ blocks_at ord rej) with (A ∪ blocks_at ord rej ∪ {[(ord, r)]}) by set_solver.
  - apply IH.
    + rewrite blocks_at_cons.
      by replace (A ∪ ({[(ord, r)]} ∪ blocks_at ord rej)) with (A ∪ blocks_at ord rej ∪ {[(ord, r)]}) by set_solver.
    + by apply NoDup_cons.
    + intros a [->|Ha]%elem_of_cons; [|by apply Hrej]. split_and!; [done..|set_solver].
    + cbn [length]. lia.
Qed.

Lemma free_rejects_spec n ord A b rej :
  0 <= n <= 30 -> buddy_inv efrm_ops n b (A ∪ blocks_at ord rej) -> NoDup rej ->
  (forall a, a ∈ rej -> (ord, a) ∉ A) ->
  exists b', free_rejects b ord rej = Some b' /\ buddy_inv efrm_ops n b' A.
Proof.
  intros Hn. revert b. induction rej as [|a rej IH]; intros b Hb Hnd Hrej; cbn [free_rejects].
  - exists b. split; [done|]. by replace (A ∪ blocks_at ord []) with A in Hb by set_solver.
  - apply NoDup_cons in Hnd as [Ha Hnd].
    destruct (efrm_free_spec n b (A ∪ blocks_at ord rej) ord a Hn) as (b' & E & Hb').
    + rewrite blocks_at_cons in Hb.
      by replace (A ∪ blocks_at ord rej ∪ {[(ord, a)]}) with (A ∪ ({[(ord, a)]} ∪ blocks_at ord rej)) by set_solver.
    + intros [HA|HR]%elem_of_union; [by apply (Hrej a); [left|]|].
      by apply elem_of_blocks_at in HR as [_ HR].
    + rewrite E. cbn [mbind option_bind]. apply IH; [done..|]. intros c Hc. apply Hrej. by right.
Qed.

(** [alloc_special] with the rejected blocks given back: it fails only when
    every place clear of [A] is one the caller rejects. *)
Lemma efrm_special_spec n b A ord accept : 0 <= n <= 30 -> buddy_inv efrm_ops n b A -> 0 <= ord ->
  exists b' r, efrm_buddy_alloc_special b ord accept = Some (b', r) /\
    ((r = - ENOMEM /\ buddy_inv efrm_ops n b' A /\
      (forall a, placed n ord a -> accept a = true -> ~ clear_of A ord a)) \/
     (placed n ord r /\ accept r = true /\ clear_of A ord r /\ (ord, r) ∉ A /\
      buddy_inv efrm_ops n b' (A ∪ {[(ord, r)]}))).
Proof.
  intros Hn Hb Hord. pose proof (pow2_pos n ltac:(lia)).
  assert (En : order b = n) by (destruct Hb as [F Hb]; apply Hb).
  destruct (special_loop_spec n accept ord A (S (Z.to_nat (2 ^ n))) b [] Hn Hord)
    as (b1 & r & rej & E & Hnd & Hrej & Ho).
  - by replace (A ∪ blocks_at ord []) with A by set_solver.
  - constructor.
  - intros a Ha%elem_of_nil. done.
  - cbn [length]. lia.
  - unfold efrm_buddy_alloc_special. rewrite En, E. cbn [mbind option_bind].
    destruct Ho as [(-> & Hb1 & Hno)|(Hp & Ha & Hc & Hni & Hnr & Hb1)].
    + destruct (free_rejects_spec n ord A b1 rej Hn Hb1 Hnd) as (b2 & -> & Hb2).
      { intros a Ha. by apply Hrej. }
      cbn [mbind option_bind]. exists b2, (- ENOMEM). split; [done|]. left. split_and!; [done..|].
      intros a Hpa Hacc Hclear. apply (Hno a Hpa). intros o' a' x Hin Hx Hx'.
      apply elem_of_union in Hin as [HA|[-> HR]%elem_of_blocks_at]; [by apply (Hclear o' a' x)|].
      destruct (Hrej a' HR) as (Hacc' & (? & _ & Hal') & _). destruct Hpa as (_ & _ & Hal).
      assert (a = a') as -> by (apply (covers_unique ord); unfold covers in *; done || lia || congruence).
      congruence.
    + destruct (free_rejects_spec n ord (A ∪ {[(ord, r)]}) b1 rej Hn Hb1 Hnd) as (b2 & -> & Hb2).
      { intros a Ha'. destruct (Hrej a Ha') as (_ & _ & HnA).
        intros [?|[= ->]%elem_of_singleton]%elem_of_union; done. }
      cbn [mbind option_bind]. exists b2, r. split; [done|]. right. done.
Qed.
