(* ===== verification/BuddySystem.v ===== *)
(** What clients of the buddy allocators of file Buddy rely on: in every state
    reachable by allocations and releases the blocks handed out are aligned,
    disjoint and in range, a request fails only when no place is left, and a
    range constructor makes exactly its range available. *)

From stdpp Require Import base gmap list relations.
From S2P Require Import Prelude Dllist Tiling Buddy.

Open Scope Z_scope.

Lemma difference_union_one (A : blocks) x : x ∈ A -> A ∖ {[x]} ∪ {[x]} = A.
Proof. intros Hx. apply leibniz_equiv. intros y. destruct (decide (y = x)) as [->|]; set_solver. Qed.

(** * Reachable states *)

(** A client that holds the blocks [A] of the allocator [b]; the blocks [R] are
    never handed out, and orders up to [lim] fit the parameter's type. *)
Section steps.
Context (alloc : allocator -> Z -> option (allocator * Z))
  (free : allocator -> Z -> Z -> option allocator) (lim : Z) (R : blocks).

Inductive bstep : allocator * blocks -> allocator * blocks -> Prop :=
| step_alloc b A o b' r : 0 <= o <= lim -> alloc b o = Some (b', r) -> 0 <= r ->
    bstep (b, A) (b', A ∪ {[(o, r)]})
| step_fail b A o b' r : 0 <= o <= lim -> alloc b o = Some (b', r) -> r < 0 -> bstep (b, A) (b', A)
| step_free b A o a b' : (o, a) ∈ A -> free b a o = Some b' -> bstep (b, A) (b', A ∖ {[(o, a)]}).

(** What holds of a state: the blocks held are places in [0, 2^n) and overlap
    neither each other nor [R]; a request returns, and either takes a place
    clear of all of them or fails, changes nothing, and there is no such place;
    and a block held can be returned. *)
Definition well_behaved (n : Z) (st : allocator * blocks) : Prop :=
  let '(b, A) := st in
  (forall o a, (o, a) ∈ A -> placed n o a /\ clear_of R o a) /\
  (forall o a o' a' x, (o, a) ∈ A -> (o', a') ∈ A -> covers o a x -> covers o' a' x ->
     (o, a) = (o', a')) /\
  (forall o, 0 <= o <= lim -> exists b' r, alloc b o = Some (b', r) /\
     ((r = - ENOMEM /\ b' = b /\ forall a, placed n o a -> ~ clear_of (A ∪ R) o a) \/
      (placed n o r /\ clear_of (A ∪ R) o r))) /\
  (forall o a, (o, a) ∈ A -> exists b', free b a o = Some b').

Context (ops : free_list_ops) (n : Z) (Hn : 0 <= n <= 30)
  (alloc_spec : forall b A o, buddy_inv ops n b A -> 0 <= o <= lim ->
     exists b' r, alloc b o = Some (b', r) /\ alloc_outcome ops n A o b b' r)
  (free_spec : forall b A o a, buddy_inv ops n b (A ∪ {[(o, a)]}) -> (o, a) ∉ A ->
     exists b', free b a o = Some b' /\ buddy_inv ops n b' A).
#[local] Set Default Proof Using "All".

Definition client_inv (st : allocator * blocks) : Prop :=
  st.2 ## R /\ buddy_inv ops n st.1 (st.2 ∪ R).

Lemma free_owned b A o a : client_inv (b, A) -> (o, a) ∈ A ->
  exists b', free b a o = Some b' /\ client_inv (b', A ∖ {[(o, a)]}).
Proof.
  intros [Hd Hb] Ha. cbn in *. destruct (free_spec b (A ∖ {[(o, a)]} ∪ R) o a) as (b' & E & Hb').
  - replace (A ∖ {[(o, a)]} ∪ R ∪ {[(o, a)]}) with (A ∪ R); [done|].
    rewrite <- (difference_union_one A (o, a)) at 1 by done. set_solver.
  - set_solver.
  - exists b'. split; [done|]. split; [set_solver|done].
Qed.

Lemma bstep_inv st st' : bstep st st' -> client_inv st -> client_inv st'.
Proof.
  intros Hs Hc. destruct Hs as [b A o b' r Ho E Hr|b A o b' r Ho E Hr|b A o a b' Ha E].
  - destruct Hc as [Hd Hb]. cbn in *.
    destruct (alloc_spec b _ o Hb Ho) as (b2 & r2 & E2 & [(-> & -> & _)|(_ & _ & Hni & Hb2)]);
      rewrite E in E2; injection E2 as -> ->; [done|]. split; cbn; [set_solver|].
    by replace (A ∪ {[(o, r2)]} ∪ R) with (A ∪ R ∪ {[(o, r2)]}) by set_solver.
  - destruct Hc as [Hd Hb]. cbn in *.
    destruct (alloc_spec b _ o Hb Ho) as (b2 & r2 & E2 & [(-> & -> & _)|(Hp & _)]);
      rewrite E in E2; injection E2 as -> ->; [done|]. destruct Hp as (_ & ? & _). lia.
  - destruct (free_owned b A o a Hc Ha) as (b2 & E2 & Hb2). rewrite E in E2. by injection E2 as ->.
Qed.

Lemma inv_well_behaved b A : client_inv (b, A) -> well_behaved n (b, A).
Proof.
  intros Hc. pose proof Hc as [Hd Hb]. cbn in Hd, Hb. pose proof Hb as [F HF].
  pose proof (bi_tiling _ _ _ _ _ _ HF) as Ht. split_and!.
  - intros o a Ha. split; [apply (t_range _ _ Ht); set_solver|].
    intros o' a' x HR Hx Hx'. destruct (t_disj _ _ Ht o a o' a' x) as [-> ->]; set_solver.
  - intros o a o' a' x Ha Ha' Hx Hx'. destruct (t_disj _ _ Ht o a o' a' x) as [-> ->]; set_solver.
  - intros o Ho. destruct (alloc_spec b _ o Hb Ho) as (b' & r & E & Hr). exists b', r.
    split; [done|]. destruct Hr as [?|(? & ? & _)]; [by left|by right].
  - intros o a Ha. destruct (free_owned b A o a Hc Ha) as (b' & ? & _). by exists b'.
Qed.

Lemma reachable_inv b0 st : buddy_inv ops n b0 R -> rtc bstep (b0, ∅) st -> client_inv st.
Proof.
  intros Hb Hs.
  assert (H0 : client_inv (b0, ∅)) by (split; cbn; [set_solver|by rewrite union_empty_l_L]).
  clear Hb. induction Hs as [|x y z Hxy Hyz IH]; [done|]. apply IH. by apply (bstep_inv x y).
Qed.

Lemma reachable_well_behaved b0 st : buddy_inv ops n b0 R -> rtc bstep (b0, ∅) st ->
  well_behaved n st.
Proof.
  intros Hb Hs. pose proof (reachable_inv b0 st Hb Hs) as Hst. destruct st as [b A].
  by apply inv_well_behaved.
Qed.

End steps.

(** [unsigned order] *)
Definition UINT_MAX := 4294967295.

(** C16: in every state reachable from construction by allocations and releases
    of blocks held, efrm's allocator hands out aligned, pairwise disjoint blocks
    in range, every call returns, and a request fails only when no aligned place
    of that size is clear of the blocks handed out (free buddies are always
    merged). *)
Theorem efrm_buddy_reachable_safe n garbage b0 st :
  0 <= n <= 30 -> efrm_buddy_ctor true true true garbage n = (Some b0, 0) ->
  rtc (bstep efrm_buddy_alloc efrm_buddy_free UINT_MAX) (b0, ∅) st ->
  well_behaved efrm_buddy_alloc efrm_buddy_free UINT_MAX ∅ n st.
Proof.
  intros Hn E Hs. destruct (efrm_ctor_inv garbage n Hn) as (b & E' & Hb). rewrite E in E'.
  injection E' as ->.
  apply (reachable_well_behaved _ _ _ _ efrm_ops n Hn) with (b0 := b); [| |done..].
  - intros * ? [??]. by apply efrm_alloc_spec.
  - intros. by apply efrm_free_spec.
Qed.

(** C21: the same of the citools allocator, whose constructor leaves the links as
    the memory was and whose merges do not mark the links they take off. *)
Theorem ci_buddy_reachable_safe n garbage garbage_links b0 st :
  0 <= n <= 30 -> ci_buddy_ctor2 true true true garbage_links garbage n = (Some b0, 0) ->
  rtc (bstep ci_buddy_alloc ci_buddy_free UINT_MAX) (b0, ∅) st ->
  well_behaved ci_buddy_alloc ci_buddy_free UINT_MAX ∅ n st.
Proof.
  intros Hn E Hs. destruct (ci_ctor_inv garbage garbage_links n Hn) as (b & E' & Hb).
  rewrite E in E'. injection E' as ->.
  apply (reachable_well_behaved _ _ _ _ ci_ops n Hn) with (b0 := b); [| |done..].
  - intros * ? [??]. by apply ci_alloc_spec.
  - intros. by apply ci_free_spec.
Qed.

Definition ex_alloc {S : Type} (f : option (S * Z)) (d : S) : S * Z := default (d, 0) f.

(** The allocator of 8 units after blocks of 2 and 1 are taken and the first is
    returned. *)
Definition ex_b0 : allocator := default (mk_allocator ∅ [] 0) (efrm_buddy_ctor true true true [] 3).1.
Definition ex_b1 : allocator := (ex_alloc (efrm_buddy_alloc ex_b0 1) ex_b0).1.
Definition ex_b2 : allocator := (ex_alloc (efrm_buddy_alloc ex_b1 0) ex_b1).1.
Definition ex_b3 : allocator := default ex_b2 (efrm_buddy_free ex_b2 0 1).

Lemma efrm_buddy_reachable_safe_witness :
  well_behaved efrm_buddy_alloc efrm_buddy_free UINT_MAX ∅ 3 (ex_b3, (∅ ∪ {[(1, 0)]} ∪ {[(0, 2)]}) ∖ {[(1, 0)]}).
Proof.
  apply (efrm_buddy_reachable_safe 3 [] ex_b0); [lia|vm_compute; reflexivity|].
  eapply rtc_l; [eapply (step_alloc _ _ _ ex_b0 ∅ 1 ex_b1 0); [done|vm_compute; reflexivity|lia]|].
  eapply rtc_l; [eapply (step_alloc _ _ _ ex_b1 _ 0 ex_b2 2); [done|vm_compute; reflexivity|lia]|].
  eapply rtc_l; [eapply (step_free _ _ _ ex_b2 _ 1 0 ex_b3); [set_solver|vm_compute; reflexivity]|].
  apply rtc_refl.
Defined.

Definition ex_c0 : allocator := default (mk_allocator ∅ [] 0) (ci_buddy_ctor2 true true true ∅ [] 2).1.
Definition ex_c1 : allocator := (ex_alloc (ci_buddy_alloc ex_c0 0) ex_c0).1.

Lemma ci_buddy_reachable_safe_witness :
  well_behaved ci_buddy_alloc ci_buddy_free UINT_MAX ∅ 2 (ex_c1, ∅ ∪ {[(0, 0)]}).
Proof.
  apply (ci_buddy_reachable_safe 2 [] ∅ ex_c0); [lia|vm_compute; reflexivity|].
  eapply rtc_l; [eapply (step_alloc _ _ _ ex_c0 ∅ 0 ex_c1 0); [done|vm_compute; reflexivity|lia]|].
  apply rtc_refl.
Defined.

(** a region reserved with [ci_buddy_reserve] is not safe from later
    releases: the links of reserved blocks are taken off their lists but not
    marked busy, so when the buddy of a reserved block is returned the two are
    merged, and the reserved units are handed out. *)
Theorem ci_buddy_reserve_not_kept :
  (b ← (ci_buddy_ctor2 true true true ∅ [] 2).1;
   '(b, r1) ← ci_buddy_alloc b 1;
   '(b, r2) ← ci_buddy_alloc b 1;
   b ← ci_buddy_free b r1 1;
   b ← ci_buddy_reserve b 0 2;
   b ← ci_buddy_free b r2 1;
   '(b, r3) ← ci_buddy_alloc b 2;
   Some (r1, r2, r3)) = Some (0, 2, 0).
Proof. vm_compute. reflexivity. Qed.

(** * Ranges *)

Lemma log2_ge_spec fuel m o : 0 <= o -> m <= 2 ^ (o + Z.of_nat fuel) ->
  let r := log2_ge_loop fuel m o in
  o <= r <= o + Z.of_nat fuel /\ m <= 2 ^ r /\ (r = o \/ 2 ^ (r - 1) < m).
Proof.
  revert o. induction fuel as [|fuel IH]; intros o Ho Hm; cbn [log2_ge_loop]; cbv zeta.
  - rewrite Z.add_0_r in Hm. split_and!; [lia..|done|by left].
  - rewrite Z.shiftl_1_l. destruct (Z.ltb_spec (2 ^ o) m) as [Hlt|Hge].
    + destruct (IH (o + 1)) as (Hr & H1 & H2); [lia| |].
      { by replace (o + 1 + Z.of_nat fuel) with (o + Z.of_nat (S fuel)) by lia. }
      split_and!; [lia..|done|]. right. destruct H2 as [->|?]; [|done].
      by replace (o + 1 - 1) with o by lia.
    + split_and!; [lia..|done|by left].
Qed.

(** [fls(m)]: the least order whose block holds [m + 1] units. *)
Lemma fls_spec m k : 0 <= m < 2 ^ k -> 0 <= k <= 63 ->
  0 <= fls m <= k /\ m < 2 ^ fls m /\ (0 < fls m -> 2 ^ (fls m - 1) <= m).
Proof.
  intros Hm Hk. unfold fls, ci_log2_ge.
  assert (2 ^ k <= 2 ^ 64) by (apply Z.pow_le_mono_r; lia).
  assert (Hspec : m + 1 <= 2 ^ (0 + Z.of_nat 64)) by (change (0 + Z.of_nat 64) with 64; lia).
  pose proof (log2_ge_spec 64 (m + 1) 0 ltac:(lia) Hspec) as Hr. clear Hspec. revert Hr. cbv zeta.
  generalize (log2_ge_loop 64 (m + 1) 0) as r. intros r (Hr & H1 & H2). split_and!; [lia| |lia|].
  - destruct (decide (r <= k)) as [|Hgt]; [lia|]. exfalso. destruct H2 as [?|H2]; [lia|].
    assert (2 ^ k <= 2 ^ (r - 1)) by (apply Z.pow_le_mono_r; lia). lia.
  - intros Hpos. destruct H2; lia.
Qed.

Section range.
Context (n : Z) (Hn : 0 <= n <= 30).

Definition unit_blocks (p : Z -> bool) : blocks :=
  blocks_at 0 (filter (fun x => p x = true) (seqZ 0 (2 ^ n))).

Lemma elem_of_unit_blocks p o a :
  (o, a) ∈ unit_blocks p <-> o = 0 /\ 0 <= a < 2 ^ n /\ p a = true.
Proof.
  unfold unit_blocks. rewrite elem_of_blocks_at, list_elem_of_filter, elem_of_seqZ.
  rewrite Z.add_0_l. tauto.
Qed.

Lemma size_unit_blocks : size (unit_blocks (fun _ => true)) = Z.to_nat (2 ^ n).
Proof.
  unfold unit_blocks, blocks_at. rewrite size_list_to_set.
  - rewrite length_fmap. replace (filter _ _) with (seqZ 0 (2 ^ n)); [by rewrite length_seqZ|].
    generalize (seqZ 0 (2 ^ n)) as l. intros l. induction l as [|x l IH]; [done|].
    rewrite filter_cons_True by done. by rewrite <- IH.
  - apply NoDup_fmap_2; [by intros ?? [=]|]. apply NoDup_filter, NoDup_seqZ.
Qed.

(** Two blocks of one unit that meet are the same. *)
Lemma covers_unit a x : covers 0 a x -> x = a.
Proof. unfold covers. change (2 ^ 0) with 1. by rewrite !Z.div_1_r. Qed.

Lemma alloc_units_spec k b A :
  buddy_inv efrm_ops n b A -> (forall o a, (o, a) ∈ A -> o = 0) ->
  (k + size A)%nat = Z.to_nat (2 ^ n) ->
  exists b', alloc_units k b = Some b' /\ buddy_inv efrm_ops n b' (unit_blocks (fun _ => true)).
Proof.
  revert b A. induction k as [|k IH]; intros b A Hb HA Hsz; cbn [alloc_units].
  - exists b. split; [done|]. assert (HAU : A ⊆ unit_blocks (fun _ => true)).
    { intros [o a] Ha. pose proof Hb as [F HF].
      destruct (t_range _ _ (bi_tiling _ _ _ _ _ _ HF) o a) as (_ & Har & _); [set_solver|].
      apply elem_of_unit_blocks. split_and!; [by apply (HA o a)|lia..|done]. }
    assert (A = unit_blocks (fun _ => true)) as <-; [|done].
    apply leibniz_equiv. apply set_subseteq_size_equiv; [done|]. rewrite size_unit_blocks. lia.
  - destruct (efrm_alloc_spec n b A 0 Hn Hb) as (b' & r & E & Ho); [lia|]. rewrite E.
    cbn [mbind option_bind]. destruct Ho as [(_ & _ & Hno)|(Hp & _ & Hni & Hb')].
    + exfalso. assert (HUA : unit_blocks (fun _ => true) ⊆ A).
      { intros [o a] Ha. apply elem_of_unit_blocks in Ha as (-> & Ha & _).
        destruct (decide ((0, a) ∈ A)) as [|Hna]; [done|]. exfalso. apply (Hno a).
        - split_and!; [lia..|]. unfold aligned. apply Z.mod_1_r.
        - intros o' a' x Hin Hx Hx'. assert (o' = 0) as -> by (by apply (HA o' a')).
          apply covers_unit in Hx, Hx'. subst. done. }
      apply subseteq_size in HUA. rewrite size_unit_blocks in HUA. lia.
    + apply (IH b' (A ∪ {[(0, r)]})); [done| |].
      * intros o a [?|[= -> ->]%elem_of_singleton]%elem_of_union; [by apply (HA o a)|done].
      * rewrite size_union by set_solver. rewrite size_singleton. lia.
Qed.

Lemma free_units_spec k i p b :
  buddy_inv efrm_ops n b (unit_blocks p) -> 0 <= i -> i + Z.of_nat k <= 2 ^ n ->
  (forall x, i <= x < i + Z.of_nat k -> p x = true) ->
  exists b', free_units k i b = Some b' /\
    buddy_inv efrm_ops n b' (unit_blocks (fun x => p x && negb ((i <=? x) && (x <? i + Z.of_nat k)))).
Proof.
  revert i p b. induction k as [|k IH]; intros i p b Hb Hi Hik Hp; cbn [free_units].
  - exists b. split; [done|].
    replace (unit_blocks _) with (unit_blocks p); [done|].
    apply leibniz_equiv. intros [o a]. rewrite !elem_of_unit_blocks.
    destruct (Z.leb_spec i a), (Z.ltb_spec a (i + Z.of_nat 0)); try lia;
      cbn [andb negb]; rewrite ?andb_true_r; done.
  - set (p' := fun x => p x && negb (x =? i)).
    assert (E : unit_blocks p = unit_blocks p' ∪ {[(0, i)]}).
    { apply leibniz_equiv. intros [o a]. rewrite elem_of_union, elem_of_singleton, !elem_of_unit_blocks.
      unfold p'. pose proof (Hp i ltac:(lia)). destruct (Z.eqb_spec a i) as [->|].
      - rewrite andb_false_r. naive_solver lia.
      - rewrite andb_true_r. naive_solver. }
    rewrite E in Hb. destruct (efrm_free_spec n b (unit_blocks p') 0 i Hn Hb) as (b' & -> & Hb').
    { rewrite elem_of_unit_blocks. unfold p'. rewrite Z.eqb_refl, andb_false_r. by intros (_ & _ & ?). }
    cbn [mbind option_bind]. destruct (IH (i + 1) p' b') as (b2 & -> & Hb2); [done|lia|lia| |].
    + intros x Hx. unfold p'. rewrite Hp by lia. destruct (Z.eqb_spec x i); [lia|done].
    + exists b2. split; [done|].
      replace (unit_blocks _) with
        (unit_blocks (fun x => p' x && negb ((i + 1 <=? x) && (x <? i + 1 + Z.of_nat k)))); [done|].
      apply leibniz_equiv. intros [o a]. rewrite !elem_of_unit_blocks. unfold p'.
      destruct (p a), (Z.eqb_spec a i), (Z.leb_spec (i + 1) a), (Z.ltb_spec a (i + 1 + Z.of_nat k)),
        (Z.leb_spec i a), (Z.ltb_spec a (i + Z.of_nat (S k))); cbn; try lia; done.
Qed.

End range.

(** The units that a range constructor leaves allocated for good. *)
Definition outside (n low high : Z) : blocks :=
  unit_blocks n (fun x => negb ((low <=? x) && (x <? high))).

Lemma elem_of_outside n low high o x : 0 <= n <= 30 ->
  (o, x) ∈ outside n low high <-> o = 0 /\ 0 <= x < 2 ^ n /\ ~ (low <= x < high).
Proof.
  intros Hn. unfold outside. rewrite (elem_of_unit_blocks n Hn).
  destruct (Z.leb_spec low x), (Z.ltb_spec x high); cbn;
    (split; intros (? & ? & ?); split_and!; first [done|lia|exfalso; lia]).
Qed.

Lemma range_order low high : 0 <= low <= high -> 1 <= high <= 2 ^ 30 ->
  0 <= fls (high - 1) <= 30 /\ high <= 2 ^ fls (high - 1) /\ (1 < high -> 2 ^ fls (high - 1) < 2 * high).
Proof.
  intros Hlow Hhigh. destruct (fls_spec (high - 1) 30) as (Hf & Hf1 & Hf2); [lia..|].
  revert Hf Hf1 Hf2. generalize (fls (high - 1)) as n. intros n Hf Hf1 Hf2. split_and!; [lia..|].
  intros Hh. assert (0 < n) by (destruct (decide (n = 0)) as [E|]; [rewrite E in Hf1; cbn in Hf1; lia|lia]).
  replace n with (n - 1 + 1) by lia. rewrite pow2_succ by lia. specialize (Hf2 ltac:(lia)). lia.
Qed.

Lemma range_ctor_inv garbage low high : 0 <= low <= high -> 1 <= high <= 2 ^ 30 ->
  let n := fls (high - 1) in
  exists b, efrm_buddy_range_ctor true true true garbage low high = Some (Some b, 0) /\
    buddy_inv efrm_ops n b (outside n low high).
Proof.
  intros Hlow Hhigh n. destruct (range_order low high Hlow Hhigh) as (Hf & Hf1 & _). fold n in Hf, Hf1.
  unfold efrm_buddy_range_ctor. fold n. clearbody n.
  destruct (efrm_ctor_inv garbage n Hf) as (b0 & -> & Hb0). rewrite Z.shiftl_1_l.
  destruct (alloc_units_spec n Hf (Z.to_nat (2 ^ n)) b0 ∅) as (b1 & -> & Hb1);
    [done|set_solver|rewrite size_empty; lia|]. cbn [mbind option_bind].
  destruct (free_units_spec n Hf (Z.to_nat (high - low)) low (fun _ => true) b1)
    as (b2 & -> & Hb2); [done|lia|lia|done|]. cbn [mbind option_bind].
  exists b2. split; [done|]. unfold outside. cbn [andb] in Hb2.
  by replace (low + Z.of_nat (Z.to_nat (high - low))) with high in Hb2 by lia.
Qed.

(** the range constructor builds an allocator of the smallest power of two
    that holds [high] units in which exactly the units of [low, high) can be
    had: all others stay allocated and are never handed out, and from there every
    reachable state is well behaved.  When an allocation of memory fails it fails with [-ENOMEM]. *)
Theorem efrm_buddy_range_ctor_exact m1 m2 m3 garbage low high :
  0 <= low <= high -> 1 <= high <= 2 ^ 30 ->
  let n := fls (high - 1) in
  if m1 && m2 && m3 then
    exists b R, efrm_buddy_range_ctor m1 m2 m3 garbage low high = Some (Some b, 0) /\
      high <= 2 ^ n /\ (1 < high -> 2 ^ n < 2 * high) /\
      (forall o x, (o, x) ∈ R <-> o = 0 /\ 0 <= x < 2 ^ n /\ ~ (low <= x < high)) /\
      forall st, rtc (bstep efrm_buddy_alloc efrm_buddy_free UINT_MAX) (b, ∅) st ->
        well_behaved efrm_buddy_alloc efrm_buddy_free UINT_MAX R n st
  else efrm_buddy_range_ctor m1 m2 m3 garbage low high = Some (None, - ENOMEM).
Proof.
  intros Hlow Hhigh n. destruct (range_order low high Hlow Hhigh) as (Hf & Hf1 & Hf2).
  destruct (range_ctor_inv garbage low high Hlow Hhigh) as (b & E & Hb).
  fold n in Hf, Hf1, Hf2, Hb. destruct m1, m2, m3; try done. cbn [andb].
  exists b, (outside n low high). split_and!; [done..| |].
  - intros o x. by apply elem_of_outside.
  - intros st Hs. apply (reachable_well_behaved _ _ _ _ efrm_ops n Hf) with (b0 := b); [| |done..].
    + intros * ? [??]. by apply efrm_alloc_spec.
    + intros. by apply efrm_free_spec.
Qed.

Lemma efrm_buddy_range_ctor_exact_witness :
  exists b R, efrm_buddy_range_ctor true true true [] 3 6 = Some (Some b, 0) /\
    (0, 4) ∉ R /\ (0, 7) ∈ R /\ well_behaved efrm_buddy_alloc efrm_buddy_free UINT_MAX R 3 (b, ∅).
Proof.
  destruct (efrm_buddy_range_ctor_exact true true true [] 3 6) as (b & A & E & _ & _ & HA & Hs); [lia..|].
  change (fls (6 - 1)) with 3 in *.
  exists b, A. split_and!; [exact E|rewrite HA; lia|rewrite HA; lia|]. apply Hs, rtc_refl.
Defined.

(** an allocation subject to the caller's approval returns: either a place
    that was clear, approved by the caller, or [-ENOMEM], and then every place
    that is clear is one the caller rejects; the blocks rejected on the way are
    all given back. *)
Theorem efrm_alloc_special_complete n b A ord accept :
  0 <= n <= 30 -> buddy_inv efrm_ops n b A -> 0 <= ord ->
  exists b' r, efrm_buddy_alloc_special b ord accept = Some (b', r) /\
    ((r = - ENOMEM /\ buddy_inv efrm_ops n b' A /\
      (forall a, placed n ord a -> accept a = true -> ~ clear_of A ord a)) \/
     (placed n ord r /\ accept r = true /\ clear_of A ord r /\
      buddy_inv efrm_ops n b' (A ∪ {[(ord, r)]}))).
Proof.
  intros Hn Hb Ho. destruct (efrm_special_spec n b A ord accept Hn Hb Ho) as (b' & r & E & Hr).
  exists b', r. split; [done|]. destruct Hr as [?|(? & ? & ? & _ & ?)]; [by left|by right].
Qed.

Lemma efrm_alloc_special_complete_witness :
  exists b', efrm_buddy_alloc_special ex_b0 1 (fun a => a =? 4) = Some (b', 4) /\
    buddy_inv efrm_ops 3 b' (∅ ∪ {[(1, 4)]}).
Proof.
  destruct (efrm_ctor_inv [] 3) as (b & E & Hb); [lia|].
  assert (b = ex_b0) as -> by (unfold ex_b0; rewrite E; reflexivity).
  destruct (efrm_alloc_special_complete 3 ex_b0 ∅ 1 (fun a => a =? 4)) as (b' & r & E' & Hr);
    [lia|done|lia|].
  assert (Er : r = 4).
  { assert (option_map snd (efrm_buddy_alloc_special ex_b0 1 (fun a => a =? 4)) = Some 4)
      as E4 by (vm_compute; reflexivity). rewrite E' in E4. by injection E4. }
  subst r. exists b'. split; [exact E'|]. destruct Hr as [(Hr & _)|(_ & _ & _ & Hb')].
  - exfalso. clear -Hr. unfold ENOMEM in Hr. lia.
  - exact Hb'.
Defined.

(** * The PIO region *)

Lemma oo_init_ci h p y :
  lnext NULL (oo_p_dllink_init NULL p h) y = lnext NULL (ci_dllist_init NULL p h) y /\
  lprev NULL (oo_p_dllink_init NULL p h) y = lprev NULL (ci_dllist_init NULL p h) y.
Proof. unfold oo_p_dllink_init, ci_dllist_init. split; heap_solve. Qed.

Lemma pio_init_lists_ready k o h :
  0 <= o -> heads_ready o h -> heads_ready (o + Z.of_nat k) (pio_init_lists k o h).
Proof.
  revert o h. induction k as [|k IH]; intros o h Ho Hr; cbn [pio_init_lists].
  - by rewrite Z.add_0_r.
  - replace (o + Z.of_nat (S k)) with (o + 1 + Z.of_nat k) by lia. apply IH; [lia|].
    destruct (heads_ready_step o h Ho Hr) as (L & Hd & HL). exists L. split; [|done].
    apply (dlls_ext NULL (ci_dllist_init NULL (FL o) h)); [|done]. intros y. apply oo_init_ci.
Qed.

Lemma pio_init_links_ready k a o h : heads_ready o h -> heads_ready o (pio_init_links k a h).
Proof.
  revert a h. induction k as [|k IH]; intros a h Hr; cbn [pio_init_links]; [done|]. apply IH.
  destruct Hr as (L & [Hd Hx] & H1 & H2). exists L. split_and!; [|done..]. split; [|done].
  intros p l Hp. apply (dll_frame NULL h); [|by apply Hd]. intros y Hy.
  assert (y <> LINK a).
  { intros ->. by apply (heads_fresh o L (LINK a) H1 H2 ltac:(done) p l Hp). }
  unfold oo_p_dllink_init. split; heap_solve.
Qed.

Lemma pio_init_links_self k a h c : a <= c < a + Z.of_nat k ->
  lnext NULL (pio_init_links k a h) (LINK c) = LINK c.
Proof.
  assert (Hout : forall k a h c, c < a -> lnext NULL (pio_init_links k a h) (LINK c) = lnext NULL h (LINK c)).
  { clear. induction k as [|k IH]; intros a h c Hc; [done|]. cbn [pio_init_links].
    rewrite IH by lia. unfold oo_p_dllink_init. rewrite lnext_set_next, decide_False, lnext_set_prev; [done|].
    intros [= ->]. lia. }
  revert a h. induction k as [|k IH]; intros a h Hc; [lia|]. cbn [pio_init_links].
  destruct (decide (c = a)) as [->|]; [|apply IH; lia]. rewrite Hout by lia.
  unfold oo_p_dllink_init. rewrite lnext_set_next, lprev_set_prev. by rewrite !decide_True.
Qed.

(** The blocks beyond a region of order [m], never handed out. *)
Fixpoint beyond (k : nat) (m : Z) : blocks :=
  match k with O => ∅ | S k => {[(m, 2 ^ m)]} ∪ beyond k (m + 1) end.

Lemma elem_of_beyond k m o a : (o, a) ∈ beyond k m <-> m <= o < m + Z.of_nat k /\ a = 2 ^ o.
Proof.
  revert m. induction k as [|k IH]; intros m; cbn [beyond].
  - split; [set_solver|lia].
  - rewrite elem_of_union, elem_of_singleton, IH. split.
    + intros [[= -> ->]|[? ->]]; split; done || lia.
    + intros [? ->]. destruct (decide (o = m)) as [->|]; [by left|right; split; [lia|done]].
Qed.

Lemma tiling_beyond n k m : 0 <= m -> m + Z.of_nat k = n -> tiling n (beyond k m ∪ {[(m, 0)]}).
Proof.
  revert m. induction k as [|k IH]; intros m Hm E; cbn [beyond].
  - assert (m = n) as -> by lia. rewrite union_empty_l_L. apply tiling_whole. lia.
  - pose proof (IH (m + 1) ltac:(lia) ltac:(lia)) as Ht.
    assert (Hni : (m + 1, 0) ∉ beyond k (m + 1)).
    { rewrite elem_of_beyond. intros [_ E0]. pose proof (pow2_pos (m + 1) ltac:(lia)). lia. }
    destruct (tiling_split n (beyond k (m + 1)) m 0 Hm Ht Hni) as (Ht' & _).
    rewrite Z.add_0_l in Ht'.
    by replace ({[(m, 2 ^ m)]} ∪ beyond k (m + 1) ∪ {[(m, 0)]})
      with (beyond k (m + 1) ∪ {[(m, 0); (m, 2 ^ m)]}) by set_solver.
Qed.

(** The region of [2^m] blocks of 128 bytes that a constructor call with a
    region of [2^(m + 7)] bytes sets up. *)
Lemma pio_ctor_inv h ords m : 0 <= m <= 5 -> length ords = 32%nat ->
  exists b, ci_pio_buddy_ctor h ords (2 ^ (m + 7)) = mk_pio b 1 /\
    buddy_inv pio_ops 5 b (beyond (Z.to_nat (5 - m)) m).
Proof.
  intros Hm Hlen. eexists. split; [reflexivity|].
  assert (Em : u8 (ci_log2_le (2 ^ (m + 7)) - CI_CFG_MIN_PIO_BLOCK_ORDER) = m).
  { assert (m = 0 \/ m = 1 \/ m = 2 \/ m = 3 \/ m = 4 \/ m = 5) as Hc by lia.
    destruct Hc as [->|[->|[->|[->|[->| ->]]]]]; reflexivity. }
  rewrite Em. exists (∅ ∪ {[(m, 0)]}).
  apply binv_push; [apply _|lia| |apply not_elem_of_empty|set_solver].
  rewrite union_empty_l_L.
  assert (Hready : heads_ready 6 (pio_init_links 32 0 (pio_init_lists 6 0 h))).
  { apply pio_init_links_ready. apply (pio_init_lists_ready 6 0 h); [lia|]. apply heads_ready_0. }
  apply binv_fresh; cbn [order links orders]; [lia|done| | | | |].
  - by apply (heads_ready_rep 5).
  - by rewrite Hlen.
  - apply disjoint_singleton_r. rewrite elem_of_beyond. intros [_ E].
    pose proof (pow2_pos m ltac:(lia)). lia.
  - apply tiling_beyond; lia.
  - intros o a [Ho ->]%elem_of_beyond. cbn [fl_linked pio_ops].
    unfold ci_pio_buddy_addr_in_free_list, oo_p_dllink_is_empty.
    apply negb_false_iff, bool_decide_eq_true_2. apply (pio_init_links_self 32).
    pose proof (pow2_pos o ltac:(lia)). assert (2 ^ o <= 2 ^ 4) by (apply Z.pow_le_mono_r; lia). lia.
Qed.

(** Recording the order of a block held does not disturb the allocator. *)
Lemma binv_set_order ops n b F A o a v :
  binv ops n b F A ∅ -> (o, a) ∈ A -> binv ops n (b <| orders ::= fun l => aset l a v |>) F A ∅.
Proof.
  intros Hb Ha. pose proof (bi_tiling _ _ _ _ _ _ Hb) as Ht.
  destruct (bi_disj _ _ _ _ _ _ Hb) as (Hd & _). constructor; try apply Hb.
  - cbn. rewrite length_aset. apply Hb.
  - intros o' c Hc. cbn.
    destruct (t_range _ _ Ht o' c) as (_ & ? & _); [set_solver|].
    destruct (t_range _ _ Ht o a) as (_ & ? & _); [set_solver|].
    rewrite aget_aset_ne; [by apply (bi_orders _ _ _ _ _ _ Hb)|lia..|]. intros ->.
    destruct (t_disj _ _ Ht o c o' c c) as [-> _]; set_solver.
Qed.

(** Blocks of [2^o] units of 128 bytes, at their unit address; an offset that is
    not a whole number of units would not be a result. *)
Definition pio_alloc_units (b : allocator) (o : Z) : option (allocator * Z) :=
  '(b', off) ← ci_pio_buddy_alloc (mk_pio b 1) (o + CI_CFG_MIN_PIO_BLOCK_ORDER);
  if off <? 0 then Some (pio_b b', off)
  else if off `mod` 128 =? 0 then Some (pio_b b', off / 128) else None.
Definition pio_free_units (b : allocator) (a o : Z) : option allocator :=
  b' ← ci_pio_buddy_free (mk_pio b 1) (a * 128) (o + CI_CFG_MIN_PIO_BLOCK_ORDER);
  Some (pio_b b').

Lemma pio_alloc_spec b A o : buddy_inv pio_ops 5 b A -> 0 <= o <= 255 ->
  exists b' r, alloc_outcome pio_ops 5 A o b b' r /\
    forall ord, u8 (ord - CI_CFG_MIN_PIO_BLOCK_ORDER) = o ->
      ci_pio_buddy_alloc (mk_pio b 1) ord = Some (mk_pio b' 1, if r <? 0 then r else 128 * r).
Proof.
  intros [F Hb] Ho. assert (Hn : 0 <= 5 <= 30) by lia.
  destruct (alloc_loops pio_ops 5 Hn b F A o Hb) as (s & Es & Hs); [lia|].
  unfold ci_pio_buddy_alloc. cbn [nz initialised pio_b]. change CI_PIO_BUDDY_MAX_ORDER with 5.
  destruct (5 <? s) eqn:E5.
  { exists b, (- ENOMEM). split; [by left|]. intros ord ->. cbn [nz Z.eqb negb].
    rewrite Es. cbn [mbind option_bind]. by rewrite E5. }
  destruct Hs as (b' & F' & Esp & Hb' & Hl & Hhd). cbn [fl_pop pio_ops] in Esp, Hb', Hl, Hhd.
  assert (Ep : (ci_pio_buddy_free_list_pop s (links b)).2 =
    oo_p_dllink_del_init NULL (lnext NULL (links b) (FL s)) (links b)) by reflexivity.
  destruct (ci_pio_buddy_free_list_pop s (links b)) as [addr h] eqn:Epop. cbn [fst snd] in *.
  destruct (hand_placed pio_ops 5 Hn b' F' A o addr Hb') as (Hp & Hc & Hni).
  exists (b' <| orders ::= fun l => aset l addr (u8 o) |>), addr. split.
  - right. split_and!; [done..|]. exists F'. 
    apply (binv_set_order pio_ops 5 b' F' (A ∪ {[(o, addr)]}) o);
      [|by apply elem_of_union_r, elem_of_singleton].
    apply binv_take; [apply _|exact Hn|exact Hb'|]. rewrite Hl, Ep, Hhd.
    cbn [fl_linked pio_ops]. unfold ci_pio_buddy_addr_in_free_list, oo_p_dllink_is_empty.
    apply negb_false_iff, bool_decide_eq_true_2.
    unfold oo_p_dllink_del_init, oo_p_dllink_init. rewrite lnext_set_next, lprev_set_prev.
    by rewrite !decide_True.
  - intros ord ->. cbn [nz Z.eqb negb]. rewrite Es. cbn [mbind option_bind]. rewrite E5, Epop, Esp.
    cbn [mbind option_bind]. destruct Hp as (_ & Ha & _). change (2 ^ 5) with 32 in Ha.
    change (Z.shiftl 1 CI_CFG_MIN_PIO_BLOCK_ORDER) with 128.
    rewrite u32_small, s32_small by lia. destruct (Z.ltb_spec addr 0); [lia|].
    by rewrite (Z.mul_comm addr).
Qed.

Lemma pio_free_spec b A o a : buddy_inv pio_ops 5 b (A ∪ {[(o, a)]}) -> (o, a) ∉ A ->
  exists b', ci_pio_buddy_free (mk_pio b 1) (128 * a) (o + CI_CFG_MIN_PIO_BLOCK_ORDER) = Some (mk_pio b' 1) /\
    buddy_inv pio_ops 5 b' A.
Proof.
  intros [F Hb] Ha. assert (Hn : 0 <= 5 <= 30) by lia.
  destruct (t_range _ _ (bi_tiling _ _ _ _ _ _ Hb) o a) as (Ho & Har & _); [set_solver|].
  change (2 ^ 5) with 32 in Har.
  destruct (free_loops pio_ops 5 Hn b F A o a Hb Ha) as (b' & o' & a' & E & F' & Hb').
  unfold ci_pio_buddy_free. cbn [pio_b initialised].
  change (Z.shiftl 1 CI_CFG_MIN_PIO_BLOCK_ORDER) with 128. change CI_PIO_BUDDY_MAX_ORDER with 5.
  replace (u32 (128 * a) / 128) with a by (rewrite u32_small by lia; Z.div_mod_to_equations; lia).
  replace (u8 (o + CI_CFG_MIN_PIO_BLOCK_ORDER - CI_CFG_MIN_PIO_BLOCK_ORDER)) with o
    by (rewrite u8_small; unfold CI_CFG_MIN_PIO_BLOCK_ORDER; lia).
  rewrite E. cbn [mbind option_bind]. eexists. split; [done|]. by exists F'.
Qed.

Lemma pio_alloc_units_spec b A o : buddy_inv pio_ops 5 b A -> 0 <= o <= 248 ->
  exists b' r, pio_alloc_units b o = Some (b', r) /\ alloc_outcome pio_ops 5 A o b b' r.
Proof.
  intros Hb Ho. destruct (pio_alloc_spec b A o Hb) as (b' & r & Hr & E); [lia|].
  exists b', r. split; [|done]. unfold pio_alloc_units.
  rewrite E by (rewrite u8_small; unfold CI_CFG_MIN_PIO_BLOCK_ORDER; lia).
  cbn [mbind option_bind pio_b]. destruct (Z.ltb_spec r 0) as [Hneg|Hpos].
  - by destruct (Z.ltb_spec r 0); [|lia].
  - destruct (Z.ltb_spec (128 * r) 0); [lia|].
    by rewrite (Z.mul_comm 128), Z_mod_mult, Z.eqb_refl, Z.div_mul.
Qed.

Lemma pio_free_units_spec b A o a : buddy_inv pio_ops 5 b (A ∪ {[(o, a)]}) -> (o, a) ∉ A ->
  exists b', pio_free_units b a o = Some b' /\ buddy_inv pio_ops 5 b' A.
Proof.
  intros Hb Ha. destruct (pio_free_spec b A o a Hb Ha) as (b' & E & Hb'). exists b'. split; [|done].
  unfold pio_free_units. rewrite (Z.mul_comm a), E. done.
Qed.

(** A place clear of what lies beyond the region is inside it. *)
Lemma inside_region m o a : 0 <= m <= 5 -> placed 5 o a ->
  clear_of (beyond (Z.to_nat (5 - m)) m) o a -> a + 2 ^ o <= 2 ^ m.
Proof.
  intros Hm ([Ho Ho5] & Ha & Hal) Hc. pose proof (pow2_pos m ltac:(lia)). pose proof (pow2_pos o Ho).
  destruct (decide (2 ^ m <= a)) as [Hge|Hlt].
  - exfalso. pose proof (Z.log2_spec a ltac:(lia)) as Hl. set (j := Z.log2 a) in *.
    assert (Hj0 : 0 <= j) by apply Z.log2_nonneg.
    assert (Hj : m <= j < 5).
    { split; [by apply Z.log2_le_pow2; lia|]. apply Z.log2_lt_pow2; lia. }
    apply (Hc j (2 ^ j) a); [apply elem_of_beyond; split; [lia|done]|done|].
    unfold covers. rewrite Z.div_same by (pose proof (pow2_pos j Hj0); lia).
    rewrite Z.pow_succ_r in Hl by lia. symmetry. apply (Z.div_unique _ _ 1 (a - 2 ^ j)); lia.
  - pose proof (aligned_div o a Ho Hal) as Ek. revert Ek. generalize (a / 2 ^ o) as k. intros k Ek.
    destruct (decide (o <= m)) as [Hle|Hgt].
    + assert (Em : 2 ^ m = 2 ^ o * 2 ^ (m - o)) by (rewrite <- Z.pow_add_r by lia; f_equal; lia).
      assert (k < 2 ^ (m - o)) by nia. nia.
    + exfalso. assert (2 ^ m < 2 ^ o) by (apply Z.pow_lt_mono_r; lia).
      assert (k < 1) by nia. assert (0 <= k) by nia. assert (a = 0) as -> by nia.
      apply (Hc m (2 ^ m) (2 ^ m)); [apply elem_of_beyond; split; [lia|done]| |done].
      unfold covers. rewrite Z.div_0_l by lia. apply Z.div_small. lia.
Qed.

(** C20: the PIO allocator of a region of [2^m] blocks of 128 bytes, whatever the
    shared memory held before, hands out 128-byte multiples that are aligned to
    their size, inside the region and pairwise disjoint, although its tables are
    those of the largest region; every call returns; a request fails only when
    the region has no clear place; and an order below that of a block, which
    wraps around in its byte, is refused. *)
Theorem pio_buddy_region_safe h ords m st :
  0 <= m <= 5 -> length ords = 32%nat ->
  rtc (bstep pio_alloc_units pio_free_units 248)
    (pio_b (ci_pio_buddy_ctor h ords (2 ^ (m + 7))), ∅) st ->
  well_behaved pio_alloc_units pio_free_units 248 (beyond (Z.to_nat (5 - m)) m) 5 st /\
  (forall o a, (o, a) ∈ st.2 -> 0 <= a /\ 128 * a + 2 ^ (o + 7) <= 2 ^ (m + 7)) /\
  (forall ord, 0 <= ord < CI_CFG_MIN_PIO_BLOCK_ORDER ->
     ci_pio_buddy_alloc (mk_pio st.1 1) ord = Some (mk_pio st.1 1, - ENOMEM)).
Proof.
  intros Hm Hlen Hs. destruct (pio_ctor_inv h ords m Hm Hlen) as (b & E & Hb). rewrite E in Hs.
  assert (Hn : 0 <= 5 <= 30) by lia. cbn [pio_b] in Hs.
  assert (Hc : client_inv (beyond (Z.to_nat (5 - m)) m) pio_ops 5 st).
  { apply (reachable_inv pio_alloc_units pio_free_units 248) with (b0 := b); [done| | |done..].
    - apply pio_alloc_units_spec. - apply pio_free_units_spec. }
  assert (Hw : well_behaved pio_alloc_units pio_free_units 248 (beyond (Z.to_nat (5 - m)) m) 5 st).
  { destruct st as [b' A]. apply (inv_well_behaved _ _ _ _ pio_ops); [done| | |done].
    - apply pio_alloc_units_spec. - apply pio_free_units_spec. }
  split_and!; [done| |].
  - intros o a Ha. destruct st as [b' A]. destruct Hw as (Hp & _). destruct (Hp o a Ha) as [Hpa Hca].
    pose proof (inside_region m o a Hm Hpa Hca). destruct Hpa as ([? ?] & ? & _).
    rewrite !Z.pow_add_r by lia. lia.
  - intros ord Hord. unfold CI_CFG_MIN_PIO_BLOCK_ORDER in Hord.
    assert (E8 : u8 (ord - CI_CFG_MIN_PIO_BLOCK_ORDER) = ord + 249).
    { unfold u8, CI_CFG_MIN_PIO_BLOCK_ORDER. symmetry. apply (Z.mod_unique _ _ (-1)); lia. }
    destruct Hc as [_ Hc]. destruct (pio_alloc_spec st.1 _ (ord + 249) Hc) as (b' & r & Hr & Er); [lia|].
    rewrite (Er ord E8). destruct Hr as [(-> & -> & _)|(Hp & _)]; [done|]. destruct Hp as (? & _). lia.
Qed.

Definition ex_p0 : allocator := pio_b (ci_pio_buddy_ctor ∅ (replicate 32 0) (2 ^ (4 + 7))).
Definition ex_p1 : allocator := (ex_alloc (pio_alloc_units ex_p0 2) ex_p0).1.

Lemma pio_buddy_region_safe_witness :
  well_behaved pio_alloc_units pio_free_units 248 (beyond (Z.to_nat (5 - 4)) 4) 5 (ex_p1, ∅ ∪ {[(2, 0)]}).
Proof.
  destruct (pio_buddy_region_safe ∅ (replicate 32 0) 4 (ex_p1, ∅ ∪ {[(2, 0)]})) as (Hw & _).
  - lia.
  - reflexivity.
  - eapply rtc_l; [eapply (step_alloc _ _ _ ex_p0 ∅ 2 ex_p1 0); [done|vm_compute; reflexivity|lia]|].
    apply rtc_refl.
  - exact Hw.
Defined.
