(* ===== verification/ViAlloc.v ===== *)
(** The allocation of VI instances, lib/efrm/vi_allocator.c, on top of efrm's
    buddy allocator (files Buddy and BuddySystem).

    A NIC has up to two ranges of VI instances, one allocator each; a VI set is
    an aligned block of instances that satisfies the caller's constraints on
    wakeup channel and on RSS.  [vstep] is the step relation of the calls made
    under [efrm_nic->lock]; the theorems say that the sets held of one allocator,
    and of both when their ranges are apart, never overlap and never leave their range, that a call fails exactly when the request
    cannot be met, and when the queue RSS picks stays inside the set. *)

From stdpp Require Import base gmap list.
From S2P Require Import Prelude Tiling Buddy BuddySystem.

Open Scope Z_scope.

(** * Data *)

(** [enum efhw_arch] *)
Definition EFHW_ARCH_FALCON := 0.
Definition EFHW_ARCH_EF10 := 1.

(** [enum efrm_vi_props] *)
Definition vi_with_interrupt := 1.
Definition vi_with_timer := 2.

Definition ALLOCATOR_INITIALISED := 2147483648.

(** [struct efrm_vi_allocator]; [instances] is [None] when the buddy allocator
    is not constructed. *)
Record efrm_vi_allocator := mk_va { props : Z; instances : option allocator }.

#[global] Instance efrm_vi_allocator_eta : Eta efrm_vi_allocator.
Proof. refine {| eta := fun r => mk_va (props r) (instances r) |}. solve_eta. Defined.

(** The fields of [struct efrm_nic] the allocation of VIs uses. *)
Record efrm_nic := mk_nic {
  arch : Z;
  vi_allocators : list efrm_vi_allocator;
  falcon_wakeup_mask : Z;
  rss_channel_count : Z }.

#[global] Instance efrm_nic_eta : Eta efrm_nic.
Proof.
  refine {| eta := fun r => mk_nic (arch r) (vi_allocators r) (falcon_wakeup_mask r)
                              (rss_channel_count r) |}. solve_eta.
Defined.

(** [struct vi_resource_dimensions], the ranges of instances. *)
Record vi_resource_dimensions := mk_dims {
  evq_int_min : Z; evq_int_lim : Z;
  evq_timer_min : Z; evq_timer_lim : Z;
  rxq_min : Z; rxq_lim : Z;
  txq_min : Z; txq_lim : Z;
  vi_min : Z; vi_lim : Z }.

Record efrm_vi_allocation := mk_set { instance : Z; set_order : Z; allocator_id : Z }.

(** * Operations *)

Definition efrm_buddy_dtor (va : efrm_vi_allocator) : efrm_vi_allocator := va <| instances := None |>.

Definition efrm_vi_allocator_dtor (nic : efrm_nic) : efrm_nic :=
  nic <| vi_allocators ::= fmap (fun va =>
    if negb (props va =? 0) then efrm_buddy_dtor (va <| props := 0 |>) else va) |>.

(** The ranges [timer_min, timer_lim, int_min, int_lim] of the constructor. *)
Definition vi_ranges (a : Z) (dims : vi_resource_dimensions) : option (Z * Z * Z * Z) :=
  if a =? EFHW_ARCH_EF10 then Some (vi_min dims, vi_lim dims, vi_min dims, vi_lim dims)
  else if a =? EFHW_ARCH_FALCON then
    let dmaq_min := Z.max (rxq_min dims) (txq_min dims) in
    let dmaq_lim := Z.min (rxq_lim dims) (txq_lim dims) in
    let timer_min := Z.max dmaq_min (evq_timer_min dims) in
    let timer_lim := Z.min dmaq_lim (evq_timer_lim dims) in
    let int_min := Z.max dmaq_min (evq_int_min dims) in
    let int_lim := Z.min dmaq_lim (evq_int_lim dims) in
    let int_lim := Z.max int_lim int_min in
    Some (timer_min, timer_lim, int_min, int_lim)
  else None.

(** Whether the three allocations of memory of a buddy allocator succeed, and
    what the memory held. *)
Record memory := mk_memory { mem1 : bool; mem2 : bool; mem3 : bool; mem_garbage : list Z }.

(** [va = &vi_allocators[va_n++]; rc = efrm_buddy_range_ctor(...); va->props |= p] *)
Definition build_allocator (m : memory) (low high p va_n : Z) (nic : efrm_nic)
    : option (efrm_nic * Z) :=
  '(b, rc) ← efrm_buddy_range_ctor (mem1 m) (mem2 m) (mem3 m) (mem_garbage m) low high;
  if rc <? 0 then Some (nic, rc)
  else
    Some (nic <| vi_allocators ::= alter (fun va => mk_va (Z.lor (props va) p) b) (Z.to_nat va_n) |>, rc).

Definition efrm_vi_allocator_ctor (m_tmr m_int : memory) (nic : efrm_nic)
    (dims : vi_resource_dimensions) : option (efrm_nic * Z) :=
  match vi_ranges (arch nic) dims with
  | None => Some (efrm_vi_allocator_dtor nic, - EINVAL)
  | Some (timer_min, timer_lim, int_min, int_lim) =>
    let nic := nic <| vi_allocators ::= fmap (fun va => va <| props := 0 |>) |> in
    let p := Z.lor vi_with_timer ALLOCATOR_INITIALISED in
    let p := if (int_min =? timer_min) && (int_min <? int_lim) then Z.lor p vi_with_interrupt else p in
    '(nic, rc) ← (if timer_min <? timer_lim then build_allocator m_tmr timer_min timer_lim p 0 nic
                  else Some (nic, 0));
    let va_n := if timer_min <? timer_lim then 1 else 0 in
    if rc <? 0 then Some (efrm_vi_allocator_dtor nic, rc)
    else
      '(nic, rc) ←
        (if (int_min <? int_lim) && negb (int_min =? timer_min) then
           build_allocator m_int int_min int_lim
             (Z.lor vi_with_interrupt ALLOCATOR_INITIALISED) va_n nic
         else Some (nic, 0));
      if rc <? 0 then Some (efrm_vi_allocator_dtor nic, rc) else Some (nic, 0)
  end.

(** [struct alloc_vi_constraints] is the first four arguments. *)
Definition accept_vi_constraints (nic : efrm_nic) (channel min_vis_in_set : Z)
    (has_rss_context : bool) (low : Z) : bool :=
  let high := s32 (low + min_vis_in_set) in
  let ok := true in
  let ok := if arch nic =? EFHW_ARCH_FALCON then
              if 0 <=? channel then ok && (Z.land low (falcon_wakeup_mask nic) =? channel) else ok
            else ok in
  if (1 <? min_vis_in_set) && negb has_rss_context then
    ok && (Z.lor low (u32 (rss_channel_count nic - 1)) <? u32 high)
  else ok.

Definition buddy_alloc_vi (nic : efrm_nic) (b : allocator) (ord channel min_vis_in_set : Z)
    (has_rss_context : bool) : option (allocator * Z) :=
  efrm_buddy_alloc_special b ord (accept_vi_constraints nic channel min_vis_in_set has_rss_context).

(** The search for an allocator with the properties asked for. *)
Fixpoint find_va (vi_props i : Z) (vas : list efrm_vi_allocator) : option (Z * efrm_vi_allocator) :=
  match vas with
  | [] => None
  | va :: vas => if Z.land vi_props (props va) =? vi_props then Some (i, va)
                 else find_va vi_props (i + 1) vas
  end.

(** The set is [None] where [set_out] is not written. *)
Definition efrm_vi_allocator_alloc_set (nic : efrm_nic) (vi_props min_vis_in_set : Z)
    (has_rss_context : bool) (channel : Z) : option (efrm_nic * Z * option efrm_vi_allocation) :=
  if min_vis_in_set <? 1 then Some (nic, - EINVAL, None)
  else
    let vi_props := Z.lor vi_props ALLOCATOR_INITIALISED in
    match find_va vi_props 0 (vi_allocators nic) with
    | None => Some (nic, - EINVAL, None)
    | Some (i, va) =>
      let ord := fls (min_vis_in_set - 1) in
      b ← instances va;
      '(b, r) ← buddy_alloc_vi nic b ord channel min_vis_in_set has_rss_context;
      let nic := nic <| vi_allocators ::= alter (fun va => va <| instances := Some b |>) (Z.to_nat i) |> in
      Some (nic, if 0 <=? r then 0 else - EBUSY, Some (mk_set r ord i))
    end.

Definition efrm_vi_allocator_free_set (nic : efrm_nic) (set : efrm_vi_allocation) : option efrm_nic :=
  va ← vi_allocators nic !! Z.to_nat (allocator_id set);
  b ← instances va;
  b ← efrm_buddy_free b (instance set) (set_order set);
  Some (nic <| vi_allocators ::=
          alter (fun va => va <| instances := Some b |>) (Z.to_nat (allocator_id set)) |>).

(** * The sets held *)

(** Allocator, order and first instance of each set. *)
Abbreviation sets := (gset (Z * (Z * Z))).

Inductive vstep : efrm_nic * sets -> efrm_nic * sets -> Prop :=
| vs_alloc nic H p m rss ch nic' s : 0 <= p < 2 ^ 31 -> m < 2 ^ 31 ->
    efrm_vi_allocator_alloc_set nic p m rss ch = Some (nic', 0, Some s) ->
    vstep (nic, H) (nic', H ∪ {[(allocator_id s, (set_order s, instance s))]})
| vs_fail nic H p m rss ch nic' rc s : 0 <= p < 2 ^ 31 -> m < 2 ^ 31 ->
    efrm_vi_allocator_alloc_set nic p m rss ch = Some (nic', rc, s) -> rc < 0 ->
    vstep (nic, H) (nic', H)
| vs_free nic H i o a nic' : (i, (o, a)) ∈ H ->
    efrm_vi_allocator_free_set nic (mk_set a o i) = Some nic' ->
    vstep (nic, H) (nic', H ∖ {[(i, (o, a))]}).

(** What a constructor makes available: for each allocator, its instances
    [low, high) and the properties of its VIs. *)
Record vi_range := mk_range { low : Z; high : Z; vr_props : Z }.

Definition built_ranges (tmin tlim imin ilim : Z) : list vi_range :=
  let joint := (imin =? tmin) && (imin <? ilim) in
  (if tmin <? tlim then
     [mk_range tmin tlim (if joint then Z.lor vi_with_timer vi_with_interrupt else vi_with_timer)]
   else []) ++
  (if (imin <? ilim) && negb (imin =? tmin) then [mk_range imin ilim vi_with_interrupt] else []).

Definition held (i : Z) (H : sets) : blocks := set_map snd (filter (fun x => x.1 = i) H).

Lemma elem_of_held i H o a : (o, a) ∈ held i H <-> (i, (o, a)) ∈ H.
Proof.
  unfold held. rewrite elem_of_map. split.
  - intros ([j [o' a']] & [= -> ->] & Hf). apply elem_of_filter in Hf as [Hj Hf]. cbn in Hj. by subst.
  - intros Hin. exists (i, (o, a)). split; [done|]. by apply elem_of_filter.
Qed.

Lemma held_add i j H o a :
  held i (H ∪ {[(j, (o, a))]}) = if decide (i = j) then held i H ∪ {[(o, a)]} else held i H.
Proof.
  apply leibniz_equiv. intros [o' a']. rewrite elem_of_held, elem_of_union, elem_of_singleton.
  destruct (decide (i = j)) as [->|]; rewrite ?elem_of_union, ?elem_of_singleton, !elem_of_held;
    naive_solver.
Qed.

Lemma held_del i j H o a :
  held i (H ∖ {[(j, (o, a))]}) = if decide (i = j) then held i H ∖ {[(o, a)]} else held i H.
Proof.
  apply leibniz_equiv. intros [o' a']. rewrite elem_of_held, elem_of_difference, elem_of_singleton.
  destruct (decide (i = j)) as [->|]; rewrite ?elem_of_difference, ?elem_of_singleton, !elem_of_held;
    naive_solver.
Qed.

(** * The invariant *)

Definition range_ok (r : vi_range) : Prop := 0 <= low r < high r /\ high r <= 2 ^ 30 /\ 0 <= vr_props r < 2 ^ 31.
Definition range_order_of (r : vi_range) : Z := fls (high r - 1).

(** One allocator: its units outside the range are out of reach and the sets
    held are what else is allocated. *)
Definition va_inv (r : vi_range) (A : blocks) (va : efrm_vi_allocator) : Prop :=
  let n := range_order_of r in
  props va = Z.lor (vr_props r) ALLOCATOR_INITIALISED /\
  exists b, instances va = Some b /\ A ## outside n (low r) (high r) /\
    buddy_inv efrm_ops n b (A ∪ outside n (low r) (high r)).

Definition nic_inv (rs : list vi_range) (st : efrm_nic * sets) : Prop :=
  let '(nic, H) := st in
  (length rs <= length (vi_allocators nic))%nat /\ Forall range_ok rs /\
  (forall (i : nat) r, rs !! i = Some r ->
     exists va, vi_allocators nic !! i = Some va /\ va_inv r (held (Z.of_nat i) H) va) /\
  (forall (i : nat) va, rs !! i = None -> vi_allocators nic !! i = Some va -> props va = 0) /\
  (forall i o a, (i, (o, a)) ∈ H -> 0 <= i < Z.of_nat (length rs)).

Lemma covers_interval o a x : 0 <= o -> aligned o a -> covers o a x <-> a <= x < a + 2 ^ o.
Proof.
  intros Ho Ha. unfold aligned in Ha. unfold covers. pose proof (pow2_pos o Ho).
  assert (Ea : a = 2 ^ o * (a / 2 ^ o)) by (apply Z.div_exact; lia).
  pose proof (Z.div_mod x (2 ^ o) ltac:(lia)) as Ex. pose proof (Z.mod_pos_bound x (2 ^ o) ltac:(lia)).
  split.
  - intros E. rewrite E in Ex. lia.
  - intros Hx. symmetry. apply (Z.div_unique _ _ _ (x - a)); lia.
Qed.

(** A place clear of the units outside a range is a place in the range. *)
Lemma clear_of_outside r o a : range_ok r -> placed (range_order_of r) o a ->
  clear_of (outside (range_order_of r) (low r) (high r)) o a <-> low r <= a /\ a + 2 ^ o <= high r.
Proof.
  intros (Hlow & Hhigh & _) (Ho & Ha & Hal). unfold range_order_of in *.
  destruct (range_order (low r) (high r)) as (Hn & Hhn & _); [lia..|].
  revert Ho Ha Hn Hhn. generalize (fls (high r - 1)) as n. intros n Ho Ha Hn Hhn.
  pose proof (pow2_pos o ltac:(lia)). unfold clear_of. split.
  - intros Hc. assert (Hout : forall x, a <= x < a + 2 ^ o -> low r <= x < high r).
    { intros x Hx. destruct (decide (low r <= x < high r)) as [|Hx']; [done|]. exfalso.
      apply (Hc 0 x x); [| |apply covers_refl].
      - apply elem_of_outside; [done|]. split_and!; [done|lia| |done].
        assert (covers o a x) as Hcov by (apply covers_interval; [lia|done|lia]).
        apply (covers_range n) in Hcov; lia.
      - apply covers_interval; [lia|done|lia]. }
    pose proof (Hout a ltac:(lia)). pose proof (Hout (a + 2 ^ o - 1) ltac:(lia)). lia.
  - intros [H1 H2] o' a' x [-> [Hr Hx]]%elem_of_outside Hcov Hcov'; [|done].
    apply covers_interval in Hcov; [|lia|done]. apply covers_unit in Hcov' as ->. lia.
Qed.

Lemma lookup_alter_va (f : efrm_vi_allocator -> efrm_vi_allocator) (vas : list efrm_vi_allocator) i j :
  alter f i vas !! j = if decide (i = j) then f <$> (vas !! j) else vas !! j.
Proof.
  destruct (decide (i = j)) as [->|]; [apply list_lookup_alter_eq|by apply list_lookup_alter_ne].
Qed.

(** ** The search *)

(** All the properties [p] asks for are among those of the range. *)
Definition offers (p : Z) (r : vi_range) : bool := Z.land p (vr_props r) =? p.

Lemma init_bit p : 0 <= p < 2 ^ 31 -> Z.testbit p 31 = false.
Proof. intros Hp. apply Z.bits_above_log2; [lia|]. destruct (decide (p = 0)) as [->|]; [done|]. apply Z.log2_lt_pow2; lia. Qed.

Lemma init_testbit i : 0 <= i -> Z.testbit ALLOCATOR_INITIALISED i = (i =? 31).
Proof.
  intros Hi. change ALLOCATOR_INITIALISED with (2 ^ 31).
  destruct (Z.eqb_spec i 31) as [->|]; [done|]. by apply Z.pow2_bits_false.
Qed.

Lemma offers_init p r : 0 <= p < 2 ^ 31 -> 0 <= vr_props r < 2 ^ 31 ->
  (Z.land (Z.lor p ALLOCATOR_INITIALISED) (Z.lor (vr_props r) ALLOCATOR_INITIALISED)
   =? Z.lor p ALLOCATOR_INITIALISED) = offers p r.
Proof.
  intros Hp Hr. unfold offers.
  replace (Z.land _ _) with (Z.lor (Z.land p (vr_props r)) ALLOCATOR_INITIALISED).
  2: { apply Z.bits_inj'. intros i Hi. rewrite Z.land_spec, !Z.lor_spec, Z.land_spec.
       destruct (Z.testbit p i), (Z.testbit (vr_props r) i), (Z.testbit ALLOCATOR_INITIALISED i); done. }
  apply eq_true_iff_eq. rewrite !Z.eqb_eq. split; [|congruence].
  intros E. apply Z.bits_inj'. intros i Hi. assert (Ei := f_equal (fun z => Z.testbit z i) E). cbn beta in Ei.
  rewrite !Z.lor_spec, Z.land_spec, init_testbit in Ei by lia. rewrite Z.land_spec.
  destruct (Z.eqb_spec i 31) as [->|]; [by rewrite !init_bit by lia|]. by rewrite !orb_false_r in Ei.
Qed.

Lemma not_init p : (Z.land (Z.lor p ALLOCATOR_INITIALISED) 0 =? Z.lor p ALLOCATOR_INITIALISED) = false.
Proof.
  rewrite Z.land_0_r. apply Z.eqb_neq. intros E.
  assert (T : Z.testbit (Z.lor p ALLOCATOR_INITIALISED) 31 = true) by (rewrite Z.lor_spec; apply orb_true_r).
  by rewrite <- E in T.
Qed.

(** The search finds the first range that offers the properties. *)
Lemma find_va_spec p rs vas k : 0 <= p < 2 ^ 31 -> Forall range_ok rs ->
  (forall (i : nat) r, rs !! i = Some r -> exists va, vas !! i = Some va /\
     props va = Z.lor (vr_props r) ALLOCATOR_INITIALISED) ->
  (forall (i : nat) va, rs !! i = None -> vas !! i = Some va -> props va = 0) ->
  find_va (Z.lor p ALLOCATOR_INITIALISED) k vas =
    '(i, r) ← list_find (fun r => offers p r = true) rs;
    va ← vas !! i; Some (k + Z.of_nat i, va).
Proof.
  intros Hp Hrs. revert rs k Hrs. induction vas as [|va vas IH]; intros rs k Hrs H1 H2; cbn [find_va].
  { destruct rs as [|r rs]; [done|]. destruct (H1 0%nat r) as (? & ? & _); done. }
  destruct rs as [|r rs].
  - rewrite (H2 0%nat va), not_init by done. apply (IH []); [done|done|].
    intros i va' _ Hi. by apply (H2 (S i)).
  - apply Forall_cons_1 in Hrs as [Hr Hrs].
    destruct (H1 0%nat r) as (va' & [= ->] & ->); [done|].
    rewrite offers_init by (done || apply Hr). cbn [list_find].
    destruct (decide (offers p r = true)) as [E|E].
    + rewrite E. cbn. by rewrite Z.add_0_r.
    + destruct (offers p r); [done|]. rewrite IH with (rs := rs); [|done| |].
      * destruct (list_find _ rs) as [[i r']|]; [|done]. cbn. destruct (vas !! i); [|done]. cbn.
        do 2 f_equal. lia.
      * intros i r' Hi. by apply (H1 (S i)).
      * intros i v2 Hi Hv. by apply (H2 (S i)).
Qed.

(** ** The calls *)

#[local] Opaque efrm_buddy_free efrm_buddy_alloc_special.

(** The outcome of a request for [m] VIs with properties [p], in terms of the
    ranges and of the sets held. *)
Definition request_outcome (rs : list vi_range) (nic : efrm_nic) (H : sets) (p m : Z) (rss : bool)
    (ch : Z) (rc : Z) (s : option efrm_vi_allocation) : Prop :=
  let o := fls (m - 1) in
  if m <? 1 then rc = - EINVAL /\ s = None
  else match list_find (fun r => offers p r = true) rs with
  | None => rc = - EINVAL /\ s = None
  | Some (i, r) =>
    let id := Z.of_nat i in
    (rc = 0 /\ exists a, s = Some (mk_set a o id) /\
       aligned o a /\ low r <= a /\ a + 2 ^ o <= high r /\
       accept_vi_constraints nic ch m rss a = true /\ clear_of (held id H) o a) \/
    (rc = - EBUSY /\ s = Some (mk_set (- ENOMEM) o id) /\
     forall a, aligned o a -> low r <= a -> a + 2 ^ o <= high r ->
       accept_vi_constraints nic ch m rss a = true -> ~ clear_of (held id H) o a)
  end.

(** What a NIC is apart from the state of its allocators. *)
Definition same_nic (nic nic' : efrm_nic) : Prop :=
  arch nic' = arch nic /\ falcon_wakeup_mask nic' = falcon_wakeup_mask nic /\
  rss_channel_count nic' = rss_channel_count nic.

(** A change of one allocator's blocks. *)
Lemma nic_inv_update rs nic H H' i r b' :
  nic_inv rs (nic, H) -> rs !! i = Some r ->
  (forall j, held j H' <> held j H -> j = Z.of_nat i) ->
  (forall j o a, (j, (o, a)) ∈ H' -> (j, (o, a)) ∈ H \/ j = Z.of_nat i) ->
  held (Z.of_nat i) H' ## outside (range_order_of r) (low r) (high r) ->
  buddy_inv efrm_ops (range_order_of r) b'
    (held (Z.of_nat i) H' ∪ outside (range_order_of r) (low r) (high r)) ->
  nic_inv rs (nic <| vi_allocators ::= alter (fun va => va <| instances := Some b' |>) i |>, H').
Proof.
  intros (Hlen & Hok & H1 & H2 & H3) Hr HH HH' Hd Hb. unfold nic_inv.
  split_and!.
  - cbn. by rewrite length_alter.
  - done.
  - intros j r' Hj. cbn. rewrite lookup_alter_va. destruct (H1 j r' Hj) as (va & Hva & Hv).
    destruct (decide (i = j)) as [<-|Hij].
    + assert (r' = r) as -> by congruence. exists (va <| instances := Some b' |>). split; [by rewrite Hva|].
      destruct Hv as (Hp & _). split; [done|]. by exists b'.
    + exists va. split; [done|]. destruct (decide (held (Z.of_nat j) H' = held (Z.of_nat j) H)) as [->|Hne]; [done|].
      apply HH in Hne. lia.
  - intros j va Hj. cbn. rewrite lookup_alter_va. destruct (decide (i = j)) as [<-|Hij]; [congruence|].
    by apply H2.
  - intros j o a Hin. destruct (HH' j o a Hin) as [Hin'| ->]; [by apply (H3 j o a)|].
    apply lookup_lt_Some in Hr. lia.
Qed.

Lemma range_ok_at rs i r : Forall range_ok rs -> rs !! i = Some r -> range_ok r.
Proof. intros Hrs Hi. by apply (Forall_lookup_1 _ _ _ _ Hrs Hi). Qed.

Lemma clear_of_union (A B : blocks) o a : clear_of (A ∪ B) o a <-> clear_of A o a /\ clear_of B o a.
Proof.
  unfold clear_of. split.
  - intros Hc. split; intros o' a' x Hin; apply Hc; set_solver.
  - intros [HA HB] o' a' x [Hin|Hin]%elem_of_union; [by apply HA|by apply HB].
Qed.

(** A place in the range is a place of the allocator. *)
Lemma placed_in_range r o a : range_ok r -> 0 <= o -> aligned o a -> low r <= a ->
  a + 2 ^ o <= high r -> placed (range_order_of r) o a.
Proof.
  intros (Hlow & Hhigh & _) Ho Hal Ha Hae. unfold range_order_of.
  destruct (range_order (low r) (high r)) as (Hn & Hhn & _); [lia..|].
  revert Hn Hhn. generalize (fls (high r - 1)) as n. intros n Hn Hhn. pose proof (pow2_pos o Ho).
  split_and!; [done| |lia|lia|done]. apply (Z.pow_le_mono_r_iff 2); lia.
Qed.

Lemma blocks_swap (A B C : blocks) : A ∪ B ∪ C = A ∪ C ∪ B.
Proof. set_solver. Qed.

Lemma blocks_put_back (A B : blocks) x : x ∈ A -> A ∖ {[x]} ∪ B ∪ {[x]} = A ∪ B.
Proof. intros Hx. rewrite blocks_swap. by rewrite difference_union_one. Qed.

Lemma alloc_set_spec rs nic H p m rss ch : nic_inv rs (nic, H) -> 0 <= p < 2 ^ 31 -> m < 2 ^ 31 ->
  exists nic' rc s, efrm_vi_allocator_alloc_set nic p m rss ch = Some (nic', rc, s) /\
    request_outcome rs nic H p m rss ch rc s /\ same_nic nic nic' /\
    nic_inv rs (nic', if rc =? 0 then
      match s with Some s => H ∪ {[(allocator_id s, (set_order s, instance s))]} | None => H end else H).
Proof.
  intros Hinv Hp Hm. pose proof Hinv as (Hlen & Hok & H1 & H2 & H3).
  unfold efrm_vi_allocator_alloc_set, request_outcome. destruct (Z.ltb_spec m 1) as [Hm1|Hm1].
  { exists nic, (- EINVAL), None. done. }
  rewrite (find_va_spec p rs) by (try done; intros i r Hi;
    destruct (H1 i r Hi) as (va & ? & ? & _); by exists va).
  destruct (list_find _ rs) as [[i r]|] eqn:Ef; [|by exists nic, (- EINVAL), None].
  apply list_find_Some in Ef as (Hi & _). cbn [mbind option_bind].
  destruct (H1 i r Hi) as (va & Hva & Hprops & b & Hb & Hd & Hinvb). rewrite Hva.
  cbn [mbind option_bind]. rewrite Hb. cbn [mbind option_bind]. unfold buddy_alloc_vi.
  pose proof (range_ok_at _ _ _ Hok Hi) as Hr.
  destruct (fls_spec (m - 1) 31) as (Ho & _); [lia..|].
  revert Ho. generalize (fls (m - 1)) as o. intros o Ho.
  destruct (range_order (low r) (high r)) as (Hn & _ & _); [destruct Hr; lia..|].
  destruct (efrm_special_spec (range_order_of r) b _ o (accept_vi_constraints nic ch m rss) Hn Hinvb)
    as (b' & a & -> & Hout); [lia|]. cbn [mbind option_bind]. rewrite Z.add_0_l, Nat2Z.id.
  destruct Hout as [(-> & Hb' & Hno)|(Hpl & Hacc & Hcl & Hni & Hb')].
  - change (0 <=? - ENOMEM) with false. cbv iota. do 3 eexists. split; [reflexivity|]. split_and!.
    + right. split_and!; [done..|]. intros a Hal Hla Hha Hacc Hcl.
      pose proof (placed_in_range r o a Hr ltac:(lia) Hal Hla Hha) as Hpl.
      apply (Hno a Hpl Hacc), clear_of_union. split; [done|]. by apply clear_of_outside.
    + done.
    + change (- EBUSY =? 0) with false. cbv iota. apply nic_inv_update with (r := r) (H := H); try done.
      intros. by left.
  - assert (Ha : 0 <= a) by apply Hpl. destruct (Z.leb_spec 0 a) as [_|]; [|lia].
    do 3 eexists. split; [reflexivity|]. split_and!.
    + left. split; [done|]. exists a. apply clear_of_union in Hcl as [Hc1 Hc2].
      apply clear_of_outside in Hc2; [|done..]. split_and!; try done; [apply Hpl|apply Hc2..].
    + done.
    + cbn [allocator_id set_order instance]. change (0 =? 0) with true. cbv iota.
      apply nic_inv_update with (r := r) (H := H); [done..| | | |].
      * intros j. rewrite held_add. case_decide; [by intros|done].
      * intros j o' a' [?|[= -> -> ->]%elem_of_singleton]%elem_of_union; [by left|by right].
      * rewrite held_add, decide_True by done. clear -Hd Hni. set_solver.
      * rewrite held_add, decide_True by done.
        by rewrite blocks_swap.
Qed.

Lemma bind_some {A B} (f : A -> option B) (x : A) : (Some x ≫= f) = f x.
Proof. done. Qed.

Lemma free_set_spec rs nic H i o a : nic_inv rs (nic, H) -> (i, (o, a)) ∈ H ->
  exists nic', efrm_vi_allocator_free_set nic (mk_set a o i) = Some nic' /\ same_nic nic nic' /\
    nic_inv rs (nic', H ∖ {[(i, (o, a))]}).
Proof.
  intros Hinv Hin. pose proof Hinv as (Hlen & Hok & H1 & H2 & H3).
  pose proof (H3 i o a Hin) as Hi. rewrite <- (Z2Nat.id i) in Hin |- * by lia.
  revert Hin. generalize (Z.to_nat i) as k. intros k Hin. clear Hi i.
  pose proof (H3 _ o a Hin) as Hk. destruct (lookup_lt_is_Some_2 rs k) as [r Hr]; [lia|].
  destruct (H1 k r Hr) as (va & Hva & Hprops & b & Hb & Hd & Hinvb).
  unfold efrm_vi_allocator_free_set. cbn [allocator_id instance set_order]. rewrite Nat2Z.id, Hva, bind_some, Hb, bind_some.
  pose proof (range_ok_at _ _ _ Hok Hr) as Hrok.
  destruct (range_order (low r) (high r)) as (Hn & _ & _); [destruct Hrok; lia..|].
  apply elem_of_held in Hin.
  destruct (efrm_free_spec (range_order_of r) b
    (held (Z.of_nat k) H ∖ {[(o, a)]} ∪ outside (range_order_of r) (low r) (high r)) o a Hn)
    as (b' & -> & Hb').
  - by rewrite blocks_put_back.
  - clear -Hd Hin. set_solver.
  - rewrite bind_some. eexists. split; [reflexivity|]. split; [done|].
    apply nic_inv_update with (r := r) (H := H); [done..| | | |].
    + intros j. rewrite held_del. case_decide; [by intros|done].
    + intros j o' a' [? _]%elem_of_difference. by left.
    + rewrite held_del, decide_True by done. clear -Hd. set_solver.
    + by rewrite held_del, decide_True.
Qed.

(** ** Reachable states *)

Lemma vstep_inv rs st st' : vstep st st' -> nic_inv rs st -> nic_inv rs st'.
Proof.
  intros Hs Hinv.
  destruct Hs as [nic H p m rss ch nic' s Hp Hm E|nic H p m rss ch nic' rc s Hp Hm E Hrc|nic H i o a nic' Hin E].
  - destruct (alloc_set_spec rs nic H p m rss ch Hinv Hp Hm) as (n2 & rc2 & s2 & E2 & _ & _ & Hi).
    rewrite E in E2. injection E2 as -> <- <-. exact Hi.
  - destruct (alloc_set_spec rs nic H p m rss ch Hinv Hp Hm) as (n2 & rc2 & s2 & E2 & _ & _ & Hi).
    rewrite E in E2. injection E2 as -> -> ->. destruct (Z.eqb_spec rc2 0); [lia|exact Hi].
  - destruct (free_set_spec rs nic H i o a Hinv Hin) as (n2 & E2 & _ & Hi).
    rewrite E in E2. injection E2 as ->. exact Hi.
Qed.

Lemma reachable_nic_inv rs st0 st : nic_inv rs st0 -> rtc vstep st0 st -> nic_inv rs st.
Proof. intros H0 Hs. induction Hs as [|x y z Hxy _ IH]; [done|]. by apply IH, (vstep_inv rs x y). Qed.

(** No instance is in two ranges. *)
Definition ranges_apart (rs : list vi_range) : Prop :=
  forall (i j : nat) r r', rs !! i = Some r -> rs !! j = Some r' -> i <> j -> high r <= low r' \/ high r' <= low r.

(** What holds of every reachable state. *)
Definition vi_safe (rs : list vi_range) (st : efrm_nic * sets) : Prop :=
  let '(nic, H) := st in
  (forall i o a, (i, (o, a)) ∈ H -> exists r, rs !! Z.to_nat i = Some r /\
     aligned o a /\ low r <= a /\ a + 2 ^ o <= high r) /\
  (forall i o a o' a' x, (i, (o, a)) ∈ H -> (i, (o', a')) ∈ H ->
     a <= x < a + 2 ^ o -> a' <= x < a' + 2 ^ o' -> (o, a) = (o', a')) /\
  (ranges_apart rs -> forall i o a i' o' a' x, (i, (o, a)) ∈ H -> (i', (o', a')) ∈ H ->
     a <= x < a + 2 ^ o -> a' <= x < a' + 2 ^ o' -> (i, (o, a)) = (i', (o', a'))) /\
  (forall p m rss ch, 0 <= p < 2 ^ 31 -> m < 2 ^ 31 -> exists nic' rc s,
     efrm_vi_allocator_alloc_set nic p m rss ch = Some (nic', rc, s) /\
     request_outcome rs nic H p m rss ch rc s) /\
  (forall i o a, (i, (o, a)) ∈ H -> exists nic', efrm_vi_allocator_free_set nic (mk_set a o i) = Some nic').

Lemma held_block rs nic H i o a : nic_inv rs (nic, H) -> (i, (o, a)) ∈ H ->
  exists r T, rs !! Z.to_nat i = Some r /\ range_ok r /\ tiling (range_order_of r) T /\
    held i H ∪ outside (range_order_of r) (low r) (high r) ⊆ T /\
    held i H ## outside (range_order_of r) (low r) (high r) /\ placed (range_order_of r) o a.
Proof.
  intros (_ & Hok & H1 & _ & H3) Hin. pose proof (H3 i o a Hin) as Hi.
  destruct (lookup_lt_is_Some_2 rs (Z.to_nat i)) as [r Hr]; [lia|].
  destruct (H1 _ r Hr) as (va & _ & _ & b & _ & Hd & F & HF). rewrite Z2Nat.id in HF, Hd by lia.
  pose proof (bi_tiling _ _ _ _ _ _ HF) as Ht. apply elem_of_held in Hin.
  exists r, (F ∪ (held i H ∪ outside (range_order_of r) (low r) (high r)) ∪ ∅). split_and!; [done| |done| |done|..].
  - by apply (range_ok_at rs (Z.to_nat i)).
  - clear. set_solver.
  - apply (t_range _ _ Ht). clear -Hin. set_solver.
Qed.

(** A set held is an aligned block in the range of its allocator. *)
Lemma held_in_range rs nic H i o a : nic_inv rs (nic, H) -> (i, (o, a)) ∈ H -> 0 <= i /\
  exists r, rs !! Z.to_nat i = Some r /\ aligned o a /\ low r <= a /\ a + 2 ^ o <= high r.
Proof.
  intros Hinv Hin. destruct (held_block _ _ _ _ _ _ Hinv Hin) as (r & T & Hr & Hok & Ht & HT & Hd & Hp).
  split; [destruct Hinv as (_ & _ & _ & _ & H3); by destruct (H3 i o a Hin)|]. apply elem_of_held in Hin.
  assert (Hc : clear_of (outside (range_order_of r) (low r) (high r)) o a).
  { intros o' a' x Hout Hx Hx'. destruct (t_disj _ _ Ht o a o' a' x) as [-> ->]; try done.
    - apply HT. by apply elem_of_union_l.
    - apply HT. by apply elem_of_union_r.
    - by apply (Hd (o', a')). }
  apply clear_of_outside in Hc; [|done..]. exists r. split_and!; [done|apply Hp|lia..].
Qed.

Lemma held_disjoint rs nic H i o a o' a' x : nic_inv rs (nic, H) -> (i, (o, a)) ∈ H -> (i, (o', a')) ∈ H ->
  a <= x < a + 2 ^ o -> a' <= x < a' + 2 ^ o' -> (o, a) = (o', a').
Proof.
  intros Hinv Hin Hin' Hx Hx'.
  destruct (held_block _ _ _ _ _ _ Hinv Hin) as (r & T & Hr & _ & Ht & HT & _ & (Ho & _ & Hal)).
  destruct (held_block _ _ _ _ _ _ Hinv Hin') as (r' & _ & _ & _ & _ & _ & _ & (Ho' & _ & Hal')).
  apply elem_of_held in Hin, Hin'. clear -Ht HT Hin Hin' Hx Hx' Ho Ho' Hal Hal'.
  destruct (t_disj _ _ Ht o a o' a' x) as [-> ->]; [..|done].
  - apply HT. by apply elem_of_union_l.
  - apply HT. by apply elem_of_union_l.
  - apply covers_interval; [lia|done..].
  - apply covers_interval; [lia|done..].
Qed.

Lemma nic_inv_safe rs st : nic_inv rs st -> vi_safe rs st.
Proof.
  destruct st as [nic H]. intros Hinv. split_and!.
  - intros i o a Hin. by apply (held_in_range rs nic H).
  - intros i o a o' a' x. by apply (held_disjoint rs nic H).
  - intros Hap i o a i' o' a' x Hin Hin' Hx Hx'.
    destruct (held_in_range _ _ _ _ _ _ Hinv Hin) as (Hi & r & Hr & _ & Hlo & Hhi).
    destruct (held_in_range _ _ _ _ _ _ Hinv Hin') as (Hi' & r' & Hr' & _ & Hlo' & Hhi').
    destruct (decide (i = i')) as [<-|Hne]; [f_equal; by apply (held_disjoint rs nic H i o a o' a' x)|].
    destruct (Hap _ _ _ _ Hr Hr'); lia.
  - intros p m rss ch Hp Hm. destruct (alloc_set_spec rs nic H p m rss ch Hinv Hp Hm) as (n2 & rc & s & E & Ho & _).
    by exists n2, rc, s.
  - intros i o a Hin. destruct (free_set_spec rs nic H i o a Hinv Hin) as (n2 & E & _). by exists n2.
Qed.

(** ** Construction *)

Definition memory_ok (m : memory) : Prop := mem1 m && mem2 m && mem3 m = true.

(** A NIC whose allocators are [built] ones followed by [k] unused ones. *)
Lemma build_allocator_spec m lo hi p q rs nic :
  nic_inv rs (nic, ∅) -> (length rs < length (vi_allocators nic))%nat ->
  range_ok (mk_range lo hi q) -> p = Z.lor q ALLOCATOR_INITIALISED ->
  if mem1 m && mem2 m && mem3 m then
    exists nic', build_allocator m lo hi p (Z.of_nat (length rs)) nic = Some (nic', 0) /\
      same_nic nic nic' /\ length (vi_allocators nic') = length (vi_allocators nic) /\
      nic_inv (rs ++ [mk_range lo hi q]) (nic', ∅)
  else build_allocator m lo hi p (Z.of_nat (length rs)) nic = Some (nic, - ENOMEM).
Proof.
  intros (_ & Hok & H1 & H2 & _) Hlen Hr ->. pose proof Hr as (Hlo & Hhi & _). cbn [low high] in Hlo, Hhi.
  unfold build_allocator. destruct (mem1 m), (mem2 m), (mem3 m); try done. cbn [andb].
  destruct (range_ctor_inv (mem_garbage m) lo hi) as (b & -> & Hb); [lia..|].
  rewrite bind_some. change (0 <? 0) with false. cbv beta iota zeta. rewrite Nat2Z.id.
  eexists. split; [reflexivity|]. split_and!; [done|apply length_alter|].
  destruct (lookup_lt_is_Some_2 _ _ Hlen) as [va Hva].
  assert (Hp0 : props va = 0) by (apply (H2 (length rs)); [by apply lookup_ge_None|done]).
  unfold nic_inv. split_and!.
  - cbn. rewrite length_app, length_alter. cbn. lia.
  - by apply Forall_app_2, Forall_singleton.
  - intros i r Hi. cbn. rewrite lookup_alter_va. apply lookup_app_Some in Hi as [Hi|[Hi Hi']].
    + pose proof (lookup_lt_Some _ _ _ Hi). rewrite decide_False by lia. by apply H1.
    + pose proof (lookup_lt_Some _ _ _ Hi') as Hl. cbn in Hl. assert (i = length rs) as -> by lia.
      rewrite Nat.sub_diag in Hi'. injection Hi' as <-. rewrite decide_True, Hva by done.
      eexists. split; [reflexivity|]. split; [by cbn; rewrite Hp0|]. exists b. split; [done|].
      assert (held (Z.of_nat (length rs)) ∅ = ∅) as -> by (clear; set_solver). split; [clear; set_solver|].
      rewrite union_empty_l_L. exact Hb.
  - intros i va' Hi. cbn. rewrite lookup_alter_va. apply lookup_ge_None in Hi.
    rewrite length_app in Hi. cbn in Hi. rewrite decide_False by lia. apply H2. apply lookup_ge_None. lia.
  - clear. set_solver.
Qed.

Definition dims_ok (d : vi_resource_dimensions) : Prop :=
  Forall (fun z => 0 <= z <= 2 ^ 30)
    [evq_int_min d; evq_int_lim d; evq_timer_min d; evq_timer_lim d; rxq_min d; rxq_lim d;
     txq_min d; txq_lim d; vi_min d; vi_lim d].

Lemma vi_ranges_bounds a d tmin tlim imin ilim : dims_ok d -> vi_ranges a d = Some (tmin, tlim, imin, ilim) ->
  0 <= tmin <= 2 ^ 30 /\ tlim <= 2 ^ 30 /\ 0 <= imin <= 2 ^ 30 /\ ilim <= 2 ^ 30.
Proof.
  unfold dims_ok. intros Hd E. repeat (apply Forall_cons_1 in Hd as [? Hd]). unfold vi_ranges in E.
  destruct (a =? EFHW_ARCH_EF10); [injection E as <- <- <- <-; lia|].
  destruct (a =? EFHW_ARCH_FALCON); [|done]. injection E as <- <- <- <-. lia.
Qed.

Lemma unused_inv nic : (forall va, va ∈ vi_allocators nic -> props va = 0) -> nic_inv [] (nic, ∅).
Proof.
  intros Hva. unfold nic_inv. split_and!; [cbn; lia|done|done| |clear; set_solver].
  intros i va _ Hi. apply Hva. by apply list_elem_of_lookup_2 in Hi.
Qed.

Lemma dtor_unused nic va : va ∈ vi_allocators (efrm_vi_allocator_dtor nic) -> props va = 0.
Proof.
  unfold efrm_vi_allocator_dtor. cbn. intros (va' & -> & _)%list_elem_of_fmap.
  destruct (Z.eqb_spec (props va') 0); done.
Qed.

(** The memory the constructor needs is there. *)
Definition ctor_memory (m_tmr m_int : memory) (tmin tlim imin ilim : Z) : bool :=
  (negb (tmin <? tlim) || (mem1 m_tmr && mem2 m_tmr && mem3 m_tmr)) &&
  (negb ((imin <? ilim) && negb (imin =? tmin)) || (mem1 m_int && mem2 m_int && mem3 m_int)).

Lemma build_if_spec (g : bool) m lo hi p q rs nic :
  nic_inv rs (nic, ∅) -> (length rs < length (vi_allocators nic))%nat ->
  (g = true -> range_ok (mk_range lo hi q)) -> p = Z.lor q ALLOCATOR_INITIALISED ->
  exists nic' rc,
    (if g then build_allocator m lo hi p (Z.of_nat (length rs)) nic else Some (nic, 0)) = Some (nic', rc) /\
    if negb g || (mem1 m && mem2 m && mem3 m) then
      rc = 0 /\ same_nic nic nic' /\ length (vi_allocators nic') = length (vi_allocators nic) /\
      nic_inv (rs ++ if g then [mk_range lo hi q] else []) (nic', ∅)
    else rc = - ENOMEM.
Proof.
  intros Hinv Hlen Hr Hp. destruct g; cbn [negb orb].
  - pose proof (build_allocator_spec m lo hi p q rs nic Hinv Hlen (Hr eq_refl) Hp) as Hb.
    destruct (mem1 m && mem2 m && mem3 m).
    + destruct Hb as (nic' & Hb & ? & ? & ?). by exists nic', 0.
    + by exists nic, (- ENOMEM).
  - exists nic, 0. rewrite app_nil_r. done.
Qed.

Lemma ctor_spec m_tmr m_int nic d tmin tlim imin ilim :
  length (vi_allocators nic) = 2%nat -> dims_ok d ->
  vi_ranges (arch nic) d = Some (tmin, tlim, imin, ilim) ->
  exists nic', efrm_vi_allocator_ctor m_tmr m_int nic d =
      Some (nic', if ctor_memory m_tmr m_int tmin tlim imin ilim then 0 else - ENOMEM) /\
    (if ctor_memory m_tmr m_int tmin tlim imin ilim
     then same_nic nic nic' /\ nic_inv (built_ranges tmin tlim imin ilim) (nic', ∅)
     else nic_inv [] (nic', ∅)).
Proof.
  intros Hlen Hd E. pose proof (vi_ranges_bounds _ _ _ _ _ _ Hd E) as (Ht & Htl & Hi & Hil).
  unfold efrm_vi_allocator_ctor. rewrite E. clear E Hd. cbv beta iota zeta.
  set (nic1 := nic <| vi_allocators ::= _ |>).
  assert (Hinv1 : nic_inv [] (nic1, ∅)).
  { apply unused_inv. subst nic1. cbn. intros va (va' & -> & _)%list_elem_of_fmap. done. }
  assert (Hlen1 : length (vi_allocators nic1) = 2%nat) by (subst nic1; cbn; by rewrite length_fmap).
  assert (Hsame1 : same_nic nic nic1) by done. clearbody nic1.
  unfold ctor_memory, built_ranges.
  destruct (build_if_spec (tmin <? tlim) m_tmr tmin tlim
    (if (imin =? tmin) && (imin <? ilim)
     then Z.lor (Z.lor vi_with_timer ALLOCATOR_INITIALISED) vi_with_interrupt
     else Z.lor vi_with_timer ALLOCATOR_INITIALISED)
    (if (imin =? tmin) && (imin <? ilim) then Z.lor vi_with_timer vi_with_interrupt else vi_with_timer)
    [] nic1 Hinv1) as (nic2 & rc & E2 & Hout); [rewrite Hlen1; cbn; lia| | |].
  { intros Hlt%Z.ltb_lt. split_and!; cbn [low high vr_props]; try lia; by destruct (_ && _). }
  { by destruct (_ && _). }
  change (Z.of_nat (length [])) with 0 in E2. cbn [app] in Hout. rewrite E2, bind_some. clear E2. cbv beta iota zeta.
  destruct (negb (tmin <? tlim) || _); [|by rewrite Hout; eexists; split; [reflexivity|]; apply unused_inv, dtor_unused].
  destruct Hout as (-> & Hs2 & Hl2 & Hinv2). change (0 <? 0) with false. cbv iota. cbn [andb].
  set (rs := if tmin <? tlim then _ else _) in Hinv2 |- *.
  assert (Hn : (if tmin <? tlim then 1 else 0) = Z.of_nat (length rs)) by (subst rs; by destruct (tmin <? tlim)).
  assert (Hl : (length rs < length (vi_allocators nic2))%nat) by (subst rs; destruct (tmin <? tlim); cbn; lia).
  rewrite Hn. clearbody rs. clear Hn.
  destruct (build_if_spec ((imin <? ilim) && negb (imin =? tmin)) m_int imin ilim
    (Z.lor vi_with_interrupt ALLOCATOR_INITIALISED) vi_with_interrupt rs nic2 Hinv2 Hl)
    as (nic3 & rc & -> & Hout); [|done|].
  { intros [Hlt%Z.ltb_lt _]%andb_prop. split_and!; cbn [low high vr_props]; done || lia. }
  rewrite bind_some. cbv beta iota zeta.
  destruct (negb _ || _); [|by rewrite Hout; eexists; split; [reflexivity|]; apply unused_inv, dtor_unused].
  destruct Hout as (-> & Hs3 & _ & Hinv3). exists nic3. split_and!; try done.
  - destruct Hsame1 as (? & ? & ?), Hs2 as (? & ? & ?), Hs3 as (? & ? & ?). split_and!; congruence.
Qed.

(** On EF10 one allocator has all the instances. *)
Lemma ef10_one_range d tmin tlim imin ilim : vi_ranges EFHW_ARCH_EF10 d = Some (tmin, tlim, imin, ilim) ->
  ranges_apart (built_ranges tmin tlim imin ilim).
Proof.
  intros [= -> -> <- <-]. unfold built_ranges. rewrite Z.eqb_refl, andb_false_r, app_nil_r.
  intros [|i] [|j] r r' Hi Hj Hne; destruct (tmin <? tlim); done.
Qed.

(** C17: however the constructor is called, either memory is short and no VI can
    be allocated, or from then on, whatever sets are allocated and freed: every
    set held is an aligned block of instances inside its allocator's range; sets
    of one allocator never overlap, and no two sets do when the ranges of the two
    allocators have no instance in common, which is so on EF10, where there is one;
    every call returns, a set can always be
    freed, and a request for [m] VIs gets the smallest aligned block that holds
    them and meets the constraints, fails with [-EINVAL] exactly when [m] is
    not positive or no range has the properties, and with [-EBUSY] exactly when
    every block of its range that meets the constraints overlaps a set held from it. *)
Theorem vi_allocator_reachable_safe m_tmr m_int nic d tmin tlim imin ilim :
  length (vi_allocators nic) = 2%nat -> dims_ok d ->
  vi_ranges (arch nic) d = Some (tmin, tlim, imin, ilim) ->
  let ok := ctor_memory m_tmr m_int tmin tlim imin ilim in
  (arch nic = EFHW_ARCH_EF10 -> ranges_apart (built_ranges tmin tlim imin ilim)) /\
  exists nic0, efrm_vi_allocator_ctor m_tmr m_int nic d = Some (nic0, if ok then 0 else - ENOMEM) /\
    forall st, rtc vstep (nic0, ∅) st ->
      vi_safe (if ok then built_ranges tmin tlim imin ilim else []) st.
Proof.
  intros Hlen Hd E ok. split; [intros Ea; rewrite Ea in E; by apply (ef10_one_range d)|].
  destruct (ctor_spec m_tmr m_int nic d _ _ _ _ Hlen Hd E) as (nic0 & E0 & Hinv).
  fold ok in E0, Hinv. exists nic0. split; [done|]. intros st Hs. apply nic_inv_safe.
  apply (reachable_nic_inv _ (nic0, ∅)); [|done]. destruct ok; [apply Hinv|done].
Qed.

(** An EF10 NIC with VIs 3 to 10, of which a set of two and one of four are taken. *)
Definition ex_nic : efrm_nic := mk_nic EFHW_ARCH_EF10 [mk_va 0 None; mk_va 0 None] 0 2.
Definition ex_dims : vi_resource_dimensions := mk_dims 0 0 0 0 0 0 0 0 3 11.
Definition ex_mem : memory := mk_memory true true true [].
Definition ex_nic0 : efrm_nic :=
  match efrm_vi_allocator_ctor ex_mem ex_mem ex_nic ex_dims with Some (nic, _) => nic | None => ex_nic end.
Definition ex_nic1 : efrm_nic :=
  match efrm_vi_allocator_alloc_set ex_nic0 vi_with_timer 2 false (-1) with
  | Some (nic, _, _) => nic | None => ex_nic0 end.

Lemma vs_alloc_pair nic nic' :
  efrm_vi_allocator_alloc_set nic vi_with_timer 2 false (-1) = Some (nic', 0, Some (mk_set 8 1 0)) ->
  vstep (nic, ∅) (nic', ∅ ∪ {[(0, (1, 8))]}).
Proof. by apply (vs_alloc nic ∅ vi_with_timer 2 false (-1) nic' (mk_set 8 1 0)). Qed.

Lemma vi_allocator_reachable_safe_witness :
  efrm_vi_allocator_alloc_set ex_nic0 vi_with_timer 2 false (-1) = Some (ex_nic1, 0, Some (mk_set 8 1 0)) /\
  vi_safe [mk_range 3 11 3] (ex_nic1, ∅ ∪ {[(0, (1, 8))]}).
Proof.
  destruct (vi_allocator_reachable_safe ex_mem ex_mem ex_nic ex_dims 3 11 3 11) as (_ & nic0 & E & Hs).
  1: reflexivity. 1: repeat constructor; done. 1: reflexivity.
  assert (E1 : efrm_vi_allocator_alloc_set ex_nic0 vi_with_timer 2 false (-1)
               = Some (ex_nic1, 0, Some (mk_set 8 1 0))) by (vm_compute; reflexivity).
  split; [exact E1|]. apply (Hs (ex_nic1, ∅ ∪ {[(0, (1, 8))]})).
  eapply rtc_l; [|apply rtc_refl].
  assert (nic0 = ex_nic0) as -> by (unfold ex_nic0; rewrite E; reflexivity).
  exact (vs_alloc_pair _ _ E1).
Defined.

(** A Falcon NIC whose timer and interrupt ranges overlap: each allocator hands out
    VI 8. *)
Definition ex_overlap : vi_resource_dimensions := mk_dims 6 16 4 12 0 16 0 16 0 0.
Definition ex_falcon_nic : efrm_nic := mk_nic EFHW_ARCH_FALCON [mk_va 0 None; mk_va 0 None] 0 1.

Definition ex_overlap0 : efrm_nic :=
  match efrm_vi_allocator_ctor ex_mem ex_mem ex_falcon_nic ex_overlap with Some (nic, _) => nic | None => ex_falcon_nic end.
Definition set_given (r : option (efrm_nic * Z * option efrm_vi_allocation)) : option efrm_vi_allocation :=
  match r with Some (_, 0, s) => s | _ => None end.

Lemma falcon_overlap_shares :
  set_given (efrm_vi_allocator_alloc_set ex_overlap0 vi_with_timer 4 true (-1)) = Some (mk_set 8 2 0) /\
  set_given (efrm_vi_allocator_alloc_set ex_overlap0 vi_with_interrupt 8 true (-1)) = Some (mk_set 8 3 1).
Proof. split; vm_compute; reflexivity. Qed.

(** * RSS *)

Lemma lor_aligned o a q : 0 <= o -> aligned o a -> 0 <= q < 2 ^ o -> Z.lor a q = a + q.
Proof.
  intros Ho Ha Hq. unfold aligned in Ha. pose proof (pow2_pos o Ho).
  assert (Ea : a = Z.shiftl (a / 2 ^ o) o).
  { rewrite Z.shiftl_mul_pow2 by done. rewrite Z.mul_comm. apply Z.div_exact; lia. }
  rewrite Ea at 1. rewrite lor_shiftl_add by done. rewrite Z.shiftl_mul_pow2 in Ea by done. lia.
Qed.

(** a set of [m] VIs without a context of its own shares the default RSS
    table, whose entry [q] leads to VI [low | q].  Provided the NIC spreads over
    no more channels than the block has instances, the test of
    [accept_vi_constraints] lets the block through exactly when every entry leads
    to a VI of the set. *)
Theorem accept_rss_exact nic ch m a :
  arch nic = EFHW_ARCH_EF10 -> 1 < m <= 2 ^ 30 -> aligned (fls (m - 1)) a -> 0 <= a < 2 ^ 30 ->
  0 < rss_channel_count nic <= 2 ^ fls (m - 1) ->
  accept_vi_constraints nic ch m false a = true <->
  (forall q, 0 <= q < rss_channel_count nic -> a <= Z.lor a q < a + m).
Proof.
  intros Harch Hm Hal Ha Hn. destruct (fls_spec (m - 1) 30) as (Ho & _ & _); [lia..|].
  assert (Hpo : 2 ^ fls (m - 1) <= 2 ^ 30) by (apply Z.pow_le_mono_r; lia).
  revert Hal Hn Hpo Ho. generalize (fls (m - 1)) as o. intros o Hal Hn Hpo Ho.
  unfold accept_vi_constraints. rewrite Harch. change (EFHW_ARCH_EF10 =? EFHW_ARCH_FALCON) with false.
  cbv iota. destruct (Z.ltb_spec 1 m); [|lia]. cbn [negb andb].
  rewrite s32_small by lia. rewrite !u32_small by lia.
  rewrite (lor_aligned o) by (done || lia). rewrite Z.ltb_lt. split.
  - intros Hlt q Hq. rewrite (lor_aligned o) by (done || lia). lia.
  - intros Hq. specialize (Hq (rss_channel_count nic - 1) ltac:(lia)).
    rewrite (lor_aligned o) in Hq by (done || lia). lia.
Qed.

Lemma accept_rss_exact_witness :
  accept_vi_constraints (mk_nic EFHW_ARCH_EF10 [] 0 3) (-1) 4 false 8 = true /\
  accept_vi_constraints (mk_nic EFHW_ARCH_EF10 [] 0 4) (-1) 3 false 8 = false /\
  8 <= Z.lor 8 2 < 8 + 4.
Proof.
  assert (H : accept_vi_constraints (mk_nic EFHW_ARCH_EF10 [] 0 3) (-1) 4 false 8 = true) by reflexivity.
  split; [exact H|]. split; [reflexivity|].
  apply (accept_rss_exact (mk_nic EFHW_ARCH_EF10 [] 0 3) (-1) 4 8); cbn [arch rss_channel_count]; first [done|lia|vm_compute; done].
Defined.

(** With more channels than the block has instances the test says nothing of
    the entries in between: a set of two VIs at 8 passes on a NIC with ten
    channels, and entry 3 leads to VI 11. *)
Lemma accept_rss_admits_outside :
  accept_vi_constraints (mk_nic EFHW_ARCH_EF10 [] 0 10) (-1) 2 false 8 = true /\
  0 <= 3 < 10 /\ ~ (8 <= Z.lor 8 3 < 8 + 2).
Proof. split; [reflexivity|]. split; [lia|]. change (Z.lor 8 3) with 11. lia. Qed.

(** With no channels no set of more than one VI is ever accepted. *)
Lemma accept_rss_none nic ch m a : rss_channel_count nic = 0 -> 1 < m -> 0 <= a < 2 ^ 32 ->
  accept_vi_constraints nic ch m false a = false.
Proof.
  intros Hn Hm Ha. unfold accept_vi_constraints. destruct (Z.ltb_spec 1 m); [|lia]. cbn [negb andb].
  rewrite Hn. apply andb_false_iff. right. apply Z.ltb_ge.
  change (u32 (0 - 1)) with (Z.ones 32). rewrite Z.lor_ones_low; [|lia|].
  - unfold u32. pose proof (Z.mod_pos_bound (s32 (a + m)) 4294967296 ltac:(lia)). change (Z.ones 32) with 4294967295. lia.
  - destruct (decide (a = 0)) as [->|]; [done|]. apply Z.log2_lt_pow2; lia.
Qed.
