(* ===== verification/TimerWheel.v ===== *)
(** The timer wheels of the TCP/IP stack: lib/transport/ip/iptimer.c and
    include/ci/internal/iptimer.h.

    Timers pending are kept on the lists of four wheels of 256 buckets, indexed
    by the bytes of their expiry time; each tick runs the timers of one bucket of
    wheel 0 and, on wrap-around, spreads a bucket of a higher wheel over the one
    below.  The links of the buckets, of [fire_list] and of the timers live in
    one heap of pointers (file Dllist).  The callbacks of the protocol code are a
    parameter: a callback is a tree of calls to the timer interface ([calls]).
    This file holds the definitions and the arithmetic of wheels and buckets;
    file Iptimer has the invariant and the theorems. *)

From stdpp Require Import base gmap list.
From S2P Require Import Prelude Dllist.

Open Scope Z_scope.

(** Addresses of links: [&ipts->fire_list], [&ipts->warray[i]] and the link of
    timer [id]. *)
Inductive tptr := NULLP | FIRE | WARRAY (i : Z) | TIMER (id : Z).

#[global] Instance tptr_eq_dec : EqDecision tptr.
Proof. solve_decision. Defined.

#[global] Instance tptr_countable : Countable tptr.
Proof.
  refine (inj_countable'
    (fun p => match p with NULLP => inl () | FIRE => inr (inl ()) | WARRAY i => inr (inr (inl i))
              | TIMER i => inr (inr (inr i)) end)
    (fun s => match s with inl _ => NULLP | inr (inl _) => FIRE | inr (inr (inl i)) => WARRAY i
              | inr (inr (inr i)) => TIMER i end) _).
  by intros [].
Defined.

(** * State *)

(** [ci_ip_timer_state]; [links] is the memory of all links and [times] the
    [time] field of each timer. *)
Record ci_ip_timer_state := mk_ipts {
  sched_ticks : Z;
  ci_ip_time_real_ticks : Z;
  closest_timer : Z;
  frc : Z;
  ci_ip_time_frc2tick : Z;
  ci_ip_time_frc2us : Z;
  ci_ip_time_frc2isn : Z;
  khz : Z;
  ci_ip_time_ms2tick_fxp : Z;
  busy_mask : list Z;
  links : heap tptr;
  times : gmap Z Z }.

#[global] Instance ci_ip_timer_state_eta : Eta ci_ip_timer_state.
Proof.
  refine {| eta := fun r => mk_ipts (sched_ticks r) (ci_ip_time_real_ticks r) (closest_timer r) (frc r)
    (ci_ip_time_frc2tick r) (ci_ip_time_frc2us r) (ci_ip_time_frc2isn r) (khz r)
    (ci_ip_time_ms2tick_fxp r) (busy_mask r) (links r) (times r) |}. solve_eta.
Defined.

Definition TIME_LT (x y : Z) : bool := s32 (x - y) <? 0.
Definition TIME_LE (x y : Z) : bool := s32 (x - y) <=? 0.
Definition TIME_GT (x y : Z) : bool := 0 <? s32 (x - y).
Definition TIME_GE (x y : Z) : bool := 0 <=? s32 (x - y).

Definition CI_IPTIME_BUCKETS := 256.
Definition CI_IPTIME_BUCKETMASK := 255.
Definition CI_IPTIME_BUCKETBITS := 8.
Definition CI_IPTIME_WHEELSIZE := 4 * CI_IPTIME_BUCKETS.

Definition IPTIMER_BUCKETNO (wheelno abs : Z) : Z :=
  Z.land (Z.shiftr abs (wheelno * CI_IPTIME_BUCKETBITS)) CI_IPTIME_BUCKETMASK.

Definition IPTIMER_BUCKET (wheelno abs : Z) : tptr :=
  WARRAY (wheelno * CI_IPTIME_BUCKETS + IPTIMER_BUCKETNO wheelno abs).

(** The masks, as the unsigned values they take in [stime & mask]. *)
Definition IPTIMER_WHEEL2_MASK : Z := Z.shiftl CI_IPTIME_BUCKETMASK (CI_IPTIME_BUCKETBITS * 3).
Definition IPTIMER_WHEEL1_MASK : Z :=
  IPTIMER_WHEEL2_MASK + Z.shiftl CI_IPTIME_BUCKETMASK (CI_IPTIME_BUCKETBITS * 2).
Definition IPTIMER_WHEEL0_MASK : Z :=
  IPTIMER_WHEEL1_MASK + Z.shiftl CI_IPTIME_BUCKETMASK (CI_IPTIME_BUCKETBITS * 1).

(** * Operations on single timers *)

Definition __ci_timer_busy_set (time : Z) (st : ci_ip_timer_state) : ci_ip_timer_state :=
  let b := IPTIMER_BUCKETNO 0 time in
  st <| busy_mask ::= fun m => aset m (b / 64) (Z.lor (aget m (b / 64)) (Z.shiftl 1 (b mod 64))) |>.

Definition __ci_timer_busy_unset (time : Z) (st : ci_ip_timer_state) : ci_ip_timer_state :=
  let b := IPTIMER_BUCKETNO 0 time in
  st <| busy_mask ::= fun m => aset m (b / 64) (Z.ldiff (aget m (b / 64)) (Z.shiftl 1 (b mod 64))) |>.

Definition ci_timer_busy_maybe_unset (time : Z) (st : ci_ip_timer_state) : ci_ip_timer_state :=
  if negb (Z.land (sched_ticks st) IPTIMER_WHEEL0_MASK =? Z.land time IPTIMER_WHEEL0_MASK) then st
  else
    let b := IPTIMER_BUCKETNO 0 time in
    if oo_p_dllink_is_empty NULLP (WARRAY b) (links st) then __ci_timer_busy_unset time st else st.

(** [ts->time]; a timer never set reads as 0. *)
Definition ts_time (st : ci_ip_timer_state) (ts : Z) : Z := default 0 (times st !! ts).

Definition ci_ip_timer_clear (ts : Z) (st : ci_ip_timer_state) : ci_ip_timer_state :=
  let st := st <| links ::= oo_p_dllink_del_init NULLP (TIMER ts) |> in
  ci_timer_busy_maybe_unset (ts_time st ts) st.

Definition ci_ip_timer_pending (ts : Z) (st : ci_ip_timer_state) : bool :=
  negb (oo_p_dllink_is_empty NULLP (TIMER ts) (links st)).

(** The wheel a timer of time [t] belongs to. *)
Definition choose_wheel (stime t : Z) : Z :=
  if Z.land stime IPTIMER_WHEEL0_MASK =? Z.land t IPTIMER_WHEEL0_MASK then 0
  else if Z.land stime IPTIMER_WHEEL1_MASK =? Z.land t IPTIMER_WHEEL1_MASK then 1
  else if Z.land stime IPTIMER_WHEEL2_MASK =? Z.land t IPTIMER_WHEEL2_MASK then 2
  else 3.

Definition __ci_ip_timer_set (ts t : Z) (st : ci_ip_timer_state) : ci_ip_timer_state :=
  let stime := sched_ticks st in
  let st := st <| times ::= <[ts := t]> |> in
  let st := if TIME_LT t (closest_timer st) then st <| closest_timer := t |> else st in
  let w := choose_wheel stime t in
  let st := if w =? 0 then __ci_timer_busy_set t st else st in
  let bucket := IPTIMER_BUCKET w t in
  st <| links ::= oo_p_dllink_add_tail NULLP bucket (TIMER ts) |>.

Definition ci_ip_timer_set (ts t : Z) (st : ci_ip_timer_state) : ci_ip_timer_state :=
  __ci_ip_timer_set ts t st.

Definition ci_ip_timer_modify (ts t : Z) (st : ci_ip_timer_state) : ci_ip_timer_state :=
  let st := st <| links ::= oo_p_dllink_del NULLP (TIMER ts) |> in
  let st := ci_timer_busy_maybe_unset (ts_time st ts) st in
  __ci_ip_timer_set ts t st.

Definition ci_ip_timer_init (ts : Z) (st : ci_ip_timer_state) : ci_ip_timer_state :=
  st <| links ::= oo_p_dllink_init NULLP (TIMER ts) |>.

(** * Callbacks *)

(** What protocol code does with timers, as a tree of calls; [Pending] branches
    on the answer and [Ret] ends in a new state of the rest of the stack. *)
Inductive calls (W : Type) :=
| Ret (w : W)
| TimerInit (ts : Z) (k : calls W)
| TimerSet (ts t : Z) (k : calls W)
| TimerClear (ts : Z) (k : calls W)
| TimerModify (ts t : Z) (k : calls W)
| TimerPending (ts : Z) (k : bool -> calls W).
Arguments Ret {W} _.
Arguments TimerInit {W} _ _.
Arguments TimerSet {W} _ _ _.
Arguments TimerClear {W} _ _.
Arguments TimerModify {W} _ _ _.
Arguments TimerPending {W} _ _.

Section poll.
Context {W : Type}.

Fixpoint run_calls (c : calls W) (st : ci_ip_timer_state) : ci_ip_timer_state * W :=
  match c with
  | Ret w => (st, w)
  | TimerInit ts k => run_calls k (ci_ip_timer_init ts st)
  | TimerSet ts t k => run_calls k (ci_ip_timer_set ts t st)
  | TimerClear ts k => run_calls k (ci_ip_timer_clear ts st)
  | TimerModify ts t k => run_calls k (ci_ip_timer_modify ts t st)
  | TimerPending ts k => run_calls (k (ci_ip_timer_pending ts st)) st
  end.

(** The callback of timer [ts], given the scheduler's and the real time. *)
Context (docallback : Z -> Z -> Z -> W -> calls W).

Definition LINK2TIMER (l : tptr) : Z := match l with TIMER ts => ts | _ => 0 end.

(** * Polling *)

(** [while( ! OO_P_EQ(cur.p, lastp) )] *)
Fixpoint cascade_loop (fuel : nat) (wheelno : Z) (cur lastp : tptr) (changed : bool)
    (st : ci_ip_timer_state) : option (ci_ip_timer_state * bool) :=
  match fuel with
  | O => None
  | S fuel =>
    if decide (cur = lastp) then Some (st, changed)
    else
      let ts := LINK2TIMER cur in
      let cur := lnext NULLP (links st) cur in
      let bucket := IPTIMER_BUCKET (wheelno - 1) (ts_time st ts) in
      let st := st <| links ::= oo_p_dllink_add_tail NULLP bucket (TIMER ts) |> in
      let st := if wheelno =? 1 then __ci_timer_busy_set (ts_time st ts) st else st in
      cascade_loop fuel wheelno cur lastp true st
  end.

Definition ci_ip_timer_cascadewheel (wheelno stime : Z) (st : ci_ip_timer_state)
    : option (ci_ip_timer_state * bool) :=
  let bucket := IPTIMER_BUCKET wheelno stime in
  let cur := lnext NULLP (links st) bucket in
  let lastp := bucket in
  let st := st <| links ::= oo_p_dllink_init NULLP bucket |> in
  cascade_loop (S (size (times st))) wheelno cur lastp false st.

(** The cascade of one tick; [changed] is assigned by the last call only. *)
Definition cascade (stime : Z) (changed : bool) (st : ci_ip_timer_state)
    : option (ci_ip_timer_state * bool) :=
  if IPTIMER_BUCKETNO 0 stime =? 0 then
    st ← (if IPTIMER_BUCKETNO 1 stime =? 0 then
            st ← (if IPTIMER_BUCKETNO 2 stime =? 0 then
                    '(st, _) ← ci_ip_timer_cascadewheel 3 stime st; Some st
                  else Some st);
            '(st, _) ← ci_ip_timer_cascadewheel 2 stime st; Some st
          else Some st);
    ci_ip_timer_cascadewheel 1 stime st
  else Some (st, changed).

(** [while( ! oo_p_dllink_is_empty(netif, fire_list) )]; the timers that fire
    are appended to the trace with the tick at which they do. *)
Fixpoint fire_loop (fuel : nat) (st : ci_ip_timer_state) (w : W) (trace : list (Z * Z))
    : option (ci_ip_timer_state * W * list (Z * Z)) :=
  match fuel with
  | O => None
  | S fuel =>
    if negb (oo_p_dllink_is_empty NULLP FIRE (links st)) then
      let link := lnext NULLP (links st) FIRE in
      let st := st <| links ::= oo_p_dllink_del_init NULLP link |> in
      let ts := LINK2TIMER link in
      let '(st, w) := run_calls (docallback ts (sched_ticks st) (ci_ip_time_real_ticks st) w) st in
      fire_loop fuel st w (trace ++ [(sched_ticks st, ts)])
    else Some (st, w, trace)
  end.

(** One turn of the loop of [ci_ip_timer_poll]. *)
Definition poll_tick (st : ci_ip_timer_state) (w : W) (changed : bool) (trace : list (Z * Z))
    : option (ci_ip_timer_state * W * bool * list (Z * Z)) :=
  let stime := u32 (sched_ticks st + 1) in
  let st := st <| sched_ticks := stime |> in
  '(st, changed) ← cascade stime changed st;
  let bucket := WARRAY (IPTIMER_BUCKETNO 0 stime) in
  let st := st <| links ::= oo_p_dllink_splice NULLP bucket FIRE |> in
  let st := st <| links ::= oo_p_dllink_init NULLP bucket |> in
  let st := __ci_timer_busy_unset stime st in
  '(st, w, trace) ← fire_loop (S (size (times st))) st w trace;
  Some (st, w, changed, trace).

(** [while( TIME_LT(stime, rtime) )] *)
Fixpoint poll_loop (fuel : nat) (rtime : Z) (st : ci_ip_timer_state) (w : W) (changed : bool)
    (trace : list (Z * Z)) : option (ci_ip_timer_state * W * bool * list (Z * Z)) :=
  match fuel with
  | O => None
  | S fuel =>
    if TIME_LT (sched_ticks st) rtime then
      '(st, w, changed, trace) ← poll_tick st w changed trace;
      poll_loop fuel rtime st w changed trace
    else Some (st, w, changed, trace)
  end.

(** [ci_ffs64]: the number of the lowest bit set, from 1; 0 for 0. *)
Fixpoint ffs_loop (k : nat) (i : Z) (x : Z) : Z :=
  match k with
  | O => 0
  | S k => if Z.testbit x i then i + 1 else ffs_loop k (i + 1) x
  end.
Definition ci_ffs64 (x : Z) : Z := ffs_loop 64 0 x.

(** [for( ; i < 4; i++ ) if( ipts->busy_mask[i] != 0 ) ...] *)
Fixpoint busy_scan (k : nat) (i : Z) (base : Z) (mask : list Z) : option Z :=
  match k with
  | O => None
  | S k =>
    if i <? 4 then
      if negb (aget mask i =? 0) then Some (u32 (base + i * 64 + ci_ffs64 (aget mask i) - 1))
      else busy_scan k (i + 1) base mask
    else None
  end.

Definition update_closest (st : ci_ip_timer_state) : ci_ip_timer_state :=
  let base := Z.land (sched_ticks st) IPTIMER_WHEEL0_MASK in
  let b := u32 (sched_ticks st - base) in
  let i := b / 64 in
  match busy_scan 4 i base (busy_mask st) with
  | Some t => st <| closest_timer := t |>
  | None =>
    let st := st <| closest_timer := u32 (base + CI_IPTIME_BUCKETS) |> in
    if oo_p_dllink_is_empty NULLP (IPTIMER_BUCKET 1 (u32 (base + CI_IPTIME_BUCKETS))) (links st)
    then st <| closest_timer ::= fun c => u32 (c + CI_IPTIME_BUCKETS) |> else st
  end.

Definition ci_ip_time_now (st : ci_ip_timer_state) : Z := ci_ip_time_real_ticks st.

Definition ci_ip_timer_poll (st : ci_ip_timer_state) (w : W)
    : option (ci_ip_timer_state * W * list (Z * Z)) :=
  let rtime := ci_ip_time_now st in
  '(st, w, changed, trace) ←
    poll_loop (S (Z.to_nat (u32 (rtime - sched_ticks st)))) rtime st w false [];
  let st := if TIME_GE (sched_ticks st) (closest_timer st) || changed then update_closest st else st in
  Some (st, w, trace).

End poll.

(** * Time keeping *)

(** [shift_for_gran]: the shift from cycles to ticks of [G] microseconds. *)
Fixpoint gran_loop (fuel : nat) (tmp shft : Z) : Z :=
  match fuel with
  | O => shft
  | S fuel =>
    if Z.shiftl 1 shft <=? tmp then
      let shft := shft + 1 in
      if shft =? 31 then shft else gran_loop fuel tmp shft
    else shft
  end.

Definition shift_for_gran (G khz : Z) : Z :=
  let tmp := if G <? 1000 then u32 (khz / 1000 * G) else u32 (khz * (G / 1000)) in
  gran_loop 32 tmp 0.

Definition CI_IP_TIME_APP_GRANULARITY := 1000.

(** Initialisation (kernel build only).  The memory of the shared state is
    arbitrary but for [busy_mask], which the code does not write;
    [ci_tcp_timer_init], which sets the constants of the TCP code from the
    conversion factor, touches nothing here and is left out. *)
Definition init_wheel (k : nat) (h : heap tptr) : heap tptr :=
  foldl (fun h i => oo_p_dllink_init NULLP (WARRAY i) h) h (seqZ 0 (Z.of_nat k)).

Definition ci_ip_timer_state_init (tcp_isn_mode cpu_khz frc0 : Z) (ipts : ci_ip_timer_state)
    : ci_ip_timer_state :=
  let st := ipts <| khz := cpu_khz |> in
  let st := st <| ci_ip_time_frc2tick := shift_for_gran CI_IP_TIME_APP_GRANULARITY (khz st) |> in
  let st := st <| ci_ip_time_frc2us := shift_for_gran 1 (khz st) |> in
  let us2isn := if negb (tcp_isn_mode =? 0) then 2 else 4 in
  let st := st <| ci_ip_time_frc2isn :=
                    if us2isn <? ci_ip_time_frc2us st then ci_ip_time_frc2us st - us2isn else 0 |> in
  let st := st <| frc := frc0 |>
               <| ci_ip_time_real_ticks := u32 (Z.shiftr frc0 (ci_ip_time_frc2tick st)) |> in
  let st := st <| sched_ticks := ci_ip_time_now st |> in
  let st := st <| closest_timer := u32 (sched_ticks st + 2 * CI_IPTIME_BUCKETS) |> in
  let st := st <| ci_ip_time_ms2tick_fxp :=
                    u64 (Z.shiftl (khz st) 32) / Z.shiftl 1 (ci_ip_time_frc2tick st) |> in
  let st := st <| links ::= oo_p_dllink_init NULLP FIRE |> in
  st <| links ::= init_wheel (Z.to_nat CI_IPTIME_WHEELSIZE) |>.

Definition ci_ip_time_update (new_frc : Z) (its : ci_ip_timer_state) : ci_ip_timer_state :=
  if frc its <=? new_frc then
    its <| ci_ip_time_real_ticks := u32 (Z.shiftr new_frc (ci_ip_time_frc2tick its)) |>
        <| frc := new_frc |>
  else its.

Definition ci_ip_time_ms2ticks (its : ci_ip_timer_state) (t : Z) : Z :=
  let t := u32 (Z.shiftr (u64 (t * ci_ip_time_ms2tick_fxp its)) 32) in
  if nz t then t else 1.

Definition ci_ip_time_ticks2ms (its : ci_ip_timer_state) (t : Z) : Z :=
  u32 (u64 (Z.shiftl t 32) / ci_ip_time_ms2tick_fxp its).

Definition ci_ip_time_freq_hz2tick (its : ci_ip_timer_state) (hz : Z) : Z :=
  u32 (u64 (Z.shiftl hz 22) / ci_ip_time_ms2tick_fxp its).

(** * Wheels and buckets in arithmetic *)

Definition is_u32 (z : Z) : Prop := 0 <= z < 4294967296.

Lemma high_mask j s : 0 <= j <= 32 -> is_u32 s ->
  Z.land s (Z.shiftl (Z.ones (32 - j)) j) = s / 2 ^ j * 2 ^ j.
Proof.
  intros Hj Hs. replace s with (Z.lor (Z.shiftl (s / 2 ^ j) j) (s mod 2 ^ j)) at 1.
  2: { rewrite lor_shiftl_add; [|lia|apply Z.mod_pos_bound, Z.pow_pos_nonneg; lia].
       rewrite Z.mul_comm. symmetry. apply Z.div_mod. pose proof (Z.pow_pos_nonneg 2 j). lia. }
  apply Z.bits_inj'. intros i Hi. rewrite Z.land_spec, Z.lor_spec, !Z.shiftl_spec by done.
  rewrite <- Z.shiftl_mul_pow2, Z.shiftl_spec by lia.
  destruct (decide (i < j)) as [Hij|Hij].
  - rewrite !(Z.testbit_neg_r _ (i - j)) by lia. by rewrite andb_false_r.
  - rewrite Z.mod_pow2_bits_high by lia. rewrite orb_false_r.
    destruct (decide (i < 32)) as [Hi32|Hi32].
    + rewrite Z.ones_spec_low by lia. by rewrite andb_true_r.
    + rewrite Z.ones_spec_high by lia. rewrite andb_false_r. symmetry.
      rewrite <- Z.shiftr_div_pow2, Z.shiftr_spec by lia. replace (i - j + j) with i by lia.
      unfold is_u32 in Hs. destruct (decide (s = 0)) as [->|]; [apply Z.testbit_0_l|].
      apply Z.bits_above_log2; [lia|]. apply Z.lt_le_trans with 32; [|lia].
      apply Z.log2_lt_pow2; [lia|]. change (2 ^ 32) with 4294967296. lia.
Qed.

Lemma mask0 s : is_u32 s -> Z.land s IPTIMER_WHEEL0_MASK = s / 256 * 256.
Proof. apply (high_mask 8). lia. Qed.
Lemma mask1 s : is_u32 s -> Z.land s IPTIMER_WHEEL1_MASK = s / 65536 * 65536.
Proof. apply (high_mask 16). lia. Qed.
Lemma mask2 s : is_u32 s -> Z.land s IPTIMER_WHEEL2_MASK = s / 16777216 * 16777216.
Proof. apply (high_mask 24). lia. Qed.

Lemma choose_wheel_eq s t : is_u32 s -> is_u32 t ->
  choose_wheel s t =
    if s / 256 =? t / 256 then 0 else if s / 65536 =? t / 65536 then 1
    else if s / 16777216 =? t / 16777216 then 2 else 3.
Proof.
  intros Hs Ht. unfold choose_wheel. rewrite !mask0, !mask1, !mask2 by done.
  assert (E : forall q a b, 0 < q -> (a * q =? b * q) = (a =? b)).
  { intros q a b Hq. destruct (Z.eqb_spec a b) as [->|]; [apply Z.eqb_refl|]. apply Z.eqb_neq. nia. }
  by rewrite !E by lia.
Qed.

Lemma bucketno_eq w t : 0 <= w -> IPTIMER_BUCKETNO w t = t / 2 ^ (w * 8) mod 256.
Proof.
  intros Hw. unfold IPTIMER_BUCKETNO, CI_IPTIME_BUCKETBITS. rewrite Z.shiftr_div_pow2 by lia.
  change CI_IPTIME_BUCKETMASK with (Z.ones 8). by rewrite Z.land_ones by lia.
Qed.

(** The place of a timer of time [t] when the scheduler is at [s] and the
    wheels below [k] are yet to be filled from wheel [k]. *)
Definition home (k s t : Z) : Z :=
  let w := Z.max (choose_wheel s t) k in w * 256 + IPTIMER_BUCKETNO w t.

Lemma choose_wheel_range s t : 0 <= choose_wheel s t <= 3.
Proof. unfold choose_wheel. repeat case_match; lia. Qed.

Lemma bucketno_range w t : 0 <= w -> 0 <= IPTIMER_BUCKETNO w t < 256.
Proof. intros Hw. rewrite bucketno_eq by done. apply Z.mod_pos_bound. lia. Qed.

Lemma home_range k s t : 0 <= k <= 3 -> 0 <= home k s t < 1024.
Proof.
  intros Hk. unfold home. pose proof (choose_wheel_range s t).
  pose proof (bucketno_range (Z.max (choose_wheel s t) k) t). lia.
Qed.

(** Linear arithmetic with division by constants. *)
Ltac div_lia := Z.to_euclidean_division_equations; lia.

(** Case analysis on the integer tests of the goal. *)
Ltac eqb_cases :=
  repeat match goal with |- context [?a =? ?b] => destruct (Z.eqb_spec a b) end; cbn [negb].

Lemma home0 s t : home 0 s t = choose_wheel s t * 256 + IPTIMER_BUCKETNO (choose_wheel s t) t.
Proof. unfold home. pose proof (choose_wheel_range s t). by replace (Z.max (choose_wheel s t) 0) with (choose_wheel s t) by lia. Qed.

Lemma home_low s t : home 0 s t < 256 -> choose_wheel s t = 0 /\ home 0 s t = IPTIMER_BUCKETNO 0 t.
Proof.
  rewrite home0. intros Hlt. pose proof (choose_wheel_range s t).
  pose proof (bucketno_range (choose_wheel s t) t ltac:(lia)).
  assert (E : choose_wheel s t = 0) by lia. rewrite E in *. split; [done|lia].
Qed.

Lemma home_same k s t : 0 <= k -> k < choose_wheel s t -> home (k + 1) s t = home k s t.
Proof. intros Hk Hw. unfold home. by replace (Z.max (choose_wheel s t) (k + 1)) with (Z.max (choose_wheel s t) k) by lia. Qed.

Lemma home_below k s t : choose_wheel s t <= k -> home k s t = k * 256 + IPTIMER_BUCKETNO k t.
Proof. intros Hw. unfold home. by replace (Z.max (choose_wheel s t) k) with k by lia. Qed.

(** The bucket emptied at [s] holds the timers that belong further down. *)
Lemma home_bucket k s t : 1 <= k <= 3 -> is_u32 s -> is_u32 t ->
  home k s t = k * 256 + IPTIMER_BUCKETNO k s <-> choose_wheel s t < k.
Proof.
  intros Hk Hs Ht. pose proof (choose_wheel_range s t) as Hw. split.
  - intros E. destruct (decide (choose_wheel s t <= k)) as [Hle|Hgt].
    + rewrite home_below in E by done. apply Z.add_reg_l in E. rewrite !bucketno_eq in E by lia.
      revert Hle. rewrite choose_wheel_eq by done. unfold is_u32 in *.
      assert (k = 1 \/ k = 2 \/ k = 3) as [-> | [-> | ->]] by lia;
        [change (2 ^ (1 * 8)) with 256 in E|change (2 ^ (2 * 8)) with 65536 in E
        |change (2 ^ (3 * 8)) with 16777216 in E]; eqb_cases; div_lia.
    + unfold home in E. replace (Z.max (choose_wheel s t) k) with (choose_wheel s t) in E by lia.
      pose proof (bucketno_range (choose_wheel s t) t). pose proof (bucketno_range k s). lia.
  - intros Hlt. rewrite home_below by lia. f_equal. rewrite !bucketno_eq by lia.
    revert Hlt. rewrite choose_wheel_eq by done. unfold is_u32 in *.
    assert (k = 1 \/ k = 2 \/ k = 3) as [-> | [-> | ->]] by lia;
      [change (2 ^ (1 * 8)) with 256|change (2 ^ (2 * 8)) with 65536
      |change (2 ^ (3 * 8)) with 16777216]; eqb_cases; div_lia.
Qed.

(** [t] is at [s] or less than half the range of the clock after it. *)
Definition ahead (s t : Z) : Prop := u32 (t - s) < 2147483648.
Definition after (s t : Z) : Prop := ahead s t /\ t <> s.

(** How far up the wheels must be emptied when the clock reaches [s]. *)
Definition levels (s : Z) : Z :=
  if negb (s mod 256 =? 0) then 0 else if negb (s mod 65536 =? 0) then 1
  else if negb (s mod 16777216 =? 0) then 2 else 3.

Lemma tick_quotient now t s q : is_u32 now -> is_u32 t -> after now t -> s = u32 (now + 1) ->
  q = 256 \/ q = 65536 \/ q = 16777216 ->
  if s mod q =? 0 then now / q <> t / q else now / q = s / q.
Proof.
  intros Hn Ht [Ha Hne] -> Hq. unfold ahead, u32, is_u32 in *.
  destruct Hq as [-> | [-> | ->]]; eqb_cases; div_lia.
Qed.

Lemma nested_mod s : (s mod 65536 = 0 -> s mod 256 = 0) /\ (s mod 16777216 = 0 -> s mod 65536 = 0).
Proof. split; div_lia. Qed.

Lemma nested_div s t : (s / 256 = t / 256 -> s / 65536 = t / 65536) /\
  (s / 65536 = t / 65536 -> s / 16777216 = t / 16777216).
Proof. split; div_lia. Qed.

Lemma home_tick now t : is_u32 now -> is_u32 t -> after now t ->
  let s := u32 (now + 1) in
  home 0 now t = home (levels s) s t /\ ahead s t.
Proof.
  intros Hn Ht Ha s. assert (Hs : is_u32 s) by (apply Z.mod_pos_bound; lia).
  pose proof (tick_quotient now t s 256 Hn Ht Ha eq_refl ltac:(lia)) as Q0.
  pose proof (tick_quotient now t s 65536 Hn Ht Ha eq_refl ltac:(lia)) as Q1.
  pose proof (tick_quotient now t s 16777216 Hn Ht Ha eq_refl ltac:(lia)) as Q2.
  split.
  - clear Ha. clearbody s. unfold home.
    replace (Z.max (choose_wheel now t) 0) with (choose_wheel now t)
      by (pose proof (choose_wheel_range now t); lia).
    replace (Z.max (choose_wheel s t) (levels s)) with (choose_wheel now t); [done|].
    rewrite !choose_wheel_eq by done. unfold levels.
    destruct (nested_mod s) as [M1 M2], (nested_div s t) as [D1 D2]. revert Q0 Q1 Q2.
    eqb_cases; intros; try done; exfalso; intuition congruence.
  - destruct Ha as [Ha Hne]. unfold ahead, s, u32, is_u32 in *. clear -Ha Hne Hn Ht. div_lia.
Qed.

Lemma home_due s t : is_u32 s -> is_u32 t -> home 0 s t = IPTIMER_BUCKETNO 0 s <-> t = s.
Proof.
  intros Hs Ht. unfold home. pose proof (choose_wheel_range s t).
  replace (Z.max (choose_wheel s t) 0) with (choose_wheel s t) by lia. split.
  - intros E. pose proof (bucketno_range (choose_wheel s t) t). pose proof (bucketno_range 0 s).
    assert (Hw : choose_wheel s t = 0) by lia. rewrite Hw in E. rewrite !bucketno_eq in E by lia.
    revert Hw. rewrite choose_wheel_eq by done. change (2 ^ (0 * 8)) with 1 in E. rewrite !Z.div_1_r in E.
    unfold is_u32 in *. eqb_cases; div_lia.
  - intros ->. rewrite choose_wheel_eq by done. by rewrite Z.eqb_refl.
Qed.
