(* ===== verification/Iptimer.v ===== *)
(** The timer wheels of file TimerWheel, verified.

    [rep h f F I]: the pointers hold the timers [f i] in bucket [i], [F] on the
    fire list, and link the idle timers [I] to themselves.  [winv] adds where
    each pending timer is and what the bit mask says; it is parameterised by
    the wheel being emptied ([k]), since a tick passes through states in which
    the lower wheels are yet to be filled, and by the timers in hand ([X]). *)

From stdpp Require Import base gmap list sorting.
From S2P Require Import Prelude Dllist TimerWheel.

Open Scope Z_scope.

(** * The lists *)

Abbreviation upd := (fun (i : Z) (l : list Z) (f : Z -> list Z) (j : Z) => if decide (i = j) then l else f j).

#[local] Instance TIMER_inj : Inj (=) (=) TIMER.
Proof. by intros ?? [=]. Qed.

Lemma TIMER_in id (l : list Z) : TIMER id ∈ TIMER <$> l <-> id ∈ l.
Proof. rewrite list_elem_of_fmap. split; [by intros (? & [= ->] & ?)|by exists id]. Qed.

Lemma timers_nil (l : list Z) : TIMER <$> l = [] <-> l = [].
Proof. by destruct l. Qed.

(** The lists of the heap, by their anchors. *)
Record lay (L : gmap tptr (list tptr)) (f : Z -> list Z) (F : list Z) (I : gset Z) : Prop := mk_lay {
  lay_fire : L !! FIRE = Some (TIMER <$> F);
  lay_bucket i : L !! WARRAY i = if decide (0 <= i < 1024) then Some (TIMER <$> f i) else None;
  lay_idle id : L !! TIMER id = if decide (id ∈ I) then Some [] else None;
  lay_null : L !! NULLP = None }.

Definition rep (h : heap tptr) (f : Z -> list Z) (F : list Z) (I : gset Z) : Prop :=
  exists L, dlls NULLP h L /\ lay L f F I.

(** On no list and not linked to itself. *)
Definition loose (id : Z) (f : Z -> list Z) (F : list Z) (I : gset Z) : Prop :=
  id ∉ I /\ id ∉ F /\ forall i, 0 <= i < 1024 -> id ∉ f i.

Section rep.
Context (h : heap tptr) (f : Z -> list Z) (F : list Z) (I : gset Z).

Lemma loose_fresh L id : lay L f F I -> loose id f F I -> fresh (TIMER id) L.
Proof.
  intros HL (HI & HF & Hf) a l Ha. destruct a as [| |i|id'].
  - by rewrite (lay_null _ _ _ _ HL) in Ha.
  - rewrite (lay_fire _ _ _ _ HL) in Ha. injection Ha as <-. rewrite not_elem_of_cons, TIMER_in. done.
  - rewrite (lay_bucket _ _ _ _ HL) in Ha. case_decide; [|done]. injection Ha as <-.
    rewrite not_elem_of_cons, TIMER_in. by split; [|apply Hf].
  - rewrite (lay_idle _ _ _ _ HL) in Ha. case_decide; [|done]. injection Ha as <-.
    rewrite list_elem_of_singleton. by intros [= ->].
Qed.

Lemma rep_bucket_empty i : rep h f F I -> 0 <= i < 1024 ->
  oo_p_dllink_is_empty NULLP (WARRAY i) h = bool_decide (f i = []).
Proof.
  intros (L & [Hd _] & HL) Hi. assert (E := lay_bucket _ _ _ _ HL i). rewrite decide_True in E by done.
  etrans; [apply (dll_empty NULLP _ _ _ (Hd _ _ E))|]. apply bool_decide_ext. by rewrite timers_nil.
Qed.

Lemma rep_fire_empty : rep h f F I -> oo_p_dllink_is_empty NULLP FIRE h = bool_decide (F = []).
Proof.
  intros (L & [Hd _] & HL).
  etrans; [apply (dll_empty NULLP _ _ _ (Hd _ _ (lay_fire _ _ _ _ HL)))|].
  apply bool_decide_ext. by rewrite timers_nil.
Qed.

Lemma rep_fire_head id F' : rep h f F I -> F = id :: F' -> lnext NULLP h FIRE = TIMER id.
Proof.
  intros (L & [Hd _] & HL) ->. apply (dll_next_cons NULLP _ _ _ _ (Hd _ _ (lay_fire _ _ _ _ HL))).
Qed.

Lemma rep_idle id : rep h f F I -> id ∈ I -> lnext NULLP h (TIMER id) = TIMER id /\ lprev NULLP h (TIMER id) = TIMER id.
Proof.
  intros (L & [Hd _] & HL) HI. assert (E := lay_idle _ _ _ _ HL id). rewrite decide_True in E by done.
  by destruct (Hd _ _ E) as [_ ?].
Qed.

Lemma rep_nodup i : rep h f F I -> 0 <= i < 1024 -> NoDup (f i).
Proof.
  intros (L & [Hd _] & HL) Hi. assert (E := lay_bucket _ _ _ _ HL i). rewrite decide_True in E by done.
  destruct (Hd _ _ E) as [Hnd _]. apply NoDup_cons in Hnd as [_ Hnd]. by apply NoDup_fmap_1 in Hnd.
Qed.

Lemma rep_fire_nodup : rep h f F I -> NoDup F.
Proof.
  intros (L & [Hd _] & HL). destruct (Hd _ _ (lay_fire _ _ _ _ HL)) as [Hnd _].
  apply NoDup_cons in Hnd as [_ Hnd]. by apply NoDup_fmap_1 in Hnd.
Qed.

(** A timer on a list is not linked to itself. *)
Lemma rep_listed id : rep h f F I -> (id ∈ F \/ exists i, 0 <= i < 1024 /\ id ∈ f i) ->
  lnext NULLP h (TIMER id) <> TIMER id /\ exists L, dlls NULLP h L /\ lay L f F I /\ member (TIMER id) L.
Proof.
  intros (L & Hd & HL) Hid.
  assert (Ha : exists a l, L !! a = Some l /\ TIMER id ∈ l).
  { destruct Hid as [HF|(i & Hi & Hf)].
    - exists FIRE, (TIMER <$> F). split; [apply HL|by apply TIMER_in].
    - exists (WARRAY i), (TIMER <$> f i). rewrite (lay_bucket _ _ _ _ HL), decide_True by done.
      split; [done|by apply TIMER_in]. }
  destruct Ha as (a & l & Ha & Hl). split; [|exists L; split_and!; [done..|by exists a, l]].
  destruct (proj1 Hd _ _ Ha) as [Hnd Hp]. intros E.
  apply list_elem_of_split in Hl as (l1 & l2 & ->). apply path_app in Hp as [_ Hp].
  apply NoDup_cons in Hnd as [Hna Hnd]. apply NoDup_app in Hnd as (_ & _ & Hnd).
  apply NoDup_cons in Hnd as [Hn2 _]. destruct l2 as [|y l2].
  - destruct Hp as [Hp _]. rewrite E in Hp. subst a. apply Hna. mem.
  - destruct Hp as [Hp _]. rewrite E in Hp. subst y. apply Hn2. mem.
Qed.

End rep.

(** ** What the list calls do *)

Section rep_ops.
Context (h : heap tptr) (f : Z -> list Z) (F : list Z) (I : gset Z).

Lemma rep_drop id : rep h f F I -> rep h f F (I ∖ {[id]}).
Proof.
  intros (L & [Hd Hx] & HL). exists (delete (TIMER id) L). split.
  - split.
    + intros a l [_ Ha]%lookup_delete_Some. by apply Hd.
    + intros a b l m x [_ Ha]%lookup_delete_Some [_ Hb]%lookup_delete_Some. by apply (Hx a b l m x).
  - destruct HL as [H1 H2 H3 H4]. constructor.
    + by rewrite lookup_delete_ne.
    + intros i. rewrite lookup_delete_ne by done. apply H2.
    + intros id'. destruct (decide (id = id')) as [<-|].
      * rewrite lookup_delete_eq, decide_False by set_solver. done.
      * rewrite lookup_delete_ne by congruence. rewrite H3. apply decide_ext. set_solver.
    + by rewrite lookup_delete_ne.
Qed.

Lemma rep_init id : rep h f F I -> loose id f F I -> rep (oo_p_dllink_init NULLP (TIMER id) h) f F (I ∪ {[id]}).
Proof.
  intros (L & Hd & HL) Hid. pose proof (loose_fresh f F I L id HL Hid) as Hfr.
  exists (<[TIMER id := []]> L). split.
  - apply (dl_step NULLP h L (OoInit (TIMER id)) _ NULLP Hd). cbn. by rewrite option_guard_True.
  - destruct HL as [H1 H2 H3 H4]. constructor.
    + by rewrite lookup_insert_ne.
    + intros i. rewrite lookup_insert_ne by done. apply H2.
    + intros id'. destruct (decide (id = id')) as [<-|].
      * rewrite lookup_insert_eq, decide_True by set_solver. done.
      * rewrite lookup_insert_ne by congruence. rewrite H3. apply decide_ext. set_solver.
    + by rewrite lookup_insert_ne.
Qed.

Lemma rep_add i id : rep h f F I -> 0 <= i < 1024 -> loose id f F I ->
  rep (oo_p_dllink_add_tail NULLP (WARRAY i) (TIMER id) h) (upd i (f i ++ [id]) f) F I.
Proof.
  intros (L & Hd & HL) Hi Hid. pose proof (loose_fresh f F I L id HL Hid) as Hfr.
  pose proof (lay_bucket _ _ _ _ HL i) as E. rewrite decide_True in E by done.
  exists (<[WARRAY i := (TIMER <$> f i) ++ [TIMER id]]> L). split.
  - apply (dl_step NULLP h L (OoAddTail (WARRAY i) (TIMER id)) _ NULLP Hd). cbn. rewrite E. cbn.
    by rewrite option_guard_True.
  - destruct HL as [H1 H2 H3 H4]. constructor.
    + by rewrite lookup_insert_ne.
    + intros j. destruct (decide (i = j)) as [<-|].
      * rewrite lookup_insert_eq, !decide_True by done. by rewrite fmap_app.
      * rewrite lookup_insert_ne by congruence. apply H2.
    + intros id'. rewrite lookup_insert_ne by done. apply H3.
    + by rewrite lookup_insert_ne.
Qed.

Lemma rep_splice i : rep h f F I -> F = [] -> 0 <= i < 1024 ->
  rep (oo_p_dllink_init NULLP (WARRAY i) (oo_p_dllink_splice NULLP (WARRAY i) FIRE h))
    (upd i [] f) (f i) I.
Proof.
  intros (L & Hd & HL) HF Hi. pose proof (lay_bucket _ _ _ _ HL i) as E. rewrite decide_True in E by done.
  pose proof (lay_fire _ _ _ _ HL) as E'. rewrite HF in E'.
  exists (<[WARRAY i := []]> (<[FIRE := TIMER <$> f i]> L)). split.
  - apply (dl_step NULLP h L (OoSpliceInit (WARRAY i) FIRE) _ NULLP Hd). cbn. rewrite E', E. cbn.
    by rewrite option_guard_True.
  - destruct HL as [H1 H2 H3 H4]. constructor.
    + rewrite lookup_insert_ne by done. by rewrite lookup_insert_eq.
    + intros j. destruct (decide (i = j)) as [<-|].
      * rewrite lookup_insert_eq, !decide_True by done. done.
      * rewrite lookup_insert_ne, lookup_insert_ne by congruence. apply H2.
    + intros id'. rewrite !lookup_insert_ne by done. apply H3.
    + by rewrite !lookup_insert_ne.
Qed.

Lemma TIMER_without id (l : list Z) : TIMER <$> without id l = without (TIMER id) (TIMER <$> l).
Proof.
  induction l as [|c l IH]; [done|]. unfold without in *. cbn [fmap list_fmap].
  destruct (decide (c = id)) as [->|].
  - rewrite !filter_cons_False by naive_solver. done.
  - rewrite !filter_cons_True by naive_solver. cbn. by rewrite IH.
Qed.

Lemma rep_ext g G J : rep h f F I -> (forall i, 0 <= i < 1024 -> f i = g i) -> F = G -> I = J -> rep h g G J.
Proof.
  intros (L & Hd & HL) Hg <- <-. exists L. split; [done|]. destruct HL as [H1 H2 H3 H4]. constructor; [done| |done..].
  intros i. rewrite H2. case_decide; [|done]. by rewrite Hg.
Qed.

Lemma idle_unlisted id : rep h f F I -> id ∈ I -> id ∉ F /\ forall i, 0 <= i < 1024 -> id ∉ f i.
Proof.
  intros Hr HI. destruct (rep_idle h f F I id Hr HI) as [Hn _]. split.
  - intros HF. by apply (rep_listed h f F I id Hr (or_introl HF)).
  - intros i Hi Hf. by apply (rep_listed h f F I id Hr (or_intror (ex_intro _ i (conj Hi Hf)))).
Qed.

Lemma rep_del_listed id : rep h f F I -> id ∈ F \/ (exists i, 0 <= i < 1024 /\ id ∈ f i) ->
  rep (oo_p_dllink_del NULLP (TIMER id) h) (fun i => without id (f i)) (without id F) I.
Proof.
  intros Hr Hid. destruct (rep_listed h f F I id Hr Hid) as (_ & L & Hd & HL & Hm).
  exists (without (TIMER id) <$> L). split.
  - apply (dl_step NULLP h L (OoDel (TIMER id)) _ NULLP Hd). cbn. by rewrite option_guard_True.
  - destruct HL as [H1 H2 H3 H4]. constructor.
    + rewrite lookup_fmap, H1. cbn. by rewrite TIMER_without.
    + intros i. rewrite lookup_fmap, H2. case_decide; [|done]. cbn. by rewrite TIMER_without.
    + intros id'. rewrite lookup_fmap, H3. by case_decide.
    + by rewrite lookup_fmap, H4.
Qed.

Lemma del_idle id : rep h f F I -> id ∈ I -> rep (oo_p_dllink_del NULLP (TIMER id) h) f F I.
Proof.
  intros Hr HI. destruct (rep_idle h f F I id Hr HI) as [Hn Hp]. destruct Hr as (L & Hd & HL).
  exists L. split; [|done]. apply (dlls_ext NULLP h); [|done]. intros y. unfold oo_p_dllink_del.
  rewrite Hn, Hp. split; heap_read; rewrite ?Hn, ?Hp; heap_read; repeat case_decide; congruence.
Qed.
(** Taking a timer off whatever list it is on; an idle one stays as it is. *)
Lemma rep_unlink id : rep h f F I ->
  id ∈ I \/ id ∈ F \/ (exists i, 0 <= i < 1024 /\ id ∈ f i) ->
  rep (oo_p_dllink_del NULLP (TIMER id) h) (fun i => without id (f i)) (without id F) I.
Proof.
  intros Hr [HI|Hid]; [|by apply rep_del_listed].
  destruct (idle_unlisted id Hr HI) as [HF Hf]. destruct (del_idle id Hr HI) as (L & Hd & HL).
  exists L. split; [done|]. destruct HL as [H1 H2 H3 H4]. constructor; [by rewrite without_notin| |done..].
  intros i. rewrite H2. case_decide; [|done]. by rewrite without_notin by auto.
Qed.

End rep_ops.

Lemma elem_of_without (x y : Z) l : y ∈ without x l <-> y ∈ l /\ y <> x.
Proof. unfold without. rewrite list_elem_of_filter. tauto. Qed.

Lemma without_loose id f F (I : gset Z) : loose id (fun i => without id (f i)) (without id F) (I ∖ {[id]}).
Proof. split_and!; [set_solver|by intros [_ ?]%elem_of_without|by intros i _ [_ ?]%elem_of_without]. Qed.

(** [oo_p_dllink_del_init] *)
Lemma rep_clear h f F I id : rep h f F I ->
  id ∈ I \/ id ∈ F \/ (exists i, 0 <= i < 1024 /\ id ∈ f i) ->
  rep (oo_p_dllink_del_init NULLP (TIMER id) h) (fun i => without id (f i)) (without id F) (I ∪ {[id]}).
Proof.
  intros Hr Hid. apply (rep_unlink h f F I id) in Hr; [|done]. apply (rep_drop _ _ _ _ id) in Hr.
  apply (rep_init _ _ _ _ id) in Hr; [|apply without_loose].
  apply (rep_ext _ _ _ _ _ _ (I ∪ {[id]}) Hr); [done..|]. apply leibniz_equiv. intros x.
  rewrite !elem_of_union, elem_of_difference, elem_of_singleton. destruct (decide (x = id)); tauto.
Qed.

(** * The mask of busy buckets *)

Definition mbit (m : list Z) (b : Z) : bool := Z.testbit (aget m (b / 64)) (b mod 64).

Definition mask_ok (m : list Z) : Prop :=
  length m = 4%nat /\ forall i, 0 <= i < 4 -> 0 <= aget m i < 2 ^ 64.

(** The bit of each bucket of wheel 0 says whether it holds a timer. *)
Definition busy (m : list Z) (f : Z -> list Z) : Prop :=
  mask_ok m /\ forall b, 0 <= b < 256 -> mbit m b = bool_decide (f b <> []).

Lemma word_split b : 0 <= b < 256 -> 0 <= b / 64 < 4 /\ 0 <= b mod 64 < 64.
Proof. intros. div_lia. Qed.

Lemma word_inj b c : b / 64 = c / 64 -> b mod 64 = c mod 64 -> b = c.
Proof. intros. div_lia. Qed.

Lemma mbit_write m b v c : mask_ok m -> 0 <= b < 256 -> 0 <= c < 256 ->
  (forall i, 0 <= i < 64 -> i <> b mod 64 -> Z.testbit v i = Z.testbit (aget m (b / 64)) i) ->
  mbit (aset m (b / 64) v) c = if decide (c = b) then Z.testbit v (b mod 64) else mbit m c.
Proof.
  intros [Hl _] Hb Hc Hv. destruct (word_split b Hb), (word_split c Hc). unfold mbit.
  destruct (decide (c / 64 = b / 64)) as [E|E].
  - rewrite E, aget_aset_eq by lia. destruct (decide (c = b)) as [->|Hne]; [done|].
    apply Hv; [lia|]. intros E'. by apply Hne, word_inj.
  - rewrite aget_aset_ne by lia. rewrite decide_False; [done|]. by intros ->.
Qed.

Lemma mask_ok_write m b v : mask_ok m -> 0 <= b < 256 -> 0 <= v < 2 ^ 64 -> mask_ok (aset m (b / 64) v).
Proof.
  intros [Hl Hm] Hb Hv. destruct (word_split b Hb). split; [by rewrite length_aset|].
  intros i Hi. destruct (decide (i = b / 64)) as [->|]; [rewrite aget_aset_eq by lia; done|].
  rewrite aget_aset_ne by lia. by apply Hm.
Qed.

(** Setting and clearing the bit of a bucket. *)
Lemma mask_set m b : mask_ok m -> 0 <= b < 256 ->
  let m' := aset m (b / 64) (Z.lor (aget m (b / 64)) (Z.shiftl 1 (b mod 64))) in
  mask_ok m' /\ forall c, 0 <= c < 256 -> mbit m' c = if decide (c = b) then true else mbit m c.
Proof.
  intros Hm Hb. destruct (word_split b Hb). cbv zeta. rewrite Z.shiftl_1_l.
  pose proof (proj2 Hm (b / 64) ltac:(lia)) as Hw.
  assert (Hbit : forall i, 0 <= i -> Z.testbit (Z.lor (aget m (b / 64)) (2 ^ (b mod 64))) i =
    Z.testbit (aget m (b / 64)) i || (b mod 64 =? i)).
  { intros i Hi. by rewrite Z.lor_spec, Z.pow2_bits_eqb by lia. }
  split.
  - apply mask_ok_write; [done..|]. assert (0 <= 2 ^ (b mod 64)) by (apply Z.pow_nonneg; lia).
    assert (0 <= Z.lor (aget m (b / 64)) (2 ^ (b mod 64))) by (apply Z.lor_nonneg; split; [apply Hw|done]).
    split; [done|]. apply lt_pow2_bits; [done|lia|].
    intros i Hi. rewrite Hbit by lia. rewrite (pow2_bits_above _ 64) by lia.
    destruct (Z.eqb_spec (b mod 64) i); [lia|done].
  - intros c Hc. rewrite mbit_write; [|done..|].
    + case_decide; [|done]. rewrite Hbit by lia. by rewrite Z.eqb_refl, orb_true_r.
    + intros i Hi Hne. rewrite Hbit by lia. destruct (Z.eqb_spec (b mod 64) i); [lia|]. by rewrite orb_false_r.
Qed.

Lemma mask_unset m b : mask_ok m -> 0 <= b < 256 ->
  let m' := aset m (b / 64) (Z.ldiff (aget m (b / 64)) (Z.shiftl 1 (b mod 64))) in
  mask_ok m' /\ forall c, 0 <= c < 256 -> mbit m' c = if decide (c = b) then false else mbit m c.
Proof.
  intros Hm Hb. destruct (word_split b Hb). cbv zeta. rewrite Z.shiftl_1_l.
  pose proof (proj2 Hm (b / 64) ltac:(lia)) as Hw.
  assert (Hbit : forall i, 0 <= i -> Z.testbit (Z.ldiff (aget m (b / 64)) (2 ^ (b mod 64))) i =
    Z.testbit (aget m (b / 64)) i && negb (b mod 64 =? i)).
  { intros i Hi. by rewrite Z.ldiff_spec, Z.pow2_bits_eqb by lia. }
  split.
  - apply mask_ok_write; [done..|].
    assert (0 <= Z.ldiff (aget m (b / 64)) (2 ^ (b mod 64))) by (apply Z.ldiff_nonneg; left; apply Hw).
    split; [done|]. apply lt_pow2_bits; [done|lia|].
    intros i Hi. rewrite Hbit by lia. by rewrite (pow2_bits_above _ 64) by lia.
  - intros c Hc. rewrite mbit_write; [|done..|].
    + case_decide; [|done]. rewrite Hbit by lia. by rewrite Z.eqb_refl, andb_false_r.
    + intros i Hi Hne. rewrite Hbit by lia. destruct (Z.eqb_spec (b mod 64) i); [lia|]. by rewrite andb_true_r.
Qed.

Lemma busy_set t st f g : busy (busy_mask st) f -> g (IPTIMER_BUCKETNO 0 t) <> [] ->
  (forall b, 0 <= b < 256 -> b <> IPTIMER_BUCKETNO 0 t -> g b = f b) ->
  busy (busy_mask (__ci_timer_busy_set t st)) g.
Proof.
  intros [Hm Hb] Hg Hgf. pose proof (bucketno_range 0 t ltac:(lia)) as Hr.
  destruct (mask_set (busy_mask st) _ Hm Hr) as [Hm' Hb']. split; [exact Hm'|].
  intros c Hc. etrans; [apply (Hb' c Hc)|]. case_decide as E.
  - subst c. symmetry. by apply bool_decide_eq_true_2.
  - by rewrite Hgf, Hb.
Qed.

Lemma busy_unset t st f g : busy (busy_mask st) f -> g (IPTIMER_BUCKETNO 0 t) = [] ->
  (forall b, 0 <= b < 256 -> b <> IPTIMER_BUCKETNO 0 t -> g b = f b) ->
  busy (busy_mask (__ci_timer_busy_unset t st)) g.
Proof.
  intros [Hm Hb] Hg Hgf. pose proof (bucketno_range 0 t ltac:(lia)) as Hr.
  destruct (mask_unset (busy_mask st) _ Hm Hr) as [Hm' Hb']. split; [exact Hm'|].
  intros c Hc. etrans; [apply (Hb' c Hc)|]. case_decide as E.
  - subst c. symmetry. apply bool_decide_eq_false_2. naive_solver.
  - by rewrite Hgf, Hb.
Qed.

(** * The invariant *)

(** Bucket [i] holds the pending timers at home there, but for those in hand
    ([X]) and those about to fire ([F]). *)
Definition placed_by (k : Z) (X F : list Z) (s : Z) (P : gmap Z Z) (f : Z -> list Z) : Prop :=
  forall i id, 0 <= i < 1024 ->
    id ∈ f i <-> exists t, P !! id = Some t /\ id ∉ X /\ id ∉ F /\ home k s t = i.

Definition idle (T : gset Z) (P : gmap Z Z) (X : list Z) : gset Z := T ∖ dom P ∖ list_to_set X.

(** [T] is the set of timers initialised and [P] maps those pending to their
    time. *)
Record winv (k : Z) (X F : list Z) (st : ci_ip_timer_state) (T : gset Z) (P : gmap Z Z) : Prop := mk_winv {
  wi_sched : is_u32 (sched_ticks st);
  wi_lists : exists f, rep (links st) f F (idle T P X) /\ placed_by k X F (sched_ticks st) P f /\
    busy (busy_mask st) f;
  wi_dom : dom P ⊆ T;
  wi_time id t : P !! id = Some t ->
    times st !! id = Some t /\ is_u32 t /\ ahead (sched_ticks st) t;
  wi_fire id : id ∈ F -> P !! id = Some (sched_ticks st) }.

(** The timers due are those on the fire list. *)
Definition all_fire (F : list Z) (st : ci_ip_timer_state) (P : gmap Z Z) : Prop :=
  forall id, P !! id = Some (sched_ticks st) -> id ∈ F.

Lemma elem_of_idle T P X id : id ∈ idle T P X <-> id ∈ T /\ P !! id = None /\ id ∉ X.
Proof.
  unfold idle. rewrite !elem_of_difference, not_elem_of_dom, elem_of_list_to_set. tauto.
Qed.

Lemma idle_insert T P id t : idle T (<[id := t]> P) [] = idle T P [id].
Proof. unfold idle. rewrite dom_insert_L. set_solver. Qed.

Lemma idle_delete T P id : id ∈ T -> idle T (delete id P) [] = idle T P [] ∪ {[id]}.
Proof.
  intros HT. apply leibniz_equiv. intros x. unfold idle. rewrite dom_delete_L.
  destruct (decide (x = id)) as [->|]; set_solver.
Qed.

Lemma idle_delete_hand T P id : idle T (delete id P) [id] = idle T P [] ∖ {[id]}.
Proof. unfold idle. rewrite dom_delete_L. apply leibniz_equiv. intros x.
  destruct (decide (x = id)) as [->|]; set_solver. Qed.

(** Where a timer is. *)
Lemma winv_where k F st T P f id : 0 <= k <= 3 ->
  placed_by k [] F (sched_ticks st) P f -> id ∈ T ->
  id ∈ idle T P [] \/ id ∈ F \/ exists i, 0 <= i < 1024 /\ id ∈ f i.
Proof.
  intros Hk Hp HT. destruct (P !! id) as [t|] eqn:E.
  - right. destruct (decide (id ∈ F)) as [|HF]; [by left|]. right.
    exists (home k (sched_ticks st) t). pose proof (home_range k (sched_ticks st) t Hk). split; [done|].
    apply Hp; [done|]. exists t. split_and!; [done|apply not_elem_of_nil|done..].
  - left. apply elem_of_idle. split_and!; [done..|apply not_elem_of_nil].
Qed.

(** The mask after a timer of time [t] went from [f]. *)
Lemma busy_maybe_unset t st f f' F I : rep (links st) f' F I -> busy (busy_mask st) f ->
  (forall b, 0 <= b < 256 -> f' b <> f b -> choose_wheel (sched_ticks st) t = 0 /\ b = IPTIMER_BUCKETNO 0 t) ->
  (forall b, 0 <= b < 256 -> f' b <> [] -> f b <> []) ->
  busy (busy_mask (ci_timer_busy_maybe_unset t st)) f'.
Proof.
  intros Hr Hb Hne Hsub. unfold ci_timer_busy_maybe_unset.
  pose proof (bucketno_range 0 t ltac:(lia)) as Hr0.
  assert (Hsame : forall b, 0 <= b < 256 -> b <> IPTIMER_BUCKETNO 0 t -> f' b = f b).
  { intros b Hb0 Hbne. destruct (decide (f' b = f b)) as [|Hd]; [done|].
    by destruct (Hne b Hb0 Hd). }
  unfold choose_wheel in Hne. destruct (Z.land (sched_ticks st) _ =? _); cbn [negb].
  - rewrite (rep_bucket_empty _ _ _ _ _ Hr) by lia. case_bool_decide as E.
    + by apply (busy_unset t st f).
    + split; [apply Hb|]. intros b Hb0. rewrite (proj2 Hb b Hb0). apply bool_decide_ext.
      destruct (decide (b = IPTIMER_BUCKETNO 0 t)) as [->|Hbne]; [|by rewrite Hsame].
      split; [done|]. intros _. by apply Hsub.
  - split; [apply Hb|]. intros b Hb0. rewrite (proj2 Hb b Hb0). apply bool_decide_ext.
    destruct (decide (f' b = f b)) as [->|Hd]; [done|]. destruct (Hne b Hb0 Hd) as [E _]. exfalso.
    revert E. repeat case_match; done.
Qed.

Lemma maybe_unset_same t st : let st' := ci_timer_busy_maybe_unset t st in
  sched_ticks st' = sched_ticks st /\ links st' = links st /\ times st' = times st /\
  closest_timer st' = closest_timer st /\ ci_ip_time_real_ticks st' = ci_ip_time_real_ticks st /\
  frc st' = frc st /\ ci_ip_time_frc2tick st' = ci_ip_time_frc2tick st.
Proof. cbv zeta. unfold ci_timer_busy_maybe_unset. by repeat case_match. Qed.

Lemma ts_time_some st id t : times st !! id = Some t -> ts_time st id = t.
Proof. intros E. unfold ts_time. by rewrite E. Qed.

Lemma without_incl (id x : Z) l : x ∈ without id l -> x ∈ l.
Proof. by intros [? _]%elem_of_without. Qed.

Lemma without_nonempty (id : Z) l : without id l <> [] -> l <> [].
Proof. intros Hw ->. by apply Hw. Qed.

(** Taking timer [id] off its list: [h'] is the heap after, [X] the timers in
    hand then. *)
Lemma winv_unlink F st T P id h' X :
  winv 0 [] F st T P -> id ∈ T -> X = [] \/ X = [id] ->
  (forall f, rep (links st) f F (idle T P []) -> (id ∈ idle T P [] \/ id ∈ F \/ exists i, 0 <= i < 1024 /\ id ∈ f i) ->
     rep h' (fun i => without id (f i)) (without id F) (idle T (delete id P) X)) ->
  winv 0 X (without id F) (ci_timer_busy_maybe_unset (ts_time st id) (st <| links := h' |>)) T (delete id P).
Proof.
  intros [Hs (f & Hr & Hp & Hb) HT Ht HF] Hid HX Hrep.
  specialize (Hrep f Hr (winv_where 0 F st T P f id ltac:(lia) Hp Hid)).
  set (st1 := st <| links := h' |>).
  destruct (maybe_unset_same (ts_time st id) st1) as (E1 & E2 & E3 & _).
  constructor.
  - by rewrite E1.
  - exists (fun i => without id (f i)). rewrite E1, E2. split_and!; [done| |].
    + intros i id' Hi. rewrite elem_of_without, (Hp i id' Hi).
      setoid_rewrite lookup_delete_Some. setoid_rewrite elem_of_without. split.
      * intros [(t & ? & _ & ? & ?) Hne]. exists t. split_and!; [congruence|done| |tauto|done].
        destruct HX as [-> | ->]; [apply not_elem_of_nil|by rewrite list_elem_of_singleton].
      * intros (t & [Hne ?] & _ & HnF & ?). split; [|done]. exists t. split_and!; [done|apply not_elem_of_nil| |done].
        intros ?. apply HnF. done.
    + apply (busy_maybe_unset _ st1 f _ _ _ Hrep Hb).
      * intros b Hb0 Hd. destruct (decide (id ∈ f b)) as [Hin|Hni]; [|by rewrite without_notin in Hd].
        apply Hp in Hin as (t & Hpt & _ & _ & Hh); [|lia]. destruct (Ht id t Hpt) as (Htm & _).
        rewrite (ts_time_some _ _ _ Htm). change (sched_ticks st1) with (sched_ticks st).
        destruct (home_low (sched_ticks st) t) as [? ?]; [lia|]. split; [done|congruence].
      * intros b _. apply without_nonempty.
  - rewrite dom_delete_L. set_solver.
  - intros id' t [_ Hpt]%lookup_delete_Some. rewrite E1, E3. by apply Ht.
  - intros id' [HF' Hne]%elem_of_without. rewrite lookup_delete_ne by done. rewrite E1. by apply HF.
Qed.

(** The mask when a timer of time [t] joins bucket [b]. *)
Lemma busy_join b t id st st2 f : 0 <= b -> busy (busy_mask st) f ->
  (if b <? 256 then b = IPTIMER_BUCKETNO 0 t /\ busy_mask st2 = busy_mask (__ci_timer_busy_set t st)
   else busy_mask st2 = busy_mask st) ->
  busy (busy_mask st2) (upd b (f b ++ [id]) f).
Proof.
  intros Hb0 Hb. destruct (Z.ltb_spec b 256) as [Hlt|Hge].
  - intros [-> ->]. apply (busy_set t st f); [done|..].
    + rewrite decide_True by done. by destruct (f _).
    + intros c _ Hc. by rewrite decide_False.
  - intros ->. split; [apply Hb|]. intros c Hc. rewrite decide_False by lia. by apply Hb.
Qed.

(** Putting a timer in hand on the wheels; [st2] is the state but for the link. *)
Lemma winv_place j X F st st2 T P id t :
  winv j (id :: X) F st T P -> 0 <= j <= 3 -> P !! id = Some t -> id ∉ X -> id ∉ F ->
  sched_ticks st2 = sched_ticks st -> links st2 = links st -> times st2 = times st ->
  (if home j (sched_ticks st) t <? 256
   then home j (sched_ticks st) t = IPTIMER_BUCKETNO 0 t /\ busy_mask st2 = busy_mask (__ci_timer_busy_set t st)
   else busy_mask st2 = busy_mask st) ->
  winv j X F (st2 <| links ::= oo_p_dllink_add_tail NULLP (WARRAY (home j (sched_ticks st) t)) (TIMER id) |>) T P.
Proof.
  intros [Hs (f & Hr & Hp & Hb) HT Ht HF] Hj Hid HX HnF E1 E2 E3 Hbm.
  set (s := sched_ticks st) in *. pose proof (home_range j s t Hj) as Hh.
  constructor; cbn; rewrite ?E1, ?E2, ?E3; [done| |done..].
  exists (upd (home j s t) (f (home j s t) ++ [id]) f). split_and!.
  - assert (EI : idle T P (id :: X) = idle T P X).
    { apply leibniz_equiv. intros x. rewrite !elem_of_idle, not_elem_of_cons. naive_solver. }
    rewrite EI in Hr. apply rep_add; [done..|]. split_and!; [|done|].
    + rewrite elem_of_idle. intros (_ & ? & _). congruence.
    + intros i Hi (t' & _ & Hn & _)%Hp; [|done]. apply Hn. by left.
  - intros i id' Hi. cbn beta. destruct (decide (home j s t = i)) as [<-|Hne].
    + rewrite elem_of_app, list_elem_of_singleton, (Hp _ _ Hi). split.
      * intros [(t' & ? & [_ ?]%not_elem_of_cons & ? & ?)| ->]; [by exists t'|by exists t].
      * intros (t' & ? & ? & ? & ?). destruct (decide (id' = id)) as [->|]; [by right|left].
        exists t'. by rewrite not_elem_of_cons.
    + rewrite (Hp _ _ Hi). split; intros (t' & ? & HX' & ? & ?); exists t'.
      * by apply not_elem_of_cons in HX' as [_ ?].
      * rewrite not_elem_of_cons. split_and!; try done. intros ->. congruence.
  - apply (busy_join _ t id st); [lia|done..].
Qed.

Lemma home_wheel0 s t : (home 0 s t <? 256) = (choose_wheel s t =? 0).
Proof.
  destruct (Z.ltb_spec (home 0 s t) 256) as [Hlt|Hge].
  - destruct (home_low s t Hlt) as [-> _]. done.
  - symmetry. apply Z.eqb_neq. intros E. rewrite home0, E in Hge. pose proof (bucketno_range 0 t). lia.
Qed.

(** [__ci_ip_timer_set] on a timer in hand. *)
Lemma winv_insert F st T P id t :
  winv 0 [id] F st T P -> id ∈ T -> P !! id = None -> is_u32 t -> after (sched_ticks st) t ->
  winv 0 [] F (__ci_ip_timer_set id t st) T (<[id := t]> P).
Proof.
  intros [Hs (f & Hr & Hp & Hb) HT Ht HF] Hid Hnone Hu [Ha Hne].
  assert (HnF : id ∉ F) by (intros E; apply HF in E; congruence).
  assert (Hw : winv 0 [id] F (st <| times ::= <[id := t]> |>) T (<[id := t]> P)).
  { constructor; cbn.
    - done.
    - exists f. split_and!; [| |done].
      + apply (rep_ext _ _ _ _ _ _ _ Hr); [done..|]. rewrite <- idle_insert with (t := t).
        apply leibniz_equiv. intros x. rewrite !elem_of_idle, list_elem_of_singleton, lookup_insert_None.
        pose proof (not_elem_of_nil x). naive_solver.
      + intros i id' Hi. rewrite (Hp i id' Hi).
        split; intros (t' & Hl & Hx & ? & ?); exists t'; rewrite list_elem_of_singleton in *;
          (split_and!; [|done..]); [by rewrite lookup_insert_ne|by rewrite lookup_insert_ne in Hl].
    - rewrite dom_insert_L. set_solver.
    - intros id' t' [[<- <-]|[? Hl]]%lookup_insert_Some; [by rewrite lookup_insert_eq|].
      rewrite lookup_insert_ne by done. by apply Ht.
    - intros id' HF'. rewrite lookup_insert_ne; [by apply HF|]. by intros <-. }
  set (st1 := st <| times ::= <[id := t]> |>) in Hw.
  unfold __ci_ip_timer_set. fold st1. cbv zeta. unfold IPTIMER_BUCKET.
  change CI_IPTIME_BUCKETS with 256. rewrite <- home0.
  apply (winv_place 0 [] F st1 _ T _ id t Hw ltac:(lia)).
  - apply lookup_insert_eq.
  - apply not_elem_of_nil.
  - done.
  - by destruct (TIME_LT _ _), (_ =? 0).
  - by destruct (TIME_LT _ _), (_ =? 0).
  - by destruct (TIME_LT _ _), (_ =? 0).
  - change (sched_ticks st1) with (sched_ticks st). rewrite home_wheel0.
    destruct (Z.eqb_spec (choose_wheel (sched_ticks st) t) 0) as [E|E].
    + split; [rewrite home0, E; lia|]. by destruct (TIME_LT _ _).
    + by destruct (TIME_LT _ _).
Qed.

(** * The timer interface *)

Lemma winv_clear F st T P id : winv 0 [] F st T P -> id ∈ T ->
  winv 0 [] (without id F) (ci_ip_timer_clear id st) T (delete id P).
Proof.
  intros Hw Hid. apply (winv_unlink F st T P id (oo_p_dllink_del_init NULLP (TIMER id) (links st)) []);
    [done..|by left|].
  intros f Hr Hwh. rewrite idle_delete by done. by apply rep_clear.
Qed.

Lemma winv_hold F st T P id : winv 0 [] F st T P -> P !! id = None -> winv 0 [id] F st T P.
Proof.
  intros [Hs (f & Hr & Hp & Hb) HT Ht HF] Hn. constructor; [done| |done..].
  exists f. split_and!; [| |done].
  - apply (rep_drop _ _ _ _ id) in Hr. apply (rep_ext _ _ _ _ _ _ _ Hr); [done..|]. unfold idle. set_solver.
  - intros i id' Hi. rewrite (Hp i id' Hi). split; intros (t & Hl & _ & ? & ?); exists t;
      (split_and!; [done| |done..]); [|apply not_elem_of_nil].
    rewrite list_elem_of_singleton. intros ->. congruence.
Qed.

Lemma winv_set F st T P id t : winv 0 [] F st T P -> id ∈ T -> P !! id = None -> is_u32 t ->
  after (sched_ticks st) t -> winv 0 [] F (ci_ip_timer_set id t st) T (<[id := t]> P).
Proof. intros. apply winv_insert; [by apply winv_hold|done..]. Qed.

Lemma winv_modify F st T P id t : winv 0 [] F st T P -> id ∈ T -> is_u32 t ->
  after (sched_ticks st) t -> winv 0 [] (without id F) (ci_ip_timer_modify id t st) T (<[id := t]> P).
Proof.
  intros Hw Hid Hu Ha. rewrite <- insert_delete_eq.
  pose proof (winv_unlink F st T P id (oo_p_dllink_del NULLP (TIMER id) (links st)) [id] Hw Hid) as Hu1.
  destruct (maybe_unset_same (ts_time st id) (st <| links := oo_p_dllink_del NULLP (TIMER id) (links st) |>))
    as (E & _).
  apply winv_insert; [|done|by rewrite lookup_delete_eq|done|].
  - apply Hu1; [by right|]. intros f Hr Hwh. rewrite idle_delete_hand.
    apply rep_drop. by apply rep_unlink.
  - exact (eq_ind_r (fun s => after s t) Ha E).
Qed.

Lemma winv_timer_init F st T P id : winv 0 [] F st T P -> P !! id = None ->
  winv 0 [] F (ci_ip_timer_init id st) (T ∪ {[id]}) P.
Proof.
  intros [Hs (f & Hr & Hp & Hb) HT Ht HF] Hn. constructor; cbn; [done| |set_solver|done..].
  exists f. split_and!; [|done..]. apply (rep_drop _ _ _ _ id) in Hr.
  apply (rep_init _ _ _ _ id) in Hr.
  - apply (rep_ext _ _ _ _ _ _ _ Hr); [done..|]. apply leibniz_equiv. intros x.
    rewrite elem_of_union, elem_of_difference, elem_of_singleton, !elem_of_idle, elem_of_union, elem_of_singleton.
    destruct (decide (x = id)) as [->|]; [|tauto]. split; [|tauto]. intros _.
    split_and!; [by right|done|apply not_elem_of_nil].
  - split_and!; [set_solver|..].
    + intros H. apply HF in H. congruence.
    + intros i Hi (t & ? & _)%Hp; [congruence|done].
Qed.

Lemma winv_pending k F st T P id : 0 <= k <= 3 -> winv k [] F st T P -> id ∈ T ->
  ci_ip_timer_pending id st = bool_decide (is_Some (P !! id)).
Proof.
  intros Hk [Hs (f & Hr & Hp & Hb) HT Ht HF] Hid. unfold ci_ip_timer_pending, oo_p_dllink_is_empty.
  destruct (P !! id) as [t|] eqn:E.
  - rewrite bool_decide_eq_false_2; [done|]. apply (rep_listed _ _ _ _ id Hr).
    destruct (winv_where k F st T P f id Hk Hp Hid) as [HI|?]; [|done].
    apply elem_of_idle in HI as (_ & ? & _). congruence.
  - rewrite bool_decide_eq_true_2; [done|]. apply (rep_idle _ _ _ _ id Hr).
    apply elem_of_idle. split_and!; [done..|apply not_elem_of_nil].
Qed.

(** What does not change. *)
Definition clock_of (st : ci_ip_timer_state) : Z * Z * Z :=
  (ci_ip_time_real_ticks st, frc st, ci_ip_time_frc2tick st).
Definition same_clock (st st' : ci_ip_timer_state) : Prop :=
  sched_ticks st' = sched_ticks st /\ clock_of st' = clock_of st.

Lemma clock_real st st' : clock_of st' = clock_of st -> ci_ip_time_real_ticks st' = ci_ip_time_real_ticks st.
Proof. by intros [=]. Qed.

Lemma timer_set_clock id t st : same_clock st (__ci_ip_timer_set id t st).
Proof. unfold __ci_ip_timer_set. by destruct (TIME_LT _ _), (_ =? 0). Qed.

Lemma maybe_unset_clock t st h : same_clock st (ci_timer_busy_maybe_unset t (st <| links := h |>)).
Proof.
  destruct (maybe_unset_same t (st <| links := h |>)) as (? & _ & _ & _ & ? & ? & ?).
  split; [done|]. unfold clock_of. by f_equal; [f_equal|].
Qed.

#[global] Instance same_clock_trans : Transitive same_clock.
Proof. intros ??? [??] [??]. split; congruence. Qed.

(** ** The calls on the abstract state *)

#[global] Instance after_dec s t : Decision (after s t).
Proof. unfold after, ahead. apply _. Defined.

#[global] Instance is_u32_dec z : Decision (is_u32 z).
Proof. unfold is_u32. apply _. Defined.

Section abstract.
Context {W : Type}.

(** The same calls on the set of timers and the map of those pending; [None] is
    a call that breaks the rules of the interface: a timer that was not
    initialised, a pending timer set or initialised again, a time that is not in
    the future. *)
Fixpoint a_calls (now : Z) (c : calls W) (T : gset Z) (P : gmap Z Z) : option (gset Z * gmap Z Z * W) :=
  match c with
  | Ret w => Some (T, P, w)
  | TimerInit ts k => guard (P !! ts = None);; a_calls now k (T ∪ {[ts]}) P
  | TimerSet ts t k => guard (ts ∈ T /\ P !! ts = None /\ is_u32 t /\ after now t);;
      a_calls now k T (<[ts := t]> P)
  | TimerClear ts k => guard (ts ∈ T);; a_calls now k T (delete ts P)
  | TimerModify ts t k => guard (ts ∈ T /\ is_u32 t /\ after now t);; a_calls now k T (<[ts := t]> P)
  | TimerPending ts k => guard (ts ∈ T);; a_calls now (k (bool_decide (is_Some (P !! ts)))) T P
  end.

(** The state a client or a callback leaves. *)
Definition settled (F : list Z) (st : ci_ip_timer_state) (T : gset Z) (P : gmap Z Z) : Prop :=
  winv 0 [] F st T P /\ all_fire F st P.

Lemma settled_clock F st st' T P : same_clock st st' -> winv 0 [] F st' T P ->
  (forall id, P !! id = Some (sched_ticks st) -> id ∈ F) -> settled F st' T P.
Proof. intros [E _] Hw Hf. split; [done|]. unfold all_fire. by rewrite E. Qed.

Lemma run_calls_settled c F st T P T' P' w :
  settled F st T P -> a_calls (sched_ticks st) c T P = Some (T', P', w) ->
  exists st' F', run_calls c st = (st', w) /\ same_clock st st' /\ settled F' st' T' P' /\
    (length F' <= length F)%nat.
Proof.
  revert F st T P. induction c as [w0|ts k IH|ts t k IH|ts k IH|ts t k IH|ts k IH]; intros F st T P [Hw Hf] E;
    cbn in E |- *.
  - injection E as <- <- <-. by exists st, F.
  - case_guard as Hn; [|done]. cbn in E. apply (IH F (ci_ip_timer_init ts st) (T ∪ {[ts]}) P); [|done].
    apply (settled_clock F st); [done| |done]. by apply winv_timer_init.
  - case_guard as Hg; [|done]. destruct Hg as (HT & Hn & Hu & Ha). cbn in E.
    assert (Hc : same_clock st (ci_ip_timer_set ts t st)) by apply timer_set_clock.
    destruct (IH F (ci_ip_timer_set ts t st) T (<[ts := t]> P)) as (st' & F' & ? & ? & ? & ?).
    + apply (settled_clock F st); [done|by apply winv_set|].
      intros id [[<- ->]|[_ ?]]%lookup_insert_Some; [by destruct Ha|by apply Hf].
    + by rewrite (proj1 Hc).
    + exists st', F'. split_and!; [done|by etrans|done|done].
  - case_guard as HT; [|done]. cbn in E.
    assert (Hc : same_clock st (ci_ip_timer_clear ts st)) by
      apply (maybe_unset_clock (ts_time st ts) st (oo_p_dllink_del_init NULLP (TIMER ts) (links st))).
    destruct (IH (without ts F) (ci_ip_timer_clear ts st) T (delete ts P)) as (st' & F' & ? & ? & ? & ?).
    + apply (settled_clock _ st); [done|by apply winv_clear|].
      intros id [? ?]%lookup_delete_Some. apply elem_of_without. split; [by apply Hf|congruence].
    + by rewrite (proj1 Hc).
    + exists st', F'. split_and!; [done|by etrans|done|]. etrans; [done|]. apply length_filter.
  - case_guard as Hg; [|done]. destruct Hg as (HT & Hu & Ha). cbn in E.
    assert (Hc : same_clock st (ci_ip_timer_modify ts t st)).
    { etrans; [apply (maybe_unset_clock (ts_time st ts) st (oo_p_dllink_del NULLP (TIMER ts) (links st)))|].
      apply timer_set_clock. }
    destruct (IH (without ts F) (ci_ip_timer_modify ts t st) T (<[ts := t]> P)) as (st' & F' & ? & ? & ? & ?).
    + apply (settled_clock _ st); [done|by apply winv_modify|].
      intros id [[<- ->]|[? ?]]%lookup_insert_Some; [by destruct Ha|]. apply elem_of_without.
      split; [by apply Hf|congruence].
    + by rewrite (proj1 Hc).
    + exists st', F'. split_and!; [done|by etrans|done|]. etrans; [done|]. apply length_filter.
  - case_guard as HT; [|done]. cbn in E. rewrite (winv_pending 0 F st T P ts) by (done || lia).
    by apply (IH _ F st T P).
Qed.

End abstract.

(** * Emptying a bucket of a higher wheel *)

(** Following [next] from [x] one meets the links [l] and then [z]. *)
Fixpoint chain (h : heap tptr) (x : tptr) (l : list tptr) (z : tptr) : Prop :=
  match l with
  | [] => x = z
  | y :: l => x = y /\ chain h (lnext NULLP h y) l z
  end.

Lemma path_chain h a l z : path NULLP h a l z -> chain h (lnext NULLP h a) l z.
Proof.
  revert a. induction l as [|y l IH]; intros a; cbn; [by intros [? _]|].
  intros (Hn & _ & Hp). split; [done|]. by apply IH.
Qed.

Lemma chain_frame h h' x l z : (forall y, y ∈ l -> lnext NULLP h' y = lnext NULLP h y) ->
  chain h x l z -> chain h' x l z.
Proof.
  revert x. induction l as [|y l IH]; intros x Hf; cbn; [done|]. intros [-> Hc]. split; [done|].
  rewrite Hf by left. apply IH; [|done]. intros w Hw. apply Hf. by right.
Qed.

Lemma rep_cut h f F I i : rep h f F I -> 0 <= i < 1024 ->
  rep (oo_p_dllink_init NULLP (WARRAY i) h) (upd i [] f) F I /\
  chain (oo_p_dllink_init NULLP (WARRAY i) h) (lnext NULLP h (WARRAY i)) (TIMER <$> f i) (WARRAY i).
Proof.
  intros (L & Hd & HL) Hi. pose proof (lay_bucket _ _ _ _ HL i) as E. rewrite decide_True in E by done. split.
  - exists (<[WARRAY i := []]> (delete (WARRAY i) L)). split.
    + apply (dl_step NULLP h (delete (WARRAY i) L) (OoInit (WARRAY i)) _ NULLP).
      * destruct Hd as [H1 H2]. split.
        -- intros a l [_ Ha]%lookup_delete_Some. by apply H1.
        -- intros a b l m x [_ Ha]%lookup_delete_Some [_ Hb]%lookup_delete_Some. by apply (H2 a b l m x).
      * cbn. rewrite option_guard_True; [done|]. intros a l [Hne Ha]%lookup_delete_Some Hin. apply Hne.
        by apply (proj2 Hd (WARRAY i) a (TIMER <$> f i) l (WARRAY i)); [..|left|].
    + rewrite insert_delete_eq. destruct HL as [H1 H2 H3 H4]. constructor.
      * by rewrite lookup_insert_ne.
      * intros j. destruct (decide (i = j)) as [<-|]; [by rewrite lookup_insert_eq, decide_True|].
        rewrite lookup_insert_ne by congruence. apply H2.
      * intros id. rewrite lookup_insert_ne by done. apply H3.
      * by rewrite lookup_insert_ne.
  - apply (chain_frame h).
    + intros y (id & -> & _)%list_elem_of_fmap. unfold oo_p_dllink_init. heap_read. by rewrite decide_False.
    + apply path_chain. apply (proj1 Hd _ _ E).
Qed.

Lemma rep_add_next h f F I i id id' : rep h f F I -> 0 <= i < 1024 -> id' <> id -> id' ∉ f i ->
  lnext NULLP (oo_p_dllink_add_tail NULLP (WARRAY i) (TIMER id) h) (TIMER id') = lnext NULLP h (TIMER id').
Proof.
  intros (L & Hd & HL) Hi Hne Hf. pose proof (lay_bucket _ _ _ _ HL i) as E. rewrite decide_True in E by done.
  pose proof (dll_prev_in NULLP _ _ _ (WARRAY i) (proj1 Hd _ _ E) ltac:(left)) as Hp.
  unfold oo_p_dllink_add_tail, __oo_p_dllink_add. heap_read. rewrite !decide_False; [done|congruence|].
  intros Ep. rewrite <- Ep in Hp. apply elem_of_cons in Hp as [?|Hp]; [done|]. by apply TIMER_in in Hp.
Qed.

Lemma pending_count (X : list Z) (m : gmap Z Z) : NoDup X -> (forall id, id ∈ X -> is_Some (m !! id)) ->
  (length X <= size m)%nat.
Proof.
  intros Hnd HX. rewrite <- (size_list_to_set (C := gset Z) X) by done. rewrite <- size_dom.
  apply subseteq_size. intros id Hid%elem_of_list_to_set. apply elem_of_dom. by apply HX.
Qed.

(** What the cascade leaves alone. *)
Definition same_rest (st st' : ci_ip_timer_state) : Prop :=
  same_clock st st' /\ times st' = times st /\ closest_timer st' = closest_timer st.

Lemma same_rest_trans st1 st2 st3 : same_rest st1 st2 -> same_rest st2 st3 -> same_rest st1 st3.
Proof. intros ([??] & ? & ?) ([??] & ? & ?). split_and!; [split|..]; congruence. Qed.

Lemma cascade_loop_spec k T P lastp X : 1 <= k <= 3 -> (forall id, lastp <> TIMER id) ->
  forall fuel st cur changed,
  winv (k - 1) X [] st T P -> chain (links st) cur (TIMER <$> X) lastp -> NoDup X ->
  (forall id, id ∈ X -> exists t, P !! id = Some t /\ choose_wheel (sched_ticks st) t < k) ->
  (length X < fuel)%nat ->
  exists st', cascade_loop fuel k cur lastp changed st = Some (st', changed || bool_decide (X <> [])) /\
    winv (k - 1) [] [] st' T P /\ same_rest st st'.
Proof.
  intros Hk Hlast. induction X as [|id X IH]; intros fuel st cur changed Hw Hc Hnd HX Hfuel;
    (destruct fuel as [|fuel]; [cbn in Hfuel; lia|]); cbn [cascade_loop].
  { cbn in Hc. subst cur. rewrite decide_True by done. rewrite orb_false_r. by exists st. }
  apply NoDup_cons in Hnd as [HidX Hnd]. destruct Hc as [-> Hc].
  rewrite decide_False by (intros E; by apply (Hlast id)). cbn [LINK2TIMER].
  destruct (HX id ltac:(left)) as (t & Hid & Hwh).
  destruct (wi_time _ _ _ _ _ _ Hw id t Hid) as (Htm & Hu & _).
  rewrite (ts_time_some _ _ _ Htm). set (s := sched_ticks st) in *.
  assert (Eh : IPTIMER_BUCKET (k - 1) t = WARRAY (home (k - 1) s t)) by (by rewrite home_below by lia).
  rewrite Eh.
  set (st1 := st <| links ::= oo_p_dllink_add_tail NULLP (WARRAY (home (k - 1) s t)) (TIMER id) |>).
  assert (Et1 : ts_time st1 id = t) by (apply ts_time_some; exact Htm). rewrite Et1.
  set (st2 := if k =? 1 then __ci_timer_busy_set t st1 else st1).
  assert (Hr2 : same_rest st st2) by (subst st2; by destruct (k =? 1)).
  assert (El2 : links st2 = oo_p_dllink_add_tail NULLP (WARRAY (home (k - 1) s t)) (TIMER id) (links st))
    by (subst st2; by destruct (k =? 1)).
  assert (Hw2 : winv (k - 1) X [] st2 T P).
  { pose proof (winv_place (k - 1) X [] st (if k =? 1 then __ci_timer_busy_set t st else st) T P id t Hw
      ltac:(lia) Hid HidX (not_elem_of_nil id)) as Hpl.
    assert (E2 : st2 = (if k =? 1 then __ci_timer_busy_set t st else st)
      <| links ::= oo_p_dllink_add_tail NULLP (WARRAY (home (k - 1) s t)) (TIMER id) |>)
      by (subst st2; by destruct (k =? 1)).
    rewrite E2. apply Hpl; [by destruct (k =? 1)..|]. fold s. rewrite home_below by lia.
    pose proof (bucketno_range (k - 1) t ltac:(lia)). destruct (Z.eqb_spec k 1) as [->|Hk1].
    - change (1 - 1) with 0 in *. destruct (Z.ltb_spec (0 * 256 + IPTIMER_BUCKETNO 0 t) 256); [|lia]. split; [lia|done].
    - destruct (Z.ltb_spec ((k - 1) * 256 + IPTIMER_BUCKETNO (k - 1) t) 256); [lia|done]. }
  destruct (IH fuel st2 (lnext NULLP (links st) (TIMER id)) true) as (st' & E & Hw' & Hr').
  - done.
  - rewrite El2. apply (chain_frame (links st)); [|done]. intros y (id' & -> & Hid')%list_elem_of_fmap.
    destruct (wi_lists _ _ _ _ _ _ Hw) as (f & Hr & Hp & _). pose proof (home_range (k - 1) s t ltac:(lia)).
    apply (rep_add_next _ f [] (idle T P (id :: X))); [done..|by intros ->|].
    intros (t' & _ & Hn & _)%Hp; [|done]. apply Hn. by right.
  - done.
  - intros id' Hid'. rewrite (proj1 (proj1 Hr2)). apply HX. by right.
  - cbn in Hfuel. lia.
  - exists st'. split_and!; [|done|by apply (same_rest_trans st st2)]. rewrite E. by rewrite orb_true_r.
Qed.

Lemma cascadewheel_spec k st T P : 1 <= k <= 3 -> winv k [] [] st T P ->
  exists st' ch, ci_ip_timer_cascadewheel k (sched_ticks st) st = Some (st', ch) /\
    winv (k - 1) [] [] st' T P /\ same_rest st st' /\
    (ch = false -> forall id t, P !! id = Some t -> k <= choose_wheel (sched_ticks st) t).
Proof.
  intros Hk [Hs (f & Hr & Hp & Hb) HT Ht HF]. set (s := sched_ticks st) in *.
  pose proof (bucketno_range k s ltac:(lia)) as Hbk. set (b := k * 256 + IPTIMER_BUCKETNO k s).
  assert (Hbr : 0 <= b < 1024) by lia.
  assert (HX : forall id, id ∈ f b <-> exists t, P !! id = Some t /\ choose_wheel s t < k).
  { intros id. rewrite (Hp b id Hbr). split.
    - intros (t & Hid & _ & _ & E). exists t. split; [done|]. apply home_bucket in E; [done..|apply (Ht id t Hid)].
    - intros (t & Hid & Hlt). exists t. pose proof (not_elem_of_nil id). split_and!; [done..|].
      apply home_bucket; [done..|apply (Ht id t Hid)|done]. }
  unfold ci_ip_timer_cascadewheel. change (IPTIMER_BUCKET k s) with (WARRAY b).
  destruct (rep_cut _ _ _ _ b Hr Hbr) as [Hr1 Hc1].
  set (st1 := st <| links ::= oo_p_dllink_init NULLP (WARRAY b) |>).
  assert (Hw1 : winv (k - 1) (f b) [] st1 T P).
  { constructor; [done| |done..]. exists (upd b [] f). split_and!.
    - apply (rep_ext _ _ _ _ _ _ _ Hr1); [done..|]. apply leibniz_equiv. intros id. rewrite !elem_of_idle, HX.
      pose proof (not_elem_of_nil id). naive_solver.
    - intros i id Hi. change (sched_ticks st1) with s.
      assert (Hsame : forall t, P !! id = Some t -> id ∉ f b -> home k s t = home (k - 1) s t /\ home k s t <> b).
      { intros t Hid Hn. rewrite HX in Hn. destruct (decide (choose_wheel s t < k)); [naive_solver|]. split.
        - rewrite <- (home_same (k - 1)) by lia. f_equal. lia.
        - intros E. apply home_bucket in E; [lia|done..|apply (Ht id t Hid)]. }
      cbn beta. pose proof (not_elem_of_nil id) as Hnil. destruct (decide (b = i)) as [<-|Hne].
      + split; [by intros ?%elem_of_nil|]. intros (t & Hid & Hn & _ & E). exfalso.
        destruct (Hsame t Hid Hn). congruence.
      + rewrite (Hp i id Hi). split.
        * intros (t & Hid & _ & _ & E). exists t.
          assert (Hn : id ∉ f b) by (rewrite (Hp b id Hbr); intros (t' & ? & _ & _ & ?); congruence).
          destruct (Hsame t Hid Hn). split_and!; [done..|congruence].
        * intros (t & Hid & Hn & _ & E). exists t. destruct (Hsame t Hid Hn). split_and!; [done..|congruence].
    - split; [apply Hb|]. intros c Hcc. rewrite decide_False by lia. by apply Hb. }
  destruct (cascade_loop_spec k T P (WARRAY b) (f b) Hk ltac:(done) (S (size (times st1))) st1
    (lnext NULLP (links st) (WARRAY b)) false Hw1) as (st' & E & Hw' & Hr').
  - exact Hc1.
  - by apply (rep_nodup _ _ _ _ b Hr).
  - intros id Hid. by apply HX.
  - apply Nat.lt_succ_r, pending_count; [by apply (rep_nodup _ _ _ _ b Hr)|].
    intros id (t & Hid & _)%HX. exists t. by apply (Ht id t Hid).
  - exists st', (bool_decide (f b <> [])). split_and!; [exact E|done..|].
    intros Hf id t Hid. apply bool_decide_eq_false in Hf.
    destruct (decide (choose_wheel s t < k)) as [Hlt|]; [|lia]. exfalso. apply Hf. intros Hnil.
    apply (not_elem_of_nil id). rewrite <- Hnil. apply HX. by exists t.
Qed.

(** The cascade of one tick brings every timer home. *)
Lemma cascade_spec ch0 st T P : winv (levels (sched_ticks st)) [] [] st T P ->
  exists st' ch, cascade (sched_ticks st) ch0 st = Some (st', ch) /\ winv 0 [] [] st' T P /\ same_rest st st' /\
    (if levels (sched_ticks st) =? 0 then ch = ch0
     else ch = false -> forall id t, P !! id = Some t -> 1 <= choose_wheel (sched_ticks st) t).
Proof.
  intros Hw. pose proof (wi_sched _ _ _ _ _ _ Hw) as Hs. revert Hw. set (s := sched_ticks st).
  unfold cascade. rewrite !bucketno_eq by lia. change (2 ^ (0 * 8)) with 1. change (2 ^ (1 * 8)) with 256.
  change (2 ^ (2 * 8)) with 65536. rewrite Z.div_1_r.
  assert (M1 : s mod 256 = 0 -> (s / 256 mod 256 =? 0) = (s mod 65536 =? 0)).
  { intros E. apply eq_true_iff_eq. rewrite !Z.eqb_eq. clear -E. split; div_lia. }
  assert (M2 : s mod 65536 = 0 -> (s / 65536 mod 256 =? 0) = (s mod 16777216 =? 0)).
  { intros E. apply eq_true_iff_eq. rewrite !Z.eqb_eq. clear -E. split; div_lia. }
  unfold levels. destruct (Z.eqb_spec (s mod 256) 0) as [E0|E0]; cbn [negb].
  2: { intros Hw. exists st, ch0. done. }
  rewrite (M1 E0). destruct (Z.eqb_spec (s mod 65536) 0) as [E1|E1]; cbn [negb].
  2: { intros Hw. destruct (cascadewheel_spec 1 st T P ltac:(lia) Hw) as (st1 & ch & H1 & Hw1 & Hr1 & Hch).
       exists st1, ch. done. }
  rewrite (M2 E1). intros Hw.
  assert (H2 : exists st2, (if s mod 16777216 =? 0 then '(st, _) ← ci_ip_timer_cascadewheel 3 s st; Some st
    else Some st) = Some st2 /\ winv 2 [] [] st2 T P /\ same_rest st st2).
  { destruct (Z.eqb_spec (s mod 16777216) 0); cbn [negb] in Hw; [|by exists st].
    destruct (cascadewheel_spec 3 st T P ltac:(lia) Hw) as (st2 & ch & H2 & Hw2 & Hr2 & _).
    fold s in H2. rewrite H2. by exists st2. }
  destruct H2 as (st2 & -> & Hw2 & Hr2). cbn [mbind option_bind].
  assert (Es2 : sched_ticks st2 = s) by apply Hr2. rewrite <- Es2.
  destruct (cascadewheel_spec 2 st2 T P ltac:(lia) Hw2) as (st3 & ch & -> & Hw3 & Hr3 & _). cbn [mbind option_bind].
  assert (Es3 : sched_ticks st3 = sched_ticks st2) by apply Hr3. rewrite <- Es3.
  destruct (cascadewheel_spec 1 st3 T P ltac:(lia) Hw3) as (st4 & ch' & -> & Hw4 & Hr4 & Hch).
  exists st4, ch'. split_and!; [done..|by do 2 (eapply same_rest_trans; [done|])|].
  rewrite Es3, Es2 in *. by destruct (negb _).
Qed.

(** * Polling *)

Section polling.
Context {W : Type} (docallback : Z -> Z -> Z -> W -> calls W).

(** The abstract scheduler: the time, the timers, those pending and the rest of
    the stack. *)
Record sched := mk_sched { now : Z; timers : gset Z; pending : gmap Z Z; world : W }.

(** The clock moves on only when nothing is due; a timer that is due fires
    once, and its callback may do to the timers what the interface allows. *)
Inductive astep (rt : Z) : sched -> list (Z * Z) -> sched -> Prop :=
| a_tick n T P w : TIME_LT n rt = true -> (forall id, P !! id <> Some n) ->
    astep rt (mk_sched n T P w) [] (mk_sched (u32 (n + 1)) T P w)
| a_fire n T P w id T' P' w' : P !! id = Some n ->
    a_calls n (docallback id n rt w) T (delete id P) = Some (T', P', w') ->
    astep rt (mk_sched n T P w) [(n, id)] (mk_sched n T' P' w').

Inductive aruns (rt : Z) : sched -> list (Z * Z) -> sched -> Prop :=
| ar_refl a : aruns rt a [] a
| ar_step a1 tr1 a2 tr2 a3 : astep rt a1 tr1 a2 -> aruns rt a2 tr2 a3 -> aruns rt a1 (tr1 ++ tr2) a3.

Lemma aruns_trans rt a1 tr1 a2 tr2 a3 : aruns rt a1 tr1 a2 -> aruns rt a2 tr2 a3 -> aruns rt a1 (tr1 ++ tr2) a3.
Proof.
  intros H1 H2. induction H1 as [|a1 t1 b t2 a2 Hs _ IH]; [done|].
  rewrite <- app_assoc. econstructor; [done|by apply IH].
Qed.

(** No callback run on the way to [rt] breaks the rules. *)
Definition callbacks_ok (rt : Z) (a : sched) : Prop :=
  forall tr a' id, aruns rt a tr a' -> pending a' !! id = Some (now a') ->
    is_Some (a_calls (now a') (docallback id (now a') rt (world a')) (timers a') (delete id (pending a'))).

Lemma callbacks_ok_run rt a tr a' : callbacks_ok rt a -> aruns rt a tr a' -> callbacks_ok rt a'.
Proof. intros Hc Hr tr' a2 id Hr'. apply (Hc (tr ++ tr')). by apply (aruns_trans _ _ _ a'). Qed.

(** The first timer of the fire list is taken off. *)
Lemma settled_pop id F st T P : settled (id :: F) st T P ->
  lnext NULLP (links st) FIRE = TIMER id /\ P !! id = Some (sched_ticks st) /\
  settled F (st <| links ::= oo_p_dllink_del_init NULLP (TIMER id) |>) T (delete id P).
Proof.
  intros [[Hs (f & Hr & Hp & Hb) HT Ht HF] Hf]. pose proof (HF id ltac:(left)) as Hid.
  pose proof (rep_fire_nodup _ _ _ _ Hr) as Hnd. apply NoDup_cons in Hnd as [HnF Hnd].
  assert (HidT : id ∈ T) by (apply HT, elem_of_dom; by exists (sched_ticks st)).
  assert (Hnf : forall i, 0 <= i < 1024 -> id ∉ f i).
  { intros i Hi (t & _ & _ & Hn & _)%Hp; [|done]. apply Hn. by left. }
  split_and!; [by apply (rep_fire_head _ _ _ _ id F Hr)|done|]. split.
  - constructor; cbn.
    + done.
    + exists f. split_and!; [| |done].
      * rewrite idle_delete by done. apply (rep_clear _ _ _ _ id) in Hr; [|right; left; left].
        apply (rep_ext _ _ _ _ _ _ _ Hr); [|  |done].
        -- intros i Hi. apply without_notin. by apply Hnf.
        -- unfold without. rewrite filter_cons_False by (intros Hx; by apply Hx).
           by apply without_notin.
      * intros i id' Hi. rewrite (Hp i id' Hi). setoid_rewrite lookup_delete_Some.
        setoid_rewrite not_elem_of_cons. split; intros (t & ?); exists t; [|].
        -- naive_solver.
        -- destruct_and?. split_and!; done || congruence.
    + rewrite dom_delete_L. set_solver.
    + intros id' t [_ Hl]%lookup_delete_Some. by apply Ht.
    + intros id' Hin. rewrite lookup_delete_ne; [by apply HF; right|]. by intros <-.
  - intros id' [Hne Hl]%lookup_delete_Some. cbn in Hl. apply Hf in Hl as [?|?]%elem_of_cons; congruence.
Qed.

Lemma fire_loop_spec fuel F st T P w tr : settled F st T P -> (length F < fuel)%nat ->
  callbacks_ok (ci_ip_time_real_ticks st) (mk_sched (sched_ticks st) T P w) ->
  exists st' w' tr' T' P', fire_loop docallback fuel st w tr = Some (st', w', tr ++ tr') /\
    aruns (ci_ip_time_real_ticks st) (mk_sched (sched_ticks st) T P w) tr' (mk_sched (sched_ticks st) T' P' w') /\
    settled [] st' T' P' /\ same_clock st st'.
Proof.
  revert F st T P w tr. induction fuel as [|fuel IH]; intros F st T P w tr Hst Hfuel Hcb; [lia|].
  cbn [fire_loop]. destruct (wi_lists _ _ _ _ _ _ (proj1 Hst)) as (f & Hr & _).
  rewrite (rep_fire_empty _ _ _ _ Hr). destruct F as [|id F].
  { exists st, w, [], T, P. rewrite app_nil_r. split_and!; try done. constructor. }
  rewrite bool_decide_eq_false_2 by done. cbn [negb].
  destruct (settled_pop id F st T P Hst) as (Hh & Hid & Hpop). rewrite Hh. cbn [LINK2TIMER].
  set (st1 := st <| links ::= oo_p_dllink_del_init NULLP (TIMER id) |>) in *.
  change (sched_ticks st1) with (sched_ticks st). change (ci_ip_time_real_ticks st1) with (ci_ip_time_real_ticks st).
  destruct (Hcb [] _ id (ar_refl _ _) Hid) as [[[T1 P1] w1] Ec].
  cbn [now timers pending world] in Ec.
  destruct (run_calls_settled _ F st1 T _ T1 P1 w1 Hpop Ec) as (st2 & F2 & Er & Hc2 & Hs2 & Hl2).
  rewrite Er. assert (Es2 : sched_ticks st2 = sched_ticks st) by apply Hc2.
  assert (Er2 : ci_ip_time_real_ticks st2 = ci_ip_time_real_ticks st) by (apply clock_real; apply Hc2).
  assert (Hstep : aruns (ci_ip_time_real_ticks st) (mk_sched (sched_ticks st) T P w) [(sched_ticks st, id)]
    (mk_sched (sched_ticks st) T1 P1 w1)).
  { rewrite <- (app_nil_r [_]). econstructor; [|constructor]. by constructor. }
  destruct (IH F2 st2 T1 P1 w1 (tr ++ [(sched_ticks st2, id)])) as (st' & w' & tr' & T' & P' & E & Ha & Hs' & Hc').
  - done.
  - cbn in Hfuel. lia.
  - rewrite Es2, Er2. by apply (callbacks_ok_run _ _ _ _ Hcb Hstep).
  - exists st', w', ([(sched_ticks st, id)] ++ tr'), T', P'. rewrite E, Es2, <- app_assoc.
    rewrite Er2, Es2 in Ha. split_and!; [done|by eapply aruns_trans|done|].
    etrans; [exact Hc2|exact Hc'].
Qed.

(** A tick, up to the fire list. *)
Lemma tick_fire st T P : settled [] st T P ->
  let s := u32 (sched_ticks st + 1) in
  winv (levels s) [] [] (st <| sched_ticks := s |>) T P.
Proof.
  intros [[Hs (f & Hr & Hp & Hb) HT Ht HF] Hf] s.
  assert (Hafter : forall id t, P !! id = Some t -> is_u32 t /\ after (sched_ticks st) t).
  { intros id t Hid. destruct (Ht id t Hid) as (_ & ? & ?). split_and!; [done|split; [done|]].
    intros ->. by apply (not_elem_of_nil id), Hf. }
  constructor; cbn.
  - apply Z.mod_pos_bound. lia.
  - exists f. split_and!; [done| |done]. intros i id Hi. rewrite (Hp i id Hi).
    split; intros (t & Hid & ? & ? & <-); exists t; (split_and!; [done..|]);
      destruct (Hafter id t Hid) as [Hu Ha]; destruct (home_tick (sched_ticks st) t Hs Hu Ha) as [Eh _]; first [exact Eh|exact (eq_sym Eh)].
  - done.
  - intros id t Hid. destruct (Hafter id t Hid) as [Hu Ha]. split_and!; [by apply Ht|done..|].
    apply (home_tick (sched_ticks st) t Hs Hu Ha).
  - intros id ?%elem_of_nil. done.
Qed.

(** The timers of the bucket reached go to the fire list. *)
Lemma splice_settled st T P : winv 0 [] [] st T P ->
  let s := sched_ticks st in
  let bucket := WARRAY (IPTIMER_BUCKETNO 0 s) in
  exists F, settled F (__ci_timer_busy_unset s
    (st <| links ::= oo_p_dllink_splice NULLP bucket FIRE |> <| links ::= oo_p_dllink_init NULLP bucket |>)) T P /\
    (length F <= size (times st))%nat.
Proof.
  intros [Hs (f & Hr & Hp & Hb) HT Ht HF] s bucket. pose proof (bucketno_range 0 s ltac:(lia)) as Hb0.
  set (b := IPTIMER_BUCKETNO 0 s) in *.
  assert (HX : forall id, id ∈ f b <-> P !! id = Some s).
  { intros id. rewrite (Hp b id) by lia. pose proof (not_elem_of_nil id). split.
    - intros (t & Hid & _ & _ & E). by rewrite Hid, (proj1 (home_due s t Hs (proj1 (proj2 (Ht id t Hid)))) E).
    - intros Hid. exists s. split_and!; [done..|]. by apply home_due. }
  exists (f b). split; [split|].
  - constructor; [done| |done|done|].
    + exists (upd b [] f). split_and!.
      * apply (rep_splice _ _ [] _ b Hr); [done|lia].
      * intros i id Hi. change (sched_ticks _) with s. pose proof (not_elem_of_nil id) as Hnil. cbn beta.
        destruct (decide (b = i)) as [<-|Hne].
        -- split; [by intros ?%elem_of_nil|]. intros (t & Hid & _ & Hn & E). exfalso. apply Hn, HX.
           by rewrite Hid, (proj1 (home_due s t Hs (proj1 (proj2 (Ht id t Hid)))) E).
        -- rewrite (Hp i id Hi). split; intros (t & Hid & _ & Hn & E); exists t; (split_and!; [done..| |done]); [|done].
           rewrite HX, Hid. intros [= ->]. apply Hne. rewrite <- E. symmetry. by apply home_due.
      * apply (busy_unset s _ f); [exact Hb|by rewrite decide_True|]. intros c _ Hc. by rewrite decide_False.
    + intros id Hid. by apply HX.
  - intros id Hid. by apply HX.
  - apply pending_count; [by apply (rep_nodup _ _ _ _ b Hr); lia|].
    intros id Hid%HX. exists s. by apply (Ht id s Hid).
Qed.

Lemma poll_tick_spec st T P w ch tr : settled [] st T P -> TIME_LT (sched_ticks st) (ci_ip_time_real_ticks st) = true ->
  callbacks_ok (ci_ip_time_real_ticks st) (mk_sched (sched_ticks st) T P w) ->
  exists st' w' ch' tr' T' P', poll_tick docallback st w ch tr = Some (st', w', ch', tr ++ tr') /\
    aruns (ci_ip_time_real_ticks st) (mk_sched (sched_ticks st) T P w) tr'
      (mk_sched (u32 (sched_ticks st + 1)) T' P' w') /\
    settled [] st' T' P' /\ sched_ticks st' = u32 (sched_ticks st + 1) /\ clock_of st' = clock_of st.
Proof.
  intros Hst Hlt Hcb. unfold poll_tick. set (s := u32 (sched_ticks st + 1)).
  pose proof (tick_fire st T P Hst) as Hw0. cbv zeta in Hw0. fold s in Hw0.
  set (st0 := st <| sched_ticks := s |>) in *. cbv zeta.
  destruct (cascade_spec ch st0 T P Hw0) as (st1 & ch1 & E1 & Hw1 & Hr1 & _).
  change (sched_ticks st0) with s in E1. rewrite E1. cbn [mbind option_bind].
  assert (Es1 : sched_ticks st1 = s) by apply Hr1.
  assert (Ec1 : clock_of st1 = clock_of st) by apply Hr1. pose proof (clock_real _ _ Ec1) as Er1.
  destruct (splice_settled st1 T P Hw1) as (F & HsF & HlF). rewrite Es1 in HsF.
  set (st2 := __ci_timer_busy_unset s _) in *.
  assert (Es2 : sched_ticks st2 = s) by exact Es1.
  assert (Er2 : ci_ip_time_real_ticks st2 = ci_ip_time_real_ticks st) by exact Er1.
  assert (Hstep : aruns (ci_ip_time_real_ticks st) (mk_sched (sched_ticks st) T P w) [] (mk_sched s T P w)).
  { apply (ar_step _ _ [] (mk_sched s T P w) []); [|constructor]. constructor; [done|].
    intros id Hid. by apply (not_elem_of_nil id), (proj2 Hst). }
  destruct (fire_loop_spec (S (size (times st2))) F st2 T P w tr HsF) as (st3 & w3 & tr3 & T3 & P3 & E3 & Ha3 & Hs3 & Hc3).
  - apply Nat.lt_succ_r. exact HlF.
  - rewrite Es2, Er2. by apply (callbacks_ok_run _ _ _ _ Hcb Hstep).
  - rewrite E3. cbn [mbind option_bind]. rewrite Es2, Er2 in Ha3.
    assert (Ec2 : clock_of st2 = clock_of st) by exact Ec1.
    exists st3, w3, ch1, tr3, T3, P3. split_and!; [done|by apply (aruns_trans _ _ [] _ tr3 _ Hstep)|done|..];
      destruct Hc3 as [??]; congruence.
Qed.

Lemma time_lt_ahead x y : is_u32 x -> is_u32 y -> ahead x y -> TIME_LT x y = negb (x =? y).
Proof.
  unfold is_u32, ahead, TIME_LT, s32, u32. intros Hx Hy Ha.
  destruct (Z.ltb_spec ((x - y) mod 4294967296) 2147483648), (Z.eqb_spec x y); cbn [negb];
    first [apply Z.ltb_lt|apply Z.ltb_ge]; div_lia.
Qed.

Lemma tick_ahead x y : is_u32 x -> is_u32 y -> ahead x y -> x <> y ->
  ahead (u32 (x + 1)) y /\ u32 (y - u32 (x + 1)) = u32 (y - x) - 1.
Proof. unfold is_u32, ahead, u32. intros. split; div_lia. Qed.

Lemma poll_loop_spec fuel st T P w ch tr : settled [] st T P -> is_u32 (ci_ip_time_real_ticks st) ->
  ahead (sched_ticks st) (ci_ip_time_real_ticks st) ->
  u32 (ci_ip_time_real_ticks st - sched_ticks st) < Z.of_nat fuel ->
  callbacks_ok (ci_ip_time_real_ticks st) (mk_sched (sched_ticks st) T P w) ->
  exists st' w' ch' tr' T' P',
    poll_loop docallback fuel (ci_ip_time_real_ticks st) st w ch tr = Some (st', w', ch', tr ++ tr') /\
    aruns (ci_ip_time_real_ticks st) (mk_sched (sched_ticks st) T P w) tr'
      (mk_sched (ci_ip_time_real_ticks st) T' P' w') /\
    settled [] st' T' P' /\ sched_ticks st' = ci_ip_time_real_ticks st /\ clock_of st' = clock_of st.
Proof.
  revert st T P w ch tr. induction fuel as [|fuel IH]; intros st T P w ch tr Hst Hur Ha Hfuel Hcb.
  { unfold u32 in Hfuel. pose proof (Z.mod_pos_bound (ci_ip_time_real_ticks st - sched_ticks st) 4294967296). lia. }
  pose proof (wi_sched _ _ _ _ _ _ (proj1 Hst)) as Hs. cbn [poll_loop].
  rewrite (time_lt_ahead _ _ Hs Hur Ha). destruct (Z.eqb_spec (sched_ticks st) (ci_ip_time_real_ticks st)) as [E|E]; cbn [negb].
  { exists st, w, ch, [], T, P. rewrite app_nil_r, <- E. split_and!; try done. constructor. }
  assert (Hlt : TIME_LT (sched_ticks st) (ci_ip_time_real_ticks st) = true)
    by (rewrite time_lt_ahead by done; by apply negb_true_iff, Z.eqb_neq).
  destruct (poll_tick_spec st T P w ch tr Hst Hlt Hcb) as (st1 & w1 & ch1 & tr1 & T1 & P1 & E1 & Ha1 & Hs1 & Es1 & Ec1).
  pose proof (clock_real _ _ Ec1) as Er1.
  rewrite E1. cbn [mbind option_bind]. destruct (tick_ahead _ _ Hs Hur Ha E) as [Ha' Hd].
  rewrite <- Er1. rewrite <- Er1, <- Es1 in Ha', Hd.
  destruct (IH st1 T1 P1 w1 ch1 (tr ++ tr1)) as (st2 & w2 & ch2 & tr2 & T2 & P2 & E2 & Ha2 & Hs2 & Es2 & Er2).
  - done.
  - by rewrite Er1.
  - exact Ha'.
  - rewrite Hd, Er1. lia.
  - rewrite Er1, Es1. by apply (callbacks_ok_run _ _ _ _ Hcb Ha1).
  - exists st2, w2, ch2, (tr1 ++ tr2), T2, P2. rewrite E2, <- app_assoc.
    split_and!; [done| |done|done|congruence]. rewrite Es1, Er1 in Ha2. rewrite Er1. by eapply aruns_trans.
Qed.

Lemma settled_closest c F st T P : settled F st T P -> settled F (st <| closest_timer := c |>) T P.
Proof. intros [[? ? ? ? ?] ?]. split; [by constructor|done]. Qed.

Lemma update_closest_eq st : exists c, update_closest st = st <| closest_timer := c |>.
Proof.
  unfold update_closest. destruct (busy_scan _ _ _ _); [by eexists|]. cbv zeta.
  destruct (oo_p_dllink_is_empty _ _ _); by eexists.
Qed.

Lemma poll_spec st T P w : settled [] st T P -> is_u32 (ci_ip_time_real_ticks st) ->
  ahead (sched_ticks st) (ci_ip_time_real_ticks st) ->
  callbacks_ok (ci_ip_time_real_ticks st) (mk_sched (sched_ticks st) T P w) ->
  exists st' w' tr T' P', ci_ip_timer_poll docallback st w = Some (st', w', tr) /\
    aruns (ci_ip_time_real_ticks st) (mk_sched (sched_ticks st) T P w) tr
      (mk_sched (ci_ip_time_real_ticks st) T' P' w') /\
    settled [] st' T' P' /\ sched_ticks st' = ci_ip_time_real_ticks st /\ clock_of st' = clock_of st.
Proof.
  intros Hst Hur Ha Hcb. unfold ci_ip_timer_poll, ci_ip_time_now.
  destruct (poll_loop_spec (S (Z.to_nat (u32 (ci_ip_time_real_ticks st - sched_ticks st)))) st T P w false [])
    as (st1 & w1 & ch & tr & T1 & P1 & E & Hr & Hs & Es & Er); [done..| |done|].
  { unfold u32. pose proof (Z.mod_pos_bound (ci_ip_time_real_ticks st - sched_ticks st) 4294967296). lia. }
  rewrite E. cbn [mbind option_bind app]. destruct (update_closest_eq st1) as [c Ec].
  do 5 eexists. split; [reflexivity|]. split; [exact Hr|].
  destruct (TIME_GE _ _ || ch); [rewrite Ec|]; split_and!; try done. by apply settled_closest.
Qed.

(** * The system *)

Lemma shiftr_le a b n : a <= b -> Z.shiftr a n <= Z.shiftr b n.
Proof.
  intros Hab. destruct (decide (0 <= n)).
  - rewrite !Z.shiftr_div_pow2 by done. apply Z.div_le_mono; [apply Z.pow_pos_nonneg; lia|done].
  - replace n with (- (- n)) by lia. rewrite !Z.shiftr_opp_r, !Z.shiftl_mul_pow2 by lia.
    apply Z.mul_le_mono_nonneg_r; [apply Z.pow_nonneg; lia|done].
Qed.

(** What happens to a stack: its code calls the timer interface, or the stack
    is polled at a later reading of the cycle counter. *)
Inductive event := Calls (c : W -> calls W) | Poll (new_frc : Z).

Definition sys_step (e : event) (st : ci_ip_timer_state) (w : W) : option (ci_ip_timer_state * W * list (Z * Z)) :=
  match e with
  | Calls c => let '(st, w) := run_calls (c w) st in Some (st, w, [])
  | Poll f => ci_ip_timer_poll docallback (ci_ip_time_update f st) w
  end.

Fixpoint sys_run (es : list event) (st : ci_ip_timer_state) (w : W)
    : option (ci_ip_timer_state * W * list (Z * Z)) :=
  match es with
  | [] => Some (st, w, [])
  | e :: es =>
    '(st, w, tr) ← sys_step e st w;
    '(st, w, tr') ← sys_run es st w;
    Some (st, w, tr ++ tr')
  end.

Section shift.
Context (sh : Z).

Definition ticks_of (f : Z) : Z := u32 (Z.shiftr f sh).

(** The same events on the abstract scheduler; [f] is the cycle counter. *)
Inductive aevent : event -> Z -> sched -> list (Z * Z) -> Z -> sched -> Prop :=
| ae_calls c f n T P w T' P' w' : a_calls n (c w) T P = Some (T', P', w') ->
    aevent (Calls c) f (mk_sched n T P w) [] f (mk_sched n T' P' w')
| ae_poll f f' a tr a' : aruns (ticks_of f') a tr a' -> now a' = ticks_of f' ->
    (forall id, pending a' !! id <> Some (now a')) -> aevent (Poll f') f a tr f' a'.

Inductive aevents : list event -> Z -> sched -> list (Z * Z) -> Z -> sched -> Prop :=
| aes_nil f a : aevents [] f a [] f a
| aes_cons e es f1 a1 tr1 f2 a2 tr2 f3 a3 : aevent e f1 a1 tr1 f2 a2 -> aevents es f2 a2 tr2 f3 a3 ->
    aevents (e :: es) f1 a1 (tr1 ++ tr2) f3 a3.

(** The rules of the interface are kept: calls are in order, callbacks too, the
    counter does not run backwards and the stack is polled before half the range
    of the clock has passed. *)
Fixpoint rules_ok (es : list event) (f : Z) (a : sched) : Prop :=
  match es with
  | [] => True
  | e :: es =>
    match e with
    | Calls c => is_Some (a_calls (now a) (c (world a)) (timers a) (pending a))
    | Poll f' => f <= f' /\ Z.shiftr f' sh - Z.shiftr f sh < 2147483648 /\ callbacks_ok (ticks_of f') a
    end /\
    forall tr f' a', aevent e f a tr f' a' -> rules_ok es f' a'
  end.

(** A stack between two events. *)
Definition at_rest (f : Z) (a : sched) (st : ci_ip_timer_state) (w : W) : Prop :=
  settled [] st (timers a) (pending a) /\ sched_ticks st = now a /\ now a = ticks_of f /\ world a = w /\
  ci_ip_time_real_ticks st = now a /\ frc st = f /\ ci_ip_time_frc2tick st = sh.

Lemma sys_step_spec e f a st w : at_rest f a st w -> rules_ok [e] f a ->
  exists st' w' tr f' a', sys_step e st w = Some (st', w', tr) /\ aevent e f a tr f' a' /\ at_rest f' a' st' w'.
Proof.
  intros (Hst & Es & En & <- & Er & Ef & Esh) [Hok _]. destruct a as [n T P w]; cbn [now timers pending world] in *.
  destruct e as [c|f']; cbn [sys_step].
  - destruct Hok as [[[T' P'] w'] Hok]. rewrite <- Es in Hok.
    destruct (run_calls_settled _ _ _ _ _ _ _ _ Hst Hok) as (st' & F' & E & [Hc1 Hc2] & Hs' & Hl).
    rewrite E. destruct F'; [|cbn in Hl; lia]. injection Hc2 as ? ? ?.
    exists st', w', [], f, (mk_sched n T' P' w'). split_and!; [done|by constructor; rewrite <- Es|].
    split_and!; cbn; congruence || done.
  - destruct Hok as (Hle & Hd & Hcb).
    set (st1 := ci_ip_time_update f' st).
    assert (E1 : st1 = st <| ci_ip_time_real_ticks := ticks_of f' |> <| frc := f' |>).
    { subst st1. unfold ci_ip_time_update. rewrite Ef, Esh. destruct (Z.leb_spec f f'); [done|lia]. }
    assert (Er1 : ci_ip_time_real_ticks st1 = ticks_of f') by (by rewrite E1).
    assert (Es1 : sched_ticks st1 = n) by (by rewrite E1).
    assert (Hu : forall g, is_u32 (ticks_of g)) by (intros g; apply Z.mod_pos_bound; lia).
    assert (Hst1 : settled [] st1 T P).
    { rewrite E1. destruct Hst as [[? ? ? ? ?] ?]. split; [by constructor|done]. }
    assert (Ha : ahead n (ticks_of f')).
    { rewrite En. clear -Hle Hd. pose proof (Z.shiftr_div_pow2 f' sh). unfold ahead, ticks_of in *.
      assert (Z.shiftr f sh <= Z.shiftr f' sh) by (by apply shiftr_le). unfold u32. div_lia. }
    destruct (poll_spec st1 T P w Hst1) as (st' & w' & tr & T' & P' & E & Hr & Hs' & Es' & Ec').
    + rewrite Er1. apply Hu.
    + by rewrite Er1, Es1.
    + by rewrite Er1, Es1.
    + rewrite Er1, Es1 in Hr. rewrite Er1 in Es'. exists st', w', tr, f', (mk_sched (ticks_of f') T' P' w').
      injection Ec' as Hc1 Hc2 Hc3. rewrite Er1 in Hc1.
      split_and!; [done|constructor; [done..|]|].
      * cbn. intros id Hid. apply (not_elem_of_nil id), (proj2 Hs'). by rewrite Es'.
      * split_and!; cbn; try done; rewrite ?Hc2, ?Hc3, E1; done.
Qed.

Lemma sys_run_spec es f a st w : at_rest f a st w -> rules_ok es f a ->
  exists st' w' tr f' a', sys_run es st w = Some (st', w', tr) /\ aevents es f a tr f' a' /\ at_rest f' a' st' w'.
Proof.
  revert f a st w. induction es as [|e es IH]; intros f a st w Hst Hok.
  { exists st, w, [], f, a. split_and!; [done|constructor|done]. }
  destruct Hok as [Hok1 Hok2].
  destruct (sys_step_spec e f a st w Hst) as (st1 & w1 & tr1 & f1 & a1 & E1 & Ha1 & Hst1); [by split|].
  destruct (IH f1 a1 st1 w1 Hst1 (Hok2 _ _ _ Ha1)) as (st2 & w2 & tr2 & f2 & a2 & E2 & Ha2 & Hst2).
  exists st2, w2, (tr1 ++ tr2), f2, a2. cbn [sys_run]. rewrite E1. cbn [mbind option_bind]. rewrite E2.
  split_and!; [done|by econstructor|done].
Qed.

End shift.

End polling.

(** ** The initial state *)

Lemma init_wheel_S k h : init_wheel (S k) h = oo_p_dllink_init NULLP (WARRAY (Z.of_nat k)) (init_wheel k h).
Proof.
  unfold init_wheel. replace (Z.of_nat (S k)) with (Z.of_nat k + 1) by lia.
  rewrite seqZ_app by lia. rewrite foldl_app. done.
Qed.

Lemma init_wheel_lists k h : exists L, dlls NULLP (init_wheel k (oo_p_dllink_init NULLP FIRE h)) L /\
  L !! FIRE = Some [] /\ (forall i, L !! WARRAY i = if decide (0 <= i < Z.of_nat k) then Some [] else None) /\
  (forall id, L !! TIMER id = None) /\ L !! NULLP = None.
Proof.
  induction k as [|k (L & Hd & H1 & H2 & H3 & H4)].
  - exists {[FIRE := []]}. split_and!; [|done| |done|done].
    + apply (dl_step NULLP h ∅ (OoInit FIRE) _ NULLP); [by split|]. cbn. by rewrite option_guard_True.
    + intros i. rewrite decide_False by lia. done.
  - rewrite init_wheel_S. exists (<[WARRAY (Z.of_nat k) := []]> L). split_and!.
    + apply (dl_step NULLP _ L (OoInit (WARRAY (Z.of_nat k))) _ NULLP Hd). cbn. rewrite option_guard_True; [done|].
      intros a l Ha Hin. destruct a as [| |i|id].
      * by rewrite H4 in Ha.
      * rewrite H1 in Ha. injection Ha as <-. apply list_elem_of_singleton in Hin. done.
      * rewrite H2 in Ha. case_decide; [|done]. injection Ha as <-.
        apply list_elem_of_singleton in Hin as [= <-]. lia.
      * by rewrite H3 in Ha.
    + by rewrite lookup_insert_ne.
    + intros i. destruct (decide (Z.of_nat k = i)) as [<-|].
      * rewrite lookup_insert_eq, decide_True by lia. done.
      * rewrite lookup_insert_ne by congruence. rewrite H2. apply decide_ext. lia.
    + intros id. by rewrite lookup_insert_ne.
    + by rewrite lookup_insert_ne.
Qed.

Definition init_shift (khz : Z) : Z := shift_for_gran CI_IP_TIME_APP_GRANULARITY khz.

Lemma init_at_rest {W} isn khz frc0 mem (w : W) : busy_mask mem = [0; 0; 0; 0] ->
  at_rest (init_shift khz) frc0 (mk_sched (ticks_of (init_shift khz) frc0) ∅ ∅ w)
    (ci_ip_timer_state_init isn khz frc0 mem) w.
Proof.
  intros Hm. destruct (init_wheel_lists 1024 (links mem)) as (L & Hd & H1 & H2 & H3 & H4).
  split_and!; try done. split; [|by intros id Hid].
  constructor.
  - apply Z.mod_pos_bound. lia.
  - exists (fun _ => []). split_and!.
    + exists L. split; [exact Hd|]. constructor; [done| | |done].
      * intros i. rewrite H2. done.
      * intros id. rewrite H3, decide_False; [done|]. rewrite elem_of_idle. set_solver.
    + intros i id _. split; [by intros ?%elem_of_nil|]. intros (t & Hl & _). done.
    + change (busy_mask (ci_ip_timer_state_init isn khz frc0 mem)) with (busy_mask mem). rewrite Hm. split.
      * split; [done|]. intros i Hi. assert (i = 0 \/ i = 1 \/ i = 2 \/ i = 3) as [-> | [-> | [-> | ->]]] by lia; done.
      * intros b Hb. rewrite bool_decide_eq_false_2 by naive_solver. unfold mbit.
        destruct (word_split b Hb) as [Hw _]. generalize dependent (b / 64). intros i Hi.
        assert (i = 0 \/ i = 1 \/ i = 2 \/ i = 3) as [-> | [-> | [-> | ->]]] by lia; apply Z.testbit_0_l.
  - set_solver.
  - done.
  - by intros id ?%elem_of_nil.
Qed.

(** C4: a stack's timers, from initialisation on, under any sequence of calls of
    the timer interface (set, clear, modify, pending, init) and of polls, with
    callbacks that set and clear timers themselves, behave as the abstract
    scheduler does: time passes tick by tick, a tick is left only when nothing
    is due, every timer fires exactly at the tick it was last set for, once,
    unless it is cleared or moved before, whatever the wheels are doing, across
    the wrap of the 32-bit clock; every poll returns with nothing due; and
    [ci_ip_timer_pending] tells which timers are pending. *)
Theorem ip_timer_system_refines {W} (docallback : Z -> Z -> Z -> W -> calls W) isn khz frc0 mem es w :
  busy_mask mem = [0; 0; 0; 0] ->
  let sh := init_shift khz in
  let a0 := mk_sched (ticks_of sh frc0) ∅ ∅ w in
  rules_ok docallback sh es frc0 a0 ->
  exists st' w' tr f' a',
    sys_run docallback es (ci_ip_timer_state_init isn khz frc0 mem) w = Some (st', w', tr) /\
    aevents docallback sh es frc0 a0 tr f' a' /\ world a' = w' /\ sched_ticks st' = now a' /\
    forall id, id ∈ timers a' -> ci_ip_timer_pending id st' = bool_decide (is_Some (pending a' !! id)).
Proof.
  intros Hm sh a0 Hok.
  destruct (sys_run_spec docallback sh es frc0 a0 (ci_ip_timer_state_init isn khz frc0 mem) w)
    as (st' & w' & tr & f' & a' & E & Ha & Hst & Es & _ & Ew & _); [by apply init_at_rest|done|].
  exists st', w', tr, f', a'. split_and!; [done..|].
  intros id Hid. apply (winv_pending 0 [] st' (timers a')); [lia|apply Hst|done].
Qed.

(** A stack at 1 MHz whose callbacks log the timers that fire: timers 7 and 8
    are set for 3 and 700 ticks ahead, across two wheels, and the stack is polled
    1000 ticks later. *)
Definition ex_mem : ci_ip_timer_state := mk_ipts 0 0 0 0 0 0 0 0 0 [0; 0; 0; 0] ∅ ∅.
Definition ex_log (id n rt : Z) (w : list Z) : calls (list Z) := Ret (w ++ [id]).
Definition ex_start : Z := Z.shiftl 65000 10.
Definition ex_events : list (event (W := list Z)) :=
  [Calls (fun w => TimerInit 7 (TimerInit 8 (TimerSet 7 65003 (TimerSet 8 65700 (Ret w)))));
   Poll (Z.shiftl 66000 10)].

Lemma ip_timer_system_refines_witness :
  rules_ok ex_log 10 ex_events ex_start (mk_sched 65000 ∅ ∅ []) /\
  exists st' w' tr f' a', sys_run ex_log ex_events (ci_ip_timer_state_init 0 1000 ex_start ex_mem) [] =
    Some (st', w', tr) /\ tr = [(65003, 7); (65700, 8)] /\
    aevents ex_log 10 ex_events ex_start (mk_sched 65000 ∅ ∅ []) tr f' a'.
Proof.
  assert (Hok : rules_ok ex_log 10 ex_events ex_start (mk_sched 65000 ∅ ∅ [])).
  { split; [by eexists|]. intros tr f' a' Ha. split; [|done]. inversion Ha; subst.
    split_and!; [vm_compute; done|vm_compute; done|]. intros ? ? ? ? _. by eexists. }
  split; [exact Hok|].
  destruct (ip_timer_system_refines ex_log 0 1000 ex_start ex_mem ex_events [] eq_refl Hok)
    as (st' & w' & tr & f' & a' & E & Ha & _).
  exists st', w', tr, f', a'. split; [exact E|]. split; [|exact Ha].
  assert (Et : option_map snd (sys_run ex_log ex_events (ci_ip_timer_state_init 0 1000 ex_start ex_mem) []) =
    Some [(65003, 7); (65700, 8)]) by (vm_compute; reflexivity).
  rewrite E in Et. cbn in Et. by injection Et.
Defined.

(** * Every timer due fires *)

Section passive.
Context {W : Type} (g : Z -> Z -> W -> W).

(** Callbacks that leave the timers alone. *)
Definition passive (id n rt : Z) (w : W) : calls W := Ret (g id n w).

(** Ticks from [n0] on. *)
Definition offset (n0 t : Z) : Z := u32 (t - n0).

Lemma offset_tick n0 n : is_u32 n0 -> is_u32 n -> offset n0 n < 2147483648 ->
  offset n0 (u32 (n + 1)) = offset n0 n + 1.
Proof. unfold offset, is_u32, u32. intros. div_lia. Qed.

Lemma offset_inj n0 x y : is_u32 n0 -> is_u32 x -> is_u32 y -> offset n0 x = offset n0 y -> x = y.
Proof. unfold offset, is_u32, u32. intros. div_lia. Qed.

Lemma after_offset n0 rt t : is_u32 n0 -> is_u32 rt -> is_u32 t -> offset n0 rt < 2147483648 ->
  offset n0 t < 2147483648 -> after rt t -> offset n0 rt < offset n0 t.
Proof. unfold offset, after, ahead, is_u32, u32. intros Hn Hr Ht Ho Ho' [Ha Hne]. div_lia. Qed.

Definition in_order (n0 : Z) (x y : Z * Z) : Prop := offset n0 x.1 <= offset n0 y.1.

Lemma passive_run n0 rt a tr a' : is_u32 n0 -> offset n0 rt < 2147483648 -> aruns passive rt a tr a' ->
  is_u32 (now a) -> offset n0 (now a) <= offset n0 rt -> is_u32 rt ->
  (forall id t, pending a !! id = Some t -> is_u32 t /\ offset n0 (now a) <= offset n0 t) ->
  timers a' = timers a /\
  (forall id t, (t, id) ∈ tr -> pending a !! id = Some t /\ offset n0 (now a) <= offset n0 t <= offset n0 (now a')) /\
  (forall id t, pending a' !! id = Some t <-> pending a !! id = Some t /\ (t, id) ∉ tr) /\
  NoDup tr /\ StronglySorted (in_order n0) tr /\ offset n0 (now a) <= offset n0 (now a').
Proof.
  intros Hn0 Hrt Hr. induction Hr as [a|a1 tr1 a2 tr2 a3 Hs Hr IH]; intros Hu Hle Hur Hp.
  { split_and!; [done|by intros ?? ?%elem_of_nil| |constructor|constructor|lia].
    intros id t. pose proof (not_elem_of_nil (t, id)). tauto. }
  destruct Hs as [n T P w Hlt Hnd|n T P w id T' P' w' Hid Hc]; cbn [now pending timers world] in *.
  - assert (Hne : offset n0 n <> offset n0 rt).
    { intros E. apply offset_inj in E; [|done..]. subst. unfold TIME_LT in Hlt. by rewrite Z.sub_diag in Hlt. }
    pose proof (offset_tick n0 n Hn0 Hu ltac:(lia)) as Ht.
    destruct IH as (I1 & I2 & I3 & I4 & I5 & I6).
    + apply Z.mod_pos_bound. lia.
    + lia.
    + done.
    + intros id t Hid. destruct (Hp id t Hid) as [Hut Hot]. split; [done|].
      assert (offset n0 n <> offset n0 t); [|lia]. intros E. apply offset_inj in E; [|done..]. subst. by apply (Hnd id).
    + cbn [app]. split_and!; [done| |done..|lia]. intros id t Hin. destruct (I2 id t Hin) as [? ?]. split; [done|lia].
  - cbn in Hc. injection Hc as <- <- <-.
    destruct IH as (I1 & I2 & I3 & I4 & I5 & I6); [done..| |].
    { intros id' t [_ Hl]%lookup_delete_Some. by apply (Hp id' t). }
    assert (Hnot : forall t, (t, id) ∉ tr2).
    { intros t [Hl _]%I2. by rewrite lookup_delete_eq in Hl. }
    cbn [app]. split_and!; [done| | | | |done].
    + intros id' t [[= -> ->]|Hin]%elem_of_cons; [split; [done|lia]|].
      destruct (I2 id' t Hin) as [[_ Hl]%lookup_delete_Some ?]. done.
    + intros id' t. rewrite I3, lookup_delete_Some, not_elem_of_cons. split.
      * intros [[Hne Hl] Hn]. split_and!; [done|congruence|done].
      * intros (Hl & Hne & Hn). split_and!; [|done..]. intros <-. apply Hne. congruence.
    + apply NoDup_cons. by split.
    + constructor; [done|]. apply Forall_forall. intros [t id'] Hin. unfold in_order. cbn.
      destruct (I2 id' t Hin). lia.
Qed.

(** C15: with callbacks that leave the timers alone, a poll fires exactly the
    timers whose time has come, each once, in the order of their times, and
    leaves exactly the others pending. *)
Theorem ip_timer_poll_fires_due st T P w :
  settled [] st T P -> is_u32 (ci_ip_time_real_ticks st) -> ahead (sched_ticks st) (ci_ip_time_real_ticks st) ->
  let n0 := sched_ticks st in
  let rt := ci_ip_time_real_ticks st in
  exists st' w' tr, ci_ip_timer_poll passive st w = Some (st', w', tr) /\
    (forall id t, (t, id) ∈ tr <-> P !! id = Some t /\ offset n0 t <= offset n0 rt) /\
    NoDup tr /\ StronglySorted (in_order n0) tr /\
    forall id, id ∈ T -> ci_ip_timer_pending id st' = true <->
      exists t, P !! id = Some t /\ offset n0 rt < offset n0 t.
Proof.
  intros Hst Hur Ha n0 rt. pose proof (wi_sched _ _ _ _ _ _ (proj1 Hst)) as Hn0.
  destruct (poll_spec passive st T P w Hst Hur Ha) as (st' & w' & tr & T' & P' & E & Hr & Hst' & Es & _).
  { intros ? ? ? _ _. by eexists. }
  assert (Hp : forall id t, P !! id = Some t -> is_u32 t /\ offset n0 t < 2147483648).
  { intros id t Hid. by destruct (wi_time _ _ _ _ _ _ (proj1 Hst) id t Hid) as (_ & ? & ?). }
  fold n0 rt in Hr, Hur, Hn0.
  destruct (passive_run n0 rt _ _ _ Hn0 Ha Hr) as (I1 & I2 & I3 & I4 & I5 & I6); cbn [now pending timers world] in *.
  - done.
  - unfold offset at 1. rewrite Z.sub_diag. unfold offset, u32. apply Z.mod_pos_bound. lia.
  - done.
  - intros id t Hid. split; [by apply (Hp id t)|]. unfold offset at 1. rewrite Z.sub_diag. apply Z.mod_pos_bound. lia.
  - subst T'. exists st', w', tr.
    assert (Hlate : forall id t, P' !! id = Some t -> offset n0 rt < offset n0 t).
    { intros id t Hid. destruct (Hp id t) as [Hut Hot]; [by apply I3|].
      destruct (wi_time _ _ _ _ _ _ (proj1 Hst') id t Hid) as (_ & _ & Hah). rewrite Es in Hah.
      apply after_offset; [done..|]. split; [done|]. intros ->. apply (not_elem_of_nil id), (proj2 Hst').
      by rewrite Es. }
    assert (Htr : forall id t, (t, id) ∈ tr <-> P !! id = Some t /\ offset n0 t <= offset n0 rt).
    { intros id t. split; [intros Hin; destruct (I2 id t Hin); split; [done|lia]|]. intros [Hid Hle].
      destruct (decide ((t, id) ∈ tr)) as [|Hn]; [done|]. specialize (Hlate id t). rewrite I3 in Hlate.
      specialize (Hlate (conj Hid Hn)). lia. }
    split_and!; [done..|]. intros id HT.
    rewrite (winv_pending 0 [] st' T P') by first [lia|exact (proj1 Hst')|done]. rewrite bool_decide_eq_true. split.
    + intros [t Hid]. exists t. split; [by apply I3|by apply (Hlate id)].
    + intros (t & Hid & Hlt). exists t. apply I3. split; [done|]. intros Hin. apply Htr in Hin. lia.
Qed.

End passive.

(** The stack of the example above before it is polled. *)
Definition ex_st1 : ci_ip_timer_state :=
  ci_ip_time_update (Z.shiftl 66000 10)
    (run_calls (W := unit) (TimerInit 7 (TimerInit 8 (TimerSet 7 65003 (TimerSet 8 66700 (Ret tt)))))
      (ci_ip_timer_state_init 0 1000 ex_start ex_mem)).1.

Lemma ip_timer_poll_fires_due_witness :
  exists st' tr, ci_ip_timer_poll (passive (fun _ _ w => w)) ex_st1 tt = Some (st', tt, tr) /\
    (65003, 7) ∈ tr /\ ci_ip_timer_pending 8 st' = true.
Proof.
  assert (Hs : settled [] ex_st1 {[7; 8]} {[7 := 65003; 8 := 66700]}).
  { destruct (init_at_rest 0 1000 ex_start ex_mem tt eq_refl) as (H0 & _). cbn [timers pending] in H0.
    destruct (run_calls_settled (TimerInit 7 (TimerInit 8 (TimerSet 7 65003 (TimerSet 8 66700 (Ret tt))))) []
      (ci_ip_timer_state_init 0 1000 ex_start ex_mem) ∅ ∅ {[7; 8]} {[7 := 65003; 8 := 66700]} tt H0)
      as (st' & F' & E & _ & H1 & Hl).
    - vm_compute. reflexivity.
    - destruct F' as [|x F']; [|cbn in Hl; lia]. unfold ex_st1. rewrite E.
      cbn [fst]. unfold ci_ip_time_update. destruct (_ <=? _); [|exact H1].
      destruct H1 as [[? ? ? ? ?] ?]. split; [by constructor|done]. }
  destruct (ip_timer_poll_fires_due (fun _ _ w => w) ex_st1 {[7; 8]} {[7 := 65003; 8 := 66700]} tt)
    as (st' & [] & tr & E & Htr & _ & _ & Hp); [exact Hs|vm_compute; done|vm_compute; done|].
  exists st', tr. split; [exact E|]. split.
  - apply Htr. split; [reflexivity|vm_compute; done].
  - apply Hp; [set_solver|]. exists 66700. split; [reflexivity|vm_compute; done].
Defined.
