(* ===== verification/TimerClock.v ===== *)
(** The time keeping around the timer wheels of file TimerWheel: the estimate of
    the next timer at the end of [ci_ip_timer_poll], the conversion between
    cycles, ticks and milliseconds (lib/transport/ip/iptimer.c and
    include/ci/internal/ip.h). *)

From stdpp Require Import base gmap list.
From S2P Require Import Prelude Dllist TimerWheel Iptimer.

Open Scope Z_scope.

(** * The next timer *)

Lemma ffs_loop_spec k i x : 0 <= i ->
  match ffs_loop k i x with
  | 0 => forall j, i <= j < i + Z.of_nat k -> Z.testbit x j = false
  | r => i < r <= i + Z.of_nat k /\ Z.testbit x (r - 1) = true /\ forall j, i <= j < r - 1 -> Z.testbit x j = false
  end.
Proof.
  revert i. induction k as [|k IH]; intros i Hi; cbn [ffs_loop]; [intros j Hj; lia|].
  destruct (Z.testbit x i) eqn:E.
  - destruct (i + 1) as [|p|p] eqn:Ei; [lia| |lia]. rewrite <- Ei. replace (i + 1 - 1) with i by lia.
    split_and!; [lia..|done|lia].
  - specialize (IH (i + 1) ltac:(lia)). destruct (ffs_loop k (i + 1) x) as [|r|r].
    + intros j Hj. destruct (decide (j = i)) as [->|]; [done|]. apply IH. lia.
    + destruct IH as (? & ? & IH). split_and!; [lia..|done|]. intros j Hj.
      destruct (decide (j = i)) as [->|]; [done|]. apply IH. lia.
    + destruct IH as (? & ? & IH). lia.
Qed.

(** The lowest bit set. *)
Lemma ffs64_spec x : 0 < x < 2 ^ 64 ->
  1 <= ci_ffs64 x <= 64 /\ Z.testbit x (ci_ffs64 x - 1) = true /\
  forall j, 0 <= j < ci_ffs64 x - 1 -> Z.testbit x j = false.
Proof.
  intros Hx. pose proof (ffs_loop_spec 64 0 x ltac:(lia)) as Hf. fold (ci_ffs64 x) in Hf.
  destruct (ci_ffs64 x) as [|r|r]; [|destruct Hf as (? & ? & ?); split_and!; try done; lia..].
  exfalso. assert (x < 2 ^ 0); [|cbn in *; lia]. apply lt_pow2_bits; [lia..|]. intros i Hi.
  destruct (decide (i < 64)); [apply Hf; lia|]. apply (pow2_bits_above _ 64); lia.
Qed.

Lemma mask_word m i j : 0 <= i < 4 -> 0 <= j < 64 -> mbit m (i * 64 + j) = Z.testbit (aget m i) j.
Proof.
  intros Hi Hj. unfold mbit. f_equal; [f_equal|]; div_lia.
Qed.

(** The scan finds the lowest bit from word [i] on. *)
Lemma busy_scan_spec k i base m : mask_ok m -> 0 <= i -> 4 <= i + Z.of_nat k ->
  match busy_scan k i base m with
  | Some t => exists c, t = u32 (base + c) /\ i * 64 <= c < 256 /\ mbit m c = true /\
      forall d, i * 64 <= d < c -> mbit m d = false
  | None => forall d, i * 64 <= d < 256 -> mbit m d = false
  end.
Proof.
  intros Hm. revert i. induction k as [|k IH]; intros i Hi Hk; cbn [busy_scan]; [intros d Hd; lia|].
  destruct (Z.ltb_spec i 4) as [Hi4|]; [|intros d Hd; lia].
  pose proof (proj2 Hm i ltac:(lia)) as Hw.
  assert (Hlow : forall d, i * 64 <= d < (i + 1) * 64 -> mbit m d = Z.testbit (aget m i) (d - i * 64)).
  { intros d Hd. rewrite <- mask_word by lia. f_equal. lia. }
  destruct (Z.eqb_spec (aget m i) 0) as [E0|E0]; cbn [negb].
  - assert (Hz : forall d, i * 64 <= d < (i + 1) * 64 -> mbit m d = false).
    { intros d Hd. rewrite Hlow, E0 by done. apply Z.testbit_0_l. }
    specialize (IH (i + 1) ltac:(lia) ltac:(lia)). destruct (busy_scan k (i + 1) base m) as [t|].
    + destruct IH as (c & -> & Hc & Hb & Hd). exists c. split_and!; [done|lia..|done|].
      intros d Hd'. destruct (decide (d < (i + 1) * 64)); [apply Hz; lia|apply Hd; lia].
    + intros d Hd. destruct (decide (d < (i + 1) * 64)); [apply Hz; lia|apply IH; lia].
  - destruct (ffs64_spec (aget m i) ltac:(lia)) as (Hr & Hb & Hd).
    exists (i * 64 + (ci_ffs64 (aget m i) - 1)). split_and!; [f_equal; lia|lia..| |].
    + rewrite Hlow by lia. by replace (i * 64 + (ci_ffs64 (aget m i) - 1) - i * 64) with (ci_ffs64 (aget m i) - 1) by lia.
    + intros d Hd'. rewrite Hlow by lia. apply Hd. lia.
Qed.

Lemma window s t : is_u32 s -> is_u32 t -> after s t ->
  if t / 256 =? s / 256 then s mod 256 < t mod 256 /\ offset s t = t mod 256 - s mod 256
  else 256 - s mod 256 <= offset s t.
Proof.
  intros Hs Ht [Ha Hne]. unfold ahead, offset, u32, is_u32 in *. destruct (Z.eqb_spec (t / 256) (s / 256)); div_lia.
Qed.

Lemma wheel0_iff s t : is_u32 s -> is_u32 t -> choose_wheel s t = 0 <-> t / 256 = s / 256.
Proof. intros Hs Ht. rewrite choose_wheel_eq by done. eqb_cases; lia. Qed.

(** The window after the one of [s]. *)
Lemma next_window s t : is_u32 s -> is_u32 t -> after s t -> offset s t < 512 - s mod 256 ->
  t / 256 <> s / 256 -> t / 256 = u32 (s / 256 * 256 + 256) / 256 /\
  (t / 65536 <> s / 65536 -> s / 256 mod 256 = 255).
Proof.
  intros Hs Ht [Ha Hne] Ho Hw. unfold ahead, offset, u32, is_u32 in *. split; [div_lia|intros; div_lia].
Qed.

Section closest.
Context (st : ci_ip_timer_state) (T : gset Z) (P : gmap Z Z) (Hst : settled [] st T P).

#[local] Abbreviation s := (sched_ticks st).

Lemma rest_sched : is_u32 s.
Proof using Hst. apply (wi_sched _ _ _ _ _ _ (proj1 Hst)). Qed.

Lemma rest_after id t : P !! id = Some t -> is_u32 t /\ after s t.
Proof using Hst.
  intros Hid. destruct (wi_time _ _ _ _ _ _ (proj1 Hst) id t Hid) as (_ & Hu & Ha). split_and!; [done|split; [done|]].
  intros ->. by apply (not_elem_of_nil id), (proj2 Hst).
Qed.

(** A bit of the mask is set for a timer of its bucket. *)
Lemma rest_bit d : 0 <= d < 256 -> mbit (busy_mask st) d = true <-> exists id, P !! id = Some (s / 256 * 256 + d).
Proof using Hst.
  intros Hd. pose proof rest_sched as Hs. destruct (wi_lists _ _ _ _ _ _ (proj1 Hst)) as (f & _ & Hp & Hb).
  rewrite (proj2 Hb d Hd), bool_decide_eq_true. split.
  - intros Hf. destruct (f d) as [|id l] eqn:E; [done|]. exists id.
    assert (Hin : id ∈ f d) by (rewrite E; left). apply Hp in Hin as (t & Hid & _ & _ & Hh); [|lia].
    destruct (rest_after id t Hid) as [Hu _]. destruct (home_low s t) as [Hw Hh']; [lia|].
    apply wheel0_iff in Hw; [|done..]. rewrite Hh' in Hh. rewrite bucketno_eq in Hh by lia.
    change (2 ^ (0 * 8)) with 1 in Hh. rewrite Z.div_1_r in Hh. rewrite Hid. f_equal. div_lia.
  - intros [id Hid] Hnil. destruct (rest_after id _ Hid) as [Hu _]. apply (not_elem_of_nil id). rewrite <- Hnil.
    apply Hp; [lia|]. exists (s / 256 * 256 + d). pose proof (not_elem_of_nil id). split_and!; [done..|].
    assert (Hw : choose_wheel s (s / 256 * 256 + d) = 0) by (apply wheel0_iff; [done..|div_lia]).
    rewrite home0, Hw, bucketno_eq by lia. change (2 ^ (0 * 8)) with 1. rewrite Z.div_1_r. div_lia.
Qed.

(** A timer of the current window is seen by the scan. *)
Lemma rest_scanned id t : P !! id = Some t -> t / 256 = s / 256 ->
  s mod 256 / 64 * 64 <= t mod 256 < 256 /\ mbit (busy_mask st) (t mod 256) = true /\
  offset s t = t mod 256 - s mod 256.
Proof using Hst.
  intros Hid Hw. pose proof rest_sched as Hs. destruct (rest_after id t Hid) as [Hu Ha].
  pose proof (window s t Hs Hu Ha) as Hwin. rewrite Hw, Z.eqb_refl in Hwin. destruct Hwin as [Hlt Ho].
  split_and!; [clear -Hlt; div_lia|clear; div_lia| |done].
  apply rest_bit; [clear; div_lia|]. exists id. rewrite Hid. f_equal. clear -Hw. div_lia.
Qed.

(** What the estimate [c] promises. *)
#[local] Abbreviation estimate c := (0 < offset s c <= 512 /\
  (forall id t, P !! id = Some t -> offset s c <= offset s t \/
     (IPTIMER_BUCKETNO 1 s = 255 /\ offset s c <= offset s t + 256)) /\
  ((exists id t, P !! id = Some t /\ t / 256 = s / 256) -> exists id, P !! id = Some c)).

(** The scan of the mask finds the bucket of the earliest timer of the window. *)
Lemma estimate_found c : s mod 256 / 64 * 64 <= c < 256 -> mbit (busy_mask st) c = true ->
  (forall d, s mod 256 / 64 * 64 <= d < c -> mbit (busy_mask st) d = false) -> estimate (u32 (s / 256 * 256 + c)).
Proof using Hst.
  intros Hc Hbit Hmin. pose proof rest_sched as Hs. pose proof (Z.mod_pos_bound s 256 ltac:(lia)) as Hm.
  assert (Hc0 : 0 <= c < 256) by (clear -Hc Hm; div_lia).
  apply rest_bit in Hbit as [id0 Hid0]; [|done]. destruct (rest_after id0 _ Hid0) as [Hu0 Ha0].
  assert (Ec : u32 (s / 256 * 256 + c) = s / 256 * 256 + c) by (apply Z.mod_small; exact Hu0).
  destruct (rest_scanned id0 _ Hid0 ltac:(clear -Hc0; div_lia)) as (_ & _ & Ho0).
  assert (Em : (s / 256 * 256 + c) mod 256 = c) by (clear -Hc0; div_lia). rewrite Em in Ho0.
  rewrite Ec, Ho0. pose proof (window s _ Hs Hu0 Ha0) as Hw0.
  assert (Eq : (s / 256 * 256 + c) / 256 = s / 256) by (clear -Hc0; div_lia).
  rewrite Eq, Z.eqb_refl, Em in Hw0. split_and!; [lia..| |by exists id0].
  intros id t Hid. left. destruct (rest_after id t Hid) as [Hu Ha]. pose proof (window s t Hs Hu Ha) as Hw.
  destruct (Z.eqb_spec (t / 256) (s / 256)) as [E|E]; [|lia].
  destruct (rest_scanned id t Hid E) as (Hd & Hbd & ->). destruct (decide (t mod 256 < c)) as [Hlt|]; [|lia].
  rewrite Hmin in Hbd by lia. done.
Qed.

(** With no timer in the window, the bucket of wheel 1 for the next one tells
    whether that may hold any, but for the last window before the wrap. *)
Section none.
Context (Hnone : forall id t, P !! id = Some t -> t / 256 <> s / 256).

#[local] Abbreviation n := (u32 (s / 256 * 256 + CI_IPTIME_BUCKETS)).

Lemma none_far id t : P !! id = Some t -> 256 - s mod 256 <= offset s t.
Proof using Hst Hnone.
  intros Hid. destruct (rest_after id t Hid) as [Hu Ha]. pose proof (window s t rest_sched Hu Ha) as Hw.
  destruct (Z.eqb_spec (t / 256) (s / 256)) as [E|E]; [by apply (Hnone id t) in E|done].
Qed.

Lemma estimate_next : estimate n.
Proof using Hst Hnone.
  pose proof rest_sched as Hs. pose proof none_far as Hfar.
  assert (On : offset s n = 256 - s mod 256) by (unfold offset, u32, is_u32, CI_IPTIME_BUCKETS in *; clear -Hs; div_lia).
  rewrite On. split_and!; [clear; div_lia|clear; div_lia| |intros (id & t & Hid & E); by apply (Hnone id) in E].
  intros id t Hid. left. by apply (Hfar id).
Qed.

Lemma estimate_after_next : oo_p_dllink_is_empty NULLP (IPTIMER_BUCKET 1 n) (links st) = true ->
  estimate (u32 (n + CI_IPTIME_BUCKETS)).
Proof using Hst Hnone.
  pose proof rest_sched as Hs. pose proof none_far as Hfar. destruct (wi_lists _ _ _ _ _ _ (proj1 Hst)) as (f & Hr & Hp & _).
  assert (Hw1 : 0 <= 256 + IPTIMER_BUCKETNO 1 n < 1024) by (pose proof (bucketno_range 1 n ltac:(lia)); lia).
  change (IPTIMER_BUCKET 1 n) with (WARRAY (256 + IPTIMER_BUCKETNO 1 n)).
  rewrite (rep_bucket_empty _ _ _ _ _ Hr), bool_decide_eq_true by done. intros En.
  assert (On2 : offset s (u32 (n + CI_IPTIME_BUCKETS)) = 512 - s mod 256).
  { unfold offset, u32, is_u32, CI_IPTIME_BUCKETS in *. clear -Hs. div_lia. }
  rewrite On2. split_and!; [clear; div_lia|clear; div_lia| |intros (id & t & Hid & E); by apply (Hnone id) in E].
  intros id t Hid. destruct (decide (512 - s mod 256 <= offset s t)) as [|Hlt]; [by left|]. right.
  destruct (rest_after id t Hid) as [Hu Ha].
  destruct (next_window s t Hs Hu Ha ltac:(lia) (Hnone id t Hid)) as [Hq Hc].
  split; [|specialize (Hfar id t Hid); lia]. rewrite bucketno_eq by lia. apply Hc. intros E.
  apply (not_elem_of_nil id). rewrite <- En. apply Hp; [done|]. exists t. pose proof (not_elem_of_nil id).
  split_and!; [done..|]. assert (Ew : choose_wheel s t = 1).
  { rewrite choose_wheel_eq by done. specialize (Hnone id t Hid). eqb_cases; congruence. }
  rewrite home0, Ew, !bucketno_eq by lia. change (2 ^ (1 * 8)) with 256. by rewrite Hq.
Qed.
End none.

(** C39: the estimate of the next timer made at the end of a poll is in the next
    512 ticks, is the time of the earliest timer when one is in the current
    window of 256 ticks, and is never later than a pending timer, but for one
    case: in the last window before the low 16 bits of the clock wrap, where the
    timers of the next window are still in wheel 2, it can be late by up to 256
    ticks. *)
Theorem update_closest_estimate :
  let c := closest_timer (update_closest st) in
  0 < offset s c <= 512 /\
  (forall id t, P !! id = Some t -> offset s c <= offset s t \/
     (IPTIMER_BUCKETNO 1 s = 255 /\ offset s c <= offset s t + 256)) /\
  ((exists id t, P !! id = Some t /\ t / 256 = s / 256) -> exists id, P !! id = Some c).
Proof using Hst.
  pose proof rest_sched as Hs. unfold update_closest. rewrite mask0 by done.
  assert (Eb : u32 (s - s / 256 * 256) = s mod 256) by (unfold is_u32, u32 in *; div_lia). rewrite Eb.
  destruct (wi_lists _ _ _ _ _ _ (proj1 Hst)) as (f & _ & _ & Hb).
  assert (Hb0 : 0 <= s mod 256 / 64 < 4) by (clear; div_lia).
  pose proof (busy_scan_spec 4 (s mod 256 / 64) (s / 256 * 256) (busy_mask st) (proj1 Hb) ltac:(lia) ltac:(lia)) as Hscan.
  destruct (busy_scan 4 (s mod 256 / 64) (s / 256 * 256) (busy_mask st)) as [t0|].
  - destruct Hscan as (c & -> & Hc & Hbit & Hmin). exact (estimate_found c Hc Hbit Hmin).
  - assert (Hnone : forall id t, P !! id = Some t -> t / 256 <> s / 256).
    { intros id t Hid E. destruct (rest_scanned id t Hid E) as (Hd & Hbd & _). rewrite Hscan in Hbd by done. done. }
    cbv zeta. match goal with |- context [if ?x then _ else _] => change x with
      (oo_p_dllink_is_empty NULLP (IPTIMER_BUCKET 1 (u32 (s / 256 * 256 + CI_IPTIME_BUCKETS))) (links st)) end.
    destruct (oo_p_dllink_is_empty _ _ _) eqn:En; [exact (estimate_after_next Hnone En)|exact (estimate_next Hnone)].
Qed.

End closest.

(** A stack at tick 65300 with timer 7 set for tick 65540. *)
Definition ex_wrap : ci_ip_timer_state :=
  (run_calls (W := unit) (TimerInit 7 (TimerSet 7 65540 (Ret tt)))
     (ci_ip_timer_state_init 0 1000 (Z.shiftl 65300 10) ex_mem)).1.

Lemma ex_wrap_settled : settled [] ex_wrap {[7]} {[7 := 65540]}.
Proof.
  destruct (init_at_rest 0 1000 (Z.shiftl 65300 10) ex_mem tt eq_refl) as (H0 & _). cbn [timers pending] in H0.
  destruct (run_calls_settled (TimerInit 7 (TimerSet 7 65540 (Ret tt))) []
    (ci_ip_timer_state_init 0 1000 (Z.shiftl 65300 10) ex_mem) ∅ ∅ {[7]} {[7 := 65540]} tt H0)
    as (st' & F' & E & _ & H1 & Hl); [vm_compute; reflexivity|].
  destruct F' as [|x F']; [|cbn in Hl; lia]. unfold ex_wrap. by rewrite E.
Qed.

Lemma update_closest_estimate_witness :
  0 < offset 65300 (closest_timer (update_closest ex_wrap)) <= 512 /\
  closest_timer (update_closest ex_wrap) = 65792.
Proof.
  assert (Es : sched_ticks ex_wrap = 65300) by (vm_compute; reflexivity).
  assert (Ec : closest_timer (update_closest ex_wrap) = 65792) by (vm_compute; reflexivity).
  destruct (update_closest_estimate ex_wrap {[7]} {[7 := 65540]} ex_wrap_settled) as (H & _).
  rewrite Es in H. split; [exact H|exact Ec].
Defined.

(** The comment in [ci_ip_timer_poll] notwithstanding, the bucket of wheel 1 for
    the next window is empty while a timer of that window waits in wheel 2. *)
Lemma closest_timer_late : exists id t, ({[7 := 65540]} : gmap Z Z) !! id = Some t /\
  offset 65300 t < offset 65300 (closest_timer (update_closest ex_wrap)).
Proof. exists 7, 65540. split; [done|vm_compute; reflexivity]. Qed.

(** * Cycles, ticks and milliseconds *)

Lemma gran_loop_spec fuel tmp k : 0 <= tmp -> 0 <= k < 31 -> 31 - k < Z.of_nat fuel ->
  let r := gran_loop fuel tmp k in
  k <= r <= 31 /\ (r < 31 -> tmp < 2 ^ r) /\ (k < r -> 2 ^ (r - 1) <= tmp).
Proof.
  revert k. induction fuel as [|fuel IH]; intros k Ht Hk Hf; [lia|]. cbn [gran_loop]. cbv zeta.
  rewrite Z.shiftl_1_l. destruct (Z.leb_spec (2 ^ k) tmp) as [Hle|Hlt].
  - destruct (Z.eqb_spec (k + 1) 31) as [E|E].
    + split_and!; [lia..|]. intros _. by replace (k + 1 - 1) with k by lia.
    + destruct (IH (k + 1) Ht ltac:(lia) ltac:(lia)) as (H1 & H2 & H3). split_and!; [lia..|done|].
      intros _. destruct (decide (k + 1 < gran_loop fuel tmp (k + 1))) as [Hr|Hr]; [by apply H3|].
      replace (gran_loop fuel tmp (k + 1) - 1) with k by lia. done.
  - split_and!; [lia..|done|lia].
Qed.

(** The shift for ticks is the number of bits of the clock rate in kHz. *)
Lemma init_shift_spec khz : 1 <= khz < 2 ^ 31 ->
  1 <= init_shift khz <= 31 /\ 2 ^ (init_shift khz - 1) <= khz < 2 ^ init_shift khz.
Proof.
  intros Hk. unfold init_shift, shift_for_gran. change (CI_IP_TIME_APP_GRANULARITY <? 1000) with false. cbv iota.
  change (CI_IP_TIME_APP_GRANULARITY / 1000) with 1. rewrite Z.mul_1_r, u32_small by lia.
  destruct (gran_loop_spec 32 khz 0 ltac:(lia) ltac:(lia) ltac:(lia)) as (H1 & H2 & H3).
  revert H1 H2 H3. generalize (gran_loop 32 khz 0) as r. intros r H1 H2 H3.
  assert (0 < r). { destruct (decide (r = 0)) as [->|]; [specialize (H2 ltac:(lia)); cbn in H2; lia|lia]. }
  split_and!; [lia..|by apply H3|]. destruct (decide (r < 31)); [by apply H2|]. replace r with 31 by lia. apply Hk.
Qed.

Section convert.
Context (isn khz frc0 : Z) (mem : ci_ip_timer_state) (Hk : 1 <= khz < 2 ^ 31).

#[local] Abbreviation its := (ci_ip_timer_state_init isn khz frc0 mem).
#[local] Abbreviation sh := (init_shift khz).

(** The conversion factor is exact: [khz / 2^sh] in 32 fractional bits. *)
Lemma fxp_exact : ci_ip_time_ms2tick_fxp its = khz * 2 ^ (32 - sh) /\
  2 ^ 31 <= ci_ip_time_ms2tick_fxp its < 2 ^ 32.
Proof using Hk.
  destruct (init_shift_spec khz Hk) as [Hs [Hlo Hhi]].
  assert (E : ci_ip_time_ms2tick_fxp its = khz * 2 ^ (32 - sh)).
  { change (ci_ip_time_ms2tick_fxp its) with (u64 (Z.shiftl khz 32) / Z.shiftl 1 sh).
    rewrite Z.shiftl_1_l, Z.shiftl_mul_pow2 by lia. unfold u64. rewrite Z.mod_small by lia.
    replace (2 ^ 32) with (2 ^ (32 - sh) * 2 ^ sh) by (rewrite <- Z.pow_add_r by lia; f_equal; lia).
    rewrite Z.mul_assoc. apply Z.div_mul. apply Z.pow_nonzero; lia. }
  rewrite E. split; [done|]. assert (0 < 2 ^ (32 - sh)) by (apply Z.pow_pos_nonneg; lia). split.
  - replace (2 ^ 31) with (2 ^ (sh - 1) * 2 ^ (32 - sh)) by (rewrite <- Z.pow_add_r by lia; f_equal; lia). nia.
  - replace (2 ^ 32) with (2 ^ sh * 2 ^ (32 - sh)) by (rewrite <- Z.pow_add_r by lia; f_equal; lia). nia.
Qed.

Lemma ms2ticks_value t : 0 <= t < 2 ^ 32 ->
  ci_ip_time_ms2ticks its t = Z.max 1 (t * khz / 2 ^ sh) /\ t * ci_ip_time_ms2tick_fxp its / 2 ^ 32 = t * khz / 2 ^ sh /\
  0 <= t * khz / 2 ^ sh <= t.
Proof using Hk.
  intros Ht. destruct (init_shift_spec khz Hk) as [Hs [Hlo Hhi]]. destruct fxp_exact as [E Hf].
  set (F := ci_ip_time_ms2tick_fxp its) in *.
  assert (Hq : t * F / 2 ^ 32 = t * khz / 2 ^ sh).
  { rewrite E. replace (2 ^ 32) with (2 ^ sh * 2 ^ (32 - sh)) by (rewrite <- Z.pow_add_r by lia; f_equal; lia).
    rewrite Z.mul_assoc. apply Z.div_mul_cancel_r; apply Z.pow_nonzero; lia. }
  rewrite <- Hq. set (q := t * F / 2 ^ 32) in *.
  assert (Hq0 : 0 <= q <= t).
  { subst q. split; [apply Z.div_pos; [nia|lia]|]. apply Z.div_le_upper_bound; [lia|]. nia. }
  split; [|done]. unfold ci_ip_time_ms2ticks. fold F. unfold u64. rewrite Z.mod_small by nia.
  rewrite Z.shiftr_div_pow2 by lia. fold q. rewrite u32_small by lia. unfold nz.
  destruct (Z.eqb_spec q 0); cbn; lia.
Qed.

(** from the clock rate given at initialisation, [t] milliseconds, which are
    [t * khz] cycles, are converted to the whole number of ticks of [2^sh] cycles
    they hold, at least one, with no overflow for any 32-bit [t]; a tick is more
    than one millisecond and at most two; and converting back loses at most two
    milliseconds and never gains any but in rounding up from zero ticks. *)
Theorem ms2ticks_exact t : 0 <= t < 2 ^ 32 ->
  ci_ip_time_ms2ticks its t = Z.max 1 (t * khz / 2 ^ sh) /\
  khz < 2 ^ sh <= 2 * khz /\
  t - 2 <= ci_ip_time_ticks2ms its (ci_ip_time_ms2ticks its t) <= Z.max t 2.
Proof using Hk.
  intros Ht. destruct (init_shift_spec khz Hk) as [Hs [Hlo Hhi]]. destruct fxp_exact as [E Hf].
  assert (Hp : 2 ^ sh = 2 * 2 ^ (sh - 1)) by (rewrite <- Z.pow_succ_r by lia; f_equal; lia).
  destruct (ms2ticks_value t Ht) as (Hk1 & Hq & Hq0). rewrite <- Hq in *.
  set (F := ci_ip_time_ms2tick_fxp its) in *. set (q := t * F / 2 ^ 32) in *.
  rewrite Hk1. split_and!; [done|lia..| |]; unfold ci_ip_time_ticks2ms; fold F;
    unfold u64; rewrite Z.shiftl_mul_pow2, (Z.mod_small (Z.max 1 q * 2 ^ 32)) by lia.
  - destruct (decide (t <= 2)) as [|Ht2]; [transitivity 0; [lia|apply Z.mod_pos_bound; lia]|].
    assert (Hr : t - 2 <= Z.max 1 q * 2 ^ 32 / F <= t).
    { pose proof (Z.mul_div_le (t * F) (2 ^ 32) ltac:(lia)). pose proof (Z.mul_succ_div_gt (t * F) (2 ^ 32) ltac:(lia)).
      fold q in H, H0. split; [apply Z.div_le_lower_bound; nia|apply Z.div_le_upper_bound; nia]. }
    rewrite u32_small; lia.
  - assert (Hr : 0 <= Z.max 1 q * 2 ^ 32 / F <= Z.max t 2).
    { pose proof (Z.mul_div_le (t * F) (2 ^ 32) ltac:(lia)). fold q in H.
      split; [apply Z.div_pos; lia|]. apply Z.div_le_upper_bound; [lia|]. nia. }
    rewrite u32_small; lia.
Qed.

End convert.

Lemma ms2ticks_exact_witness :
  ci_ip_time_ms2ticks (ci_ip_timer_state_init 0 2600000 0 ex_mem) 250 = Z.max 1 (250 * 2600000 / 2 ^ 22) /\
  ci_ip_time_ms2ticks (ci_ip_timer_state_init 0 2600000 0 ex_mem) 250 = 154.
Proof.
  split; [|vm_compute; reflexivity].
  apply (ms2ticks_exact 0 2600000 0 ex_mem ltac:(lia) 250 ltac:(lia)).
Defined.

(** The comment on the factor gives its range as above one half; a clock rate
    that is a power of two in kHz makes it exactly one half. *)
Lemma fxp_can_be_half : ci_ip_time_ms2tick_fxp (ci_ip_timer_state_init 0 (2 ^ 21) 0 ex_mem) = 2 ^ 31.
Proof. vm_compute. reflexivity. Qed.
