(* ===== verification/OnloadHash.v ===== *)
(** The hash functions of include/onload/hash.h, for IPv4 addresses, and double
    hashing.

    A table of [2^k] slots is walked from slot [hash1] in steps of [hash2].  The
    file proves what the comments of hash.h claim: the Local Port Recovery
    Property of [__onload_hash1] (Lemma 2 to Proposition 5 there), and that an odd
    step visits every slot once before it is back at the first; the tables of
    files NetifTable and PrevSeq are built on the second. *)

From stdpp Require Import base list numbers list_numbers.
From Stdlib Require Import Znumtheory Zpow_facts.
From S2P Require Import Prelude.

Open Scope Z_scope.

(** * The functions *)

(** An address is the 32-bit value of its bytes in network order, read by a
    little-endian host: [CI_BSWAP_LE32] is the identity. *)
Definition onload_addr_xor (addr : Z) : Z := addr.

Definition mix (h : Z) : Z :=
  let h := Z.lxor h (Z.shiftr h 16) in
  Z.lxor h (Z.shiftr h 8).

Definition __onload_hash3 (laddr lport raddr rport protocol : Z) : Z :=
  let h := Z.lxor (Z.lxor (Z.lxor (bswap32 raddr) laddr) (Z.lor (u32 (Z.shiftl rport 16)) lport)) protocol in
  mix h.

Definition onload_hash3 (laddr lport raddr rport protocol : Z) : Z :=
  __onload_hash3 (onload_addr_xor laddr) lport (onload_addr_xor raddr) rport protocol.

Definition __onload_hash1 (size_mask laddr lport raddr rport protocol : Z) : Z :=
  Z.land (__onload_hash3 laddr lport raddr rport protocol) size_mask.

Definition onload_hash1 (size_mask laddr lport raddr rport protocol : Z) : Z :=
  __onload_hash1 size_mask (onload_addr_xor laddr) lport (onload_addr_xor raddr) rport protocol.

Definition __onload_hash2 (laddr lport raddr rport protocol : Z) : Z :=
  Z.lor (Z.lxor (Z.lxor (Z.lxor laddr raddr) (Z.lor (u32 (Z.shiftl lport 16)) rport)) protocol) 1.

Definition onload_hash2 (laddr lport raddr rport protocol : Z) : Z :=
  __onload_hash2 (onload_addr_xor laddr) lport (onload_addr_xor raddr) rport protocol.

(** * Local ports *)

Lemma mix_lxor a b : mix (Z.lxor a b) = Z.lxor (mix a) (mix b).
Proof.
  unfold mix. rewrite !Z.shiftr_lxor. apply Z.bits_inj'. intros i Hi.
  rewrite !Z.lxor_spec. by repeat destruct (Z.testbit _ i).
Qed.

(** Lemma 2 of hash.h, for values of 16 bits in the low half. *)
Lemma mix_small d : 0 <= d < 65536 -> mix d `mod` 65536 = 0 -> d = 0.
Proof.
  intros Hd Hm. unfold mix in Hm.
  assert (E : Z.shiftr d 16 = 0) by (rewrite Z.shiftr_div_pow2 by lia; apply Z.div_small; lia).
  rewrite E, Z.lxor_0_r in Hm.
  assert (Hs : 0 <= Z.shiftr d 8 < 65536) by (rewrite Z.shiftr_div_pow2 by lia; Z.div_mod_to_equations; lia).
  assert (Hx : Z.lxor d (Z.shiftr d 8) = 0).
  { rewrite <- Hm. symmetry. change 65536 with (2 ^ 16). rewrite <- Z.land_ones by lia.
    apply Z.bits_inj'. intros i Hi. rewrite Z.land_spec.
    destruct (decide (i < 16)); [by rewrite Z.ones_spec_low, andb_true_r by lia|].
    rewrite Z.ones_spec_high, andb_false_r by lia. rewrite Z.lxor_spec.
    rewrite <- (Z.mod_small d (2 ^ 16)) at 1 by lia.
    rewrite <- (Z.mod_small (Z.shiftr d 8) (2 ^ 16)) by lia.
    by rewrite !Z.mod_pow2_bits_high by lia. }
  apply Z.lxor_eq in Hx. rewrite Z.shiftr_div_pow2 in Hx by lia. Z.div_mod_to_equations. lia.
Qed.

Lemma lor_shiftl_lxor a b n : 0 <= n -> 0 <= b < 2 ^ n -> Z.lor (Z.shiftl a n) b = Z.lxor (Z.shiftl a n) b.
Proof.
  intros Hn Hb. symmetry. apply Z.lxor_lor, Z.bits_inj'. intros i Hi.
  rewrite Z.land_spec, Z.bits_0, Z.shiftl_spec by lia.
  destruct (decide (i < n)); [by rewrite Z.testbit_neg_r by lia|].
  rewrite <- (Z.mod_small b (2 ^ n)), Z.mod_pow2_bits_high by lia. by rewrite andb_false_r.
Qed.

Lemma u32_shiftl16 p : u32 (Z.shiftl p 16) = Z.shiftl (p `mod` 65536) 16.
Proof. rewrite !Z.shiftl_mul_pow2 by lia. word_lia. Qed.

Lemma hash3_lport laddr lport1 lport2 raddr rport protocol :
  0 <= lport1 < 65536 -> 0 <= lport2 < 65536 ->
  Z.lxor (__onload_hash3 laddr lport1 raddr rport protocol) (__onload_hash3 laddr lport2 raddr rport protocol) =
  mix (Z.lxor lport1 lport2).
Proof.
  intros H1 H2. unfold __onload_hash3. rewrite <- mix_lxor. f_equal.
  rewrite u32_shiftl16, !lor_shiftl_lxor by lia. apply Z.bits_inj'. intros i Hi.
  rewrite !Z.lxor_spec. by repeat destruct (Z.testbit _ i).
Qed.

Lemma lxor_range a b k : 0 <= k -> 0 <= a < 2 ^ k -> 0 <= b < 2 ^ k -> 0 <= Z.lxor a b < 2 ^ k.
Proof.
  intros Hk Ha Hb. assert (E : Z.lxor a b = Z.lxor a b `mod` 2 ^ k).
  { rewrite <- Z.land_ones by lia. apply Z.bits_inj'. intros i Hi. rewrite Z.land_spec.
    destruct (decide (i < k)); [by rewrite Z.ones_spec_low, andb_true_r by lia|].
    rewrite Z.ones_spec_high, andb_false_r, Z.lxor_spec by lia.
    rewrite <- (Z.mod_small a (2 ^ k)), <- (Z.mod_small b (2 ^ k)) by lia.
    by rewrite !Z.mod_pow2_bits_high by lia. }
  rewrite E. apply Z.mod_pos_bound. by apply pow2_pos.
Qed.

Lemma land_lxor_mask a b m : Z.land a m = Z.land b m -> Z.land (Z.lxor a b) m = 0.
Proof.
  intros H. apply Z.bits_inj'. intros i Hi. apply (f_equal (fun z => Z.testbit z i)) in H.
  rewrite !Z.land_spec in H. rewrite Z.land_spec, Z.lxor_spec, Z.bits_0.
  destruct (Z.testbit a i), (Z.testbit b i), (Z.testbit m i); simpl in *; congruence.
Qed.

(** Proposition 5 of hash.h. *)
Lemma hash1_lprp k laddr lport1 lport2 raddr rport protocol :
  16 <= k -> 0 <= lport1 < 65536 -> 0 <= lport2 < 65536 ->
  __onload_hash1 (2 ^ k - 1) laddr lport1 raddr rport protocol =
  __onload_hash1 (2 ^ k - 1) laddr lport2 raddr rport protocol -> lport1 = lport2.
Proof.
  intros Hk H1 H2 E. unfold __onload_hash1 in E. apply land_lxor_mask in E.
  rewrite hash3_lport, land_mask in E by lia.
  apply Z.lxor_eq, mix_small; [by apply (lxor_range _ _ 16)|].
  replace (2 ^ k) with (2 ^ 16 * 2 ^ (k - 16)) in E by (rewrite <- Z.pow_add_r by lia; f_equal; lia).
  assert (0 < 2 ^ (k - 16)) by (apply pow2_pos; lia).
  change 65536 with (2 ^ 16). rewrite <- (Z.mod_mod_divide _ (2 ^ 16 * 2 ^ (k - 16)) (2 ^ 16)); [by rewrite E|].
  by exists (2 ^ (k - 16)); lia.
Qed.

(** * Double hashing *)

Section probing.
Context (k h1 h2 : Z).

(** The slot visited after [i] steps. *)
Definition probe (i : Z) : Z := (h1 + i * h2) `mod` 2 ^ k.

(** When slot [s] is visited. *)
Definition visit (s : Z) : Z := default 0 (snd <$> list_find (fun i => probe i = s) (seqZ 0 (2 ^ k))).

Lemma probe_0 : 0 <= h1 < 2 ^ k -> probe 0 = h1.
Proof. intros. unfold probe. rewrite Z.mul_0_l, Z.add_0_r. by apply Z.mod_small. Qed.

Lemma probe_range i : 0 <= k -> 0 <= probe i < 2 ^ k.
Proof. intros. apply Z.mod_pos_bound. by apply pow2_pos. Qed.

Lemma probe_add_size i : 0 <= k -> probe (i + 2 ^ k) = probe i.
Proof.
  intros. assert (0 < 2 ^ k) by (by apply pow2_pos). unfold probe.
  replace (h1 + (i + 2 ^ k) * h2) with (h1 + i * h2 + h2 * 2 ^ k) by lia. by rewrite Z.mod_add by lia.
Qed.

(** One step of the code. *)
Lemma probe_step i : 0 <= k <= 32 -> Z.land (u32 (probe i + h2)) (2 ^ k - 1) = probe (i + 1).
Proof.
  intros. assert (0 < 2 ^ k) by (apply pow2_pos; lia). rewrite land_mask by lia. rewrite u32_mod_pow2 by lia.
  unfold probe. rewrite Zplus_mod_idemp_l. f_equal. lia.
Qed.

Context (Hk : 0 <= k) (Hodd : h2 `mod` 2 = 1).

Lemma pow2_divide_odd_mul d : (2 ^ k | d * h2) -> (2 ^ k | d).
Proof.
  intros H. apply (Gauss (2 ^ k) h2 d); [by rewrite Z.mul_comm|].
  apply rel_prime_sym, rel_prime_Zpower_r; [lia|]. apply rel_prime_sym, prime_rel_prime; [apply prime_2|].
  intros [q E]. Z.div_mod_to_equations. lia.
Qed.

Lemma probe_inj i j : 0 <= i < 2 ^ k -> 0 <= j < 2 ^ k -> probe i = probe j -> i = j.
Proof.
  intros Hi Hj E. assert (Hp : 0 < 2 ^ k) by (by apply pow2_pos).
  assert (Hd : (2 ^ k | i - j)).
  { apply pow2_divide_odd_mul. apply Z.mod_divide; [lia|]. unfold probe in E.
    replace ((i - j) * h2) with ((h1 + i * h2) - (h1 + j * h2)) by lia.
    rewrite Zminus_mod, E, Z.sub_diag. apply Z.mod_0_l. lia. }
  destruct Hd as [q E']. assert (q = 0) by nia. lia.
Qed.

(** The walk is back at its first slot after [2^k] steps and not before. *)
Lemma probe_first i : 0 < i <= 2 ^ k -> 0 <= h1 < 2 ^ k -> probe i = h1 <-> i = 2 ^ k.
Proof.
  intros Hi Hh. split.
  - intros E. destruct (decide (i = 2 ^ k)); [done|]. rewrite <- probe_0 in E by done.
    apply probe_inj in E; lia.
  - intros ->. rewrite <- (Z.add_0_l (2 ^ k)) at 1. rewrite probe_add_size by done. by apply probe_0.
Qed.

(** Every slot is visited. *)
Lemma probe_surj s : 0 <= s < 2 ^ k -> exists i, 0 <= i < 2 ^ k /\ probe i = s.
Proof.
  intros Hs. assert (Hin : s ∈ probe <$> seqZ 0 (2 ^ k)).
  { assert (Hp : probe <$> seqZ 0 (2 ^ k) ≡ₚ seqZ 0 (2 ^ k)).
    { apply submseteq_length_Permutation; [|by rewrite length_fmap].
      apply NoDup_submseteq.
      - apply NoDup_fmap_2_strong; [|apply NoDup_seqZ].
        intros i j Hi%elem_of_seqZ Hj%elem_of_seqZ. apply probe_inj; lia.
      - intros x (i & -> & _)%list_elem_of_fmap. apply elem_of_seqZ. pose proof (probe_range i Hk). lia. }
    rewrite Hp. apply elem_of_seqZ. lia. }
  apply list_elem_of_fmap in Hin as (i & -> & Hi%elem_of_seqZ). eauto with lia.
Qed.

Lemma visit_spec s : 0 <= s < 2 ^ k -> 0 <= visit s < 2 ^ k /\ probe (visit s) = s.
Proof.
  intros Hs. destruct (probe_surj s Hs) as (i & Hi & E). unfold visit.
  destruct (list_find_elem_of (fun i => probe i = s) (seqZ 0 (2 ^ k)) i) as [[n x] Ef];
    [apply elem_of_seqZ; lia|done|].
  rewrite Ef. cbn. apply list_find_Some in Ef as (El & Ep & _).
  apply list_elem_of_lookup_2, elem_of_seqZ in El. split; [lia|done].
Qed.

Lemma visit_probe i : 0 <= i < 2 ^ k -> visit (probe i) = i.
Proof.
  intros Hi. destruct (visit_spec (probe i)) as [Hv Ev]; [by apply probe_range|].
  by apply probe_inj in Ev.
Qed.

End probing.

Lemma hash2_odd laddr lport raddr rport protocol : __onload_hash2 laddr lport raddr rport protocol `mod` 2 = 1.
Proof.
  unfold __onload_hash2. rewrite <- Z.bit0_mod, Z.lor_spec. by rewrite orb_true_r.
Qed.

Lemma hash1_range k laddr lport raddr rport protocol :
  0 <= k -> 0 <= __onload_hash1 (2 ^ k - 1) laddr lport raddr rport protocol < 2 ^ k.
Proof. intros. by apply land_mask_range. Qed.

Section steps.
Context (k laddr lport raddr rport protocol : Z).

(** One step of the walk of a tuple, as the tables write it. *)
Definition next_slot (s : Z) : Z :=
  Z.land (u32 (s + __onload_hash2 laddr lport raddr rport protocol)) (2 ^ k - 1).

Lemma iter_next_slot n : 0 <= k <= 32 ->
  Nat.iter n next_slot (__onload_hash1 (2 ^ k - 1) laddr lport raddr rport protocol) =
  probe k (__onload_hash1 (2 ^ k - 1) laddr lport raddr rport protocol)
    (__onload_hash2 laddr lport raddr rport protocol) (Z.of_nat n).
Proof.
  intros Hk. induction n as [|n IH].
  - cbn [Nat.iter nat_rect]. rewrite probe_0; [done|]. apply hash1_range. lia.
  - cbn [Nat.iter nat_rect]. fold (Nat.iter n next_slot). unfold Nat.iter in IH. rewrite IH. unfold next_slot.
    rewrite probe_step by lia. f_equal. lia.
Qed.
End steps.

(** The claims of hash.h.  For a table of at least [2^16] slots the first slot
    of a tuple and the rest of the tuple determine the local port (the Local Port
    Recovery Property that lets the fast path skip a comparison), and the double
    hashing visits every slot exactly once before it is back at the first. *)
Theorem onload_hash_walk k laddr lport raddr rport protocol : 16 <= k <= 32 -> 0 <= lport < 65536 ->
  let first := __onload_hash1 (2 ^ k - 1) laddr lport raddr rport protocol in
  let next := next_slot k laddr lport raddr rport protocol in
  (forall lport', 0 <= lport' < 65536 ->
     __onload_hash1 (2 ^ k - 1) laddr lport' raddr rport protocol = first -> lport' = lport) /\
  (forall s, 0 <= s < 2 ^ k -> exists n, (Z.of_nat n < 2 ^ k /\ Nat.iter n next first = s) /\
     forall n', Z.of_nat n' < 2 ^ k -> Nat.iter n' next first = s -> n' = n) /\
  Nat.iter (Z.to_nat (2 ^ k)) next first = first.
Proof.
  intros Hk Hp. cbv zeta. assert (0 < 2 ^ k) by (apply pow2_pos; lia). split_and!.
  - intros lport' Hp' E. apply (hash1_lprp k) in E; lia.
  - intros s Hs. destruct (probe_surj k (__onload_hash1 (2 ^ k - 1) laddr lport raddr rport protocol)
      (__onload_hash2 laddr lport raddr rport protocol) ltac:(lia) (hash2_odd _ _ _ _ _) s Hs) as (i & Hi & E).
    exists (Z.to_nat i). rewrite iter_next_slot, Z2Nat.id by lia. split; [split; [lia|done]|].
    intros n' Hn'. rewrite iter_next_slot by lia. rewrite <- E. intros Ei.
    apply probe_inj in Ei; [lia|lia|apply hash2_odd|lia|lia].
  - rewrite iter_next_slot, Z2Nat.id by lia. apply probe_first; [lia|apply hash2_odd|lia| |done].
    apply hash1_range. lia.
Qed.

Lemma onload_hash_walk_witness :
  __onload_hash1 65535 0x0100a8c0 80 0x0200a8c0 0x1234 6 <> __onload_hash1 65535 0x0100a8c0 81 0x0200a8c0 0x1234 6 /\
  Nat.iter (Z.to_nat 65536) (next_slot 16 0x0100a8c0 80 0x0200a8c0 0x1234 6)
    (__onload_hash1 65535 0x0100a8c0 80 0x0200a8c0 0x1234 6) = __onload_hash1 65535 0x0100a8c0 80 0x0200a8c0 0x1234 6.
Proof.
  destruct (onload_hash_walk 16 0x0100a8c0 80 0x0200a8c0 0x1234 6) as (H1 & _ & H3); [lia|lia|].
  split; [|exact H3]. intros E. specialize (H1 81 ltac:(lia)). symmetry in E. specialize (H1 E). lia.
Defined.
