(* ===== verification/NetifTable.v ===== *)
(** The software filter table of the TCP/IP stack, lib/transport/ip/netif_table.c
    and netif_table.h, in the build without IPv6: the open-addressed hash table
    that finds the socket a packet belongs to.

    A filter is a socket and a tuple of local and remote address and port and a
    protocol.  It is stored at the first free slot of the walk of its tuple; each
    slot counts in [route_count] the walks of stored filters that pass through it,
    and a slot freed while walks pass through it becomes a tombstone.  The remote
    address, port and protocol of a filter are not stored but read from its
    socket.  This file holds the definitions; file NetifTableSystem has the
    invariant and the theorems. *)

From stdpp Require Import base gmap list.
From S2P Require Import Prelude OnloadHash.

Open Scope Z_scope.

Definition ENOENT := 2.
Definition ELOOP := 40.
Definition ENOBUFS := 105.

(** * State *)

Record ci_netif_filter_table_entry_fast := mk_fast { __id_and_state : Z; fast_laddr : Z }.

Record ci_netif_filter_table_entry_ext := mk_ext { route_count : Z; ext_lport : Z }.

(** What the table reads and writes of [ci_sock_cmn]. *)
Record ci_sock_cmn := mk_sock {
  sock_raddr_be32 : Z;
  sock_rport_be16 : Z;
  sock_protocol : Z;
  rx_bind2dev_ifindex : Z;
  rx_bind2dev_hwports : Z;
  rx_bind2dev_vlan : Z;
  s_flags : Z }.

(** What the table reads and writes of [ci_netif]: the two halves of the table,
    the sockets, the map from interfaces to ports and the statistics.  Slots are
    always masked with [table_size_mask], so the arrays are maps. *)
Record ci_netif := mk_netif {
  table_size_mask : Z;
  table : gmap Z ci_netif_filter_table_entry_fast;
  filter_table_ext : gmap Z ci_netif_filter_table_entry_ext;
  socks : gmap Z ci_sock_cmn;
  intf_i_to_hwport : gmap Z Z;
  table_max_hops : Z;
  table_mean_hops : Z;
  table_n_slots : Z;
  table_n_entries : Z;
  sw_filter_insert_table_full : Z }.

#[global] Instance fast_eta : Eta ci_netif_filter_table_entry_fast.
Proof. refine {| eta := fun r => mk_fast (__id_and_state r) (fast_laddr r) |}. solve_eta. Defined.

#[global] Instance ext_eta : Eta ci_netif_filter_table_entry_ext.
Proof. refine {| eta := fun r => mk_ext (route_count r) (ext_lport r) |}. solve_eta. Defined.

#[global] Instance sock_eta : Eta ci_sock_cmn.
Proof.
  refine {| eta := fun r => mk_sock (sock_raddr_be32 r) (sock_rport_be16 r) (sock_protocol r)
    (rx_bind2dev_ifindex r) (rx_bind2dev_hwports r) (rx_bind2dev_vlan r) (s_flags r) |}. solve_eta.
Defined.

#[global] Instance netif_eta : Eta ci_netif.
Proof.
  refine {| eta := fun r => mk_netif (table_size_mask r) (table r) (filter_table_ext r) (socks r)
    (intf_i_to_hwport r) (table_max_hops r) (table_mean_hops r) (table_n_slots r) (table_n_entries r)
    (sw_filter_insert_table_full r) |}. solve_eta.
Defined.

#[global] Instance fast_inhabited : Inhabited ci_netif_filter_table_entry_fast := populate (mk_fast 0 0).
#[global] Instance ext_inhabited : Inhabited ci_netif_filter_table_entry_ext := populate (mk_ext 0 0).
#[global] Instance sock_inhabited : Inhabited ci_sock_cmn := populate (mk_sock 0 0 0 0 0 0 0).

(** [&tbl->table[i]], [&netif->filter_table_ext[i]] and [ID_TO_SOCK(netif, id)]. *)
Definition fast_at (ni : ci_netif) (i : Z) : ci_netif_filter_table_entry_fast := table ni !!! i.
Definition ext_at (ni : ci_netif) (i : Z) : ci_netif_filter_table_entry_ext := filter_table_ext ni !!! i.
Definition ID_TO_SOCK (ni : ci_netif) (id : Z) : ci_sock_cmn := socks ni !!! id.

(** Writes through the three kinds of pointers. *)
Definition fast_upd (i : Z) (f : ci_netif_filter_table_entry_fast -> ci_netif_filter_table_entry_fast)
    (ni : ci_netif) : ci_netif := ni <| table ::= <[i := f (fast_at ni i)]> |>.
Definition ext_upd (i : Z) (f : ci_netif_filter_table_entry_ext -> ci_netif_filter_table_entry_ext)
    (ni : ci_netif) : ci_netif := ni <| filter_table_ext ::= <[i := f (ext_at ni i)]> |>.
Definition sock_upd (id : Z) (f : ci_sock_cmn -> ci_sock_cmn) (ni : ci_netif) : ci_netif :=
  ni <| socks ::= <[id := f (ID_TO_SOCK ni id)]> |>.

(** * Entries *)

Definition FILTER_TABLE_ID_BITS := 30.
Definition FILTER_TABLE_ID_MASK : Z := Z.shiftl 1 FILTER_TABLE_ID_BITS - 1.
Definition FILTER_TABLE_STATE_MASK : Z := u32 (Z.lnot FILTER_TABLE_ID_MASK).
Definition OCCUPIED_PREFERRED := 0.
Definition OCCUPIED_REHASHED : Z := Z.shiftl 1 FILTER_TABLE_ID_BITS.
Definition EMPTY : Z := Z.shiftl 2 FILTER_TABLE_ID_BITS.
Definition TOMBSTONE : Z := Z.shiftl 3 FILTER_TABLE_ID_BITS.

Definition STATE (entry : ci_netif_filter_table_entry_fast) : Z :=
  Z.land (__id_and_state entry) FILTER_TABLE_STATE_MASK.

Definition OCCUPIED (entry : ci_netif_filter_table_entry_fast) : Z :=
  Z.land (Z.land (u32 (Z.lnot (STATE entry))) EMPTY) TOMBSTONE.

Definition __ID (entry : ci_netif_filter_table_entry_fast) : Z :=
  Z.land (__id_and_state entry) FILTER_TABLE_ID_MASK.
Definition ID (entry : ci_netif_filter_table_entry_fast) : Z := __ID entry.

Definition set_entry_state (state : Z) (entry : ci_netif_filter_table_entry_fast)
    : ci_netif_filter_table_entry_fast := entry <| __id_and_state := Z.lor (__ID entry) state |>.

Definition set_entry_id (id : Z) (entry : ci_netif_filter_table_entry_fast)
    : ci_netif_filter_table_entry_fast := entry <| __id_and_state := Z.lor (STATE entry) (u32 id) |>.

Definition CI_NETIF_FILTER_ID_TO_SOCK_ID (ni : ci_netif) (filter_id : Z) : Z := ID (fast_at ni filter_id).

(** * Lookup *)

Section lookup.
Context (ni : ci_netif) (laddr lport raddr rport protocol : Z).

Fixpoint lookup_loop (fuel : nat) (hash1 hash2 first : Z) : option Z :=
  match fuel with
  | O => None
  | S fuel =>
    let entry := fast_at ni hash1 in
    let entry_ext := ext_at ni hash1 in
    let s := ID_TO_SOCK ni (ID entry) in
    if nz (OCCUPIED entry) &&
       (Z.lor (Z.lor (Z.lor (Z.lor (u32 (laddr - fast_laddr entry)) (u32 (lport - ext_lport entry_ext)))
          (u32 (raddr - sock_raddr_be32 s))) (u32 (rport - sock_rport_be16 s)))
          (u32 (protocol - sock_protocol s)) =? 0)
    then Some (s32 hash1)
    else if STATE entry =? EMPTY then Some (- ENOENT)
    else
      let hash2 := if hash1 =? first then __onload_hash2 laddr lport raddr rport protocol else hash2 in
      let hash1 := Z.land (u32 (hash1 + hash2)) (table_size_mask ni) in
      if hash1 =? first then Some (- ELOOP) else lookup_loop fuel hash1 hash2 first
  end.

(** The walk visits each slot at most once. *)
Definition table_fuel : nat := Z.to_nat (table_size_mask ni + 1).

Definition ci_ip4_netif_filter_lookup : option Z :=
  let hash1 := __onload_hash1 (table_size_mask ni) laddr lport raddr rport protocol in
  lookup_loop table_fuel hash1 0 hash1.

Definition OO_SP_NULL := -1.

Definition ci_netif_filter_lookup : option Z :=
  rc ← ci_ip4_netif_filter_lookup;
  Some (if 0 <=? rc then CI_NETIF_FILTER_ID_TO_SOCK_ID ni rc else OO_SP_NULL).

Definition ci_netif_filter_hash : Z := onload_hash3 laddr lport raddr rport protocol.

End lookup.

Definition IPPROTO_TCP := 6.

Definition ci_netif_listener_lookup (ni : ci_netif) (laddr lport : Z) : option Z :=
  sock ← ci_netif_filter_lookup ni laddr lport 0 0 IPPROTO_TCP;
  if sock =? OO_SP_NULL then ci_netif_filter_lookup ni 0 lport 0 0 IPPROTO_TCP else Some sock.

Definition __ci_ip4_netif_filter_lookup (ni : ci_netif) (laddr lport raddr rport protocol : Z) : option Z :=
  rc ← ci_ip4_netif_filter_lookup ni laddr lport raddr rport protocol;
  if 0 <=? rc then Some rc
  else
    rc ← ci_ip4_netif_filter_lookup ni laddr lport 0 0 protocol;
    if 0 <=? rc then Some rc else Some (- ENOENT).

(** The socket found, [None] for the null pointer. *)
Definition __ci_netif_filter_lookup (ni : ci_netif) (laddr lport raddr rport protocol : Z) : option (option Z) :=
  rc ← __ci_ip4_netif_filter_lookup ni laddr lport raddr rport protocol;
  Some (if 0 <=? rc then Some (ID (fast_at ni rc)) else None).

(** * Matching packets *)

Definition CI_IFID_BAD := 0.

Definition ci_sock_intf_check (ni : ci_netif) (s : ci_sock_cmn) (intf_i vlan : Z) : bool :=
  let hwport := intf_i_to_hwport ni !!! intf_i in
  nz (Z.land (rx_bind2dev_hwports s) (u64 (Z.shiftl 1 hwport))) && (rx_bind2dev_vlan s =? vlan).

Section for_each_match.
(** The callback and the state it works on. *)
Context {W : Type} (callback : Z -> W -> Z * W).
Context (ni : ci_netif) (laddr lport raddr rport protocol intf_i vlan : Z).

Definition handle_entry (entry : ci_netif_filter_table_entry_fast)
    (entry_ext : ci_netif_filter_table_entry_ext) (check_lport : bool) (w : W) : bool * W :=
  let id := ID entry in
  let s := ID_TO_SOCK ni id in
  let is_match :=
    Z.lor (Z.lor (Z.lor (Z.lor (u32 (laddr - fast_laddr entry))
      (u32 (u32 (lport - ext_lport entry_ext) * b2z check_lport)))
      (u32 (raddr - sock_raddr_be32 s))) (u32 (rport - sock_rport_be16 s)))
      (u32 (protocol - sock_protocol s)) =? 0 in
  if is_match && ((rx_bind2dev_ifindex s =? CI_IFID_BAD) || ci_sock_intf_check ni s intf_i vlan) then
    let '(rc, w) := callback id w in (nz rc, w)
  else (false, w).

Fixpoint match_loop (fuel : nat) (entry : ci_netif_filter_table_entry_fast) (hash1 hash2 first : Z) (w : W)
    : option (Z * W) :=
  match fuel with
  | O => None
  | S fuel =>
    if STATE entry =? EMPTY then Some (0, w)
    else
      let hash2 := if hash1 =? first then __onload_hash2 laddr lport raddr rport protocol else hash2 in
      let hash1 := Z.land (u32 (hash1 + hash2)) (table_size_mask ni) in
      if hash1 =? first then Some (0, w)
      else
        let entry := fast_at ni hash1 in
        let entry_ext := ext_at ni hash1 in
        let '(stop, w) :=
          if nz (OCCUPIED entry) then handle_entry entry entry_ext true w else (false, w) in
        if stop then Some (1, w) else match_loop fuel entry hash1 hash2 first w
  end.

(** The result, the state of the callback and [*hash_out]. *)
Definition ci_netif_filter_for_each_match (hash_out : bool) (w : W) : option (Z * W * option Z) :=
  let hash := if hash_out then Some (__onload_hash3 laddr lport raddr rport protocol) else None in
  let hash1 := __onload_hash1 (table_size_mask ni) laddr lport raddr rport protocol in
  let first := hash1 in
  let entry := fast_at ni hash1 in
  let '(stop, w) :=
    if STATE entry =? OCCUPIED_PREFERRED then handle_entry entry (ext_at ni hash1) false w else (false, w) in
  if stop then Some (1, w, hash)
  else
    '(rc, w) ← match_loop (table_fuel ni) entry hash1 0 first w;
    Some (rc, w, hash).

End for_each_match.

(** * Insertion *)

Definition CI_SOCK_FLAG_SW_FILTER_FULL := 0x1000.

(** The free slot and the hops to it, or [None] when there is none. *)
Fixpoint insert_loop (fuel : nat) (ni : ci_netif) (hash1 hash2 first hops : Z)
    : option (ci_netif * option (Z * Z)) :=
  match fuel with
  | O => None
  | S fuel =>
    if OCCUPIED (fast_at ni hash1) =? 0 then Some (ni, Some (hash1, hops))
    else
      let ni := ext_upd hash1 (fun e => e <| route_count ::= fun c => s32 (c + 1) |>) ni in
      let hops := u32 (hops + 1) in
      let hash1 := Z.land (u32 (hash1 + hash2)) (table_size_mask ni) in
      if hash1 =? first then Some (ni, None) else insert_loop fuel ni hash1 hash2 first hops
  end.

Definition insert_full (tcp_id : Z) (ni : ci_netif) : ci_netif :=
  let s := ID_TO_SOCK ni tcp_id in
  let ni :=
    if Z.land (s_flags s) CI_SOCK_FLAG_SW_FILTER_FULL =? 0 then
      sock_upd tcp_id (fun s => s <| s_flags ::= fun f => Z.lor f CI_SOCK_FLAG_SW_FILTER_FULL |>) ni
    else ni in
  ni <| sw_filter_insert_table_full ::= fun c => u32 (c + 1) |>.

Definition insert_stats (hash1 hops : Z) (ni : ci_netif) : ci_netif :=
  let ni := if table_max_hops ni <? hops then ni <| table_max_hops := hops |> else ni in
  let ni := if table_mean_hops ni =? 0 then ni <| table_mean_hops := 1 |> else ni in
  let ni := ni <| table_mean_hops ::= fun m => u32 (u32 (m * 9) + hops) / 10 |> in
  let ni := if STATE (fast_at ni hash1) =? EMPTY then ni <| table_n_slots ::= fun c => u32 (c + 1) |> else ni in
  ni <| table_n_entries ::= fun c => u32 (c + 1) |>.

Definition insert_at (hash1 first tcp_id laddr lport : Z) (ni : ci_netif) : ci_netif :=
  let ni := fast_upd hash1
    (set_entry_state (if hash1 =? first then OCCUPIED_PREFERRED else OCCUPIED_REHASHED)) ni in
  let ni := fast_upd hash1 (set_entry_id tcp_id) ni in
  let ni := fast_upd hash1 (fun e => e <| fast_laddr := laddr |>) ni in
  ext_upd hash1 (fun e => e <| ext_lport := u16 lport |>) ni.

Definition ci_ip4_netif_filter_insert (ni : ci_netif) (tcp_id laddr lport raddr rport protocol : Z)
    : option (ci_netif * Z) :=
  let hash1 := __onload_hash1 (table_size_mask ni) laddr lport raddr rport protocol in
  let hash2 := __onload_hash2 laddr lport raddr rport protocol in
  let first := hash1 in
  '(ni, slot) ← insert_loop (table_fuel ni) ni hash1 hash2 first 1;
  match slot with
  | None => Some (insert_full tcp_id ni, - ENOBUFS)
  | Some (hash1, hops) => Some (insert_at hash1 first tcp_id laddr lport (insert_stats hash1 hops ni), 0)
  end.

(** * Removal *)

Fixpoint unroute (hops : nat) (tbl_i hash2 : Z) (ni : ci_netif) : ci_netif * Z :=
  match hops with
  | O => (ni, tbl_i)
  | S hops =>
    let ni := ext_upd tbl_i (fun e => e <| route_count ::= fun c => s32 (c - 1) |>) ni in
    let ni :=
      if (route_count (ext_at ni tbl_i) =? 0) && (STATE (fast_at ni tbl_i) =? TOMBSTONE) then
        fast_upd tbl_i (set_entry_state EMPTY) (ni <| table_n_slots ::= fun c => u32 (c - 1) |>)
      else ni in
    unroute hops (Z.land (u32 (tbl_i + hash2)) (table_size_mask ni)) hash2 ni
  end.

Definition __ci_ip4_netif_filter_remove (hash1 hash2 hops : Z) (ni : ci_netif) : ci_netif :=
  let '(ni, tbl_i) := unroute (Z.to_nat hops) hash1 hash2 ni in
  let ni := ni <| table_n_entries ::= fun c => u32 (c - 1) |> in
  if route_count (ext_at ni tbl_i) =? 0 then
    fast_upd tbl_i (set_entry_state EMPTY) (ni <| table_n_slots ::= fun c => u32 (c - 1) |>)
  else fast_upd tbl_i (set_entry_state TOMBSTONE) ni.

(** The hops to the entry, if there is one. *)
Fixpoint find_loop (fuel : nat) (ni : ci_netif) (sock_p laddr tbl_i hash2 first hops : Z) : option (option Z) :=
  match fuel with
  | O => None
  | S fuel =>
    let entry := fast_at ni tbl_i in
    let next :=
      let tbl_i := Z.land (u32 (tbl_i + hash2)) (table_size_mask ni) in
      let hops := s32 (hops + 1) in
      if tbl_i =? first then Some None else find_loop fuel ni sock_p laddr tbl_i hash2 first hops in
    if nz (OCCUPIED entry) && (ID entry =? u32 sock_p) then
      if laddr =? fast_laddr entry then Some (Some hops) else next
    else if STATE entry =? EMPTY then Some None
    else next
  end.

Definition ci_ip4_netif_filter_remove (ni : ci_netif) (sock_p laddr lport raddr rport protocol : Z)
    : option ci_netif :=
  let hash1 := __onload_hash1 (table_size_mask ni) laddr lport raddr rport protocol in
  let hash2 := __onload_hash2 laddr lport raddr rport protocol in
  found ← find_loop (table_fuel ni) ni sock_p laddr hash1 hash2 hash1 0;
  match found with
  | None => Some ni
  | Some hops => Some (__ci_ip4_netif_filter_remove hash1 hash2 hops ni)
  end.

(** Without IPv6 these two only pass on the addresses. *)
Definition ci_netif_filter_insert (ni : ci_netif) (tcp_id laddr lport raddr rport protocol : Z)
    : option (ci_netif * Z) :=
  '(ni, rc) ← ci_ip4_netif_filter_insert ni tcp_id laddr lport raddr rport protocol;
  if rc <? 0 then Some (ni, rc) else Some (ni, 0).

Definition ci_netif_filter_remove (ni : ci_netif) (sock_p laddr lport raddr rport protocol : Z)
    : option ci_netif :=
  ci_ip4_netif_filter_remove ni sock_p laddr lport raddr rport protocol.

(** * Initialisation *)

Fixpoint init_loop (n : nat) (i : Z) (ni : ci_netif) : ci_netif :=
  match n with
  | O => ni
  | S n =>
    let ni := fast_upd i (set_entry_state EMPTY) ni in
    let ni := ext_upd i (fun e => e <| route_count := 0 |>) ni in
    let ni := ext_upd i (fun e => e <| ext_lport := 0 |>) ni in
    let ni := fast_upd i (fun e => e <| fast_laddr := 0 |>) ni in
    init_loop n (i + 1) ni
  end.

(** [size] is an [unsigned]. *)
Definition ci_netif_filter_init (size_lg2 : Z) (ni : ci_netif) : ci_netif :=
  let size := u32 (Z.shiftl 1 size_lg2) in
  let ni := ni <| table_size_mask := u32 (size - 1) |> in
  init_loop (Z.to_nat size) 0 ni.
