(* ===== verification/NetifTableInv.v ===== *)
(** The software filter table as a map from sockets to tuples: the invariant of
    netif_table.c and the theorems about files OnloadHash and NetifTable. *)

From stdpp Require Import base gmap list list_numbers.
From S2P Require Import Prelude OnloadHash NetifTable.

Open Scope Z_scope.

(** * Tuples *)

Record tuple := mk_tuple { t_laddr : Z; t_lport : Z; t_raddr : Z; t_rport : Z; t_protocol : Z }.

Definition u32_ok (z : Z) : Prop := 0 <= z < 4294967296.
Definition u16_ok (z : Z) : Prop := 0 <= z < 65536.

Definition tuple_ok (t : tuple) : Prop :=
  u32_ok (t_laddr t) /\ u16_ok (t_lport t) /\ u32_ok (t_raddr t) /\ u16_ok (t_rport t) /\ u32_ok (t_protocol t).

(** The socket's cached header has the remote end and the protocol of the tuple. *)
Definition agrees (s : ci_sock_cmn) (t : tuple) : Prop :=
  sock_raddr_be32 s = t_raddr t /\ sock_rport_be16 s = t_rport t /\ sock_protocol s = t_protocol t.

#[global] Instance tuple_eq_dec : EqDecision tuple.
Proof. solve_decision. Defined.

(** * The state field of an entry *)

(** The four states as the two top bits. *)
Definition enc (id st : Z) : Z := id + st * 1073741824.

Lemma enc_split v : 0 <= v < 4294967296 ->
  exists id st, v = enc id st /\ 0 <= id < 1073741824 /\ 0 <= st < 4.
Proof.
  intros. exists (v `mod` 1073741824), (v / 1073741824). unfold enc. Z.div_mod_to_equations. lia.
Qed.

Section entry.
Context (e : ci_netif_filter_table_entry_fast) (id st : Z).
Context (He : __id_and_state e = enc id st) (Hid : 0 <= id < 1073741824) (Hst : 0 <= st < 4).

Lemma state_bits : STATE e = st * 1073741824.
Proof.
  unfold STATE. rewrite He. change FILTER_TABLE_STATE_MASK with (Z.shiftl 3 30).
  assert (E : enc id st = Z.lor (Z.shiftl st 30) id).
  { rewrite lor_shiftl_add by lia. unfold enc. lia. }
  rewrite E, Z.land_lor_distr_l, <- Z.shiftl_land.
  assert (Hz : Z.land id (Z.shiftl 3 30) = 0).
  { apply Z.bits_inj'. intros i Hi. rewrite Z.land_spec, Z.bits_0, Z.shiftl_spec by lia.
    destruct (decide (i < 30)); [by rewrite (Z.testbit_neg_r 3), andb_false_r by lia|].
    rewrite <- (Z.mod_small id (2 ^ 30)), Z.mod_pow2_bits_high by lia. done. }
  rewrite Hz, Z.lor_0_r. change 3 with (2 ^ 2 - 1). rewrite land_mask by lia.
  rewrite Z.mod_small by lia. rewrite Z.shiftl_mul_pow2; lia.
Qed.

Lemma id_bits : ID e = id.
Proof.
  unfold ID, __ID. rewrite He. change FILTER_TABLE_ID_MASK with (2 ^ 30 - 1).
  rewrite land_mask by lia. unfold enc. change (2 ^ 30) with 1073741824.
  rewrite Z.mod_add by lia. by apply Z.mod_small.
Qed.

Lemma occupied_bits : nz (OCCUPIED e) = (st <? 2).
Proof.
  unfold OCCUPIED. rewrite state_bits.
  assert (st = 0 \/ st = 1 \/ st = 2 \/ st = 3) as [-> | [-> | [-> | ->]]] by lia; done.
Qed.

Lemma is_empty_bits : (STATE e =? EMPTY) = (st =? 2).
Proof. rewrite state_bits. change EMPTY with (2 * 1073741824). lia. Qed.

Lemma is_tombstone_bits : (STATE e =? TOMBSTONE) = (st =? 3).
Proof. rewrite state_bits. change TOMBSTONE with (3 * 1073741824). lia. Qed.

Lemma is_preferred_bits : (STATE e =? OCCUPIED_PREFERRED) = (st =? 0).
Proof. rewrite state_bits. unfold OCCUPIED_PREFERRED. lia. Qed.

Lemma set_state_bits st' : 0 <= st' < 4 ->
  set_entry_state (st' * 1073741824) e = mk_fast (enc id st') (fast_laddr e).
Proof.
  intros. unfold set_entry_state. cbn. f_equal. change (__ID e) with (ID e). rewrite id_bits.
  rewrite Z.lor_comm. change 1073741824 with (2 ^ 30) at 1. rewrite <- Z.shiftl_mul_pow2 by lia.
  rewrite lor_shiftl_add by lia. unfold enc. lia.
Qed.

Lemma set_id_bits id' : 0 <= id' < 1073741824 -> set_entry_id id' e = mk_fast (enc id' st) (fast_laddr e).
Proof.
  intros. unfold set_entry_id. cbn. f_equal. rewrite state_bits, u32_small by lia.
  change 1073741824 with (2 ^ 30) at 1. rewrite <- Z.shiftl_mul_pow2 by lia.
  rewrite lor_shiftl_add by lia. unfold enc. lia.
Qed.
End entry.

Lemma set_state_state st e : st ∈ [OCCUPIED_PREFERRED; OCCUPIED_REHASHED; EMPTY; TOMBSTONE] ->
  STATE (set_entry_state st e) = st.
Proof.
  intros Hst. unfold STATE, set_entry_state, __ID. cbn [__id_and_state fset].
  rewrite Z.land_lor_distr_l, <- Z.land_assoc.
  change (Z.land FILTER_TABLE_ID_MASK FILTER_TABLE_STATE_MASK) with 0. rewrite Z.land_0_r, Z.lor_0_l.
  repeat (apply elem_of_cons in Hst as [->|Hst]; [done|]). by apply elem_of_nil in Hst.
Qed.

(** A chain of [|] over unsigned differences is a conjunction of equalities. *)
Lemma u32_diff_0 a b : u32_ok a -> u32_ok b -> u32 (a - b) = 0 <-> a = b.
Proof. unfold u32_ok. intros. word_lia. Qed.

Lemma lor_0 a b : Z.lor a b = 0 <-> a = 0 /\ b = 0.
Proof. apply Z.lor_eq_0_iff. Qed.

(** * Reads and writes of the arrays *)

Lemma fast_at_upd i j f ni : fast_at (fast_upd i f ni) j = if decide (i = j) then f (fast_at ni j) else fast_at ni j.
Proof.
  unfold fast_at, fast_upd. cbn. case_decide as E; [subst; by rewrite lookup_total_insert_eq|].
  by rewrite lookup_total_insert_ne.
Qed.

Lemma ext_at_upd i j f ni : ext_at (ext_upd i f ni) j = if decide (i = j) then f (ext_at ni j) else ext_at ni j.
Proof.
  unfold ext_at, ext_upd. cbn. case_decide as E; [subst; by rewrite lookup_total_insert_eq|].
  by rewrite lookup_total_insert_ne.
Qed.

(** * The invariant *)

Section table.
Context (k : Z) (Hk : 16 <= k <= 30).

Definition h1 (t : tuple) : Z :=
  __onload_hash1 (2 ^ k - 1) (t_laddr t) (t_lport t) (t_raddr t) (t_rport t) (t_protocol t).
Definition h2 (t : tuple) : Z :=
  __onload_hash2 (t_laddr t) (t_lport t) (t_raddr t) (t_rport t) (t_protocol t).

(** The walk of a tuple, and when it visits a slot. *)
Definition walk (t : tuple) (i : Z) : Z := probe k (h1 t) (h2 t) i.
Definition pos (t : tuple) (s : Z) : Z := visit k (h1 t) (h2 t) s.

Lemma size_pos : 0 < 2 ^ k.
Proof. apply pow2_pos. lia. Qed.

Lemma size_bound : 65536 <= 2 ^ k <= 1073741824.
Proof. split; [apply (Z.pow_le_mono_r 2 16)|apply (Z.pow_le_mono_r 2 k 30)]; lia. Qed.

Lemma h1_range t : 0 <= h1 t < 2 ^ k.
Proof. unfold h1. apply hash1_range. lia. Qed.

Lemma walk_range t i : 0 <= walk t i < 2 ^ k.
Proof. apply probe_range. lia. Qed.

Lemma walk_0 t : walk t 0 = h1 t.
Proof. apply probe_0, h1_range. Qed.

Lemma walk_step t i : Z.land (u32 (walk t i + h2 t)) (2 ^ k - 1) = walk t (i + 1).
Proof. apply probe_step. lia. Qed.

Lemma walk_first t i : 0 < i <= 2 ^ k -> walk t i = h1 t <-> i = 2 ^ k.
Proof. intros. apply probe_first; [lia|apply hash2_odd|lia|apply h1_range]. Qed.

Lemma walk_inj t i j : 0 <= i < 2 ^ k -> 0 <= j < 2 ^ k -> walk t i = walk t j -> i = j.
Proof. apply probe_inj; [lia|apply hash2_odd]. Qed.

Lemma pos_range t s : 0 <= s < 2 ^ k -> 0 <= pos t s < 2 ^ k.
Proof. intros. apply visit_spec; [lia|apply hash2_odd|lia]. Qed.

Lemma walk_pos t s : 0 <= s < 2 ^ k -> walk t (pos t s) = s.
Proof. intros. apply visit_spec; [lia|apply hash2_odd|lia]. Qed.

Lemma pos_walk t i : 0 <= i < 2 ^ k -> pos t (walk t i) = i.
Proof. intros. apply visit_probe; [lia|apply hash2_odd|lia]. Qed.

Lemma walk_is t i s : 0 <= i < 2 ^ k -> 0 <= s < 2 ^ k -> walk t i = s <-> pos t s = i.
Proof. intros. split; [intros <-; by apply pos_walk|intros <-; by apply walk_pos]. Qed.

(** [m] holds the filters stored, by slot: how many walks of stored filters pass through a slot before they end. *)
Definition routes (m : gmap Z (Z * tuple)) (s : Z) : Z :=
  Z.of_nat (size (filter (fun e => pos e.2.2 s < pos e.2.2 e.1) m)).

Lemma routes_nonneg m s : 0 <= routes m s.
Proof. unfold routes. lia. Qed.

Lemma routes_empty s : routes ∅ s = 0.
Proof. done. Qed.

Lemma routes_insert m s t id tu : m !! t = None ->
  routes (<[t := (id, tu)]> m) s = routes m s + (if decide (pos tu s < pos tu t) then 1 else 0).
Proof.
  intros Hm. unfold routes. case_decide as Hd.
  - rewrite map_filter_insert_True by done. rewrite map_size_insert_None; [lia|].
    apply map_lookup_filter_None. by left.
  - rewrite map_filter_insert_False by done. rewrite delete_id by done. lia.
Qed.

Lemma routes_delete m s t id tu : m !! t = Some (id, tu) ->
  routes (delete t m) s = routes m s - (if decide (pos tu s < pos tu t) then 1 else 0).
Proof.
  intros Hm. rewrite <- (insert_delete_id m t (id, tu) Hm) at 2.
  rewrite routes_insert by apply lookup_delete_eq. lia.
Qed.

Lemma routes_ge m s t id tu : m !! t = Some (id, tu) -> pos tu s < pos tu t -> 1 <= routes m s.
Proof.
  intros Hm Hp. pose proof (routes_delete m s t id tu Hm) as E. rewrite decide_True in E by done.
  pose proof (routes_nonneg (delete t m) s). lia.
Qed.

Lemma routes_le m s : routes m s <= Z.of_nat (size m).
Proof. unfold routes. pose proof (map_subseteq_size _ m (map_filter_subseteq (fun e => pos e.2.2 s < pos e.2.2 e.1) m)). lia. Qed.

(** What a slot holds; [leak] is how much its count exceeds the walks. *)
Definition slot_ok (ni : ci_netif) (m : gmap Z (Z * tuple)) (leak s : Z) : Prop :=
  route_count (ext_at ni s) = routes m s + leak /\
  match m !! s with
  | Some (id, t) =>
    fast_at ni s = mk_fast (enc id (if decide (h1 t = s) then 0 else 1)) (t_laddr t) /\
    ext_lport (ext_at ni s) = t_lport t
  | None =>
    exists g, 0 <= g < 1073741824 /\
      __id_and_state (fast_at ni s) = enc g (if decide (routes m s + leak = 0) then 2 else 3)
  end.

Record filters_ok (ni : ci_netif) (m : gmap Z (Z * tuple)) : Prop := {
  f_slot s id t : m !! s = Some (id, t) -> 0 <= s < 2 ^ k;
  f_tuple s id t : m !! s = Some (id, t) -> tuple_ok t;
  f_id s id t : m !! s = Some (id, t) -> 0 <= id < 1073741824;
  f_sock s id t : m !! s = Some (id, t) -> agrees (ID_TO_SOCK ni id) t;
  f_uniq s1 s2 id t1 t2 : m !! s1 = Some (id, t1) -> m !! s2 = Some (id, t2) ->
    t_laddr t1 = t_laddr t2 -> s1 = s2 }.

(** Slots that are not empty. *)
Definition used (ni : ci_netif) : Z :=
  Z.of_nat (length (filter (fun s => STATE (fast_at ni s) <> EMPTY) (seqZ 0 (2 ^ k)))).

Record table_inv (ni : ci_netif) (m : gmap Z (Z * tuple)) (leak : Z) : Prop := {
  i_mask : table_size_mask ni = 2 ^ k - 1;
  i_leak : 0 <= leak < 1073741824;
  i_slots s : 0 <= s < 2 ^ k -> slot_ok ni m leak s;
  i_filters : filters_ok ni m;
  i_entries : table_n_entries ni = Z.of_nat (size m);
  i_used : table_n_slots ni = used ni }.

Lemma used_range ni : 0 <= used ni <= 2 ^ k.
Proof.
  unfold used. split; [lia|]. pose proof size_pos.
  pose proof (length_filter (fun s => STATE (fast_at ni s) <> EMPTY) (seqZ 0 (2 ^ k))) as H'.
  rewrite length_seqZ in H'. lia.
Qed.

Lemma filter_length_upd {A} (P Q : A -> Prop) `{!forall x, Decision (P x)} `{!forall x, Decision (Q x)} (l : list A) a :
  NoDup l -> a ∈ l -> (forall x, x ∈ l -> x <> a -> P x <-> Q x) ->
  Z.of_nat (length (filter Q l)) = Z.of_nat (length (filter P l)) - (if decide (P a) then 1 else 0) +
    (if decide (Q a) then 1 else 0).
Proof.
  intros Hl [l' Hp]%elem_of_Permutation HPQ. rewrite Hp in Hl. apply NoDup_cons in Hl as [Ha _].
  assert (HPQ' : forall x, x ∈ l' -> P x <-> Q x).
  { intros x Hx. apply HPQ; [rewrite Hp; by right|]. by intros ->. }
  assert (E : filter P l' = filter Q l').
  { clear Hp Ha HPQ. induction l' as [|x l' IH]; [done|]. rewrite !filter_cons, IH by (intros; apply HPQ'; by right).
    specialize (HPQ' x ltac:(by left)). do 2 case_decide; tauto || done. }
  rewrite !(filter_Permutation _ _ _ Hp), !filter_cons, E. do 2 case_decide; cbn; lia.
Qed.

Lemma used_some s ni : 0 <= s < 2 ^ k -> STATE (fast_at ni s) <> EMPTY -> 1 <= used ni.
Proof.
  intros Hs Hne. unfold used. assert (Hin : s ∈ filter (fun s => STATE (fast_at ni s) <> EMPTY) (seqZ 0 (2 ^ k))).
  { apply list_elem_of_filter. split; [done|]. apply elem_of_seqZ. lia. }
  destruct (filter _ _); [by apply elem_of_nil in Hin|cbn; lia].
Qed.

Lemma used_none ni : (forall s, 0 <= s < 2 ^ k -> STATE (fast_at ni s) = EMPTY) -> used ni = 0.
Proof.
  intros Hall. unfold used. destruct (filter _ _) as [|s l] eqn:Ef; [done|].
  assert (Hin : s ∈ filter (fun s => STATE (fast_at ni s) <> EMPTY) (seqZ 0 (2 ^ k))) by (rewrite Ef; by left).
  apply list_elem_of_filter in Hin as [Hn Hr%elem_of_seqZ]. by destruct Hn, (Hall s ltac:(lia)).
Qed.

Lemma used_change ni ni' s : 0 <= s < 2 ^ k ->
  (forall j, 0 <= j < 2 ^ k -> j <> s -> fast_at ni' j = fast_at ni j) ->
  used ni' = used ni - (if decide (STATE (fast_at ni s) <> EMPTY) then 1 else 0) +
    (if decide (STATE (fast_at ni' s) <> EMPTY) then 1 else 0).
Proof.
  intros Hs Hj. unfold used.
  rewrite (filter_length_upd (fun s => STATE (fast_at ni s) <> EMPTY)
    (fun s => STATE (fast_at ni' s) <> EMPTY) (seqZ 0 (2 ^ k)) s); [done| | |].
  - apply NoDup_seqZ.
  - apply elem_of_seqZ. lia.
  - intros x Hx%elem_of_seqZ Hn. by rewrite Hj by (lia || done).
Qed.

Lemma used_upd ni s g : 0 <= s < 2 ^ k ->
  used (fast_upd s g ni) = used ni - (if decide (STATE (fast_at ni s) <> EMPTY) then 1 else 0) +
    (if decide (STATE (g (fast_at ni s)) <> EMPTY) then 1 else 0).
Proof.
  intros Hs. rewrite (used_change ni (fast_upd s g ni) s Hs).
  - assert (E : fast_at (fast_upd s g ni) s = g (fast_at ni s)) by (by rewrite fast_at_upd, decide_True).
    by rewrite E.
  - intros j _ Hj. by rewrite fast_at_upd, decide_False by done.
Qed.

(** At most one filter per slot. *)
Lemma filters_size ni m : filters_ok ni m -> Z.of_nat (size m) <= 2 ^ k.
Proof.
  intros Hf. pose proof size_pos. rewrite <- size_dom.
  assert (Hs : dom m ⊆ list_to_set (C := gset Z) (seqZ 0 (2 ^ k))).
  { intros s [[id t] E]%elem_of_dom. apply elem_of_list_to_set, elem_of_seqZ.
    pose proof (f_slot _ _ Hf _ _ _ E). lia. }
  apply subseteq_size in Hs. rewrite size_list_to_set in Hs by apply NoDup_seqZ.
  rewrite length_seqZ in Hs. lia.
Qed.

(** ** What the tests of the code say of a slot *)

Definition occ (ni : ci_netif) (s : Z) : bool := nz (OCCUPIED (fast_at ni s)).
Definition emp (ni : ci_netif) (s : Z) : bool := STATE (fast_at ni s) =? EMPTY.

Section reading.
Context (ni : ci_netif) (m : gmap Z (Z * tuple)) (leak : Z) (HI : table_inv ni m leak).

Lemma slot_some s id t : m !! s = Some (id, t) ->
  fast_at ni s = mk_fast (enc id (if decide (h1 t = s) then 0 else 1)) (t_laddr t) /\
  ext_lport (ext_at ni s) = t_lport t /\ 0 <= s < 2 ^ k /\ 0 <= id < 1073741824 /\ tuple_ok t.
Proof.
  intros E. destruct HI as [_ _ Hs Hf _ _]. pose proof (f_slot _ _ Hf _ _ _ E) as Hr.
  destruct (Hs s Hr) as [_ H]. rewrite E in H. destruct H as [H1 H2].
  split_and!; try done; by first [apply (f_id _ _ Hf _ _ _ E) | apply (f_tuple _ _ Hf _ _ _ E) | lia].
Qed.

Lemma some_tests s id t : m !! s = Some (id, t) ->
  occ ni s = true /\ emp ni s = false /\ ID (fast_at ni s) = id /\
  (STATE (fast_at ni s) =? OCCUPIED_PREFERRED) = bool_decide (h1 t = s).
Proof.
  intros E. destruct (slot_some s id t E) as (Hfa & _ & _ & Hid & _).
  assert (He : __id_and_state (fast_at ni s) = enc id (if decide (h1 t = s) then 0 else 1)) by (by rewrite Hfa).
  assert (Hst : 0 <= (if decide (h1 t = s) then 0 else 1) < 4) by (case_decide; lia).
  unfold occ, emp. rewrite (occupied_bits _ _ _ He Hid Hst), (is_empty_bits _ _ _ He Hid Hst),
    (id_bits _ _ _ He Hid), (is_preferred_bits _ _ _ He Hid Hst).
  case_decide as D; [rewrite bool_decide_true by done|rewrite bool_decide_false by done]; done.
Qed.

Lemma none_tests s : 0 <= s < 2 ^ k -> m !! s = None ->
  occ ni s = false /\ emp ni s = bool_decide (routes m s + leak = 0) /\
  (STATE (fast_at ni s) =? TOMBSTONE) = negb (bool_decide (routes m s + leak = 0)) /\
  (STATE (fast_at ni s) =? OCCUPIED_PREFERRED) = false.
Proof.
  intros Hs E. destruct (i_slots _ _ _ HI s Hs) as [_ H]. rewrite E in H. destruct H as (g & Hg & He).
  assert (Hst : 0 <= (if decide (routes m s + leak = 0) then 2 else 3) < 4) by (case_decide; lia).
  unfold occ, emp. rewrite (occupied_bits _ _ _ He Hg Hst), (is_empty_bits _ _ _ He Hg Hst),
    (is_tombstone_bits _ _ _ He Hg Hst), (is_preferred_bits _ _ _ He Hg Hst).
  case_decide as D; [rewrite bool_decide_true by done|rewrite bool_decide_false by done]; done.
Qed.

(** The walk of a stored filter reaches it: no slot before it is empty. *)
Lemma stored_reached s id t j : m !! s = Some (id, t) -> 0 <= j <= pos t s -> emp ni (walk t j) = false.
Proof.
  intros E Hj. destruct (slot_some s id t E) as (_ & _ & Hs & _). pose proof (pos_range t s Hs) as Hp.
  destruct (m !! walk t j) as [[id' t']|] eqn:E'; [by apply (some_tests _ _ _ E')|].
  destruct (none_tests (walk t j) (walk_range t j) E') as (_ & -> & _).
  apply bool_decide_eq_false. assert (j <> pos t s).
  { intros ->. rewrite walk_pos in E' by done. congruence. }
  pose proof (routes_ge m (walk t j) s id t E) as Hr. rewrite pos_walk in Hr by lia.
  pose proof (i_leak _ _ _ HI). lia.
Qed.

(** A tuple matches an occupied slot if its filter is stored there. *)
Lemma same_tuple s id t q : m !! s = Some (id, t) -> tuple_ok q ->
  (Z.lor (Z.lor (Z.lor (Z.lor (u32 (t_laddr q - fast_laddr (fast_at ni s)))
      (u32 (t_lport q - ext_lport (ext_at ni s))))
      (u32 (t_raddr q - sock_raddr_be32 (ID_TO_SOCK ni (ID (fast_at ni s))))))
      (u32 (t_rport q - sock_rport_be16 (ID_TO_SOCK ni (ID (fast_at ni s))))))
      (u32 (t_protocol q - sock_protocol (ID_TO_SOCK ni (ID (fast_at ni s))))) =? 0) = bool_decide (q = t).
Proof.
  intros E Hq. destruct (slot_some s id t E) as (Hfa & Hl & _ & _ & Ht).
  destruct (some_tests s id t E) as (_ & _ & -> & _).
  destruct (f_sock _ _ (i_filters _ _ _ HI) _ _ _ E) as (-> & -> & ->). rewrite Hfa, Hl. cbn [fast_laddr].
  destruct Hq as (? & ? & ? & ? & ?), Ht as (? & ? & ? & ? & ?). unfold u16_ok, u32_ok in *.
  apply eq_bool_prop_intro. rewrite Is_true_true, Z.eqb_eq, !lor_0, !u32_diff_0 by (unfold u32_ok; lia).
  rewrite bool_decide_spec. destruct q, t; cbn. split; [intuition congruence|intros [=]; tauto].
Qed.
End reading.

(** ** The walks of the code *)

(** Where a walk from step [i] stops: at the first slot where [stop] holds, or
    after a whole turn. *)
Definition stops_at (stop : Z -> bool) (q : tuple) (i e : Z) : Prop :=
  i <= e <= 2 ^ k /\ (forall j, i <= j < e -> stop (walk q j) = false) /\
  (e < 2 ^ k -> stop (walk q e) = true).

Lemma stops_exists stop q i : 0 <= i <= 2 ^ k -> exists e, stops_at stop q i e.
Proof.
  intros Hi. remember (Z.to_nat (2 ^ k - i)) as n eqn:En. revert i Hi En.
  induction n as [|n IH]; intros i Hi En.
  - exists i. split; [lia|]. split; [lia|lia].
  - destruct (stop (walk q i)) eqn:E; [exists i; split; [lia|]; split; [lia|done]|].
    destruct (IH (i + 1)) as (e & He & Hb & Hs); [lia|lia|]. exists e. split; [lia|]. split; [|done].
    intros j Hj. destruct (decide (j = i)) as [->|]; [done|]. apply Hb. lia.
Qed.

(** A step of a walk that does not stop. *)
Lemma stops_next stop q i e : stops_at stop q i e -> i < e -> stop (walk q i) = false /\ stops_at stop q (i + 1) e.
Proof. intros (He & Hb & Hs) Hi. split; [apply Hb; lia|]. split; [lia|]. split; [intros; apply Hb; lia|done]. Qed.

Lemma stops_here stop q i : stops_at stop q i i -> i < 2 ^ k -> stop (walk q i) = true.
Proof. intros (_ & _ & H). exact H. Qed.

(** The test for a whole turn. *)
Lemma turn_test q i : 0 <= i < 2 ^ k -> (walk q (i + 1) =? h1 q) = (i + 1 =? 2 ^ k).
Proof.
  intros. apply eq_bool_prop_intro. rewrite !Is_true_true, !Z.eqb_eq. apply walk_first. lia.
Qed.

(** The step computed at the first slot only. *)
Lemma late_hash2 q i h : 0 <= i < 2 ^ k -> (i <> 0 -> h = h2 q) -> (if walk q i =? h1 q then h2 q else h) = h2 q.
Proof.
  intros Hi Hh. destruct (decide (i = 0)) as [->|Hn]; [by rewrite walk_0, Z.eqb_refl|].
  rewrite Hh by done. by destruct (_ =? _).
Qed.

Section walks.
Context (ni : ci_netif) (Hmask : table_size_mask ni = 2 ^ k - 1) (q : tuple).

(** The test of [lookup_loop]. *)
Definition hit (s : Z) : bool :=
  occ ni s &&
  (Z.lor (Z.lor (Z.lor (Z.lor (u32 (t_laddr q - fast_laddr (fast_at ni s)))
      (u32 (t_lport q - ext_lport (ext_at ni s))))
      (u32 (t_raddr q - sock_raddr_be32 (ID_TO_SOCK ni (ID (fast_at ni s))))))
      (u32 (t_rport q - sock_rport_be16 (ID_TO_SOCK ni (ID (fast_at ni s))))))
      (u32 (t_protocol q - sock_protocol (ID_TO_SOCK ni (ID (fast_at ni s))))) =? 0).

Lemma lookup_loop_stops e i fuel h :
  stops_at (fun s => hit s || emp ni s) q i e -> 0 <= i < 2 ^ k -> Z.of_nat fuel = 2 ^ k - i ->
  (i <> 0 -> h = h2 q) ->
  lookup_loop ni (t_laddr q) (t_lport q) (t_raddr q) (t_rport q) (t_protocol q) fuel (walk q i) h (h1 q) =
  Some (if e =? 2 ^ k then - ELOOP else if hit (walk q e) then walk q e else - ENOENT).
Proof.
  revert i h. induction fuel as [|fuel IH]; intros i h Hs Hi Hf Hh; [lia|]. cbn [lookup_loop].
  fold (occ ni (walk q i)). fold (hit (walk q i)). fold (emp ni (walk q i)). fold (h2 q).
  rewrite (late_hash2 q i h Hi Hh), Hmask, walk_step, turn_test by lia.
  pose proof (proj1 Hs) as He. destruct (decide (i = e)) as [->|Hne].
  - pose proof (stops_here _ _ _ Hs ltac:(lia)) as Hst. cbv beta in Hst.
    rewrite (proj2 (Z.eqb_neq e (2 ^ k))) by lia. pose proof (walk_range q e). pose proof size_bound.
    destruct (hit (walk q e)); [by rewrite s32_small by lia|]. cbn in Hst. by rewrite Hst.
  - destruct (stops_next _ _ _ _ Hs ltac:(lia)) as [Hn Hs'].
    apply orb_false_iff in Hn as [-> ->]. destruct (i + 1 =? 2 ^ k) eqn:Et.
    + apply Z.eqb_eq in Et. assert (e = 2 ^ k) as -> by (pose proof (proj1 Hs'); lia).
      by rewrite Z.eqb_refl.
    + apply Z.eqb_neq in Et. apply IH; [done|lia|lia|done].
Qed.

(** The walk of [ci_ip4_netif_filter_remove]. *)
Definition mine (id s : Z) : bool :=
  occ ni s && (ID (fast_at ni s) =? u32 id) && (t_laddr q =? fast_laddr (fast_at ni s)).

Lemma find_loop_stops id e i fuel :
  stops_at (fun s => mine id s || emp ni s) q i e -> 0 <= i < 2 ^ k -> Z.of_nat fuel = 2 ^ k - i ->
  (forall s, occ ni s = true -> emp ni s = false) ->
  find_loop fuel ni id (t_laddr q) (walk q i) (h2 q) (h1 q) i =
  Some (if e =? 2 ^ k then None else if mine id (walk q e) then Some e else None).
Proof.
  intros Hs Hi Hf Hoe. revert i Hs Hi Hf. induction fuel as [|fuel IH]; intros i Hs Hi Hf; [lia|].
  cbn [find_loop]. fold (occ ni (walk q i)). fold (emp ni (walk q i)).
  rewrite Hmask, walk_step, turn_test by lia. pose proof size_bound. rewrite (s32_small (i + 1)) by lia.
  pose proof (proj1 Hs) as He.
  assert (Hrest : i < e -> (if i + 1 =? 2 ^ k then Some None
      else find_loop fuel ni id (t_laddr q) (walk q (i + 1)) (h2 q) (h1 q) (i + 1)) =
    Some (if e =? 2 ^ k then None else if mine id (walk q e) then Some e else None)).
  { intros Hlt. destruct (stops_next _ _ _ _ Hs Hlt) as [_ Hs']. destruct (i + 1 =? 2 ^ k) eqn:Et.
    - apply Z.eqb_eq in Et. assert (e = 2 ^ k) as -> by (pose proof (proj1 Hs'); lia). by rewrite Z.eqb_refl.
    - apply Z.eqb_neq in Et. apply IH; [done|lia|lia]. }
  specialize (Hoe (walk q i)). unfold mine in *. destruct (decide (i = e)) as [->|Hne].
  - pose proof (stops_here _ _ _ Hs ltac:(lia)) as Hst. cbv beta in Hst.
    rewrite (proj2 (Z.eqb_neq e (2 ^ k))) by lia.
    destruct (occ ni (walk q e)); cbn in *; [rewrite Hoe in Hst by done|by rewrite Hst].
    destruct (_ =? u32 id); cbn in *; [|done]. rewrite orb_false_r in Hst. by rewrite Hst.
  - rewrite Hrest by lia. destruct (stops_next _ _ _ _ Hs ltac:(lia)) as [Hn _].
    apply orb_false_iff in Hn as [Hm ->]. destruct (occ ni (walk q i)); cbn in *; [|done].
    destruct (ID (fast_at ni (walk q i)) =? u32 id); cbn in *; [|done]. by rewrite Hm.
Qed.

End walks.

(** The walk of an insertion counts itself at every occupied slot it leaves. *)
Lemma insert_loop_stops q e i fuel ni hops :
  table_size_mask ni = 2 ^ k - 1 ->
  stops_at (fun s => negb (occ ni s)) q i e -> 0 <= i < 2 ^ k -> Z.of_nat fuel = 2 ^ k - i -> hops = i + 1 ->
  exists x, insert_loop fuel ni (walk q i) (h2 q) (h1 q) hops =
      Some (ni <| filter_table_ext := x |>, if e =? 2 ^ k then None else Some (walk q e, e + 1)) /\
    forall s, 0 <= s < 2 ^ k -> x !!! s =
      if decide (i <= pos q s < e) then ext_at ni s <| route_count ::= fun c => s32 (c + 1) |> else ext_at ni s.
Proof.
  revert i ni hops. induction fuel as [|fuel IH]; intros i ni hops Hmask Hs Hi Hf Hh; [lia|].
  cbn [insert_loop]. replace (OCCUPIED (fast_at ni (walk q i)) =? 0) with (negb (occ ni (walk q i)))
    by (unfold occ, nz; apply negb_involutive).
  pose proof (proj1 Hs) as He. pose proof size_bound as Hb. destruct (decide (i = e)) as [->|Hne].
  - pose proof (stops_here _ _ _ Hs ltac:(lia)) as Hst. cbv beta in Hst. rewrite Hst.
    exists (filter_table_ext ni). rewrite (proj2 (Z.eqb_neq e (2 ^ k))), Hh by lia.
    split; [by destruct ni|]. intros s Hr. rewrite decide_False by lia. done.
  - destruct (stops_next _ _ _ _ Hs ltac:(lia)) as [-> Hs'].
    set (ni1 := ext_upd _ _ ni). change (table_size_mask ni1) with (table_size_mask ni).
    rewrite Hmask, walk_step, turn_test, u32_small by lia.
    assert (Hx1 : forall s, 0 <= s < 2 ^ k -> ext_at ni1 s =
      if decide (pos q s = i) then ext_at ni s <| route_count ::= fun c => s32 (c + 1) |> else ext_at ni s).
    { intros s Hr. unfold ni1. rewrite ext_at_upd. pose proof (walk_is q i s ltac:(lia) Hr).
      do 2 case_decide; tauto || done. }
    destruct (i + 1 =? 2 ^ k) eqn:Et.
    + apply Z.eqb_eq in Et. assert (e = 2 ^ k) as -> by (pose proof (proj1 Hs'); lia). rewrite Z.eqb_refl.
      exists (filter_table_ext ni1). split; [done|]. intros s Hr.
      change (filter_table_ext ni1 !!! s) with (ext_at ni1 s). rewrite Hx1 by done.
      pose proof (pos_range q s Hr). do 2 case_decide; try done; lia.
    + apply Z.eqb_neq in Et.
      destruct (IH (i + 1) ni1 (hops + 1) Hmask Hs' ltac:(lia) ltac:(lia) ltac:(lia)) as (x & E & Hx).
      exists x. split; [exact E|]. intros s Hr. rewrite Hx, Hx1 by done.
      do 3 case_decide; try done; lia.
Qed.

(** The walk of a removal takes itself out of the counts and clears tombstones. *)
Lemma unroute_spec q n i ni : table_size_mask ni = 2 ^ k - 1 -> 0 <= i -> i + Z.of_nat n < 2 ^ k ->
  exists f x ns, unroute n (walk q i) (h2 q) ni =
      (ni <| table := f |> <| filter_table_ext := x |> <| table_n_slots := ns |>, walk q (i + Z.of_nat n)) /\
    (forall s, 0 <= s < 2 ^ k -> x !!! s =
      if decide (i <= pos q s < i + Z.of_nat n) then ext_at ni s <| route_count ::= fun c => s32 (c - 1) |>
      else ext_at ni s) /\
    (forall s, 0 <= s < 2 ^ k -> f !!! s =
      if decide (i <= pos q s < i + Z.of_nat n /\ s32 (route_count (ext_at ni s) - 1) = 0 /\
        STATE (fast_at ni s) = TOMBSTONE) then set_entry_state EMPTY (fast_at ni s) else fast_at ni s) /\
    (table_n_slots ni = used ni -> ns = used (ni <| table := f |>)).
Proof.
  revert i ni. induction n as [|n IH]; intros i ni Hmask Hi Hn; cbn [unroute].
  - exists (table ni), (filter_table_ext ni), (table_n_slots ni). rewrite Z.add_0_r.
    split_and!; [by destruct ni|intros; rewrite decide_False by lia; done
      |intros; rewrite decide_False by lia; done|done].
  - set (ni1 := ext_upd (walk q i) _ ni). set (ni2 := if _ && _ then _ else ni1).
    assert (Hx1 : forall s, 0 <= s < 2 ^ k -> ext_at ni2 s =
      if decide (pos q s = i) then ext_at ni s <| route_count ::= fun c => s32 (c - 1) |> else ext_at ni s).
    { intros s Hr. transitivity (ext_at ni1 s); [unfold ni2; by destruct (_ && _)|].
      unfold ni1. rewrite ext_at_upd. pose proof (walk_is q i s ltac:(lia) Hr).
      do 2 case_decide; tauto || done. }
    assert (Hf1 : forall s, 0 <= s < 2 ^ k -> fast_at ni2 s =
      if decide (pos q s = i /\ s32 (route_count (ext_at ni s) - 1) = 0 /\ STATE (fast_at ni s) = TOMBSTONE)
      then set_entry_state EMPTY (fast_at ni s) else fast_at ni s).
    { intros s Hr. unfold ni2. destruct (_ && _) eqn:Ec.
      - rewrite fast_at_upd. apply andb_true_iff in Ec as [Ec1%Z.eqb_eq Ec2%Z.eqb_eq].
        unfold ni1 in Ec1. rewrite ext_at_upd, decide_True in Ec1 by done.
        pose proof (walk_is q i s ltac:(lia) Hr). case_decide as Hw; [|rewrite decide_False by tauto; done].
        subst s. rewrite decide_True; [done|]. tauto.
      - rewrite decide_False; [done|]. intros (<- & Hc & Ht). apply andb_false_iff in Ec.
        rewrite walk_pos in Ec by done. rewrite !Z.eqb_neq in Ec. unfold ni1 in Ec.
        rewrite ext_at_upd, walk_pos, decide_True in Ec by done. cbn in Ec. tauto. }
    assert (Hu : table_n_slots ni = used ni -> table_n_slots ni2 = used ni2).
    { intros Hu. unfold ni2. destruct (_ && _) eqn:Ec; [|exact Hu].
      apply andb_true_iff in Ec as [_ Ec2%Z.eqb_eq]. pose proof (walk_range q i) as Hr.
      rewrite used_upd by done. rewrite (decide_False (P := STATE (set_entry_state _ _) <> _)).
      2:{ intros Hc. apply Hc, set_state_state. rewrite list_elem_of_In. cbn. auto. }
      rewrite decide_True by (change (STATE (fast_at ni1 (walk q i)) <> EMPTY); by rewrite Ec2).
      change (used (ni1 <| table_n_slots ::= _ |>)) with (used ni). cbn. rewrite Hu.
      pose proof (used_range ni). assert (1 <= used ni) by (apply (used_some (walk q i)); [done|];
        change (STATE (fast_at ni1 (walk q i)) <> EMPTY); by rewrite Ec2).
      pose proof size_bound. rewrite u32_small; lia. }
    destruct (IH (i + 1) ni2) as (f & x & ns & E & Hx & Hf & Hns).
    + unfold ni2. by destruct (_ && _).
    + lia.
    + lia.
    + exists f, x, ns. replace (table_size_mask ni2) with (2 ^ k - 1) by (unfold ni2; by destruct (_ && _)).
      rewrite walk_step, E. split_and!.
      * f_equal; [unfold ni2; by destruct (_ && _)|f_equal; lia].
      * intros s Hr. rewrite Hx, Hx1 by done. do 3 case_decide; try done; lia.
      * intros s Hr. rewrite Hf by done. rewrite Hx1, Hf1 by done.
        destruct (decide (pos q s = i)) as [Hp|Hp].
        -- rewrite decide_False by lia. apply decide_ext. lia.
        -- rewrite (decide_False (P := _ = i /\ _)) by tauto. apply decide_ext. lia.
      * intros Hs. rewrite Hns by auto. unfold ni2. by destruct (_ && _).
Qed.

(** ** Callbacks *)

Section callbacks.
Context {W : Type} (callback : Z -> W -> Z * W).

(** The callback on each socket in turn until it returns non-zero. *)
Fixpoint calls (L : list Z) (w : W) : Z * W :=
  match L with
  | [] => (0, w)
  | id :: L => let '(rc, w) := callback id w in if nz rc then (1, w) else calls L w
  end.

Context (ni : ci_netif) (Hmask : table_size_mask ni = 2 ^ k - 1) (q : tuple) (intf_i vlan : Z).

(** Does the socket take packets of the interface? *)
Definition takes (id : Z) : bool :=
  (rx_bind2dev_ifindex (ID_TO_SOCK ni id) =? CI_IFID_BAD) || ci_sock_intf_check ni (ID_TO_SOCK ni id) intf_i vlan.

Definition pick (j : Z) : option Z :=
  let s := walk q j in
  if hit ni q s && takes (ID (fast_at ni s)) then Some (ID (fast_at ni s)) else None.

Definition picks (i e : Z) : list Z := omap pick (seqZ i (e - i)).

Lemma picks_nil i e : e <= i -> picks i e = [].
Proof. intros. unfold picks. by rewrite seqZ_nil by lia. Qed.

Lemma picks_cons i e : i < e -> picks i e = match pick i with Some id => id :: picks (i + 1) e | None => picks (i + 1) e end.
Proof.
  intros. unfold picks. rewrite seqZ_cons by lia. cbn [omap list_omap].
  replace (Z.pred (e - i)) with (e - (i + 1)) by lia. by rewrite <- Z.add_1_r.
Qed.

Abbreviation match_walk := (match_loop callback ni (t_laddr q) (t_lport q) (t_raddr q) (t_rport q)
  (t_protocol q) intf_i vlan).

Lemma handle_checked s w : occ ni s = true ->
  handle_entry callback ni (t_laddr q) (t_lport q) (t_raddr q) (t_rport q) (t_protocol q) intf_i vlan
    (fast_at ni s) (ext_at ni s) true w =
  if hit ni q s && takes (ID (fast_at ni s)) then
    let '(rc, w) := callback (ID (fast_at ni s)) w in (nz rc, w) else (false, w).
Proof.
  intros Ho. unfold handle_entry, hit, takes. rewrite Ho. cbn [andb b2z].
  rewrite Z.mul_1_r, u32_idemp. done.
Qed.

Lemma match_loop_stops e i fuel h w :
  stops_at (emp ni) q i e -> 0 <= i < 2 ^ k -> Z.of_nat fuel = 2 ^ k - i -> (i <> 0 -> h = h2 q) ->
  (forall s, emp ni s = true -> occ ni s = false) ->
  match_walk fuel (fast_at ni (walk q i)) (walk q i) h (h1 q) w = Some (calls (picks (i + 1) e) w).
Proof.
  intros Hs Hi Hf Hh Heo. revert i h w Hs Hi Hf Hh.
  induction fuel as [|fuel IH]; intros i h w Hs Hi Hf Hh; [lia|]. cbn [match_loop].
  fold (emp ni (walk q i)). fold (h2 q).
  rewrite (late_hash2 q i h Hi Hh), Hmask, walk_step, turn_test by lia.
  pose proof (proj1 Hs) as He. destruct (decide (i = e)) as [->|Hne].
  { rewrite (stops_here _ _ _ Hs) by lia. by rewrite picks_nil by lia. }
  destruct (stops_next _ _ _ _ Hs ltac:(lia)) as [-> Hs'].
  destruct (i + 1 =? 2 ^ k) eqn:Et; [apply Z.eqb_eq in Et; by rewrite picks_nil by lia|apply Z.eqb_neq in Et].
  fold (occ ni (walk q (i + 1))).
  assert (Hgo : forall w, match_walk fuel (fast_at ni (walk q (i + 1))) (walk q (i + 1)) (h2 q) (h1 q) w =
    Some (calls (picks (i + 1 + 1) e) w)) by (intros; apply IH; [done|lia|lia|done]).
  destruct (decide (i + 1 = e)) as [E|E].
  - rewrite (Heo (walk q (i + 1))), Hgo, !picks_nil by (lia || (rewrite E; apply (proj2 (proj2 Hs)); lia)). done.
  - rewrite (picks_cons (i + 1)) by lia. unfold pick. unfold hit at 1. unfold takes in *.
    destruct (occ ni (walk q (i + 1))) eqn:Ho; [|cbn [andb]; by rewrite Hgo].
    rewrite handle_checked by done. fold (takes (ID (fast_at ni (walk q (i + 1))))).
    unfold hit. rewrite Ho. cbn [andb].
    destruct (_ && _); [|by rewrite Hgo]. cbn [calls]. destruct (callback _ w) as [rc w1].
    by destruct (nz rc).
Qed.

End callbacks.

(** ** Reading operations *)

Section lookups.
Context (ni : ci_netif) (m : gmap Z (Z * tuple)) (leak : Z) (HI : table_inv ni m leak).
Context (q : tuple) (Hq : tuple_ok q).

Lemma hit_iff s : 0 <= s < 2 ^ k -> hit ni q s = true <-> exists id, m !! s = Some (id, q).
Proof.
  intros Hs. unfold hit. destruct (m !! s) as [[id t]|] eqn:E.
  - destruct (some_tests _ _ _ HI _ _ _ E) as (-> & _). rewrite (same_tuple _ _ _ HI _ _ _ _ E Hq). cbn [andb].
    rewrite bool_decide_eq_true. split; [intros ->; by eexists|intros [id' [=]]; done].
  - destruct (none_tests _ _ _ HI _ Hs E) as (-> & _). cbn. split; [done|intros [? [=]]].
Qed.

Lemma emp_not_occ s : emp ni s = true -> occ ni s = false.
Proof.
  unfold emp, occ, OCCUPIED. intros ->%Z.eqb_eq. done.
Qed.

(** Where the walk of [q] meets an empty slot, all filters of [q] are behind. *)
Lemma stored_before e s id : stops_at (emp ni) q 0 e -> m !! s = Some (id, q) -> 0 <= pos q s < e.
Proof.
  intros (He & Hb & Hs) E. destruct (slot_some _ _ _ HI _ _ _ E) as (_ & _ & Hr & _).
  pose proof (pos_range q s Hr). destruct (decide (pos q s < e)); [lia|].
  assert (Hemp : emp ni (walk q e) = true) by (apply Hs; lia).
  rewrite (stored_reached _ _ _ HI s id q e E) in Hemp by lia. done.
Qed.

Lemma table_fuel_eq : Z.of_nat (table_fuel ni) = 2 ^ k - 0.
Proof. unfold table_fuel. rewrite (i_mask _ _ _ HI). pose proof size_pos. lia. Qed.

(** A lookup finds a filter of the tuple if there is one; after a failed
    insertion a miss has seen all slots. *)
Lemma lookup_spec :
  (exists s id, m !! s = Some (id, q) /\
    ci_ip4_netif_filter_lookup ni (t_laddr q) (t_lport q) (t_raddr q) (t_rport q) (t_protocol q) = Some s) \/
  ((forall s id, m !! s <> Some (id, q)) /\ exists rc, (rc = - ENOENT \/ rc = - ELOOP) /\ (0 < leak -> rc = - ELOOP) /\
    ci_ip4_netif_filter_lookup ni (t_laddr q) (t_lport q) (t_raddr q) (t_rport q) (t_protocol q) = Some rc).
Proof.
  unfold ci_ip4_netif_filter_lookup. rewrite (i_mask _ _ _ HI). fold (h1 q).
  destruct (stops_exists (fun s => hit ni q s || emp ni s) q 0) as [e Hs]; [pose proof size_pos; lia|].
  pose proof (lookup_loop_stops ni (i_mask _ _ _ HI) q e 0 (table_fuel ni) 0 Hs) as E. rewrite walk_0 in E.
  rewrite E; [clear E|pose proof size_pos; lia|apply table_fuel_eq|done].
  destruct Hs as (He & Hb & Hs).
  assert (Hmiss : (forall j, 0 <= j < 2 ^ k -> j <= e -> hit ni q (walk q j) = false) -> forall s id, m !! s <> Some (id, q)).
  { intros Hno s id E. destruct (slot_some _ _ _ HI _ _ _ E) as (_ & _ & Hr & _).
    pose proof (pos_range q s Hr) as Hp. destruct (decide (pos q s <= e)) as [Hle|Hle].
    - specialize (Hno (pos q s) Hp Hle). rewrite walk_pos in Hno by done.
      rewrite (proj2 (hit_iff s Hr)) in Hno by eauto. done.
    - assert (Hst : hit ni q (walk q e) || emp ni (walk q e) = true) by (apply Hs; lia).
      rewrite (Hno e), (stored_reached _ _ _ HI s id q e E) in Hst by lia. done. }
  assert (Hb' : forall j, 0 <= j < e -> hit ni q (walk q j) = false).
  { intros j Hj. specialize (Hb j Hj). cbv beta in Hb. by apply orb_false_iff in Hb as [-> _]. }
  destruct (e =? 2 ^ k) eqn:Ee; [apply Z.eqb_eq in Ee|apply Z.eqb_neq in Ee].
  - right. split; [apply Hmiss; intros; apply Hb'; lia|]. exists (- ELOOP). tauto.
  - destruct (hit ni q (walk q e)) eqn:Eh.
    + left. apply hit_iff in Eh as [id Em]; [|apply walk_range]. by exists (walk q e), id.
    + right. split.
      { apply Hmiss. intros j Hj Hle. destruct (decide (j = e)) as [->|]; [done|]. apply Hb'. lia. }
      exists (- ENOENT). split; [tauto|]. split; [|done]. intros Hl. exfalso.
      specialize (Hs ltac:(lia)). cbn in Hs.
      destruct (m !! walk q e) as [[id t]|] eqn:Em.
      * destruct (some_tests _ _ _ HI _ _ _ Em) as (_ & Hn & _). congruence.
      * destruct (none_tests _ _ _ HI _ (walk_range q e) Em) as (_ & Hn & _). rewrite Hs in Hn.
        symmetry in Hn. apply bool_decide_eq_true in Hn. pose proof (routes_nonneg m (walk q e)). lia.
Qed.

(** ** Matching *)

Lemma NoDup_omap_inj {A B} (f : A -> option B) (l : list A) :
  NoDup l -> (forall x y b, x ∈ l -> y ∈ l -> f x = Some b -> f y = Some b -> x = y) -> NoDup (omap f l).
Proof.
  induction l as [|x l IH]; intros Hl Hf; [apply NoDup_nil_2|]. apply NoDup_cons in Hl as [Hx Hl]. cbn [omap list_omap].
  assert (NoDup (omap f l)) by (apply IH; [done|]; intros; eapply Hf; (by right) || done).
  destruct (f x) as [b|] eqn:E; [|done]. apply NoDup_cons. split; [|done].
  intros (y & Hy & Ey)%list_elem_of_omap. apply Hx.
  by rewrite (Hf x y b) by (by left || by right || done).
Qed.

Context {W : Type} (callback : Z -> W -> Z * W) (intf_i vlan : Z).

Lemma pick_iff j id : 0 <= j < 2 ^ k ->
  pick ni q intf_i vlan j = Some id <-> m !! walk q j = Some (id, q) /\ takes ni intf_i vlan id = true.
Proof.
  intros Hj. unfold pick. pose proof (walk_range q j) as Hr. split.
  - destruct (hit _ _ _) eqn:Eh; [|done]. cbn [andb]. apply hit_iff in Eh as [id' Em]; [|done].
    destruct (some_tests _ _ _ HI _ _ _ Em) as (_ & _ & -> & _).
    destruct (takes _ _ _ _) eqn:Et; [|done]. by intros [= ->].
  - intros [Em Et]. rewrite (proj2 (hit_iff _ Hr)) by eauto.
    destruct (some_tests _ _ _ HI _ _ _ Em) as (_ & _ & -> & _). by rewrite Et.
Qed.

Lemma picks_spec e : stops_at (emp ni) q 0 e ->
  NoDup (picks ni q intf_i vlan 0 e) /\
  forall id, id ∈ picks ni q intf_i vlan 0 e <-> (exists s, m !! s = Some (id, q)) /\ takes ni intf_i vlan id = true.
Proof.
  intros Hs. pose proof (proj1 Hs) as He. unfold picks. split.
  - apply NoDup_omap_inj; [apply NoDup_seqZ|]. intros i j id Hi%elem_of_seqZ Hj%elem_of_seqZ.
    rewrite !pick_iff by lia. intros [Ei _] [Ej _]. apply (walk_inj q); [lia|lia|].
    by apply (f_uniq _ _ (i_filters _ _ _ HI) _ _ id q q).
  - intros id. rewrite list_elem_of_omap. split.
    + intros (j & Hj%elem_of_seqZ & [Em Et]%pick_iff); [|lia]. eauto.
    + intros [[s Em] Et]. pose proof (stored_before e s id Hs Em) as Hp.
      destruct (slot_some _ _ _ HI _ _ _ Em) as (_ & _ & Hr & _).
      exists (pos q s). split; [apply elem_of_seqZ; lia|]. apply pick_iff; [lia|]. by rewrite walk_pos.
Qed.

(** The fast path at the preferred slot tests all but the local port. *)
Lemma handle_preferred id t w : m !! h1 q = Some (id, t) -> h1 t = h1 q ->
  handle_entry callback ni (t_laddr q) (t_lport q) (t_raddr q) (t_rport q) (t_protocol q) intf_i vlan
    (fast_at ni (h1 q)) (ext_at ni (h1 q)) false w =
  handle_entry callback ni (t_laddr q) (t_lport q) (t_raddr q) (t_rport q) (t_protocol q) intf_i vlan
    (fast_at ni (h1 q)) (ext_at ni (h1 q)) true w.
Proof.
  intros Em Eh. unfold handle_entry. cbn [b2z]. rewrite Z.mul_0_r, Z.mul_1_r, u32_idemp. change (u32 0) with 0.
  rewrite (same_tuple _ _ _ HI _ _ _ _ Em Hq). rewrite Z.lor_0_r.
  replace (_ =? 0) with (bool_decide (q = t)); [done|].
  destruct (slot_some _ _ _ HI _ _ _ Em) as (Hfa & Hl & _ & _ & Ht).
  destruct (some_tests _ _ _ HI _ _ _ Em) as (_ & _ & -> & _).
  destruct (f_sock _ _ (i_filters _ _ _ HI) _ _ _ Em) as (-> & -> & ->). rewrite Hfa. cbn [fast_laddr].
  destruct Hq as (? & ? & ? & ? & ?), Ht as (? & ? & ? & ? & ?). unfold u16_ok, u32_ok in *.
  apply eq_bool_prop_intro. rewrite (Is_true_true (_ =? 0)), Z.eqb_eq, !lor_0, !u32_diff_0 by (unfold u32_ok; lia).
  rewrite bool_decide_spec. split; [by intros ->|]. intros [[[E1 E2] E3] E4].
  clear Hfa Hl. destruct q as [la lp ra rp pr], t as [la' lp' ra' rp' pr']. cbn in *. subst. f_equal.
  symmetry. unfold h1 in Eh. cbn in Eh. apply (hash1_lprp k) in Eh; lia.
Qed.

Lemma for_each_spec hash_out w : exists L, NoDup L /\
  (forall id, id ∈ L <-> (exists s, m !! s = Some (id, q)) /\ takes ni intf_i vlan id = true) /\
  ci_netif_filter_for_each_match callback ni (t_laddr q) (t_lport q) (t_raddr q) (t_rport q) (t_protocol q)
    intf_i vlan hash_out w =
  Some (calls callback L w, if hash_out then
    Some (__onload_hash3 (t_laddr q) (t_lport q) (t_raddr q) (t_rport q) (t_protocol q)) else None).
Proof.
  destruct (stops_exists (emp ni) q 0) as [e Hs]; [pose proof size_pos; lia|].
  exists (picks ni q intf_i vlan 0 e). destruct (picks_spec e Hs) as [Hn Hm]. split; [done|]. split; [done|].
  unfold ci_netif_filter_for_each_match. rewrite (i_mask _ _ _ HI). fold (h1 q).
  assert (Hloop : forall w, match_loop callback ni (t_laddr q) (t_lport q) (t_raddr q) (t_rport q) (t_protocol q)
      intf_i vlan (table_fuel ni) (fast_at ni (h1 q)) (h1 q) 0 (h1 q) w = Some (calls callback (picks ni q intf_i vlan 1 e) w)).
  { intros w'. pose proof (match_loop_stops callback ni (i_mask _ _ _ HI) q intf_i vlan e 0 (table_fuel ni) 0 w' Hs) as E.
    rewrite walk_0 in E. apply E; [pose proof size_pos; lia|apply table_fuel_eq|done|apply emp_not_occ]. }
  destruct (m !! h1 q) as [[id t]|] eqn:Em.
  - destruct (some_tests _ _ _ HI _ _ _ Em) as (Ho & Hne & Hid & ->).
    assert (0 < e).
    { destruct (decide (e = 0)) as [->|]; [|pose proof (proj1 Hs); lia].
      pose proof (stops_here _ _ _ Hs size_pos) as He. rewrite walk_0 in He. congruence. }
    rewrite (picks_cons ni q intf_i vlan 0) by done. unfold pick. rewrite walk_0. change (0 + 1) with 1.
    case_bool_decide as Ep.
    + rewrite (handle_preferred id t w Em Ep). rewrite handle_checked by done.
      destruct (_ && _); cbn [calls]; [|cbn; rewrite Hloop; cbn; by destruct (calls _ _ _)].
      destruct (callback _ w) as [rc w1]. destruct (nz rc); [done|rewrite Hloop; cbn; by destruct (calls _ _ _)].
    + replace (hit ni q (h1 q)) with false; [cbn; rewrite Hloop; cbn; by destruct (calls _ _ _)|].
      symmetry. apply not_true_is_false. intros [id' E]%hit_iff; [|apply h1_range]. congruence.
  - destruct (none_tests _ _ _ HI _ (h1_range q) Em) as (Ho & _ & _ & ->).
    cbn. rewrite Hloop. replace (picks ni q intf_i vlan 0 e) with (picks ni q intf_i vlan 1 e);
      [cbn; by destruct (calls _ _ _)|].
    destruct (decide (0 < e)) as [Hlt|Hge]; [|by rewrite !picks_nil by lia].
    rewrite (picks_cons ni q intf_i vlan 0) by done. unfold pick. rewrite walk_0. unfold hit. by rewrite Ho.
Qed.

End lookups.

(** ** Insertion *)

Lemma occ_iff ni m leak s : table_inv ni m leak -> 0 <= s < 2 ^ k -> occ ni s = true <-> is_Some (m !! s).
Proof.
  intros HI Hs. destruct (m !! s) as [[id t]|] eqn:E.
  - destruct (some_tests _ _ _ HI _ _ _ E) as (-> & _). split; eauto.
  - destruct (none_tests _ _ _ HI _ Hs E) as (-> & _). split; [done|by intros [? ?]].
Qed.

(** [insert_stats] touches only statistics. *)
Lemma insert_stats_frame hash1 hops ni :
  let ni' := insert_stats hash1 hops ni in
  table_size_mask ni' = table_size_mask ni /\ table ni' = table ni /\ filter_table_ext ni' = filter_table_ext ni /\
  socks ni' = socks ni /\ intf_i_to_hwport ni' = intf_i_to_hwport ni /\
  table_n_entries ni' = u32 (table_n_entries ni + 1) /\
  table_n_slots ni' = if emp ni hash1 then u32 (table_n_slots ni + 1) else table_n_slots ni.
Proof.
  cbv zeta. unfold insert_stats. destruct (table_max_hops ni <? hops), (table_mean_hops _ =? 0); cbn;
  change (STATE _ =? EMPTY) with (emp ni hash1); by destruct (emp ni hash1).
Qed.

(** The entry written. *)
Lemma insert_at_spec s first id la lp ni : 0 <= id < 1073741824 -> u16_ok lp ->
  let ni' := insert_at s first id la lp ni in
  (forall j, fast_at ni' j = if decide (s = j) then mk_fast (enc id (if decide (s = first) then 0 else 1)) la else fast_at ni j) /\
  (forall j, ext_at ni' j = if decide (s = j) then ext_at ni j <| ext_lport := lp |> else ext_at ni j) /\
  table_size_mask ni' = table_size_mask ni /\ socks ni' = socks ni /\ intf_i_to_hwport ni' = intf_i_to_hwport ni /\
  table_n_entries ni' = table_n_entries ni /\ table_n_slots ni' = table_n_slots ni.
Proof.
  intros Hid Hlp. cbv zeta. unfold insert_at. split_and!; try done; intros j.
  - change (fast_at (ext_upd _ _ ?n) j) with (fast_at n j). rewrite !fast_at_upd. case_decide as E; [subst j|done].
    set (st := if decide (s = first) then 0 else 1). assert (Hst : 0 <= st < 4) by (unfold st; case_decide; lia).
    replace (if s =? first then OCCUPIED_PREFERRED else OCCUPIED_REHASHED) with (st * 1073741824).
    2:{ unfold st. case_decide; [subst; by rewrite Z.eqb_refl|by rewrite (proj2 (Z.eqb_neq _ _))]. }
    set (g := Z.land (__id_and_state (fast_at ni s)) FILTER_TABLE_ID_MASK).
    assert (Hg : 0 <= g < 1073741824) by (apply (land_mask_range _ 30); lia).
    assert (E1 : set_entry_state (st * 1073741824) (fast_at ni s) = mk_fast (enc g st) (fast_laddr (fast_at ni s))).
    { unfold set_entry_state. cbn. f_equal. unfold __ID. fold g. rewrite Z.lor_comm.
      change 1073741824 with (2 ^ 30) at 1. rewrite <- Z.shiftl_mul_pow2 by lia.
      rewrite lor_shiftl_add by lia. unfold enc. lia. }
    rewrite E1, (set_id_bits _ g st) by done. done.
  - change (ext_at (ext_upd s ?f ?n) j) with (ext_at (ext_upd s f n) j). rewrite ext_at_upd.
    rewrite u16_small by (unfold u16_ok in Hlp; lia). done.
Qed.

Definition flag_full (s : ci_sock_cmn) : ci_sock_cmn :=
  s <| s_flags ::= fun f => Z.lor f CI_SOCK_FLAG_SW_FILTER_FULL |>.

Lemma insert_full_spec id ni :
  let ni' := insert_full id ni in
  table_size_mask ni' = table_size_mask ni /\ table ni' = table ni /\ filter_table_ext ni' = filter_table_ext ni /\
  (forall i, ID_TO_SOCK ni' i = if decide (i = id) then flag_full (ID_TO_SOCK ni i) else ID_TO_SOCK ni i) /\
  intf_i_to_hwport ni' = intf_i_to_hwport ni /\
  table_n_entries ni' = table_n_entries ni /\ table_n_slots ni' = table_n_slots ni.
Proof.
  cbv zeta. unfold insert_full. destruct (_ =? 0) eqn:E; split_and!; try done; intros i.
  - unfold ID_TO_SOCK. cbn. case_decide; [subst; by rewrite lookup_total_insert_eq|by rewrite lookup_total_insert_ne].
  - case_decide as Ei; [subst i|done]. unfold flag_full, ID_TO_SOCK in *. cbn. destruct (socks ni !!! id) as [? ? ? ? ? ? f].
    cbn in *. f_equal. apply Z.eqb_neq in E. change CI_SOCK_FLAG_SW_FILTER_FULL with (2 ^ 12) in *.
    assert (Ht : Z.testbit f 12 = true).
    { rewrite <- nz_land_pow2 by lia. unfold nz. by rewrite (proj2 (Z.eqb_neq _ _)). }
    apply Z.bits_inj'. intros n Hn. rewrite Z.lor_spec, Z.pow2_bits_eqb by lia.
    destruct (12 =? n) eqn:En; [apply Z.eqb_eq in En; subst; by rewrite Ht|by rewrite orb_false_r].
Qed.

Lemma used_table ni ni' : table ni' = table ni -> used ni' = used ni.
Proof. unfold used, fast_at. by intros ->. Qed.

Section insertion.
Context (ni : ci_netif) (m : gmap Z (Z * tuple)) (leak : Z) (HI : table_inv ni m leak).
Context (id : Z) (q : tuple) (Hq : tuple_ok q) (Hid : 0 <= id < 1073741824).

(** When the walk ends in a free slot, before which all slots are taken. *)
Lemma insert_inv ni' e :
  0 <= e < 2 ^ k -> m !! walk q e = None -> (forall j, 0 <= j < e -> is_Some (m !! walk q j)) ->
  agrees (ID_TO_SOCK ni id) q -> (forall s t, m !! s = Some (id, t) -> t_laddr t <> t_laddr q) ->
  table_size_mask ni' = 2 ^ k - 1 -> socks ni' = socks ni ->
  table_n_entries ni' = u32 (table_n_entries ni + 1) ->
  table_n_slots ni' = (if emp ni (walk q e) then u32 (table_n_slots ni + 1) else table_n_slots ni) ->
  (forall s, 0 <= s < 2 ^ k -> fast_at ni' s = if decide (walk q e = s) then
     mk_fast (enc id (if decide (h1 q = s) then 0 else 1)) (t_laddr q) else fast_at ni s) ->
  (forall s, 0 <= s < 2 ^ k -> ext_at ni' s = if decide (walk q e = s) then ext_at ni s <| ext_lport := t_lport q |>
     else if decide (pos q s < e) then ext_at ni s <| route_count ::= fun c => s32 (c + 1) |> else ext_at ni s) ->
  table_inv ni' (<[walk q e := (id, q)]> m) leak.
Proof.
  intros He Hn Hbefore Hag Hfresh Hmask Hso Hne Hns Hfa Hex. pose proof size_bound as Hb.
  pose proof (walk_range q e) as Hr.
  assert (Hf' : filters_ok ni' (<[walk q e := (id, q)]> m)).
  { destruct (i_filters _ _ _ HI) as [F1 F2 F3 F4 F5].
    assert (Hsk : forall i, ID_TO_SOCK ni' i = ID_TO_SOCK ni i) by (intros; unfold ID_TO_SOCK; by rewrite Hso).
    split; intros *; rewrite ?lookup_insert_Some.
    1-4: intros [[<- [= <- <-]]|[_ E]]; rewrite ?Hsk; eauto.
    intros [[<- [= <- <-]]|[N1 E1]] [[<- [= <-]]|[N2 E2]] El; try done.
    - by destruct (Hfresh _ _ E2).
    - subst. by destruct (Hfresh _ _ E1).
    - by apply (F5 _ _ id0 t1 t2). }
  pose proof (filters_size _ _ Hf') as Hsz. rewrite map_size_insert_None in Hsz by done.
  pose proof (i_leak _ _ _ HI) as Hl.
  split; [done|done| |done| |].
  - intros s Hs. destruct (i_slots _ _ _ HI s Hs) as [Hc Hm].
    pose proof (routes_insert m s (walk q e) id q Hn) as Hrt. rewrite pos_walk in Hrt by done.
    pose proof (routes_le (<[walk q e := (id, q)]> m) s) as Hle. rewrite map_size_insert_None in Hle by done.
    pose proof (routes_nonneg m s) as Hr0.
    unfold slot_ok. rewrite Hfa, Hex by done. destruct (decide (walk q e = s)) as [Ew|Ew].
    + subst s. rewrite lookup_insert_eq. rewrite decide_False in Hrt by (rewrite pos_walk; lia). cbn.
      split; [lia|]. split; done.
    + rewrite lookup_insert_ne by done. split.
      { case_decide; cbn; [rewrite s32_small|]; lia. }
      destruct (m !! s) as [[id' t]|] eqn:Es.
      * destruct Hm as [Hm1 Hm2]. split; [done|]. by case_decide.
      * destruct Hm as (g & Hg & Hm). exists g. split; [done|]. rewrite Hm. f_equal.
        rewrite decide_False in Hrt; [by rewrite Hrt, Z.add_0_r|].
        intros Hp. destruct (Hbefore (pos q s)) as [? Hx]; [pose proof (pos_range q s Hs); lia|].
        rewrite walk_pos in Hx by done. congruence.
  - rewrite Hne, (i_entries _ _ _ HI), map_size_insert_None by done. rewrite u32_small; lia.
  - rewrite Hns, (i_used _ _ _ HI).
    rewrite (used_change ni ni' (walk q e) Hr).
    2:{ intros j Hj Hne'. by rewrite Hfa, decide_False by done. }
    rewrite (decide_True (P := STATE (fast_at ni' _) <> _)).
    2:{ rewrite Hfa, decide_True by done. 
        set (st := if decide (h1 q = walk q e) then 0 else 1).
        assert (Hst : 0 <= st < 2) by (unfold st; case_decide; lia).
        rewrite (state_bits (mk_fast (enc id st) (t_laddr q)) id st) by (done || lia).
        change EMPTY with (2 * 1073741824). lia. }
    unfold emp. destruct (STATE (fast_at ni (walk q e)) =? EMPTY) eqn:Ee.
    + apply Z.eqb_eq in Ee. rewrite decide_False by tauto. rewrite u32_small; [lia|].
      pose proof (used_range ni). lia.
    + apply Z.eqb_neq in Ee. rewrite decide_True by done. lia.
Qed.
End insertion.

(** All slots taken. *)
Lemma full_size ni m : filters_ok ni m -> (forall s, 0 <= s < 2 ^ k -> is_Some (m !! s)) -> Z.of_nat (size m) = 2 ^ k.
Proof.
  intros Hf Hall. pose proof size_pos. pose proof (filters_size _ _ Hf). rewrite <- size_dom in *.
  assert (Hs : list_to_set (C := gset Z) (seqZ 0 (2 ^ k)) ⊆ dom m).
  { intros s Hs%elem_of_list_to_set%elem_of_seqZ. apply elem_of_dom, Hall. lia. }
  apply subseteq_size in Hs. rewrite size_list_to_set in Hs by apply NoDup_seqZ. rewrite length_seqZ in Hs. lia.
Qed.

(** A failed insertion leaves one walk too many through every slot. *)
Lemma full_inv ni m leak ni' id : table_inv ni m leak -> leak + 1 < 1073741824 ->
  table_size_mask ni' = 2 ^ k - 1 -> table ni' = table ni ->
  (forall s, 0 <= s < 2 ^ k -> is_Some (m !! s)) ->
  (forall s, 0 <= s < 2 ^ k -> ext_at ni' s = ext_at ni s <| route_count ::= fun c => s32 (c + 1) |>) ->
  (forall i, ID_TO_SOCK ni' i = if decide (i = id) then flag_full (ID_TO_SOCK ni i) else ID_TO_SOCK ni i) ->
  table_n_entries ni' = table_n_entries ni -> table_n_slots ni' = table_n_slots ni ->
  table_inv ni' m (leak + 1).
Proof.
  intros HI Hl Hmask Ht Hall Hex Hso Hne Hns. pose proof (i_leak _ _ _ HI). pose proof size_bound.
  pose proof (filters_size _ _ (i_filters _ _ _ HI)).
  assert (Hfa : forall s, fast_at ni' s = fast_at ni s) by (intros; unfold fast_at; by rewrite Ht).
  split; [done|lia| | |by rewrite Hne, (i_entries _ _ _ HI)|by rewrite Hns, (i_used _ _ _ HI), (used_table _ _ Ht)].
  - intros s Hs. destruct (i_slots _ _ _ HI s Hs) as [Hc Hm]. destruct (Hall s Hs) as [[id' t] E].
    unfold slot_ok. rewrite Hex, Hfa, E in * by done. pose proof (routes_le m s). pose proof (routes_nonneg m s).
    cbn. split; [rewrite s32_small; lia|done].
  - destruct (i_filters _ _ _ HI) as [F1 F2 F3 F4 F5]. split; eauto.
    intros s i t E. rewrite Hso. case_decide; [|eauto]. apply (F4 _ _ _ E).
Qed.

Lemma insert_spec ni m leak id q : table_inv ni m leak -> leak + 1 < 1073741824 ->
  tuple_ok q -> 0 <= id < 1073741824 -> agrees (ID_TO_SOCK ni id) q ->
  (forall s t, m !! s = Some (id, t) -> t_laddr t <> t_laddr q) ->
  exists ni' rc, ci_netif_filter_insert ni id (t_laddr q) (t_lport q) (t_raddr q) (t_rport q) (t_protocol q) =
    Some (ni', rc) /\ intf_i_to_hwport ni' = intf_i_to_hwport ni /\
  ((rc = 0 /\ Z.of_nat (size m) < 2 ^ k /\ socks ni' = socks ni /\
      exists s, m !! s = None /\ table_inv ni' (<[s := (id, q)]> m) leak) \/
   (rc = - ENOBUFS /\ Z.of_nat (size m) = 2 ^ k /\ table_inv ni' m (leak + 1) /\
      forall i, ID_TO_SOCK ni' i = if decide (i = id) then flag_full (ID_TO_SOCK ni i) else ID_TO_SOCK ni i)).
Proof.
  intros HI Hl Hq Hid Hag Hfresh. pose proof size_pos as Hp.
  unfold ci_netif_filter_insert, ci_ip4_netif_filter_insert. rewrite (i_mask _ _ _ HI). fold (h1 q). fold (h2 q).
  destruct (stops_exists (fun s => negb (occ ni s)) q 0) as [e Hs]; [lia|].
  destruct (insert_loop_stops q e 0 (table_fuel ni) ni 1 (i_mask _ _ _ HI) Hs) as (x & E & Hx);
    [lia|by apply (table_fuel_eq _ _ _ HI)|lia|]. rewrite walk_0 in E. rewrite E. clear E. cbn [mbind option_bind].
  destruct Hs as (He & Hb & Hs). set (ni1 := ni <| filter_table_ext := x |>).
  assert (Hbefore : forall j, 0 <= j < e -> is_Some (m !! walk q j)).
  { intros j Hj. apply (occ_iff ni m leak); [done|apply walk_range|]. specialize (Hb j Hj). cbn in Hb.
    by apply negb_false_iff in Hb. }
  destruct (e =? 2 ^ k) eqn:Ee; [apply Z.eqb_eq in Ee; subst e|apply Z.eqb_neq in Ee].
  - exists (insert_full id ni1), (- ENOBUFS). destruct (insert_full_spec id ni1) as (G1 & G2 & G3 & G4 & G5 & G6 & G7).
    split; [done|]. split; [done|]. right. split; [done|].
    assert (Hall : forall s, 0 <= s < 2 ^ k -> is_Some (m !! s)).
    { intros s Hr. rewrite <- (walk_pos q s Hr). apply Hbefore, pos_range, Hr. }
    split; [by apply (full_size ni), Hall; apply (i_filters _ _ _ HI)|]. split; [|done].
    apply (full_inv ni m leak _ id); try done; [rewrite G1; apply (i_mask _ _ _ HI)|].
    intros s Hr. transitivity (x !!! s); [unfold ext_at; by rewrite G3|].
    rewrite Hx by done. by rewrite decide_True by (by apply pos_range).
  - assert (Hn : m !! walk q e = None).
    { specialize (Hs ltac:(lia)). cbn in Hs. apply negb_true_iff in Hs. apply eq_None_not_Some.
      intros Hc. apply (occ_iff ni m leak) in Hc; [congruence|done|apply walk_range]. }
    set (ni2 := insert_stats (walk q e) (e + 1) ni1).
    destruct (insert_stats_frame (walk q e) (e + 1) ni1) as (S1 & S2 & S3 & S4 & S5 & S6 & S7). fold ni2 in S1, S2, S3, S4, S5, S6, S7.
    destruct (insert_at_spec (walk q e) (h1 q) id (t_laddr q) (t_lport q) ni2 Hid (proj1 (proj2 Hq)))
      as (A1 & A2 & A3 & A4 & A5 & A6 & A7).
    eexists _, 0. split; [reflexivity|]. split; [by rewrite A5, S5|]. left. split; [done|].
    assert (Hinv : table_inv (insert_at (walk q e) (h1 q) id (t_laddr q) (t_lport q) ni2) (<[walk q e := (id, q)]> m) leak).
    { apply (insert_inv ni m leak HI id q Hq Hid _ e); try done.
      - lia.
      - rewrite A3, S1. apply (i_mask _ _ _ HI).
      - intros s Hr. rewrite A1. assert (Ef : fast_at ni2 s = fast_at ni s) by (unfold fast_at; by rewrite S2).
        rewrite Ef. destruct (decide (walk q e = s)) as [<-|]; [|done].
        f_equal. f_equal. apply decide_ext. split; by intros ->.
      - intros s Hr. rewrite A2. assert (Ef : ext_at ni2 s = x !!! s) by (unfold ext_at; by rewrite S3).
        rewrite Ef, Hx by done. pose proof (pos_range q s Hr). destruct (decide (walk q e = s)) as [Ew|Ew].
        + rewrite decide_False; [done|]. apply walk_is in Ew; lia.
        + destruct (decide (pos q s < e)); [rewrite decide_True by lia; done|rewrite decide_False by lia; done]. }
    pose proof (filters_size _ _ (i_filters _ _ _ Hinv)) as Hsz. rewrite map_size_insert_None in Hsz by done.
    split; [lia|]. split; [by rewrite A4, S4|]. by exists (walk q e).
Qed.

(** ** Removal *)

Lemma mine_iff ni m leak id q s : table_inv ni m leak -> 0 <= id < 1073741824 -> 0 <= s < 2 ^ k ->
  mine ni q id s = true <-> exists t, m !! s = Some (id, t) /\ t_laddr t = t_laddr q.
Proof.
  intros HI Hid Hs. unfold mine. destruct (m !! s) as [[id' t]|] eqn:E.
  - destruct (some_tests _ _ _ HI _ _ _ E) as (-> & _ & -> & _).
    destruct (slot_some _ _ _ HI _ _ _ E) as (-> & _). cbn [andb fast_laddr]. rewrite u32_small by lia.
    rewrite andb_true_iff, !Z.eqb_eq. split; [intros [-> ->]; by eexists|intros (? & [= -> ->] & ->); done].
  - destruct (none_tests _ _ _ HI _ Hs E) as (-> & _). cbn. split; [done|by intros (? & [=] & _)].
Qed.

Section removal.
Context (ni : ci_netif) (m : gmap Z (Z * tuple)) (leak : Z) (HI : table_inv ni m leak).
Context (id : Z) (q : tuple) (e : Z) (He : 0 <= e < 2 ^ k) (Em : m !! walk q e = Some (id, q)).

Lemma delete_filters : filters_ok ni (delete (walk q e) m).
Proof.
  destruct (i_filters _ _ _ HI) as [F1 F2 F3 F4 F5].
  split; intros *; rewrite ?lookup_delete_Some; intros [? ?]; eauto. intros [? ?]. eauto.
Qed.

(** The state after the walk of a removal and the release of the slot. *)
Lemma remove_inv ni' : table_size_mask ni' = 2 ^ k - 1 -> socks ni' = socks ni ->
  table_n_entries ni' = u32 (table_n_entries ni - 1) -> table_n_slots ni' = used ni' ->
  (forall s, 0 <= s < 2 ^ k -> ext_at ni' s = if decide (pos q s < e) then
     ext_at ni s <| route_count ::= fun c => s32 (c - 1) |> else ext_at ni s) ->
  (forall s, 0 <= s < 2 ^ k -> s <> walk q e -> fast_at ni' s =
     if decide (pos q s < e /\ s32 (route_count (ext_at ni s) - 1) = 0 /\ STATE (fast_at ni s) = TOMBSTONE)
     then set_entry_state EMPTY (fast_at ni s) else fast_at ni s) ->
  fast_at ni' (walk q e) =
    set_entry_state (if decide (route_count (ext_at ni (walk q e)) = 0) then EMPTY else TOMBSTONE)
      (fast_at ni (walk q e)) ->
  table_inv ni' (delete (walk q e) m) leak.
Proof.
  intros Hmask Hso Hne Hns Hex Hfa Hfe. pose proof size_bound as Hb. pose proof (i_leak _ _ _ HI) as Hl.
  pose proof (filters_size _ _ (i_filters _ _ _ HI)) as Hsz.
  assert (Hsize : (size m = S (size (delete (walk q e) m)))%nat).
  { rewrite map_size_delete_Some by eauto. assert (size m <> 0)%nat; [|lia].
    intros Hz. apply map_size_empty_inv in Hz. subst. done. }
  split; [done|done| | | |done].
  - intros s Hs. destruct (i_slots _ _ _ HI s Hs) as [Hc Hm].
    pose proof (routes_delete m s (walk q e) id q Em) as Hrt. rewrite pos_walk in Hrt by done.
    pose proof (routes_nonneg (delete (walk q e) m) s) as Hr0. pose proof (routes_le m s) as Hle.
    unfold slot_ok. rewrite Hex by done. destruct (decide (s = walk q e)) as [->|Hn].
    + rewrite lookup_delete_eq, Hfe. rewrite pos_walk in Hrt |- * by done.
      rewrite decide_False in Hrt by lia. rewrite (decide_False (P := e < e)) by lia.
      split; [lia|]. rewrite Em in Hm. destruct Hm as [Hm _].
      pose proof (f_id _ _ (i_filters _ _ _ HI) _ _ _ Em) as Hid.
      exists id. split; [done|]. rewrite Hm.
      set (st := if decide (h1 q = walk q e) then 0 else 1).
      assert (Hst : 0 <= st < 4) by (unfold st; case_decide; lia). rewrite Hc, Hrt, Z.sub_0_r.
      destruct (decide (routes m (walk q e) + leak = 0)); [change EMPTY with (2 * 1073741824)|change TOMBSTONE with (3 * 1073741824)];
        by rewrite (set_state_bits (mk_fast (enc id st) (t_laddr q)) id st eq_refl) by (done || lia).
    + rewrite lookup_delete_ne by done. rewrite (Hfa s Hs Hn), Hc.
      assert (Hc' : pos q s < e -> s32 (routes m s + leak - 1) = routes (delete (walk q e) m) s + leak).
      { intros Hp. rewrite decide_True in Hrt by done. rewrite s32_small; lia. }
      split.
      { destruct (decide (pos q s < e)) as [Hp|Hp]; cbn; rewrite Hc; [by apply Hc'|lia]. }
      destruct (m !! s) as [[id' t]|] eqn:Es.
      * destruct Hm as [Hm1 Hm2]. rewrite decide_False.
        -- split; [done|]. by destruct (decide (pos q s < e)).
        -- intros (_ & _ & Ht). destruct (slot_some _ _ _ HI _ _ _ Es) as (_ & _ & _ & Hid & _).
           assert (Hst : 0 <= (if decide (h1 t = s) then 0 else 1) < 2) by (destruct (decide (h1 t = s)); lia).
           rewrite (state_bits _ id' (if decide (h1 t = s) then 0 else 1)) in Ht by (lia || by rewrite Hm1).
           change TOMBSTONE with (3 * 1073741824) in Ht. lia.
      * destruct Hm as (g & Hg & Hm). exists g. split; [done|].
        assert (Hst : 0 <= (if decide (routes m s + leak = 0) then 2 else 3) < 4) by (destruct (decide (routes m s + leak = 0)); lia).
        rewrite (state_bits _ g _ Hm Hg Hst).
        destruct (decide (pos q s < e)) as [Hp|Hp].
        -- specialize (Hc' Hp). rewrite Hc' in *. destruct (decide (routes m s + leak = 0)); [lia|].
           destruct (decide (routes (delete (walk q e) m) s + leak = 0)) as [Hz|Hz].
           ++ rewrite decide_True by done. change EMPTY with (2 * 1073741824).
              by rewrite (set_state_bits _ g 3) by (done || lia).
           ++ by rewrite decide_False by tauto.
        -- rewrite decide_False by tauto. by rewrite Hrt, Z.sub_0_r.
  - destruct delete_filters as [F1 F2 F3 F4 F5]. split; eauto. intros s i t E.
    unfold ID_TO_SOCK. rewrite Hso. by apply (F4 _ _ _ E).
  - rewrite Hne, (i_entries _ _ _ HI). rewrite u32_small; lia.
Qed.

End removal.

(** The slot released last. *)
Lemma release_inv ni m leak id q e : table_inv ni m leak -> 0 <= e < 2 ^ k -> m !! walk q e = Some (id, q) ->
  let ni' := __ci_ip4_netif_filter_remove (h1 q) (h2 q) e ni in
  table_inv ni' (delete (walk q e) m) leak /\ socks ni' = socks ni /\ intf_i_to_hwport ni' = intf_i_to_hwport ni.
Proof.
  intros HI He Em. cbv zeta. unfold __ci_ip4_netif_filter_remove.
  destruct (unroute_spec q (Z.to_nat e) 0 ni (i_mask _ _ _ HI)) as (f & x & ns & E & Hx & Hf & Hns); [lia|lia|].
  rewrite walk_0, Z.add_0_l, Z2Nat.id in * by lia. rewrite E. cbn [fst snd].
  set (ni1 := ni <| table := f |> <| filter_table_ext := x |> <| table_n_slots := ns |>).
  pose proof (walk_range q e) as Hr. specialize (Hns (i_used _ _ _ HI)).
  assert (Hxe : ext_at ni1 (walk q e) = ext_at ni (walk q e)).
  { change (x !!! walk q e = ext_at ni (walk q e)). by rewrite Hx, decide_False by (rewrite ?pos_walk; done || lia). }
  assert (Hfe : fast_at ni1 (walk q e) = fast_at ni (walk q e)).
  { change (f !!! walk q e = fast_at ni (walk q e)). by rewrite Hf, decide_False by (rewrite ?pos_walk; done || lia). }
  assert (Hne : STATE (fast_at ni1 (walk q e)) <> EMPTY).
  { rewrite Hfe. destruct (some_tests _ _ _ HI _ _ _ Em) as (_ & Hne & _). by apply Z.eqb_neq in Hne. }
  change (ext_at (ni1 <| table_n_entries ::= _ |>) (walk q e)) with (ext_at ni1 (walk q e)). rewrite Hxe.
  assert (Hgo : forall g ni', (STATE (g (fast_at ni (walk q e))) = EMPTY <-> route_count (ext_at ni (walk q e)) = 0) ->
    g (fast_at ni (walk q e)) = set_entry_state (if decide (route_count (ext_at ni (walk q e)) = 0) then EMPTY else TOMBSTONE) (fast_at ni (walk q e)) ->
    ni' = fast_upd (walk q e) g (ni1 <| table_n_entries ::= fun c => u32 (c - 1) |>
      <| table_n_slots := if decide (route_count (ext_at ni (walk q e)) = 0) then u32 (ns - 1) else ns |>) ->
    table_inv ni' (delete (walk q e) m) leak /\ socks ni' = socks ni /\ intf_i_to_hwport ni' = intf_i_to_hwport ni).
  { intros g ni' Hg Hge ->. split; [|done]. apply (remove_inv ni m leak HI id q e He Em); try done.
    - apply (i_mask _ _ _ HI).
    - rewrite used_upd by done. change (used (ni1 <| table_n_entries ::= _ |> <| table_n_slots := _ |>)) with (used (ni <| table := f |>)).
      change (fast_at (ni1 <| table_n_entries ::= _ |> <| table_n_slots := _ |>) (walk q e)) with (fast_at ni1 (walk q e)).
      rewrite (decide_True (P := STATE (fast_at ni1 _) <> _)) by done. rewrite <- Hns, Hfe. cbn.
      assert (1 <= ns <= 2 ^ k).
      { rewrite Hns. split; [by apply (used_some (walk q e))|apply used_range]. }
      pose proof size_bound. case_decide as Hz.
      + rewrite decide_False by tauto. rewrite u32_small; lia.
      + rewrite decide_True by tauto. lia.
    - intros s Hs. change (x !!! s = if decide (pos q s < e) then ext_at ni s <| route_count ::= fun c => s32 (c - 1) |> else ext_at ni s).
      rewrite Hx by done. apply decide_ext. pose proof (pos_range q s Hs). lia.
    - intros s Hs Hn. rewrite fast_at_upd, decide_False by done. change (f !!! s = if decide (pos q s < e /\ s32 (route_count (ext_at ni s) - 1) = 0 /\ STATE (fast_at ni s) = TOMBSTONE)
        then set_entry_state EMPTY (fast_at ni s) else fast_at ni s).
      rewrite Hf by done. apply decide_ext. pose proof (pos_range q s Hs). lia.
    - rewrite fast_at_upd, decide_True by done.
      change (fast_at (ni1 <| table_n_entries ::= _ |> <| table_n_slots := _ |>) (walk q e)) with (fast_at ni1 (walk q e)).
      by rewrite Hfe. }
  destruct (_ =? 0) eqn:Ez; [apply Z.eqb_eq in Ez|apply Z.eqb_neq in Ez].
  - apply (Hgo (set_entry_state EMPTY)); rewrite ?(decide_True (P := route_count _ = 0)) by done; [|done|done].
    rewrite set_state_state by (rewrite list_elem_of_In; cbn; auto). done.
  - apply (Hgo (set_entry_state TOMBSTONE)); rewrite ?(decide_False (P := route_count _ = 0)) by done; [|done|done].
    rewrite set_state_state by (rewrite list_elem_of_In; cbn; auto). done.
Qed.

Lemma remove_spec ni m leak id q : table_inv ni m leak -> 0 <= id < 1073741824 ->
  (forall s t, m !! s = Some (id, t) -> t_laddr t = t_laddr q -> t = q) ->
  exists ni', ci_netif_filter_remove ni id (t_laddr q) (t_lport q) (t_raddr q) (t_rport q) (t_protocol q) = Some ni' /\
    socks ni' = socks ni /\ intf_i_to_hwport ni' = intf_i_to_hwport ni /\
    (((forall s, m !! s <> Some (id, q)) /\ ni' = ni) \/
     exists s, m !! s = Some (id, q) /\ table_inv ni' (delete s m) leak).
Proof.
  intros HI Hid Hsame. pose proof size_pos as Hp.
  unfold ci_netif_filter_remove, ci_ip4_netif_filter_remove. rewrite (i_mask _ _ _ HI). fold (h1 q) (h2 q).
  destruct (stops_exists (fun s => mine ni q id s || emp ni s) q 0) as [e Hs]; [lia|].
  pose proof (find_loop_stops ni (i_mask _ _ _ HI) q id e 0 (table_fuel ni) Hs) as E. rewrite walk_0 in E.
  rewrite E; [clear E|lia|by apply (table_fuel_eq _ _ _ HI)|].
  2:{ intros s Ho. destruct (emp ni s) eqn:Ee; [|done]. rewrite (emp_not_occ ni s Ee) in Ho. done. }
  cbn [mbind option_bind]. destruct Hs as (He & Hb & Hs).
  assert (Hmiss : (forall j, 0 <= j < 2 ^ k -> j <= e -> mine ni q id (walk q j) = false) -> forall s, m !! s <> Some (id, q)).
  { intros Hno s E. destruct (slot_some _ _ _ HI _ _ _ E) as (_ & _ & Hr & _). pose proof (pos_range q s Hr) as Hps.
    destruct (decide (pos q s <= e)) as [Hle|Hle].
    - specialize (Hno (pos q s) Hps Hle). rewrite walk_pos in Hno by done.
      rewrite (proj2 (mine_iff ni m leak id q s HI Hid Hr)) in Hno by eauto. done.
    - assert (Hst : mine ni q id (walk q e) || emp ni (walk q e) = true) by (apply Hs; lia).
      rewrite (Hno e), (stored_reached _ _ _ HI s id q e E) in Hst by lia. done. }
  assert (Hb' : forall j, 0 <= j < e -> mine ni q id (walk q j) = false).
  { intros j Hj. specialize (Hb j Hj). cbv beta in Hb. by apply orb_false_iff in Hb as [-> _]. }
  destruct (e =? 2 ^ k) eqn:Ee; [apply Z.eqb_eq in Ee|apply Z.eqb_neq in Ee].
  - exists ni. split_and!; try done. left. split; [|done]. apply Hmiss. intros. apply Hb'. lia.
  - destruct (mine ni q id (walk q e)) eqn:Eh.
    + apply (mine_iff ni m leak) in Eh as (t & Em & El); [|done|done|apply walk_range].
      rewrite (Hsame _ _ Em El) in Em.
      destruct (release_inv ni m leak id q e HI ltac:(lia) Em) as (Hinv & Hso & Hhw).
      eexists. split; [reflexivity|]. split; [done|]. split; [done|]. right. by exists (walk q e).
    + exists ni. split_and!; try done. left. split; [|done]. apply Hmiss.
      intros j Hj Hle. destruct (decide (j = e)) as [->|]; [done|]. apply Hb'. lia.
Qed.

(** ** Initialisation *)

Lemma init_loop_spec n i ni :
  let ni' := init_loop n i ni in
  (forall s, i <= s < i + Z.of_nat n -> STATE (fast_at ni' s) = EMPTY /\ 0 <= __id_and_state (fast_at ni' s) < 4294967296 /\
     ext_at ni' s = mk_ext 0 0) /\
  (forall s, ~ (i <= s < i + Z.of_nat n) -> fast_at ni' s = fast_at ni s /\ ext_at ni' s = ext_at ni s) /\
  table_size_mask ni' = table_size_mask ni /\ socks ni' = socks ni /\ intf_i_to_hwport ni' = intf_i_to_hwport ni /\
  table_n_entries ni' = table_n_entries ni /\ table_n_slots ni' = table_n_slots ni.
Proof.
  cbv zeta. revert i ni. induction n as [|n IH]; intros i ni; cbn [init_loop]; [split_and!; done || lia|].
  set (ni1 := fast_upd i (fun e => e <| fast_laddr := 0 |>) _).
  destruct (IH (i + 1) ni1) as (H1 & H2 & H3 & H4 & H5 & H6 & H7).
  assert (Hf : forall s, fast_at ni1 s = if decide (i = s) then set_entry_state EMPTY (fast_at ni s) <| fast_laddr := 0 |> else fast_at ni s).
  { intros s. unfold ni1. rewrite fast_at_upd. change (fast_at (ext_upd _ _ (ext_upd _ _ ?n)) s) with (fast_at n s).
    rewrite fast_at_upd. by case_decide. }
  assert (He : forall s, ext_at ni1 s = if decide (i = s) then mk_ext 0 0 else ext_at ni s).
  { intros s. unfold ni1. change (ext_at (fast_upd _ _ ?n) s) with (ext_at n s). rewrite !ext_at_upd.
    change (ext_at (fast_upd _ _ ?n) s) with (ext_at n s). by case_decide. }
  split; [|split; [|by rewrite H3, H4, H5, H6, H7]].
  - intros s Hs. destruct (decide (s = i)) as [->|]; [|apply H1; lia].
    destruct (H2 i) as [-> ->]; [lia|]. rewrite Hf, He, !decide_True by done. split; [|split; [|done]].
    + change (STATE (set_entry_state EMPTY (fast_at ni i)) = EMPTY).
      apply set_state_state. rewrite list_elem_of_In. cbn. auto.
    + unfold set_entry_state. cbn. unfold __ID. rewrite Z.lor_comm. change EMPTY with (Z.shiftl 2 30).
      pose proof (land_mask_range (__id_and_state (fast_at ni i)) 30 ltac:(lia)).
      rewrite lor_shiftl_add by (done || lia). change FILTER_TABLE_ID_MASK with (2 ^ 30 - 1). lia.
  - intros s Hs. destruct (H2 s) as [-> ->]; [lia|]. rewrite Hf, He, !decide_False by lia. done.
Qed.

(** A table of zeroed statistics is ready after [ci_netif_filter_init], whatever
    its memory held. *)
Lemma init_inv ni : table_n_entries ni = 0 -> table_n_slots ni = 0 ->
  table_inv (ci_netif_filter_init k ni) ∅ 0 /\ socks (ci_netif_filter_init k ni) = socks ni /\
  intf_i_to_hwport (ci_netif_filter_init k ni) = intf_i_to_hwport ni.
Proof.
  intros He Hs. pose proof size_bound as Hb. unfold ci_netif_filter_init.
  rewrite Z.shiftl_1_l, (u32_small (2 ^ k)), u32_small by lia.
  destruct (init_loop_spec (Z.to_nat (2 ^ k)) 0 (ni <| table_size_mask := 2 ^ k - 1 |>)) as (H1 & _ & H3 & H4 & H5 & H6 & H7).
  rewrite Z2Nat.id in H1 by lia. set (ni' := init_loop _ _ _) in *. split; [|done]. split; [done|lia| | | |].
  - intros s Hr. destruct (H1 s Hr) as (E1 & E2 & E3). unfold slot_ok. rewrite lookup_empty, E3.
    split; [done|]. destruct (enc_split _ E2) as (g & st & Ev & Hg & Hst). exists g. split; [done|].
    rewrite decide_True by done. rewrite (state_bits _ g st Ev Hg Hst) in E1. rewrite Ev.
    change EMPTY with (2 * 1073741824) in E1. f_equal. lia.
  - by split; intros *; rewrite lookup_empty.
  - rewrite H6, map_size_empty. exact He.
  - rewrite H7. cbn. rewrite Hs. symmetry. apply used_none. intros s Hr. by destruct (H1 s Hr).
Qed.

End table.
