(* ===== verification/NetifTableSystem.v ===== *)
(** The software filter table as a system: whatever filters are inserted, removed
    and looked up, the table of file NetifTable answers as a map from sockets and
    local addresses to tuples would.  Also the claims of hash.h. *)

From stdpp Require Import base gmap list list_numbers.
From S2P Require Import Prelude OnloadHash NetifTable NetifTableInv.

Open Scope Z_scope.

(** * The interface as events *)

(** [SetSock] is the rest of the stack giving a socket its addresses. *)
Inductive fevent :=
| SetSock (id : Z) (s : ci_sock_cmn)
| Insert (id : Z) (q : tuple)
| Remove (id : Z) (q : tuple)
| Lookup (q : tuple)
| LookupWild (q : tuple)
| Listener (laddr lport : Z)
| ForEach (q : tuple) (intf_i vlan : Z) (hash_out : bool).

Inductive fout :=
| ODone
| ORc (rc : Z)
| OSock (sp : Z)
| OFound (s : option Z)
| OMatch (rc : Z) (hash : option Z).

#[global] Instance fout_eq_dec : EqDecision fout.
Proof. solve_decision. Defined.

Section system.
Context {W : Type} (callback : Z -> W -> Z * W).

Definition fstep (ev : fevent) (ni : ci_netif) (w : W) : option (ci_netif * W * fout) :=
  match ev with
  | SetSock id s => Some (ni <| socks ::= <[id := s]> |>, w, ODone)
  | Insert id q =>
    '(ni, rc) ← ci_netif_filter_insert ni id (t_laddr q) (t_lport q) (t_raddr q) (t_rport q) (t_protocol q);
    Some (ni, w, ORc rc)
  | Remove id q =>
    ni ← ci_netif_filter_remove ni id (t_laddr q) (t_lport q) (t_raddr q) (t_rport q) (t_protocol q);
    Some (ni, w, ODone)
  | Lookup q =>
    sp ← ci_netif_filter_lookup ni (t_laddr q) (t_lport q) (t_raddr q) (t_rport q) (t_protocol q);
    Some (ni, w, OSock sp)
  | LookupWild q =>
    s ← __ci_netif_filter_lookup ni (t_laddr q) (t_lport q) (t_raddr q) (t_rport q) (t_protocol q);
    Some (ni, w, OFound s)
  | Listener laddr lport =>
    sp ← ci_netif_listener_lookup ni laddr lport;
    Some (ni, w, OSock sp)
  | ForEach q intf_i vlan hash_out =>
    '(rc, w, h) ← ci_netif_filter_for_each_match callback ni (t_laddr q) (t_lport q) (t_raddr q) (t_rport q)
      (t_protocol q) intf_i vlan hash_out w;
    Some (ni, w, OMatch rc h)
  end.

Fixpoint frun (evs : list fevent) (ni : ci_netif) (w : W) : option (ci_netif * W * list fout) :=
  match evs with
  | [] => Some (ni, w, [])
  | ev :: evs =>
    '(ni, w, o) ← fstep ev ni w;
    '(ni, w, os) ← frun evs ni w;
    Some (ni, w, o :: os)
  end.

(** * The abstract table *)

(** The tuple of each socket and local address, and the sockets. *)
Record fspec := mk_fspec { filters : gmap (Z * Z) tuple; sockets : Z -> ci_sock_cmn }.

Definition set_sock (id : Z) (f : ci_sock_cmn -> ci_sock_cmn) (S : Z -> ci_sock_cmn) (i : Z) : ci_sock_cmn :=
  if decide (i = id) then f (S i) else S i.

(** A table of [2^k] slots takes [2^k] filters. *)
Definition anext (k : Z) (ev : fevent) (a : fspec) : fspec :=
  match ev with
  | SetSock id s => mk_fspec (filters a) (set_sock id (fun _ => s) (sockets a))
  | Insert id q =>
    if Z.of_nat (size (filters a)) <? 2 ^ k then mk_fspec (<[(id, t_laddr q) := q]> (filters a)) (sockets a)
    else mk_fspec (filters a) (set_sock id flag_full (sockets a))
  | Remove id q => mk_fspec (delete (id, t_laddr q) (filters a)) (sockets a)
  | _ => a
  end.

Definition arun (k : Z) (evs : list fevent) (a : fspec) : fspec := foldl (fun a ev => anext k ev a) a evs.

(** The rules of the interface: a socket keeps the remote end of its filters; it
    has one filter for each local address; a filter removed twice is gone. *)
Definition allowed (ev : fevent) (a : fspec) : Prop :=
  match ev with
  | SetSock id s => forall la t, filters a !! (id, la) = Some t -> agrees s t
  | Insert id q =>
    tuple_ok q /\ 0 <= id < 1073741824 /\ agrees (sockets a id) q /\ filters a !! (id, t_laddr q) = None
  | Remove id q => 0 <= id < 1073741824 /\ forall t, filters a !! (id, t_laddr q) = Some t -> t = q
  | Lookup q | LookupWild q | ForEach q _ _ _ => tuple_ok q
  | Listener laddr lport => u32_ok laddr /\ u16_ok lport
  end.

Fixpoint all_allowed (k : Z) (evs : list fevent) (a : fspec) : Prop :=
  match evs with
  | [] => True
  | ev :: evs => allowed ev a /\ all_allowed k evs (anext k ev a)
  end.

Definition has (a : fspec) (id : Z) (q : tuple) : Prop := filters a !! (id, t_laddr q) = Some q.

(** A socket bound to a device takes packets of its ports and VLAN only. *)
Definition accepts (hw : gmap Z Z) (s : ci_sock_cmn) (intf_i vlan : Z) : Prop :=
  rx_bind2dev_ifindex s = 0 \/
  (Z.testbit (rx_bind2dev_hwports s) (hw !!! intf_i) = true /\ rx_bind2dev_vlan s = vlan).

Definition wild (q : tuple) : tuple := mk_tuple (t_laddr q) (t_lport q) 0 0 (t_protocol q).

(** A socket of [q] if there is one. *)
Definition finds (a : fspec) (q : tuple) (sp : Z) : Prop :=
  (has a sp q) \/ (sp = -1 /\ forall id, ~ has a id q).

(** What each call must answer. *)
Definition answers (k : Z) (hw : gmap Z Z) (a : fspec) (ev : fevent) (w : W) (o : fout) (w' : W) : Prop :=
  match ev with
  | SetSock _ _ | Remove _ _ => o = ODone /\ w' = w
  | Insert _ _ =>
    w' = w /\ o = ORc (if Z.of_nat (size (filters a)) <? 2 ^ k then 0 else - ENOBUFS)
  | Lookup q => w' = w /\ exists sp, o = OSock sp /\ finds a q sp
  | LookupWild q =>
    w' = w /\ exists s, o = OFound s /\
      match s with
      | Some id => has a id q \/ ((forall i, ~ has a i q) /\ has a id (wild q))
      | None => forall i, ~ has a i q /\ ~ has a i (wild q)
      end
  | Listener laddr lport =>
    w' = w /\ exists sp, o = OSock sp /\
      (has a sp (mk_tuple laddr lport 0 0 6) \/
       ((forall i, ~ has a i (mk_tuple laddr lport 0 0 6)) /\ finds a (mk_tuple 0 lport 0 0 6) sp))
  | ForEach q intf_i vlan hash_out =>
    exists L, NoDup L /\ (forall id, id ∈ L <-> has a id q /\ accepts hw (sockets a id) intf_i vlan) /\
      w' = (calls callback L w).2 /\
      o = OMatch (calls callback L w).1 (if hash_out then
        Some (onload_hash3 (t_laddr q) (t_lport q) (t_raddr q) (t_rport q) (t_protocol q)) else None)
  end.

Fixpoint all_answer (k : Z) (hw : gmap Z Z) (a : fspec) (evs : list fevent) (w : W) (os : list fout) (w' : W) : Prop :=
  match evs, os with
  | [], [] => w' = w
  | ev :: evs, o :: os => exists w1, answers k hw a ev w o w1 /\ all_answer k hw (anext k ev a) evs w1 os w'
  | _, _ => False
  end.

(** Insertions refused. *)
Definition refused (os : list fout) : Z := Z.of_nat (length (filter (fun o => o = ORc (- ENOBUFS)) os)).

(** * Refinement *)

Section refinement.
Context (k : Z) (Hk : 16 <= k <= 30) (hw : gmap Z Z) (Hhw : forall i, 0 <= hw !!! i < 64).

Record refines (ni : ci_netif) (m : gmap Z (Z * tuple)) (leak : Z) (a : fspec) : Prop := {
  r_inv : table_inv k ni m leak;
  r_map id la t : filters a !! (id, la) = Some t <-> la = t_laddr t /\ exists s, m !! s = Some (id, t);
  r_size : size (filters a) = size m;
  r_socks i : ID_TO_SOCK ni i = sockets a i;
  r_hw : intf_i_to_hwport ni = hw }.

Section step.
Context (ni : ci_netif) (m : gmap Z (Z * tuple)) (leak : Z) (a : fspec) (HR : refines ni m leak a).

Lemma has_iff id q : has a id q <-> exists s, m !! s = Some (id, q).
Proof. unfold has. rewrite (r_map _ _ _ _ HR). tauto. Qed.

Lemma takes_iff id intf_i vlan : takes ni intf_i vlan id = true <-> accepts hw (sockets a id) intf_i vlan.
Proof.
  unfold takes, accepts, ci_sock_intf_check. rewrite (r_socks _ _ _ _ HR), (r_hw _ _ _ _ HR).
  pose proof (Hhw intf_i) as Hh. rewrite Z.shiftl_1_l, u64_small.
  - rewrite nz_land_pow2 by lia. rewrite orb_true_iff, andb_true_iff, !Z.eqb_eq. done.
  - pose proof (Z.pow_lt_mono_r 2 (hw !!! intf_i) 64). pose proof (pow2_pos (hw !!! intf_i)).
    change 18446744073709551616 with (2 ^ 64). lia.
Qed.

(** [ci_ip4_netif_filter_lookup] and the socket it leads to. *)
Lemma lookup_finds q : tuple_ok q ->
  exists rc, ci_ip4_netif_filter_lookup ni (t_laddr q) (t_lport q) (t_raddr q) (t_rport q) (t_protocol q) = Some rc /\
  ((0 <= rc /\ has a (ID (fast_at ni rc)) q) \/ (rc < 0 /\ forall id, ~ has a id q)).
Proof.
  intros Hq. destruct (lookup_spec k Hk ni m leak (r_inv _ _ _ _ HR) q Hq)
    as [(s & id & Em & E)|(Hn & rc & Hrc & _ & E)].
  - exists s. split; [done|]. left. destruct (some_tests k _ _ _ (r_inv _ _ _ _ HR) _ _ _ Em) as (_ & _ & -> & _).
    destruct (slot_some k _ _ _ (r_inv _ _ _ _ HR) _ _ _ Em) as (_ & _ & Hs & _).
    split; [lia|]. apply has_iff. eauto.
  - exists rc. split; [done|]. right. split; [destruct Hrc as [-> | ->]; done|].
    intros id [s Es]%has_iff. by apply (Hn s id).
Qed.

Lemma filter_lookup_finds q : tuple_ok q -> exists sp,
  ci_netif_filter_lookup ni (t_laddr q) (t_lport q) (t_raddr q) (t_rport q) (t_protocol q) = Some sp /\ finds a q sp.
Proof.
  intros Hq. destruct (lookup_finds q Hq) as (rc & E & H). unfold ci_netif_filter_lookup. rewrite E. cbn.
  eexists. split; [done|]. destruct H as [[Hp Hh]|[Hneg Hn]].
  - rewrite (proj2 (Z.leb_le 0 rc)) by lia. by left.
  - rewrite (proj2 (Z.leb_gt 0 rc)) by lia. by right.
Qed.

Lemma has_nonneg id q : has a id q -> 0 <= id.
Proof.
  intros [s Es]%has_iff. destruct (slot_some k _ _ _ (r_inv _ _ _ _ HR) _ _ _ Es) as (_ & _ & _ & ? & _). lia.
Qed.

Lemma step_lookups ev w :
  match ev with Lookup _ | LookupWild _ | Listener _ _ | ForEach _ _ _ _ => True | _ => False end ->
  allowed ev a -> exists w' o, fstep ev ni w = Some (ni, w', o) /\ answers k hw a ev w o w' /\ refused [o] = 0.
Proof.
  destruct ev as [| | |q|q|la lp|q intf_i vlan ho]; intros Hev Hal; try done; cbn [allowed] in Hal; unfold fstep.
  - destruct (filter_lookup_finds q Hal) as (sp & E & Hf). rewrite E. exists w, (OSock sp).
    split; [done|]. split; [|done]. split; [done|]. by exists sp.
  - destruct (lookup_finds q Hal) as (rc & E & H).
    assert (Hwok : tuple_ok (wild q)) by (unfold tuple_ok, u32_ok, u16_ok in *; cbn; lia).
    destruct (lookup_finds (wild q) Hwok) as (rc2 & E2 & H2). cbn in E2.
    unfold __ci_netif_filter_lookup, __ci_ip4_netif_filter_lookup. rewrite E. cbn [mbind option_bind].
    destruct H as [[Hp Hh]|[Hneg Hn]].
    { rewrite (proj2 (Z.leb_le 0 rc)) by lia. cbn. rewrite (proj2 (Z.leb_le 0 rc)) by lia.
      eexists w, _. split; [done|]. split; [|done]. split; [done|]. eexists. split; [done|]. by left. }
    rewrite (proj2 (Z.leb_gt 0 rc)) by lia. rewrite E2. cbn [mbind option_bind].
    destruct H2 as [[Hp2 Hh2]|[Hneg2 Hn2]].
    + rewrite (proj2 (Z.leb_le 0 rc2)) by lia. cbn. rewrite (proj2 (Z.leb_le 0 rc2)) by lia.
      eexists w, _. split; [done|]. split; [|done]. split; [done|]. eexists. split; [done|]. by right.
    + rewrite (proj2 (Z.leb_gt 0 rc2)) by lia. cbn.
      eexists w, _. split; [done|]. split; [|done]. split; [done|]. eexists. split; [done|]. intros i. split; [apply Hn|apply Hn2].
  - destruct Hal as [H1 H2].
    destruct (filter_lookup_finds (mk_tuple la lp 0 0 6)) as (sp & E & Hf); [unfold tuple_ok, u32_ok, u16_ok in *; cbn; lia|].
    destruct (filter_lookup_finds (mk_tuple 0 lp 0 0 6)) as (sp2 & E2 & Hf2); [unfold tuple_ok, u32_ok, u16_ok in *; cbn; lia|].
    cbn in E, E2. unfold ci_netif_listener_lookup, IPPROTO_TCP. rewrite E. cbn [mbind option_bind].
    destruct Hf as [Hh|[-> Hn]].
    + pose proof (has_nonneg _ _ Hh). rewrite (proj2 (Z.eqb_neq sp OO_SP_NULL)) by (unfold OO_SP_NULL; lia).
      exists w, (OSock sp). split; [done|]. split; [|done]. split; [done|]. exists sp. split; [done|]. by left.
    + cbn [Z.eqb]. rewrite E2. exists w, (OSock sp2). split; [done|]. split; [|done]. split; [done|].
      exists sp2. split; [done|]. right. done.
  - destruct (for_each_spec k Hk ni m leak (r_inv _ _ _ _ HR) q Hal callback intf_i vlan ho w) as (L & HL & Hin & E).
    rewrite E. cbn [mbind option_bind]. destruct (calls callback L w) as [rc w'] eqn:Ec.
    eexists w', _. split; [reflexivity|]. split; [|done]. exists L. rewrite Ec. split_and!; [done| |done|done].
    intros id. rewrite Hin, <- has_iff, takes_iff. done.
Qed.

End step.

Lemma refines_set_sock ni m leak a id s : refines ni m leak a ->
  (forall la t, filters a !! (id, la) = Some t -> agrees s t) ->
  refines (ni <| socks ::= <[id := s]> |>) m leak (anext k (SetSock id s) a).
Proof.
  intros HR Hs. pose proof (r_inv _ _ _ _ HR) as HI.
  assert (Hso : forall i, ID_TO_SOCK (ni <| socks ::= <[id := s]> |>) i = if decide (i = id) then s else ID_TO_SOCK ni i).
  { intros i. unfold ID_TO_SOCK. cbn. case_decide; [subst; by rewrite lookup_total_insert_eq|by rewrite lookup_total_insert_ne]. }
  split; [|apply HR|apply HR| |apply HR].
  - destruct HI as [I1 I2 I3 [F1 F2 F3 F4 F5] I5 I6]. split; try done. split; eauto.
    intros x i t E. rewrite Hso. case_decide; [subst i|eauto]. apply (Hs (t_laddr t)).
    apply (r_map _ _ _ _ HR). eauto.
  - intros i. rewrite Hso. cbn. unfold set_sock. by rewrite (r_socks _ _ _ _ HR).
Qed.

Lemma refines_insert ni m leak a id q : refines ni m leak a -> leak + 1 < 1073741824 -> allowed (Insert id q) a ->
  exists ni' rc m', ci_netif_filter_insert ni id (t_laddr q) (t_lport q) (t_raddr q) (t_rport q) (t_protocol q) =
      Some (ni', rc) /\
    rc = (if Z.of_nat (size (filters a)) <? 2 ^ k then 0 else - ENOBUFS) /\
    refines ni' m' (leak + refused [ORc rc]) (anext k (Insert id q) a).
Proof.
  intros HR Hl (Hq & Hid & Hag & Hnone).
  assert (Hfresh : forall s t, m !! s = Some (id, t) -> t_laddr t <> t_laddr q).
  { intros s t E El. assert (Hc : filters a !! (id, t_laddr q) = Some t) by (apply (r_map _ _ _ _ HR); eauto). congruence. }
  destruct (insert_spec k Hk ni m leak id q (r_inv _ _ _ _ HR) Hl Hq Hid) as (ni' & rc & E & Eh & Hcase);
    [by rewrite (r_socks _ _ _ _ HR)|done|].
  cbn [anext]. rewrite (r_size _ _ _ _ HR). destruct Hcase as [(-> & Hsz & Hso & s & Hs & HI')|(-> & Hsz & HI' & Hso)].
  - exists ni', 0, (<[s := (id, q)]> m). rewrite (proj2 (Z.ltb_lt _ _) Hsz). split; [done|]. split; [done|].
    change (refused [ORc 0]) with 0. rewrite Z.add_0_r. split; cbn [filters sockets]; [done| | | |].
    + intros i la t. rewrite lookup_insert_Some, (r_map _ _ _ _ HR). split.
      * intros [[[= <- <-] <-]|[Hne [-> [s' E']]]]; [split; [done|]; exists s; by rewrite lookup_insert_eq|].
        split; [done|]. exists s'. rewrite lookup_insert_ne; [done|]. congruence.
      * intros [-> [s' E']]. apply lookup_insert_Some in E' as [[<- [= <- <-]]|[Hn E']]; [by left|].
        right. split; [|eauto]. intros [= <- El]. by destruct (Hfresh _ _ E').
    + by rewrite !map_size_insert_None, (r_size _ _ _ _ HR).
    + intros i. unfold ID_TO_SOCK. rewrite Hso. apply (r_socks _ _ _ _ HR).
    + rewrite Eh. apply (r_hw _ _ _ _ HR).
  - exists ni', (- ENOBUFS), m. rewrite (proj2 (Z.ltb_ge _ _)) by lia. split; [done|]. split; [done|].
    change (refused [ORc (- ENOBUFS)]) with 1. split; cbn [filters sockets]; [done|apply HR|apply HR| |].
    + intros i. rewrite Hso. unfold set_sock. by rewrite (r_socks _ _ _ _ HR).
    + rewrite Eh. apply (r_hw _ _ _ _ HR).
Qed.

Lemma refines_remove ni m leak a id q : refines ni m leak a -> allowed (Remove id q) a ->
  exists ni' m', ci_netif_filter_remove ni id (t_laddr q) (t_lport q) (t_raddr q) (t_rport q) (t_protocol q) = Some ni' /\
    refines ni' m' leak (anext k (Remove id q) a).
Proof.
  intros HR (Hid & Hsame).
  destruct (remove_spec k Hk ni m leak id q (r_inv _ _ _ _ HR) Hid) as (ni' & E & Hso & Hh & Hcase).
  { intros s t Es El. apply Hsame. rewrite (r_map _ _ _ _ HR). split; [done|]. eauto. }
  exists ni'. destruct Hcase as [[Hn ->]|(s & Es & HI')].
  - exists m. split; [done|]. cbn [anext]. rewrite delete_id; [by destruct a|].
    apply eq_None_not_Some. intros [t Ht]. rewrite (Hsame t Ht) in Ht. apply (r_map _ _ _ _ HR) in Ht as [_ [s Es]].
    by apply (Hn s).
  - assert (Hf : filters a !! (id, t_laddr q) = Some q) by (apply (r_map _ _ _ _ HR); eauto).
    exists (delete s m). split; [done|]. cbn [anext]. split; cbn [filters sockets]; [done| | | |].
    + intros i la t. rewrite lookup_delete_Some, (r_map _ _ _ _ HR). split.
      * intros [Hne [-> [s' E']]]. split; [done|]. exists s'. rewrite lookup_delete_ne; [done|].
        intros <-. rewrite Es in E'. injection E' as <- <-. done.
      * intros [-> [s' E']]. apply lookup_delete_Some in E' as [Hn E']. split; [|eauto].
        intros [= <- El]. apply Hn. apply (f_uniq k _ _ (i_filters k _ _ _ (r_inv _ _ _ _ HR)) _ _ _ _ _ Es E' El).
    + rewrite !map_size_delete_Some by eauto. by rewrite (r_size _ _ _ _ HR).
    + intros i. unfold ID_TO_SOCK. rewrite Hso. apply (r_socks _ _ _ _ HR).
    + rewrite Hh. apply (r_hw _ _ _ _ HR).
Qed.

Lemma step_refines ni m leak a ev w : refines ni m leak a -> leak + 1 < 1073741824 -> allowed ev a ->
  exists ni' w' o m', fstep ev ni w = Some (ni', w', o) /\ answers k hw a ev w o w' /\
    refines ni' m' (leak + refused [o]) (anext k ev a).
Proof.
  intros HR Hl Hal. destruct ev as [id s|id q|id q|q|q|la lp|q intf_i vlan ho].
  - exists (ni <| socks ::= <[id := s]> |>), w, ODone, m. split; [done|]. split; [done|].
    rewrite Z.add_0_r. by apply refines_set_sock.
  - destruct (refines_insert ni m leak a id q HR Hl Hal) as (ni' & rc & m' & E & Hrc & HR').
    exists ni', w, (ORc rc), m'. cbn [fstep]. rewrite E. split; [done|]. split; [|done]. by rewrite Hrc.
  - destruct (refines_remove ni m leak a id q HR Hal) as (ni' & m' & E & HR').
    exists ni', w, ODone, m'. cbn [fstep]. rewrite E. split; [done|]. split; [done|]. by rewrite Z.add_0_r.
  - destruct (step_lookups ni m leak a HR (Lookup q) w I Hal) as (w' & o & E & Ha & Hz).
    exists ni, w', o, m. rewrite Hz, Z.add_0_r. done.
  - destruct (step_lookups ni m leak a HR (LookupWild q) w I Hal) as (w' & o & E & Ha & Hz).
    exists ni, w', o, m. rewrite Hz, Z.add_0_r. done.
  - destruct (step_lookups ni m leak a HR (Listener la lp) w I Hal) as (w' & o & E & Ha & Hz).
    exists ni, w', o, m. rewrite Hz, Z.add_0_r. done.
  - destruct (step_lookups ni m leak a HR (ForEach q intf_i vlan ho) w I Hal) as (w' & o & E & Ha & Hz).
    exists ni, w', o, m. rewrite Hz, Z.add_0_r. done.
Qed.

Lemma refused_cons o os : refused (o :: os) = refused [o] + refused os.
Proof. unfold refused. rewrite !filter_cons. case_decide; cbn; lia. Qed.

Lemma refused_range o : 0 <= refused [o] <= 1.
Proof. unfold refused. rewrite filter_cons. case_decide; cbn; lia. Qed.

Lemma run_refines evs ni m leak a w : refines ni m leak a -> leak + Z.of_nat (length evs) < 1073741824 ->
  all_allowed k evs a ->
  exists ni' w' os m', frun evs ni w = Some (ni', w', os) /\ all_answer k hw a evs w os w' /\
    refines ni' m' (leak + refused os) (arun k evs a).
Proof.
  revert ni m leak a w. induction evs as [|ev evs IH]; intros ni m leak a w HR Hl Hal.
  - exists ni, w, [], m. change (refused []) with 0. by rewrite Z.add_0_r.
  - destruct Hal as [Hev Hal]. cbn [length] in Hl.
    destruct (step_refines ni m leak a ev w HR ltac:(lia) Hev) as (ni1 & w1 & o & m1 & E & Ha & HR1).
    pose proof (refused_range o).
    destruct (IH ni1 m1 (leak + refused [o]) (anext k ev a) w1 HR1 ltac:(lia) Hal) as (ni' & w' & os & m' & E' & Ha' & HR').
    exists ni', w', (o :: os), m'. cbn [frun]. rewrite E. cbn [mbind option_bind]. rewrite E'. split; [done|].
    split; [by exists w1|]. rewrite refused_cons. by replace (leak + (refused [o] + refused os)) with (leak + refused [o] + refused os) by lia.
Qed.

Lemma init_refines ni : table_n_entries ni = 0 -> table_n_slots ni = 0 -> intf_i_to_hwport ni = hw ->
  refines (ci_netif_filter_init k ni) ∅ 0 (mk_fspec ∅ (ID_TO_SOCK ni)).
Proof.
  intros H1 H2 H3. destruct (init_inv k Hk ni H1 H2) as (HI & Hso & Hh). split; [done| |done| |by rewrite Hh].
  - intros id la t. cbn. rewrite lookup_empty. split; [done|]. intros [_ [s E]]. by rewrite lookup_empty in E.
  - intros i. unfold ID_TO_SOCK. by rewrite Hso.
Qed.

End refinement.
End system.

(** C5: The software filter table is a map.  From initialisation on, whatever the
    memory held and whatever allowed calls follow, no walk runs forever; an
    insertion fails exactly when all slots are taken; a lookup finds a socket of
    the tuple exactly when there is one, with or without the remote end and for
    listeners; and a packet is offered to every socket of its tuple that accepts
    its interface, once each until a callback claims it, although the fast path
    does not compare the local port. *)
Theorem filter_table_refines {W} (callback : Z -> W -> Z * W) k ni evs w :
  16 <= k <= 30 -> table_n_entries ni = 0 -> table_n_slots ni = 0 ->
  (forall i, 0 <= intf_i_to_hwport ni !!! i < 64) -> Z.of_nat (length evs) < 1073741824 ->
  all_allowed k evs (mk_fspec ∅ (ID_TO_SOCK ni)) ->
  exists ni' w' os, frun callback evs (ci_netif_filter_init k ni) w = Some (ni', w', os) /\
    all_answer callback k (intf_i_to_hwport ni) (mk_fspec ∅ (ID_TO_SOCK ni)) evs w os w' /\
    table_n_entries ni' = Z.of_nat (size (filters (arun k evs (mk_fspec ∅ (ID_TO_SOCK ni))))).
Proof.
  intros Hk H1 H2 Hhw Hl Hal.
  destruct (run_refines callback k Hk _ Hhw evs _ _ 0 _ w (init_refines k Hk _ ni H1 H2 eq_refl) ltac:(lia) Hal)
    as (ni' & w' & os & m' & E & Ha & HR).
  exists ni', w', os. split; [done|]. split; [done|].
  by rewrite (i_entries _ _ _ _ (r_inv _ _ _ _ _ _ HR)), (r_size _ _ _ _ _ _ HR).
Qed.

(** C38: Tombstones go when the filters do, but not after a failed insertion.  If no
    insertion was refused and all filters are gone, every slot is empty again.  An
    insertion refused because the table is full is counted at every slot it tried
    and never taken off again, so from then on no slot is ever empty, and every
    lookup that finds nothing walks the whole table and ends in the error [-ELOOP]
    instead of [-ENOENT], even with an empty table. *)
Theorem filter_table_refused_insert_clogs {W} (callback : Z -> W -> Z * W) k ni evs w :
  16 <= k <= 30 -> table_n_entries ni = 0 -> table_n_slots ni = 0 ->
  (forall i, 0 <= intf_i_to_hwport ni !!! i < 64) -> Z.of_nat (length evs) < 1073741824 ->
  all_allowed k evs (mk_fspec ∅ (ID_TO_SOCK ni)) ->
  let a := arun k evs (mk_fspec ∅ (ID_TO_SOCK ni)) in
  exists ni' w' os, frun callback evs (ci_netif_filter_init k ni) w = Some (ni', w', os) /\
    (refused os = 0 -> filters a = ∅ ->
       table_n_slots ni' = 0 /\ forall s, 0 <= s < 2 ^ k -> STATE (fast_at ni' s) = EMPTY) /\
    (0 < refused os ->
       (forall s, 0 <= s < 2 ^ k -> STATE (fast_at ni' s) <> EMPTY) /\
       forall q, tuple_ok q -> (forall id, ~ has a id q) ->
         ci_ip4_netif_filter_lookup ni' (t_laddr q) (t_lport q) (t_raddr q) (t_rport q) (t_protocol q) = Some (- ELOOP)).
Proof.
  intros Hk H1 H2 Hhw Hl Hal a.
  destruct (run_refines callback k Hk _ Hhw evs _ _ 0 _ w (init_refines k Hk _ ni H1 H2 eq_refl) ltac:(lia) Hal)
    as (ni' & w' & os & m' & E & Ha & HR). fold a in HR. pose proof (r_inv _ _ _ _ _ _ HR) as HI.
  exists ni', w', os. split; [done|]. rewrite Z.add_0_l in *. split.
  - intros Hz Hempty. pose proof (r_size _ _ _ _ _ _ HR) as Hs. rewrite Hempty, map_size_empty in Hs.
    symmetry in Hs. apply map_size_empty_inv in Hs. subst m'.
    assert (Hst : forall s, 0 <= s < 2 ^ k -> STATE (fast_at ni' s) = EMPTY).
    { intros s Hs. destruct (none_tests _ _ _ _ HI s Hs (lookup_empty s)) as (_ & He & _).
      rewrite routes_empty, Hz in He. by apply Z.eqb_eq in He. }
    split; [|done]. rewrite (i_used _ _ _ _ HI). apply used_none. exact Hst.
  - intros Hp. split.
    + intros s Hs. apply Z.eqb_neq. destruct (m' !! s) as [[id t]|] eqn:Em; [by apply (some_tests _ _ _ _ HI _ _ _ Em)|].
      destruct (none_tests _ _ _ _ HI s Hs Em) as (_ & He & _). unfold emp in He. rewrite He.
      apply bool_decide_eq_false. pose proof (routes_nonneg k m' s). lia.
    + intros q Hq Hno. destruct (lookup_spec k Hk ni' m' _ HI q Hq) as [(s & id & Em & _)|(_ & rc & _ & Hrc & El)].
      * destruct (Hno id). unfold has. apply (r_map _ _ _ _ _ _ HR). eauto.
      * by rewrite El, Hrc.
Qed.

(** * Examples *)

Definition ex_netif : ci_netif := mk_netif 0 ∅ ∅ ∅ {[0 := 0]} 0 0 0 0 0.

Lemma ex_hwports i : 0 <= intf_i_to_hwport ex_netif !!! i < 64.
Proof.
  change (0 <= ({[0 := 0]} : gmap Z Z) !!! i < 64). destruct (decide (i = 0)) as [->|Hn].
  - by rewrite lookup_total_singleton_eq.
  - by rewrite lookup_total_singleton_ne.
Qed.

(** A connected socket gets a packet and is closed. *)
Definition ex_tuple : tuple := mk_tuple 0x0100a8c0 0x5000 0x0200a8c0 0x3930 6.
Definition ex_events : list fevent :=
  [SetSock 5 (mk_sock 0x0200a8c0 0x3930 6 0 0 0 0); Insert 5 ex_tuple; ForEach ex_tuple 0 0 false;
   Remove 5 ex_tuple; Lookup ex_tuple].

Lemma ex_allowed : all_allowed 16 ex_events (mk_fspec ∅ (ID_TO_SOCK ex_netif)).
Proof.
  assert (Ht : tuple_ok ex_tuple) by (unfold tuple_ok, u32_ok, u16_ok; cbn; lia).
  cbn [all_allowed ex_events allowed]. split_and!; try exact Ht; try done.
  intros t E. vm_compute in E. by injection E as <-.
Qed.

Lemma filter_table_refines_witness :
  all_allowed 16 ex_events (mk_fspec ∅ (ID_TO_SOCK ex_netif)) /\
  exists ni' os, frun (fun id w => (0, w ++ [id])) ex_events (ci_netif_filter_init 16 ex_netif) [] = Some (ni', [5], os) /\
    os = [ODone; ORc 0; OMatch 0 None; ODone; OSock (-1)].
Proof.
  split; [exact ex_allowed|].
  destruct (filter_table_refines (fun id w => (0, w ++ [id])) 16 ex_netif ex_events []) as (ni' & w' & os & E & Ha & _);
    [lia|done|done|exact ex_hwports|done|exact ex_allowed|].
  exists ni', os. rewrite E. clear E.
  destruct os as [|o1 [|o2 [|o3 [|o4 [|o5 [|]]]]]]; try (exfalso; cbn in Ha; by decompose record Ha).
  destruct Ha as (w1 & [-> ->] & w2 & [-> ->] & w3 & (L & HL & Hin & -> & ->) & w4 & [-> ->] & w5 & (-> & sp & -> & Hsp) & ->).
  assert (L = [5]) as ->.
  { apply Permutation_singleton_r, NoDup_Permutation; [done|apply NoDup_singleton|]. intros id.
    rewrite Hin, list_elem_of_singleton. unfold has.
    change (filters _) with (<[(5, t_laddr ex_tuple) := ex_tuple]> (∅ : gmap (Z * Z) tuple)).
    rewrite lookup_insert_Some, lookup_empty.
    split; [intros [[[[= <-] _]|[_ [=]]] _]; done|intros ->]. split; [by left|by left]. }
  split; [done|]. repeat f_equal. destruct Hsp as [Hh|[-> _]]; [|done].
  unfold has in Hh. change (filters _) with
    (delete (5, t_laddr ex_tuple) (<[(5, t_laddr ex_tuple) := ex_tuple]> (∅ : gmap (Z * Z) tuple))) in Hh.
  apply lookup_delete_Some in Hh as [Hne Hh].
  by apply lookup_insert_Some in Hh as [[? _]|[_ Hh]]; [|rewrite lookup_empty in Hh].
Defined.

Lemma ex_socks id : agrees (ID_TO_SOCK ex_netif id) (mk_tuple 0 0 0 0 0).
Proof. unfold ID_TO_SOCK. change (socks ex_netif) with (∅ : gmap Z ci_sock_cmn). by rewrite lookup_total_empty. Qed.

(** As many filters as there are slots, and one more. *)
Definition fill (i : Z) (n : nat) : list fevent := (fun j => Insert j (mk_tuple j 0 0 0 0)) <$> seqZ i (Z.of_nat n).

Lemma fill_spec n i a : 0 <= i -> i + Z.of_nat n = 65537 -> Z.of_nat (size (filters a)) = i `min` 65536 ->
  (forall id la, i <= id -> filters a !! (id, la) = None) -> (forall id, agrees (sockets a id) (mk_tuple 0 0 0 0 0)) ->
  all_allowed 16 (fill i n) a /\
  forall callback hw (w : unit) os w', n <> O -> all_answer callback 16 hw a (fill i n) w os w' -> 0 < refused os.
Proof.
  revert i a. induction n as [|n IH]; intros i a Hi Hn Hs Hfree Hag.
  { unfold fill. rewrite seqZ_nil by lia. done. }
  unfold fill. rewrite seqZ_cons by lia. replace (Z.pred (Z.of_nat (S n))) with (Z.of_nat n) by lia.
  cbn [fmap list_fmap all_allowed]. change ((fun j => Insert j (mk_tuple j 0 0 0 0)) <$> seqZ (Z.succ i) (Z.of_nat n))
    with (fill (Z.succ i) n).
  destruct (IH (Z.succ i) (anext 16 (Insert i (mk_tuple i 0 0 0 0)) a)) as [IH1 IH2]; [lia|lia| | | |].
  - cbn [anext]. change (2 ^ 16) with 65536. destruct (Z.ltb_spec (Z.of_nat (size (filters a))) 65536); cbn [filters].
    + rewrite map_size_insert_None by (apply Hfree; lia). lia.
    + lia.
  - intros id la Hid. cbn [anext]. destruct (_ <? _); cbn [filters]; [|apply Hfree; lia].
    rewrite lookup_insert_ne; [apply Hfree; lia|]. intros [=]. lia.
  - intros id. cbn [anext]. destruct (_ <? _); cbn [sockets]; [apply Hag|].
    unfold set_sock. case_decide; [|apply Hag]. apply (Hag id).
  - split.
    + split; [|exact IH1]. cbn [allowed]. split; [unfold tuple_ok, u32_ok, u16_ok; cbn; lia|].
      split; [lia|]. split; [apply (Hag i)|apply Hfree; cbn; lia].
    + intros callback hw w os w' _ Ha. destruct os as [|o os]; [done|]. destruct Ha as (w1 & [_ Ho] & Ha).
      rewrite refused_cons. pose proof (refused_range o). destruct (decide (n = O)) as [->|Hn0].
      * rewrite Ho. change (2 ^ 16) with 65536. rewrite (proj2 (Z.ltb_ge _ _)) by lia.
        change (refused [ORc (- ENOBUFS)]) with 1. unfold refused. lia.
      * pose proof (IH2 callback hw w1 os w' Hn0 Ha). lia.
Qed.

Lemma filter_table_refused_insert_clogs_witness :
  exists ni' os, frun (fun _ (w : unit) => (0, w)) (fill 0 (Z.to_nat 65537)) (ci_netif_filter_init 16 ex_netif) tt =
      Some (ni', tt, os) /\ 0 < refused os /\
    forall s, 0 <= s < 65536 -> STATE (fast_at ni' s) <> EMPTY.
Proof.
  destruct (fill_spec (Z.to_nat 65537) 0 (mk_fspec ∅ (ID_TO_SOCK ex_netif))) as [Hal Hans];
    [lia|lia|done|intros; apply lookup_empty|exact ex_socks|].
  assert (Hlen : Z.of_nat (length (fill 0 (Z.to_nat 65537))) < 1073741824)
    by (unfold fill; rewrite length_fmap, length_seqZ; lia).
  destruct (filter_table_refused_insert_clogs (fun _ w => (0, w)) 16 ex_netif (fill 0 (Z.to_nat 65537)) tt)
    as (ni' & [] & os & E & _ & Hc); [lia|done|done|exact ex_hwports|exact Hlen|exact Hal|].
  assert (Hr : 0 < refused os).
  { destruct (run_refines (fun _ w => (0, w)) 16 ltac:(lia) _ ex_hwports (fill 0 (Z.to_nat 65537)) _ _ 0 _ tt
      (init_refines 16 ltac:(lia) _ ex_netif eq_refl eq_refl eq_refl) ltac:(lia) Hal) as (ni2 & [] & os2 & m2 & E2 & Ha & _).
    rewrite E in E2. injection E2 as <- <-. by apply (Hans _ _ _ _ _ ltac:(lia) Ha). }
  exists ni', os. split; [exact E|]. split; [exact Hr|]. apply (Hc Hr).
Defined.
