(* ===== verification/PrevSeq.v ===== *)
(** The cache of old TCP sequence numbers: the [prev_seq] routines of
    lib/transport/ip/tcp_connect.c and the clock-driven initial sequence numbers
    of include/ci/internal/ip.h, in the build without IPv6.

    A connection closed by this end leaves its peer in TIME_WAIT, where a new
    connection of the same tuple must start beyond its last sequence number.  The
    clock-driven number is used when it is known to be; otherwise the last number
    is kept in a hash table until the clock has caught up.  The table is
    open-addressed with at most 16 probes; [route_count] counts the entries whose
    walk passes through or ends at a slot.  This file holds the definitions;
    files PrevSeqTable and PrevSeqClock have the theorems. *)

From stdpp Require Import base gmap list.
From S2P Require Import Prelude OnloadHash Dllist TimerWheel.

Open Scope Z_scope.

(** * State *)

Record ci_tcp_prev_seq_t := mk_pseq {
  ps_laddr : Z;
  ps_raddr : Z;
  ps_lport : Z;
  ps_rport : Z;
  seq_no : Z;
  expiry : Z;
  ps_route_count : Z }.

(** What these routines use of [ci_netif]; [frc_reads] counts the readings made
    of the cycle counter. *)
Record isn_netif := mk_isn {
  seq_table_entries_n : Z;
  seq_table : gmap Z ci_tcp_prev_seq_t;
  iptimer_state : ci_ip_timer_state;
  tconst_peer2msl_time : Z;
  tcp_isn_offset : Z;
  tcp_isn_mode : Z;
  tcp_isn_include_passive : Z;
  frc_reads : nat;
  tcp_seq_table_avoided : Z;
  tcp_seq_table_short_expiry : Z;
  tcp_seq_table_insertions : Z;
  tcp_seq_table_steps : Z;
  tcp_seq_table_expiries : Z;
  tcp_seq_table_purgations : Z;
  tcp_seq_table_hits : Z }.

(** What they use of [ci_tcp_state]. *)
Record ci_tcp_state := mk_tcp {
  tcp_laddr : Z;
  tcp_raddr : Z;
  tcp_lport_be16 : Z;
  tcp_rport_be16 : Z;
  tcp_enq_nxt : Z;
  tcpflags : Z }.

#[global] Instance pseq_eta : Eta ci_tcp_prev_seq_t.
Proof.
  refine {| eta := fun r => mk_pseq (ps_laddr r) (ps_raddr r) (ps_lport r) (ps_rport r) (seq_no r) (expiry r)
    (ps_route_count r) |}. solve_eta.
Defined.

#[global] Instance isn_eta : Eta isn_netif.
Proof.
  refine {| eta := fun r => mk_isn (seq_table_entries_n r) (seq_table r) (iptimer_state r) (tconst_peer2msl_time r)
    (tcp_isn_offset r) (tcp_isn_mode r) (tcp_isn_include_passive r) (frc_reads r) (tcp_seq_table_avoided r)
    (tcp_seq_table_short_expiry r) (tcp_seq_table_insertions r) (tcp_seq_table_steps r) (tcp_seq_table_expiries r)
    (tcp_seq_table_purgations r) (tcp_seq_table_hits r) |}. solve_eta.
Defined.

#[global] Instance tcp_eta : Eta ci_tcp_state.
Proof.
  refine {| eta := fun r => mk_tcp (tcp_laddr r) (tcp_raddr r) (tcp_lport_be16 r) (tcp_rport_be16 r)
    (tcp_enq_nxt r) (tcpflags r) |}. solve_eta.
Defined.

#[global] Instance pseq_inhabited : Inhabited ci_tcp_prev_seq_t := populate (mk_pseq 0 0 0 0 0 0 0).

(** [&ni->seq_table[i]] and writes through it; indices are always masked. *)
Definition seq_at (ni : isn_netif) (i : Z) : ci_tcp_prev_seq_t := seq_table ni !!! i.
Definition seq_upd (i : Z) (f : ci_tcp_prev_seq_t -> ci_tcp_prev_seq_t) (ni : isn_netif) : isn_netif :=
  ni <| seq_table ::= <[i := f (seq_at ni i)]> |>.

Definition CI_TCP_PREV_SEQ_IS_FREE (p : ci_tcp_prev_seq_t) : bool := ps_laddr p =? 0.
Definition CI_TCP_PREV_SEQ_IS_TERMINAL (p : ci_tcp_prev_seq_t) : bool := ps_route_count p =? 0.

(** * Clock-driven sequence numbers *)

Definition SEQ_GT (s1 s2 : Z) : bool := 0 <? s32 (u32 (s1 - s2)).

Definition ci_seq_lt32 (a b : Z) : bool := nz (Z.land (u32 (a - b)) (Z.shiftl 1 31)).
Definition ci_ip_time_before (a b : Z) : bool := ci_seq_lt32 a b.

Definition ci_ip_time_now (ni : isn_netif) : Z := ci_ip_time_real_ticks (iptimer_state ni).
Definition ci_tcp_time_now (ni : isn_netif) : Z := ci_ip_time_now ni.

Definition IPPROTO_TCP := 6.

Definition ci_tcp_isn2tick (ni : isn_netif) (isn : Z) : Z :=
  let ticks := u64 (Z.shiftl isn (ci_ip_time_frc2isn (iptimer_state ni))) in
  u32 (Z.shiftr ticks (ci_ip_time_frc2tick (iptimer_state ni))).

Section clock.
(** The [n]-th reading of the cycle counter. *)
Context (frc64 : nat -> Z).

Definition ci_frc64 (ni : isn_netif) : isn_netif * Z :=
  (ni <| frc_reads ::= S |>, frc64 (frc_reads ni)).

Definition ci_tcp_future_isn (laddr lport_be raddr rport_be future_delta_ticks : Z) (ni : isn_netif)
    : isn_netif * Z :=
  let hash := onload_hash3 laddr lport_be raddr rport_be IPPROTO_TCP in
  let '(ni, frc) := ci_frc64 ni in
  let frc := u64 (frc + u64 (Z.shiftl future_delta_ticks (ci_ip_time_frc2tick (iptimer_state ni)))) in
  (ni, u32 (hash + Z.shiftr frc (ci_ip_time_frc2isn (iptimer_state ni)))).

Definition ci_tcp_initial_seqno (laddr lport_be raddr rport_be : Z) (ni : isn_netif) : isn_netif * Z :=
  ci_tcp_future_isn laddr lport_be raddr rport_be 0 ni.

(** * Entries *)

Definition ci_tcp_prev_seq_older (a b : ci_tcp_prev_seq_t) : bool := ci_ip_time_before (expiry a) (expiry b).

Definition ci_tcp_prev_seq_initial_seqno (prev_seq : ci_tcp_prev_seq_t) (ni : isn_netif) : isn_netif * Z :=
  ci_tcp_initial_seqno (ps_laddr prev_seq) (ps_lport prev_seq) (ps_raddr prev_seq) (ps_rport prev_seq) ni.

Definition ci_tcp_prev_seq_future_isn (prev_seq : ci_tcp_prev_seq_t) (ticks : Z) (ni : isn_netif) : isn_netif * Z :=
  ci_tcp_future_isn (ps_laddr prev_seq) (ps_lport prev_seq) (ps_raddr prev_seq) (ps_rport prev_seq) ticks ni.

Definition ci_tcp_prev_seq_hash1 (ni : isn_netif) (prev_seq : ci_tcp_prev_seq_t) : Z :=
  onload_hash1 (u32 (seq_table_entries_n ni - 1)) (ps_laddr prev_seq) (ps_lport prev_seq) (ps_raddr prev_seq)
    (ps_rport prev_seq) IPPROTO_TCP.

Definition ci_tcp_prev_seq_hash2 (prev_seq : ci_tcp_prev_seq_t) : Z :=
  onload_hash2 (ps_laddr prev_seq) (ps_lport prev_seq) (ps_raddr prev_seq) (ps_rport prev_seq) IPPROTO_TCP.

Definition ci_tcp_clock_isn_safe (prev_seq : ci_tcp_prev_seq_t) (ni : isn_netif) : isn_netif * bool :=
  let '(ni, isn_now) := ci_tcp_prev_seq_initial_seqno prev_seq ni in
  let prev_seq_no := seq_no prev_seq in
  let '(ni, isn_after_2msl) := ci_tcp_prev_seq_future_isn prev_seq (tconst_peer2msl_time ni) ni in
  (ni, SEQ_GT isn_now prev_seq_no && SEQ_GT isn_after_2msl prev_seq_no).

(** The fields not written are those of the caller's variable, [mem]. *)
Definition ci_tcp_prev_seq_from_ts (ni : isn_netif) (ts : ci_tcp_state) (mem : ci_tcp_prev_seq_t)
    : ci_tcp_prev_seq_t :=
  let prev_seq := mem <| ps_laddr := tcp_laddr ts |> <| ps_raddr := tcp_raddr ts |>
    <| ps_lport := tcp_lport_be16 ts |> <| ps_rport := tcp_rport_be16 ts |>
    <| seq_no := u32 (tcp_enq_nxt ts + tcp_isn_offset ni) |> in
  if seq_no prev_seq =? 0 then prev_seq <| seq_no := 1 |> else prev_seq.

Definition ci_tcp_prev_seq_remember_at (from : ci_tcp_prev_seq_t) (at_ : Z) (ni : isn_netif) : isn_netif :=
  let ni := seq_upd at_ (fun p => p <| ps_laddr := ps_laddr from |> <| ps_raddr := ps_raddr from |>
    <| ps_lport := ps_lport from |> <| ps_rport := ps_rport from |> <| seq_no := seq_no from |>
    <| expiry := u32 (ci_tcp_time_now ni + tconst_peer2msl_time ni) |>) ni in
  let p := seq_at ni at_ in
  let '(ni, isn_now) := ci_tcp_initial_seqno (ps_laddr p) (ps_lport p) (ps_raddr p) (ps_rport p) ni in
  let ni :=
    if SEQ_GT (seq_no p) isn_now then
      let '(ni, isn_after_2msl) := ci_tcp_future_isn (ps_laddr p) (ps_lport p) (ps_raddr p) (ps_rport p)
        (tconst_peer2msl_time ni) ni in
      if SEQ_GT isn_after_2msl (seq_no p) then
        let expiry_reduce := ci_tcp_isn2tick ni (u32 (isn_after_2msl - seq_no p)) in
        let ni := seq_upd at_ (fun p => p <| expiry ::= fun e => u32 (e - expiry_reduce) |>) ni in
        ni <| tcp_seq_table_short_expiry ::= fun c => u32 (c + 1) |>
      else ni
    else ni in
  ni <| tcp_seq_table_insertions ::= fun c => u32 (c + 1) |>.

(** * The table *)

Definition TCP_PREV_SEQ_DEPTH_LIMIT : nat := 16.

(** The step computed when it is first needed, and the slot it leads to. *)
Definition late_hash2 (hash2 : Z) (val : ci_tcp_prev_seq_t) : Z :=
  if hash2 =? 0 then ci_tcp_prev_seq_hash2 val else hash2.
Definition next_hash (hash hash2 : Z) (ni : isn_netif) : Z :=
  Z.land (u32 (hash + hash2)) (u32 (seq_table_entries_n ni - 1)).

(** [todo] is the number of rounds left before the search depth is reached. *)
Fixpoint free_loop (todo : nat) (hash hash2 : Z) (val : ci_tcp_prev_seq_t) (entry : Z) (ni : isn_netif) : isn_netif :=
  match todo with
  | O => ni
  | S todo =>
    let ni := seq_upd hash (fun p => p <| ps_route_count ::= fun c => u32 (c - 1) |>) ni in
    if hash =? entry then ni
    else
      let hash2 := late_hash2 hash2 val in
      free_loop todo (next_hash hash hash2 ni) hash2 val entry ni
  end.

Definition __ci_tcp_prev_seq_free (val : ci_tcp_prev_seq_t) (entry : Z) (ni : isn_netif) : isn_netif :=
  free_loop (S TCP_PREV_SEQ_DEPTH_LIMIT) (ci_tcp_prev_seq_hash1 ni val) 0 val entry ni.

Definition ci_tcp_prev_seq_free (prev_seq : Z) (ni : isn_netif) : isn_netif :=
  let ni := __ci_tcp_prev_seq_free (seq_at ni prev_seq) prev_seq ni in
  seq_upd prev_seq (fun p => p <| ps_laddr := 0 |>) ni.

(** Either the entry was stored, or [depth] ran out: the last and the oldest slot. *)
Fixpoint remember_loop (todo depth : nat) (hash hash2 oldest last : Z) (val : ci_tcp_prev_seq_t) (ni : isn_netif)
    : isn_netif * option (Z * Z) :=
  match todo with
  | O => (ni, Some (last, oldest))
  | S todo =>
    let ni := seq_upd hash (fun p => p <| ps_route_count ::= fun c => u32 (c + 1) |>) ni in
    let ni := ni <| tcp_seq_table_steps ::= fun c => u32 (c + 1) |> in
    let prev_seq := seq_at ni hash in
    if CI_TCP_PREV_SEQ_IS_FREE prev_seq then (ci_tcp_prev_seq_remember_at val hash ni, None)
    else if ci_ip_time_before (expiry prev_seq) (ci_ip_time_now ni) then
      let ni := ci_tcp_prev_seq_free hash ni in
      let ni := ci_tcp_prev_seq_remember_at val hash ni in
      (ni <| tcp_seq_table_expiries ::= fun c => u32 (c + 1) |>, None)
    else
      let oldest :=
        if (depth =? 0)%nat || ci_tcp_prev_seq_older prev_seq (seq_at ni oldest) then hash else oldest in
      let hash2 := late_hash2 hash2 val in
      remember_loop todo (S depth) (next_hash hash hash2 ni) hash2 oldest hash val ni
  end.

(** The recursion after a purge; [None]: it has not come to an end. *)
Fixpoint __ci_tcp_prev_seq_remember (fuel : nat) (val : ci_tcp_prev_seq_t) (ni : isn_netif)
    : option (isn_netif * bool) :=
  match fuel with
  | O => None
  | S fuel =>
    let '(ni, safe) := ci_tcp_clock_isn_safe val ni in
    if safe then Some (ni <| tcp_seq_table_avoided ::= fun c => u32 (c + 1) |>, false)
    else
      let '(ni, full) := remember_loop TCP_PREV_SEQ_DEPTH_LIMIT 0 (ci_tcp_prev_seq_hash1 ni val) 0 0 0 val ni in
      match full with
      | None => Some (ni, true)
      | Some (last, oldest) =>
        let ni := __ci_tcp_prev_seq_free val last ni in
        let ni := ci_tcp_prev_seq_free oldest ni in
        let ni := ni <| tcp_seq_table_purgations ::= fun c => u32 (c + 1) |> in
        '(ni, _) ← __ci_tcp_prev_seq_remember fuel val ni;
        Some (ni, true)
      end
  end.

Fixpoint seq_lookup_loop (todo : nat) (hash hash2 : Z) (val : ci_tcp_prev_seq_t) (ni : isn_netif) : option Z :=
  match todo with
  | O => None
  | S todo =>
    let prev_seq := seq_at ni hash in
    if CI_TCP_PREV_SEQ_IS_TERMINAL prev_seq then None
    else if (ps_laddr prev_seq =? ps_laddr val) && (ps_lport prev_seq =? ps_lport val) &&
            (ps_raddr prev_seq =? ps_raddr val) && (ps_rport prev_seq =? ps_rport val)
    then Some hash
    else
      let hash2 := late_hash2 hash2 val in
      seq_lookup_loop todo (next_hash hash hash2 ni) hash2 val ni
  end.

(** The index of the entry, [None] for the null pointer. *)
Definition __ci_tcp_prev_seq_lookup (val : ci_tcp_prev_seq_t) (ni : isn_netif) : option Z :=
  seq_lookup_loop TCP_PREV_SEQ_DEPTH_LIMIT (ci_tcp_prev_seq_hash1 ni val) 0 val ni.

Definition ci_tcp_prev_seq_lookup (ts : ci_tcp_state) (mem : ci_tcp_prev_seq_t) (ni : isn_netif) : isn_netif * Z :=
  let ts_prev_seq := ci_tcp_prev_seq_from_ts ni ts mem in
  match __ci_tcp_prev_seq_lookup ts_prev_seq ni with
  | None => (ni, 0)
  | Some prev_seq =>
    let n := seq_no (seq_at ni prev_seq) in
    let ni := ci_tcp_prev_seq_free prev_seq ni in
    (ni <| tcp_seq_table_hits ::= fun c => u32 (c + 1) |>, n)
  end.

Definition CI_TCPT_FLAG_PASSIVE_OPENED := 0x100.
Definition CI_TCPT_FLAG_SEQNO_REMEMBERED := 0x400000.

Definition ci_tcp_prev_seq_remember (fuel : nat) (ts : ci_tcp_state) (mem : ci_tcp_prev_seq_t) (ni : isn_netif)
    : option (isn_netif * ci_tcp_state) :=
  if negb (tcp_isn_mode ni =? 1) then Some (ni, ts)
  else if negb (nz (tcp_isn_include_passive ni)) && nz (Z.land (tcpflags ts) CI_TCPT_FLAG_PASSIVE_OPENED)
  then Some (ni, ts)
  else
    let ts_prev_seq := ci_tcp_prev_seq_from_ts ni ts mem in
    '(ni, kept) ← __ci_tcp_prev_seq_remember fuel ts_prev_seq ni;
    Some (ni, if kept : bool then ts <| tcpflags ::= fun f => Z.lor f CI_TCPT_FLAG_SEQNO_REMEMBERED |> else ts).

End clock.
