(* ===== verification/PrevSeqTable.v ===== *)
(** The table of old sequence numbers as a bag of records: the invariant of the
    [prev_seq] table of file PrevSeq and what remembering and looking up do. *)

From stdpp Require Import base gmap list list_numbers.
From S2P Require Import Prelude OnloadHash Dllist TimerWheel PrevSeq.

Open Scope Z_scope.

(** * Connections and records *)

Record conn := mk_conn { c_laddr : Z; c_lport : Z; c_raddr : Z; c_rport : Z }.
Record seqrec := mk_rec { r_conn : conn; r_seq : Z; r_expiry : Z }.

#[global] Instance conn_eq_dec : EqDecision conn.
Proof. solve_decision. Defined.
#[global] Instance seqrec_eq_dec : EqDecision seqrec.
Proof. solve_decision. Defined.

(** The connection of an entry. *)
Definition conn_of (p : ci_tcp_prev_seq_t) : conn := mk_conn (ps_laddr p) (ps_lport p) (ps_raddr p) (ps_rport p).
Definition rec_of (p : ci_tcp_prev_seq_t) : seqrec := mk_rec (conn_of p) (seq_no p) (expiry p).

Lemma seq_at_upd i j f ni : seq_at (seq_upd i f ni) j = if decide (i = j) then f (seq_at ni j) else seq_at ni j.
Proof.
  unfold seq_at, seq_upd. cbn. case_decide; [subst; by rewrite lookup_total_insert_eq|by rewrite lookup_total_insert_ne].
Qed.

(** Nothing but the table, the statistics and the count of clock readings. *)
Definition same_cfg (ni ni' : isn_netif) : Prop :=
  seq_table_entries_n ni' = seq_table_entries_n ni /\ iptimer_state ni' = iptimer_state ni /\
  tconst_peer2msl_time ni' = tconst_peer2msl_time ni /\ tcp_isn_offset ni' = tcp_isn_offset ni /\
  tcp_isn_mode ni' = tcp_isn_mode ni /\ tcp_isn_include_passive ni' = tcp_isn_include_passive ni.

#[global] Instance same_cfg_refl : Reflexive same_cfg.
Proof. by intros ni. Qed.

#[global] Instance same_cfg_trans : Transitive same_cfg.
Proof. unfold same_cfg. intros a b c (? & ? & ? & ? & ? & ?) (? & ? & ? & ? & ? & ?). split_and!; congruence. Qed.

Lemma same_cfg_expiries ni ni' f : same_cfg ni ni' -> same_cfg ni (ni' <| tcp_seq_table_expiries ::= f |>).
Proof. done. Qed.

Lemma same_cfg_purgations ni ni' f : same_cfg ni ni' -> same_cfg ni (ni' <| tcp_seq_table_purgations ::= f |>).
Proof. done. Qed.

Lemma same_cfg_hits ni ni' f : same_cfg ni ni' -> same_cfg ni (ni' <| tcp_seq_table_hits ::= f |>).
Proof. done. Qed.

Lemma same_cfg_bump ni ni' i f g : same_cfg (seq_upd i f ni <| tcp_seq_table_steps ::= g |>) ni' -> same_cfg ni ni'.
Proof. done. Qed.

Section table.
Context (k : Z) (Hk : 4 <= k <= 31).

Definition ch1 (c : conn) : Z := __onload_hash1 (2 ^ k - 1) (c_laddr c) (c_lport c) (c_raddr c) (c_rport c) 6.
Definition ch2 (c : conn) : Z := __onload_hash2 (c_laddr c) (c_lport c) (c_raddr c) (c_rport c) 6.
Definition cwalk (c : conn) (i : Z) : Z := probe k (ch1 c) (ch2 c) i.
Definition cpos (c : conn) (s : Z) : Z := visit k (ch1 c) (ch2 c) s.

Lemma cap : 16 <= 2 ^ k <= 2147483648.
Proof. split; [apply (Z.pow_le_mono_r 2 4)|apply (Z.pow_le_mono_r 2 k 31)]; lia. Qed.

Lemma ch1_range c : 0 <= ch1 c < 2 ^ k.
Proof. unfold ch1. apply hash1_range. lia. Qed.

Lemma ch2_odd c : ch2 c `mod` 2 = 1.
Proof. apply hash2_odd. Qed.

Lemma ch2_nz c : ch2 c <> 0.
Proof. intros E. pose proof (ch2_odd c) as H. rewrite E in H. done. Qed.

Lemma cwalk_range c i : 0 <= cwalk c i < 2 ^ k.
Proof. apply probe_range. lia. Qed.

Lemma cwalk_0 c : cwalk c 0 = ch1 c.
Proof. apply probe_0, ch1_range. Qed.

Lemma cwalk_inj c i j : 0 <= i < 2 ^ k -> 0 <= j < 2 ^ k -> cwalk c i = cwalk c j -> i = j.
Proof. apply probe_inj; [lia|apply ch2_odd]. Qed.

Lemma cpos_range c s : 0 <= s < 2 ^ k -> 0 <= cpos c s < 2 ^ k.
Proof. intros. apply visit_spec; [lia|apply ch2_odd|lia]. Qed.

Lemma cwalk_pos c s : 0 <= s < 2 ^ k -> cwalk c (cpos c s) = s.
Proof. intros. apply visit_spec; [lia|apply ch2_odd|lia]. Qed.

Lemma cpos_walk c i : 0 <= i < 2 ^ k -> cpos c (cwalk c i) = i.
Proof. intros. apply visit_probe; [lia|apply ch2_odd|lia]. Qed.

Lemma cwalk_is c i s : 0 <= i < 2 ^ k -> 0 <= s < 2 ^ k -> cwalk c i = s <-> cpos c s = i.
Proof. intros. split; [intros <-; by apply cpos_walk|intros <-; by apply cwalk_pos]. Qed.

Lemma next_hash_walk c i ni : seq_table_entries_n ni = 2 ^ k -> next_hash (cwalk c i) (ch2 c) ni = cwalk c (i + 1).
Proof.
  intros E. pose proof cap. unfold next_hash. rewrite E, (u32_small (2 ^ k - 1)) by lia. apply probe_step. lia.
Qed.

Lemma late_hash2_walk val h : h = 0 \/ h = ch2 (conn_of val) -> late_hash2 h val = ch2 (conn_of val).
Proof.
  unfold late_hash2. intros [-> | ->]; [done|]. by rewrite (proj2 (Z.eqb_neq _ 0) (ch2_nz _)).
Qed.

Lemma hash1_walk ni val : seq_table_entries_n ni = 2 ^ k -> ci_tcp_prev_seq_hash1 ni val = cwalk (conn_of val) 0.
Proof.
  intros E. pose proof cap. rewrite cwalk_0. unfold ci_tcp_prev_seq_hash1. rewrite E, u32_small by lia. done.
Qed.

(** * The invariant *)

(** Walks of stored records that pass through a slot or end there. *)
Definition through (m : gmap Z seqrec) (s : Z) : Z :=
  Z.of_nat (size (filter (fun e => cpos (r_conn e.2) s <= cpos (r_conn e.2) e.1) m)).

Definition upto (c : conn) (e s : Z) : Z := if decide (cpos c s <= e) then 1 else 0.

Lemma through_insert m s t r : m !! t = None ->
  through (<[t := r]> m) s = through m s + upto (r_conn r) (cpos (r_conn r) t) s.
Proof.
  intros Hm. unfold through, upto. case_decide as Hd.
  - rewrite map_filter_insert_True by done. rewrite map_size_insert_None; [lia|].
    apply map_lookup_filter_None. by left.
  - rewrite map_filter_insert_False by done. rewrite delete_id by done. lia.
Qed.

Lemma through_delete m s t r : m !! t = Some r ->
  through (delete t m) s = through m s - upto (r_conn r) (cpos (r_conn r) t) s.
Proof.
  intros Hm. rewrite <- (insert_delete_id m t r Hm) at 2. rewrite through_insert by apply lookup_delete_eq. lia.
Qed.

Lemma through_range m s : 0 <= through m s <= Z.of_nat (size m).
Proof.
  unfold through. pose proof (map_subseteq_size _ m
    (map_filter_subseteq (fun e => cpos (r_conn e.2) s <= cpos (r_conn e.2) e.1) m)). lia.
Qed.

Lemma upto_range c e s : 0 <= upto c e s <= 1.
Proof. unfold upto. case_decide; lia. Qed.

Lemma through_ge m s t r : m !! t = Some r -> cpos (r_conn r) s <= cpos (r_conn r) t -> 1 <= through m s.
Proof.
  intros Hm Hp. pose proof (through_delete m s t r Hm) as E. unfold upto in E. rewrite decide_True in E by done.
  pose proof (through_range (delete t m) s). lia.
Qed.

(** [m] has the records by slot; [b] is what the counts have besides. *)
Record seq_inv (ni : isn_netif) (m : gmap Z seqrec) (b : Z -> Z) : Prop := {
  q_n : seq_table_entries_n ni = 2 ^ k;
  q_count s : 0 <= s < 2 ^ k -> ps_route_count (seq_at ni s) = through m s + b s;
  q_some s r : m !! s = Some r -> 0 <= s < 2 ^ k /\ cpos (r_conn r) s < 16 /\ c_laddr (r_conn r) <> 0 /\
    rec_of (seq_at ni s) = r;
  q_none s : 0 <= s < 2 ^ k -> m !! s = None -> ps_laddr (seq_at ni s) = 0 }.

Lemma recs_size ni m b : seq_inv ni m b -> Z.of_nat (size m) <= 2 ^ k.
Proof.
  intros Hi. pose proof cap. rewrite <- size_dom.
  assert (Hs : dom m ⊆ list_to_set (C := gset Z) (seqZ 0 (2 ^ k))).
  { intros s [r E]%elem_of_dom. apply elem_of_list_to_set, elem_of_seqZ.
    pose proof (q_some _ _ _ Hi _ _ E). lia. }
  apply subseteq_size in Hs. rewrite size_list_to_set in Hs by apply NoDup_seqZ.
  rewrite length_seqZ in Hs. lia.
Qed.

(** The statistics are no part of the invariant. *)
Lemma seq_inv_expiries ni m b f : seq_inv ni m b -> seq_inv (ni <| tcp_seq_table_expiries ::= f |>) m b.
Proof. intros [H1 H2 H3 H4]. by split. Qed.

Lemma seq_inv_purgations ni m b f : seq_inv ni m b -> seq_inv (ni <| tcp_seq_table_purgations ::= f |>) m b.
Proof. intros [H1 H2 H3 H4]. by split. Qed.

Lemma seq_inv_hits ni m b f : seq_inv ni m b -> seq_inv (ni <| tcp_seq_table_hits ::= f |>) m b.
Proof. intros [H1 H2 H3 H4]. by split. Qed.

Lemma free_iff ni m b s : seq_inv ni m b -> 0 <= s < 2 ^ k ->
  CI_TCP_PREV_SEQ_IS_FREE (seq_at ni s) = bool_decide (m !! s = None).
Proof.
  intros Hi Hs. unfold CI_TCP_PREV_SEQ_IS_FREE. destruct (m !! s) as [r|] eqn:E.
  - destruct (q_some _ _ _ Hi _ _ E) as (_ & _ & Hl & <-). rewrite bool_decide_false by done. by apply Z.eqb_neq.
  - rewrite bool_decide_true by done. apply Z.eqb_eq, (q_none _ _ _ Hi s Hs E).
Qed.

(** * Walks *)

(** Taking a walk out of the counts. *)
Lemma free_loop_spec todo i e h val ni : seq_table_entries_n ni = 2 ^ k ->
  0 <= i <= e -> e < 2 ^ k -> e - i < Z.of_nat todo -> (h = 0 \/ h = ch2 (conn_of val)) ->
  exists x, free_loop todo (cwalk (conn_of val) i) h val (cwalk (conn_of val) e) ni = ni <| seq_table := x |> /\
    forall s, 0 <= s < 2 ^ k -> x !!! s = if decide (i <= cpos (conn_of val) s <= e)
      then seq_at ni s <| ps_route_count ::= fun c => u32 (c - 1) |> else seq_at ni s.
Proof.
  revert i h ni. induction todo as [|todo IH]; intros i h ni En Hi He Ht Hh; [lia|]. cbn [free_loop].
  set (ni1 := seq_upd _ _ ni).
  assert (H1 : forall s, 0 <= s < 2 ^ k -> seq_at ni1 s = if decide (cpos (conn_of val) s = i)
    then seq_at ni s <| ps_route_count ::= fun c => u32 (c - 1) |> else seq_at ni s).
  { intros s Hs. unfold ni1. rewrite seq_at_upd. pose proof (cwalk_is (conn_of val) i s ltac:(lia) Hs).
    do 2 case_decide; tauto || done. }
  destruct (cwalk (conn_of val) i =? cwalk (conn_of val) e) eqn:E.
  - apply Z.eqb_eq, cwalk_inj in E; [subst e|lia|lia]. exists (seq_table ni1). split; [done|].
    intros s Hs. change (seq_table ni1 !!! s) with (seq_at ni1 s). rewrite H1 by done. apply decide_ext. lia.
  - apply Z.eqb_neq in E. assert (i <> e) by congruence.
    rewrite late_hash2_walk, next_hash_walk by done.
    destruct (IH (i + 1) (ch2 (conn_of val)) ni1 En ltac:(lia) He ltac:(lia) ltac:(by right)) as (x & Ex & Hx).
    exists x. split; [exact Ex|]. intros s Hs. rewrite Hx, H1 by done. do 3 case_decide; try done; lia.
Qed.

Lemma free_spec val e ni : seq_table_entries_n ni = 2 ^ k -> 0 <= e < 16 ->
  exists x, __ci_tcp_prev_seq_free val (cwalk (conn_of val) e) ni = ni <| seq_table := x |> /\
    forall s, 0 <= s < 2 ^ k -> x !!! s = if decide (cpos (conn_of val) s <= e)
      then seq_at ni s <| ps_route_count ::= fun c => u32 (c - 1) |> else seq_at ni s.
Proof.
  intros En He. unfold __ci_tcp_prev_seq_free. rewrite hash1_walk by done. pose proof cap.
  destruct (free_loop_spec (S TCP_PREV_SEQ_DEPTH_LIMIT) 0 e 0 val ni En ltac:(lia) ltac:(lia) ltac:(change (Z.of_nat (S TCP_PREV_SEQ_DEPTH_LIMIT)) with 17; lia) ltac:(by left))
    as (x & E & Hx).
  exists x. split; [done|]. intros s Hs. rewrite Hx by done. apply decide_ext. pose proof (cpos_range (conn_of val) s Hs). lia.
Qed.

(** Undoing the counts of an insertion. *)
Lemma rollback_inv val e ni m b : seq_inv ni m (fun s => b s + upto (conn_of val) e s) -> 0 <= e < 16 ->
  (forall s, 0 <= b s <= 1) ->
  exists ni', __ci_tcp_prev_seq_free val (cwalk (conn_of val) e) ni = ni' /\ seq_inv ni' m b /\ same_cfg ni ni'.
Proof.
  intros Hi He Hb. destruct (free_spec val e ni (q_n _ _ _ Hi) He) as (x & E & Hx). eexists. split; [exact E|].
  split; [|done]. pose proof cap. pose proof (recs_size _ _ _ Hi).
  assert (Hp : forall s, 0 <= s < 2 ^ k -> seq_at (ni <| seq_table := x |>) s =
    if decide (cpos (conn_of val) s <= e) then seq_at ni s <| ps_route_count ::= fun c => u32 (c - 1) |> else seq_at ni s).
  { intros s Hs. apply Hx, Hs. }
  split.
  - apply (q_n _ _ _ Hi).
  - intros s Hs. rewrite Hp by done. pose proof (q_count _ _ _ Hi s Hs) as Hc. unfold upto in Hc.
    pose proof (through_range m s). pose proof (Hb s). case_decide; cbn; rewrite Hc; [rewrite u32_small|]; lia.
  - intros s r Er. destruct (q_some _ _ _ Hi _ _ Er) as (H1 & H2 & H3 & H4). split_and!; try done; try lia.
    rewrite Hp by done. by case_decide.
  - intros s Hs Hn. rewrite Hp by done. case_decide; apply (q_none _ _ _ Hi s Hs Hn).
Qed.

(** Dropping a record. *)
Lemma drop_inv t r ni m b : seq_inv ni m b -> m !! t = Some r -> (forall s, 0 <= b s <= 1) ->
  seq_inv (ci_tcp_prev_seq_free t ni) (delete t m) b /\ same_cfg ni (ci_tcp_prev_seq_free t ni).
Proof.
  intros Hi Er Hb. destruct (q_some _ _ _ Hi _ _ Er) as (Ht & Hpos & Hl & Hrec).
  assert (Hc : conn_of (seq_at ni t) = r_conn r) by (by rewrite <- Hrec).
  pose proof (cpos_range (r_conn r) t Ht) as Hp0. pose proof cap. pose proof (recs_size _ _ _ Hi).
  unfold ci_tcp_prev_seq_free. destruct (free_spec (seq_at ni t) (cpos (r_conn r) t) ni (q_n _ _ _ Hi) ltac:(lia)) as (x & E & Hx).
  rewrite Hc, cwalk_pos in E by done. rewrite E. rewrite Hc in Hx. split; [|done].
  set (ni' := seq_upd _ _ _).
  assert (Hp : forall s, 0 <= s < 2 ^ k -> seq_at ni' s = let p := if decide (cpos (r_conn r) s <= cpos (r_conn r) t)
     then seq_at ni s <| ps_route_count ::= fun c => u32 (c - 1) |> else seq_at ni s in
     if decide (t = s) then p <| ps_laddr := 0 |> else p).
  { intros s Hs. unfold ni'. rewrite seq_at_upd. change (seq_at (ni <| seq_table := x |>) s) with (x !!! s).
    by rewrite Hx by done. }
  split.
  - apply (q_n _ _ _ Hi).
  - intros s Hs. rewrite Hp by done. pose proof (q_count _ _ _ Hi s Hs) as Hct.
    rewrite (through_delete m s t r Er). unfold upto. pose proof (through_range m s). pose proof (Hb s).
    destruct (decide (cpos (r_conn r) s <= cpos (r_conn r) t)) as [Hle|Hle].
    + pose proof (through_ge m s t r Er Hle). case_decide; cbn; rewrite Hct, u32_small; lia.
    + case_decide; cbn; rewrite Hct; lia.
  - intros s r' [Hn Es]%lookup_delete_Some. destruct (q_some _ _ _ Hi _ _ Es) as (H1 & H2 & H3 & H4).
    split_and!; try done; try lia. rewrite Hp by done. cbv zeta. rewrite (decide_False (P := t = s)) by done. by case_decide.
  - intros s Hs Hn. rewrite Hp by done. cbv zeta. destruct (decide (t = s)) as [->|Hne]; [done|].
    rewrite lookup_delete_ne in Hn by done. case_decide; apply (q_none _ _ _ Hi s Hs Hn).
Qed.

Lemma time_before_iff a b : ci_ip_time_before a b = (2147483648 <=? u32 (a - b)).
Proof.
  unfold ci_ip_time_before, ci_seq_lt32. change (Z.shiftl 1 31) with (2 ^ 31).
  rewrite nz_land_pow2, Z.testbit_odd, Z.shiftr_div_pow2 by lia. change (2 ^ 31) with 2147483648.
  pose proof (u32_range (a - b)) as Hr. destruct (2147483648 <=? u32 (a - b)) eqn:E; [apply Z.leb_le in E|apply Z.leb_gt in E].
  - by replace (u32 (a - b) / 2147483648) with 1 by (Z.div_mod_to_equations; lia).
  - by replace (u32 (a - b) / 2147483648) with 0 by (Z.div_mod_to_equations; lia).
Qed.

Section remember.
Context (frc64 : nat -> Z).

(** What is written by [ci_tcp_prev_seq_remember_at], but for the time. *)
Lemma remember_at_spec from at_ ni : exists e,
  let ni' := ci_tcp_prev_seq_remember_at frc64 from at_ ni in
  same_cfg ni ni' /\
  forall s, seq_at ni' s = if decide (at_ = s) then
    mk_pseq (ps_laddr from) (ps_raddr from) (ps_lport from) (ps_rport from) (seq_no from) e (ps_route_count (seq_at ni s))
    else seq_at ni s.
Proof.
  unfold ci_tcp_prev_seq_remember_at. set (ni1 := seq_upd at_ _ ni).
  assert (H1 : exists e, forall s, seq_at ni1 s = if decide (at_ = s) then
    mk_pseq (ps_laddr from) (ps_raddr from) (ps_lport from) (ps_rport from) (seq_no from) e (ps_route_count (seq_at ni s))
    else seq_at ni s).
  { eexists. intros s. unfold ni1. rewrite seq_at_upd. by case_decide. }
  destruct H1 as [e1 H1]. cbn [ci_tcp_initial_seqno ci_tcp_future_isn ci_frc64]. cbv zeta.
  destruct (SEQ_GT (seq_no _) _); [destruct (SEQ_GT _ _)|].
  - eexists. split; [done|]. intros s.
    match goal with |- seq_at (seq_upd _ ?f ?n <| tcp_seq_table_short_expiry ::= _ |> <| tcp_seq_table_insertions ::= _ |>) s = _ =>
      transitivity (seq_at (seq_upd at_ f n) s); [done|] end.
    rewrite seq_at_upd. specialize (H1 s). destruct (decide (at_ = s)) as [<-|Hne]; [|exact H1].
    match goal with |- ?f (seq_at ?n at_) = _ => change (seq_at n at_) with (seq_at ni1 at_) at 1; rewrite H1 at 1 end.
    reflexivity.
  - exists e1. split; [done|]. exact H1.
  - exists e1. split; [done|]. exact H1.
Qed.

Context (val : ci_tcp_prev_seq_t) (Hval : ps_laddr val <> 0).

(** Storing the record at a free slot, the walk to it being counted already. *)
Lemma store_inv ni m e : seq_inv ni m (upto (conn_of val) e) -> 0 <= e < 16 -> m !! cwalk (conn_of val) e = None ->
  exists x, seq_inv (ci_tcp_prev_seq_remember_at frc64 val (cwalk (conn_of val) e) ni)
      (<[cwalk (conn_of val) e := mk_rec (conn_of val) (seq_no val) x]> m) (fun _ => 0) /\
    same_cfg ni (ci_tcp_prev_seq_remember_at frc64 val (cwalk (conn_of val) e) ni).
Proof.
  intros Hi He Hn. destruct (remember_at_spec val (cwalk (conn_of val) e) ni) as (x & Hcfg & Hat). exists x.
  split; [|done]. pose proof cap. set (ni' := ci_tcp_prev_seq_remember_at _ _ _ _) in *. split.
  - destruct Hcfg as [-> _]. apply (q_n _ _ _ Hi).
  - intros s Hs. rewrite Hat, through_insert by done. cbn [r_conn]. rewrite cpos_walk by lia.
    pose proof (q_count _ _ _ Hi s Hs) as Hc. case_decide; cbn; rewrite Hc; lia.
  - intros s r Er. rewrite Hat. apply lookup_insert_Some in Er as [[<- <-]|[Hne Er]].
    + rewrite decide_True by done. cbn [r_conn]. split; [apply cwalk_range|]. split; [rewrite cpos_walk; lia|]. done.
    + rewrite decide_False by done. by apply (q_some _ _ _ Hi).
  - intros s Hs Es. rewrite Hat. apply lookup_insert_None in Es as [Es Hne]. rewrite decide_False by done.
    by apply (q_none _ _ _ Hi).
Qed.

(** One more slot counted. *)
Lemma bump_inv ni m i : seq_inv ni m (upto (conn_of val) (i - 1)) -> 0 <= i < 16 ->
  seq_inv (seq_upd (cwalk (conn_of val) i) (fun p => p <| ps_route_count ::= fun c => u32 (c + 1) |>) ni
    <| tcp_seq_table_steps ::= fun c => u32 (c + 1) |>) m (upto (conn_of val) i).
Proof.
  intros Hi He. pose proof cap. pose proof (recs_size _ _ _ Hi). set (ni' := _ <| tcp_seq_table_steps ::= _ |>).
  assert (Hp : forall s, 0 <= s < 2 ^ k -> seq_at ni' s = if decide (cpos (conn_of val) s = i)
    then seq_at ni s <| ps_route_count ::= fun c => u32 (c + 1) |> else seq_at ni s).
  { intros s Hs. change (seq_at ni' s) with (seq_at (seq_upd (cwalk (conn_of val) i)
      (fun p => p <| ps_route_count ::= fun c => u32 (c + 1) |>) ni) s).
    rewrite seq_at_upd. pose proof (cwalk_is (conn_of val) i s ltac:(lia) Hs). do 2 case_decide; tauto || done. }
  split.
  - apply (q_n _ _ _ Hi).
  - intros s Hs. rewrite Hp by done. pose proof (q_count _ _ _ Hi s Hs) as Hc. pose proof (through_range m s).
    unfold upto in *. destruct (decide (cpos (conn_of val) s = i)); cbn; rewrite Hc;
      [rewrite decide_False, decide_True, u32_small by lia|]; [lia|].
    destruct (decide (cpos (conn_of val) s <= i)); [rewrite decide_True by lia|rewrite decide_False by lia]; lia.
  - intros s r Er. destruct (q_some _ _ _ Hi _ _ Er) as (H1 & H2 & H3 & H4). split_and!; try done; try lia.
    rewrite Hp by done. by case_decide.
  - intros s Hs Hn. rewrite Hp by done. case_decide; apply (q_none _ _ _ Hi s Hs Hn).
Qed.

(** A slot that can be reused at once. *)
Definition reusable (ni : isn_netif) (m : gmap Z seqrec) (s : Z) : Prop :=
  match m !! s with Some r => ci_ip_time_before (r_expiry r) (ci_ip_time_now ni) = true | None => True end.

(** How long a record has still to live. *)
Definition left_ (ni : isn_netif) (r : seqrec) : Z := u32 (r_expiry r - ci_ip_time_now ni).

(** Slot [a] holds the record with the least time left of the first [i]. *)
Definition oldest_of (ni : isn_netif) (m : gmap Z seqrec) (i a : Z) : Prop :=
  forall r j r', m !! a = Some r -> 0 <= j < i -> m !! cwalk (conn_of val) j = Some r' -> left_ ni r <= left_ ni r'.

Lemma before_left t1 t2 now : ci_ip_time_before t1 now = false -> ci_ip_time_before t2 now = false ->
  ci_ip_time_before t1 t2 = (u32 (t1 - now) <? u32 (t2 - now)).
Proof.
  rewrite !time_before_iff, !Z.leb_gt. intros H1 H2. apply eq_bool_prop_intro.
  rewrite !Is_true_true, Z.leb_le, Z.ltb_lt. word_lia.
Qed.

Lemma older_next ni ni1 m b i oldest r (first : bool) : seq_inv ni1 m b -> ci_ip_time_now ni1 = ci_ip_time_now ni ->
  0 <= i -> m !! cwalk (conn_of val) i = Some r -> ci_ip_time_before (r_expiry r) (ci_ip_time_now ni) = false ->
  (forall j, 0 <= j < i -> ~ reusable ni m (cwalk (conn_of val) j)) ->
  ((first = true /\ i = 0) \/ (first = false /\ (exists o, 0 <= o < i /\ oldest = cwalk (conn_of val) o) /\ oldest_of ni m i oldest)) ->
  let old' := if first || ci_tcp_prev_seq_older (seq_at ni1 (cwalk (conn_of val) i)) (seq_at ni1 oldest)
    then cwalk (conn_of val) i else oldest in
  (exists o, 0 <= o < i + 1 /\ old' = cwalk (conn_of val) o) /\ oldest_of ni1 m (i + 1) old'.
Proof.
  intros Hi Hnow H0 Er Eb Hbad Ho. cbv zeta. unfold oldest_of, left_. rewrite Hnow.
  destruct Ho as [[-> ->]|(-> & (o & Ho & ->) & Hold)]; cbn [orb].
  { split; [exists 0; split; [lia|done]|]. intros r1 j r2 E1 Hj E2. replace j with 0 in E2 by lia. rewrite E1 in E2. injection E2 as ->. lia. }
  pose proof (Hbad o Ho) as Hro. unfold reusable in Hro. destruct (m !! cwalk (conn_of val) o) as [r0|] eqn:Er0; [|tauto].
  apply not_true_is_false in Hro. unfold ci_tcp_prev_seq_older.
  replace (expiry (seq_at ni1 (cwalk (conn_of val) i))) with (r_expiry r)
    by (destruct (q_some _ _ _ Hi _ _ Er) as (_ & _ & _ & <-); done).
  replace (expiry (seq_at ni1 (cwalk (conn_of val) o))) with (r_expiry r0)
    by (destruct (q_some _ _ _ Hi _ _ Er0) as (_ & _ & _ & <-); done).
  rewrite (before_left _ _ _ Eb Hro). destruct (Z.ltb_spec (u32 (r_expiry r - ci_ip_time_now ni)) (u32 (r_expiry r0 - ci_ip_time_now ni))) as [Hlt|Hge].
  - split; [exists i; split; [lia|done]|]. intros r1 j r2 E1 Hj E2. rewrite Er in E1. injection E1 as <-.
    destruct (decide (j = i)) as [->|]; [rewrite Er in E2; injection E2 as <-; lia|].
    pose proof (Hold r0 j r2 Er0 ltac:(lia) E2). unfold left_ in *. lia.
  - split; [exists o; split; [lia|done]|]. intros r1 j r2 E1 Hj E2. rewrite Er0 in E1. injection E1 as <-.
    destruct (decide (j = i)) as [->|]; [rewrite Er in E2; injection E2 as <-; lia|].
    apply (Hold r0 j r2 Er0 ltac:(lia) E2).
Qed.

Lemma remember_loop_spec todo i depth h oldest last ni m :
  seq_inv ni m (upto (conn_of val) (i - 1)) -> 0 <= i -> i + Z.of_nat todo = 16 ->
  (depth = 0%nat <-> i = 0) -> (h = 0 \/ h = ch2 (conn_of val)) ->
  (i = 0 \/ ((exists o, 0 <= o < i /\ oldest = cwalk (conn_of val) o) /\ oldest_of ni m i oldest)) ->
  (forall j, 0 <= j < i -> ~ reusable ni m (cwalk (conn_of val) j)) ->
  (todo = O -> last = cwalk (conn_of val) 15) ->
  let '(ni', full) := remember_loop frc64 todo depth (cwalk (conn_of val) i) h oldest last val ni in
  same_cfg ni ni' /\
  match full with
  | None => exists j x, i <= j < 16 /\ reusable ni m (cwalk (conn_of val) j) /\
      seq_inv ni' (<[cwalk (conn_of val) j := mk_rec (conn_of val) (seq_no val) x]> m) (fun _ => 0)
  | Some (last', oldest') =>
      last' = cwalk (conn_of val) 15 /\ (exists o, 0 <= o < 16 /\ oldest' = cwalk (conn_of val) o) /\
      oldest_of ni m 16 oldest' /\
      (forall j, 0 <= j < 16 -> ~ reusable ni m (cwalk (conn_of val) j)) /\ seq_inv ni' m (upto (conn_of val) 15)
  end.
Proof.
  revert i depth h oldest last ni. induction todo as [|todo IH]; intros i depth h oldest last ni Hi H0 Ht Hd Hh Ho Hbad Hlast;
    cbn [remember_loop].
  { split; [done|]. split; [by apply Hlast|]. destruct Ho as [->|[(o & ? & ->) Hold]]; [lia|].
    split; [exists o; split; [lia|done]|]. replace i with 16 in * by lia. done. }
  pose proof cap as Hcap. pose proof (bump_inv ni m i Hi ltac:(lia)) as Hb. set (ni1 := _ <| tcp_seq_table_steps ::= _ |>) in *.
  pose proof (cwalk_range (conn_of val) i) as Hr. rewrite (free_iff ni1 m _ _ Hb Hr).
  destruct (m !! cwalk (conn_of val) i) as [r|] eqn:Er.
  - rewrite bool_decide_false by done. destruct (q_some _ _ _ Hb _ _ Er) as (_ & _ & _ & Hrec).
    assert (He : expiry (seq_at ni1 (cwalk (conn_of val) i)) = r_expiry r) by (by rewrite <- Hrec). rewrite He.
    change (ci_ip_time_now ni1) with (ci_ip_time_now ni).
    destruct (ci_ip_time_before (r_expiry r) (ci_ip_time_now ni)) eqn:Eb.
    + destruct (drop_inv _ _ _ _ _ Hb Er) as [Hdrop Hcfg1]; [intros; apply upto_range|].
      destruct (store_inv _ _ i Hdrop ltac:(lia)) as (x & Hst & Hcfg2); [apply lookup_delete_eq|].
      split; [apply same_cfg_expiries, (same_cfg_trans _ _ _ (same_cfg_bump _ _ _ _ _ Hcfg1) Hcfg2)|].
      exists i, x. split; [lia|]. split; [unfold reusable; by rewrite Er|]. rewrite insert_delete_eq in Hst.
      by apply seq_inv_expiries.
    + rewrite late_hash2_walk, next_hash_walk by (done || apply (q_n _ _ _ Hb)).
      set (old' := if _ || _ then _ else oldest).
      specialize (IH (i + 1) (S depth) (ch2 (conn_of val)) old' (cwalk (conn_of val) i) ni1).
      destruct (remember_loop _ _ _ _ _ _ _ _ ni1) as [ni' full] eqn:El.
      destruct IH as [Hcfg Hres].
      { by replace (i + 1 - 1) with i by lia. } { lia. } { lia. } { lia. } { by right. }
      { right. apply (older_next ni ni1 m _ i oldest r (depth =? 0)%nat Hb); try done.
        destruct (Nat.eqb_spec depth 0); [left; split; [done|by apply Hd]|right]. split; [done|].
        destruct Ho as [->|Ho]; [tauto|exact Ho]. }
      { intros j Hj. destruct (decide (j = i)) as [->|]; [|apply (Hbad j); lia].
        unfold reusable. rewrite Er. change (ci_ip_time_now ni1) with (ci_ip_time_now ni). by rewrite Eb. }
      { intros ->. f_equal. lia. }
      split; [exact (same_cfg_bump _ _ _ _ _ Hcfg)|]. destruct full as [[last' oldest']|].
      * exact Hres.
      * destruct Hres as (j & x & Hj & Hre & Hs). exists j, x. split; [lia|]. done.
  - rewrite bool_decide_true by done. destruct (store_inv ni1 m i Hb ltac:(lia) Er) as (x & Hst & Hcfg).
    split; [exact (same_cfg_bump _ _ _ _ _ Hcfg)|]. exists i, x. split; [lia|]. split; [|done]. unfold reusable. by rewrite Er.
Qed.

Lemma clock_safe_frame ni : exists n safe, ci_tcp_clock_isn_safe frc64 val ni = (ni <| frc_reads := n |>, safe).
Proof. by eexists _, _. Qed.

Lemma seq_inv_reads ni m b n : seq_inv ni m b -> seq_inv (ni <| frc_reads := n |>) m b.
Proof. intros [H1 H2 H3 H4]. by split. Qed.

Lemma seq_inv_avoided ni m b f : seq_inv ni m b -> seq_inv (ni <| tcp_seq_table_avoided ::= f |>) m b.
Proof. intros [H1 H2 H3 H4]. by split. Qed.

Lemma upto_none c s : 0 <= s < 2 ^ k -> upto c (-1) s = 0.
Proof. intros Hs. unfold upto. pose proof (cpos_range c s Hs). rewrite decide_False; lia. Qed.

Lemma seq_inv_ext ni m b b' : (forall s, 0 <= s < 2 ^ k -> b s = b' s) -> seq_inv ni m b -> seq_inv ni m b'.
Proof. intros Hb [H1 H2 H3 H4]. split; try done. intros s Hs. by rewrite <- Hb by done; apply H2. Qed.

(** The walk of an insertion from its start. *)
Lemma remember_walk ni m : seq_inv ni m (fun _ => 0) ->
  let '(ni', full) := remember_loop frc64 TCP_PREV_SEQ_DEPTH_LIMIT 0 (ci_tcp_prev_seq_hash1 ni val) 0 0 0 val ni in
  same_cfg ni ni' /\
  match full with
  | None => exists j x, 0 <= j < 16 /\ reusable ni m (cwalk (conn_of val) j) /\
      seq_inv ni' (<[cwalk (conn_of val) j := mk_rec (conn_of val) (seq_no val) x]> m) (fun _ => 0)
  | Some (last', oldest') =>
      last' = cwalk (conn_of val) 15 /\ (exists o, 0 <= o < 16 /\ oldest' = cwalk (conn_of val) o) /\
      oldest_of ni m 16 oldest' /\
      (forall j, 0 <= j < 16 -> ~ reusable ni m (cwalk (conn_of val) j)) /\ seq_inv ni' m (upto (conn_of val) 15)
  end.
Proof.
  intros Hi. rewrite (hash1_walk ni val (q_n _ _ _ Hi)).
  apply (remember_loop_spec TCP_PREV_SEQ_DEPTH_LIMIT 0 0%nat 0 0 0 ni m); try done; try (by left); [|intros; lia].
  apply (seq_inv_ext ni m (fun _ => 0)); [|done]. intros s Hs. symmetry. by apply upto_none.
Qed.

(** The record is stored at a slot that was free or had expired. *)
Definition stores (ni : isn_netif) (m m' : gmap Z seqrec) : Prop :=
  exists j x, 0 <= j < 16 /\ reusable ni m (cwalk (conn_of val) j) /\
    m' = <[cwalk (conn_of val) j := mk_rec (conn_of val) (seq_no val) x]> m.

(** A walk full of live records, of which that at step [o] goes first. *)
Definition crowded (ni : isn_netif) (m : gmap Z seqrec) (o : Z) : Prop :=
  0 <= o < 16 /\ (forall j, 0 <= j < 16 -> ~ reusable ni m (cwalk (conn_of val) j)) /\
  oldest_of ni m 16 (cwalk (conn_of val) o).

Abbreviation loop_from ni := (remember_loop frc64 TCP_PREV_SEQ_DEPTH_LIMIT 0 (ci_tcp_prev_seq_hash1 ni val) 0 0 0 val ni).

(** The three ways through [__ci_tcp_prev_seq_remember]. *)
Lemma remember_safe fuel ni ni1 : ci_tcp_clock_isn_safe frc64 val ni = (ni1, true) ->
  __ci_tcp_prev_seq_remember frc64 (S fuel) val ni = Some (ni1 <| tcp_seq_table_avoided ::= fun c => u32 (c + 1) |>, false).
Proof. intros E. cbn [__ci_tcp_prev_seq_remember]. by rewrite E. Qed.

Lemma remember_stored fuel ni ni1 ni2 : ci_tcp_clock_isn_safe frc64 val ni = (ni1, false) ->
  loop_from ni1 = (ni2, None) -> __ci_tcp_prev_seq_remember frc64 (S fuel) val ni = Some (ni2, true).
Proof. intros E El. cbn [__ci_tcp_prev_seq_remember]. rewrite E. by rewrite El. Qed.

Lemma remember_purged fuel ni ni1 ni2 ni3 last oldest b : ci_tcp_clock_isn_safe frc64 val ni = (ni1, false) ->
  loop_from ni1 = (ni2, Some (last, oldest)) ->
  __ci_tcp_prev_seq_remember frc64 fuel val
    (ci_tcp_prev_seq_free oldest (__ci_tcp_prev_seq_free val last ni2) <| tcp_seq_table_purgations ::= fun c => u32 (c + 1) |>) =
    Some (ni3, b) ->
  __ci_tcp_prev_seq_remember frc64 (S fuel) val ni = Some (ni3, true).
Proof. intros E El Er. cbn [__ci_tcp_prev_seq_remember]. rewrite E. rewrite El. rewrite Er. done. Qed.

(** With a reusable slot on the walk one round is enough. *)
Lemma remember_once ni m fuel o : seq_inv ni m (fun _ => 0) -> 0 <= o < 16 -> reusable ni m (cwalk (conn_of val) o) ->
  exists ni' kept m', __ci_tcp_prev_seq_remember frc64 (S fuel) val ni = Some (ni', kept) /\ same_cfg ni ni' /\
    seq_inv ni' m' (fun _ => 0) /\ if kept : bool then stores ni m m' else m' = m.
Proof.
  intros Hi Ho Hre. destruct (clock_safe_frame ni) as (n & safe & Es).
  pose proof (seq_inv_reads ni m _ n Hi) as Hi1. destruct safe.
  - eexists _, false, m. split; [exact (remember_safe _ _ _ Es)|]. split; [done|]. split; [by apply seq_inv_avoided|done].
  - pose proof (remember_walk _ m Hi1) as Hw. destruct (loop_from (ni <| frc_reads := n |>)) as [ni2 [[last oldest]|]] eqn:El;
      destruct Hw as [Hcfg2 Hres].
    + exfalso. destruct Hres as (_ & _ & _ & Hall & _). by apply (Hall o Ho).
    + destruct Hres as (j & x & Hj & Hre' & Hs). eexists ni2, true, _.
      split; [exact (remember_stored _ _ _ _ Es El)|]. split; [exact Hcfg2|]. split; [exact Hs|]. by exists j, x.
Qed.

(** The state in which the oldest entry of a full walk has been dropped. *)
Lemma purge_inv ni m ni2 o : seq_inv ni2 m (upto (conn_of val) 15) -> same_cfg ni ni2 -> crowded ni m o ->
  let ni' := ci_tcp_prev_seq_free (cwalk (conn_of val) o) (__ci_tcp_prev_seq_free val (cwalk (conn_of val) 15) ni2)
    <| tcp_seq_table_purgations ::= fun c => u32 (c + 1) |> in
  seq_inv ni' (delete (cwalk (conn_of val) o) m) (fun _ => 0) /\ same_cfg ni ni'.
Proof.
  intros Hinv Hcfg2 (Ho & Hall & _). cbv zeta.
  destruct (rollback_inv val 15 ni2 m (fun _ => 0)) as (ni3 & E3 & Hi3 & Hcfg3); [|lia|lia|].
  { apply (seq_inv_ext _ _ (upto (conn_of val) 15)); [|done]. intros; lia. }
  rewrite E3. clear E3. pose proof (Hall o Ho) as Hro. unfold reusable in Hro.
  destruct (m !! cwalk (conn_of val) o) as [r|] eqn:Er; [|tauto].
  destruct (drop_inv _ _ _ _ _ Hi3 Er) as [Hi4 Hcfg4]; [lia|]. split; [by apply seq_inv_purgations|].
  apply same_cfg_purgations. transitivity ni3; [|exact Hcfg4]. transitivity ni2; [exact Hcfg2|exact Hcfg3].
Qed.

Lemma remember_spec ni m : seq_inv ni m (fun _ => 0) ->
  exists ni' kept m', __ci_tcp_prev_seq_remember frc64 2 val ni = Some (ni', kept) /\ same_cfg ni ni' /\
    seq_inv ni' m' (fun _ => 0) /\
    if kept : bool then stores ni m m' \/
      exists o, crowded ni m o /\ (m' = delete (cwalk (conn_of val) o) m \/
        exists x, m' = <[cwalk (conn_of val) o := mk_rec (conn_of val) (seq_no val) x]> m)
    else m' = m.
Proof.
  intros Hi. destruct (clock_safe_frame ni) as (n & safe & Es).
  pose proof (seq_inv_reads ni m _ n Hi) as Hi1. destruct safe.
  { eexists _, false, m. split; [exact (remember_safe _ _ _ Es)|]. split; [done|]. split; [by apply seq_inv_avoided|done]. }
  pose proof (remember_walk _ m Hi1) as Hw. destruct (loop_from (ni <| frc_reads := n |>)) as [ni2 [[last oldest]|]] eqn:El;
    destruct Hw as [Hcfg2 Hres].
  - destruct Hres as (-> & (o & Ho & ->) & Hold & Hall & Hinv). assert (Hc : crowded ni m o) by done.
    destruct (purge_inv ni m ni2 o Hinv Hcfg2 Hc) as (Hi4 & Hcfg4).
    destruct (remember_once _ _ 0 o Hi4 Ho) as (ni3 & kept & m' & E3 & Hcfg5 & Hi5 & Hk5).
    { unfold reusable. by rewrite lookup_delete_eq. }
    exists ni3, true, m'. split; [exact (remember_purged _ _ _ _ _ _ _ _ Es El E3)|].
    split; [exact (same_cfg_trans _ _ _ Hcfg4 Hcfg5)|]. split; [done|]. right. exists o. split; [done|].
    destruct kept; [right|by left]. destruct Hk5 as (j & x & Hj & Hre & ->). exists x.
    destruct (decide (j = o)) as [->|Hne]; [by rewrite insert_delete_eq|]. exfalso. apply (Hall j Hj). unfold reusable in *.
    rewrite lookup_delete_ne in Hre.
    + destruct (m !! _); [|done]. rewrite <- Hre. unfold ci_ip_time_now. by destruct Hcfg4 as (_ & -> & _).
    + pose proof cap. intros E. apply cwalk_inj in E; lia.
  - destruct Hres as (j & x & Hj & Hre & Hs). eexists ni2, true, _. split; [exact (remember_stored _ _ _ _ Es El)|].
    split; [exact Hcfg2|]. split; [exact Hs|]. left. by exists j, x.
Qed.

(** ** Looking up *)

Lemma same_conn_test p : ((ps_laddr p =? ps_laddr val) && (ps_lport p =? ps_lport val) && (ps_raddr p =? ps_raddr val) &&
  (ps_rport p =? ps_rport val)) = bool_decide (conn_of p = conn_of val).
Proof.
  apply eq_bool_prop_intro. rewrite Is_true_true, !andb_true_iff, !Z.eqb_eq, bool_decide_spec. unfold conn_of.
  split; [intros [[[-> ->] ->] ->]; done|intros [=]; done].
Qed.

(** No record of the connection from step [i] on when a slot has no walk. *)
Lemma terminal_none ni m i s r : seq_inv ni m (fun _ => 0) -> 0 <= i < 16 ->
  CI_TCP_PREV_SEQ_IS_TERMINAL (seq_at ni (cwalk (conn_of val) i)) = true ->
  m !! s = Some r -> r_conn r = conn_of val -> cpos (conn_of val) s < i.
Proof.
  intros Hi Hr Ht Es Ec. pose proof cap. unfold CI_TCP_PREV_SEQ_IS_TERMINAL in Ht. apply Z.eqb_eq in Ht.
  rewrite (q_count _ _ _ Hi _ (cwalk_range _ _)) in Ht. destruct (decide (cpos (conn_of val) s < i)) as [|Hge]; [done|].
  pose proof (through_ge m (cwalk (conn_of val) i) s r Es) as Hg. rewrite Ec, cpos_walk in Hg by lia. lia.
Qed.

Lemma seq_lookup_loop_spec todo i h ni m : seq_inv ni m (fun _ => 0) -> 0 <= i -> i + Z.of_nat todo = 16 ->
  (h = 0 \/ h = ch2 (conn_of val)) ->
  (forall s r, m !! s = Some r -> r_conn r = conn_of val -> i <= cpos (conn_of val) s) ->
  match seq_lookup_loop todo (cwalk (conn_of val) i) h val ni with
  | Some s => exists r, m !! s = Some r /\ r_conn r = conn_of val
  | None => forall s r, m !! s = Some r -> r_conn r <> conn_of val
  end.
Proof.
  intros Hi. revert i h. induction todo as [|todo IH]; intros i h H0 Ht Hh Hbefore; cbn [seq_lookup_loop].
  { intros s r Es Ec. pose proof (Hbefore s r Es Ec). destruct (q_some _ _ _ Hi _ _ Es) as (_ & Hp & _).
    rewrite Ec in Hp. lia. }
  pose proof cap. destruct (CI_TCP_PREV_SEQ_IS_TERMINAL _) eqn:Et.
  { intros s r Es Ec. pose proof (Hbefore s r Es Ec). pose proof (terminal_none ni m i s r Hi ltac:(lia) Et Es Ec). lia. }
  rewrite same_conn_test. case_bool_decide as Ec.
  - destruct (m !! cwalk (conn_of val) i) as [r|] eqn:Er.
    + exists r. split; [done|]. destruct (q_some _ _ _ Hi _ _ Er) as (_ & _ & _ & <-). done.
    + exfalso. apply Hval. pose proof (q_none _ _ _ Hi _ (cwalk_range _ _) Er) as Hz.
      rewrite <- Hz. by injection Ec as <- _ _ _.
  - rewrite late_hash2_walk, next_hash_walk by (done || apply (q_n _ _ _ Hi)).
    apply IH; [lia|lia|by right|]. intros s r Es Er. pose proof (Hbefore s r Es Er) as Hge.
    destruct (decide (cpos (conn_of val) s = i)) as [E|]; [|lia]. exfalso. apply Ec.
    destruct (q_some _ _ _ Hi _ _ Es) as (Hs & _ & _ & Hrec). rewrite <- E, cwalk_pos by done. by rewrite <- Er, <- Hrec.
Qed.

Lemma seq_lookup_spec ni m : seq_inv ni m (fun _ => 0) ->
  match __ci_tcp_prev_seq_lookup val ni with
  | Some s => exists r, m !! s = Some r /\ r_conn r = conn_of val
  | None => forall s r, m !! s = Some r -> r_conn r <> conn_of val
  end.
Proof.
  intros Hi. unfold __ci_tcp_prev_seq_lookup. rewrite (hash1_walk ni val (q_n _ _ _ Hi)).
  apply (seq_lookup_loop_spec _ 0 0 ni m Hi); [lia|done|by left|]. intros s r Es Ec.
  apply cpos_range. by destruct (q_some _ _ _ Hi _ _ Es).
Qed.

End remember.
End table.
