(* ===== verification/PrevSeqSystem.v ===== *)
(** The cache of old sequence numbers as a system: nothing it remembers is lost
    but for what has expired or is the oldest of sixteen. *)

From stdpp Require Import base gmap list list_numbers.
From S2P Require Import Prelude OnloadHash Dllist TimerWheel PrevSeq PrevSeqTable.

Open Scope Z_scope.

(** * The interface as events *)

(** [mem] is the memory of the local variable the routines work in; [STime] is
    the clock of the stack moving on. *)
Inductive sevent :=
| SRemember (ts : ci_tcp_state) (mem : ci_tcp_prev_seq_t)
| SLookup (ts : ci_tcp_state) (mem : ci_tcp_prev_seq_t)
| STime (now : Z).

Inductive sout := OFlags (flags : Z) | OSeq (n : Z) | OTime.

Section system.
Context (frc64 : nat -> Z).

Definition sstep (ev : sevent) (ni : isn_netif) : option (isn_netif * sout) :=
  match ev with
  | SRemember ts mem =>
    '(ni, ts) ← ci_tcp_prev_seq_remember frc64 2 ts mem ni;
    Some (ni, OFlags (tcpflags ts))
  | SLookup ts mem => let '(ni, n) := ci_tcp_prev_seq_lookup ts mem ni in Some (ni, OSeq n)
  | STime now => Some (ni <| iptimer_state ::= fun st => st <| ci_ip_time_real_ticks := now |> |>, OTime)
  end.

Fixpoint srun (evs : list sevent) (ni : isn_netif) : option (isn_netif * list sout) :=
  match evs with
  | [] => Some (ni, [])
  | ev :: evs =>
    '(ni, o) ← sstep ev ni;
    '(ni, os) ← srun evs ni;
    Some (ni, o :: os)
  end.

(** * The bag of records *)

Definition conn_ts (ts : ci_tcp_state) : conn :=
  mk_conn (tcp_laddr ts) (tcp_lport_be16 ts) (tcp_raddr ts) (tcp_rport_be16 ts).

(** The next sequence number a connection of this tuple may start with. *)
Definition next_seq (offset : Z) (ts : ci_tcp_state) : Z :=
  let n := u32 (tcp_enq_nxt ts + offset) in if n =? 0 then 1 else n.

Definition expired (now : Z) (r : seqrec) : Prop := ci_ip_time_before (r_expiry r) now = true.

(** How a record is added: beside the others, in place of one that has expired, or
    in place of the oldest of sixteen; in the last case the clock may have become
    safe, and then nothing is added. *)
Inductive remembers (now : Z) (c : conn) (n : Z) (B : list seqrec) : list seqrec -> Prop :=
| RAdd x B' : B' ≡ₚ mk_rec c n x :: B -> remembers now c n B B'
| RExpired r B0 x B' : B ≡ₚ r :: B0 -> expired now r -> B' ≡ₚ mk_rec c n x :: B0 -> remembers now c n B B'
| RPurged r L B0 add B' : B ≡ₚ r :: L ++ B0 -> length L = 15%nat -> Forall (fun r => ~ expired now r) (r :: L) ->
    Forall (fun r' => u32 (r_expiry r - now) <= u32 (r_expiry r' - now)) L ->
    (add = [] \/ exists x, add = [mk_rec c n x]) -> B' ≡ₚ add ++ L ++ B0 -> remembers now c n B B'.

(** Does the configuration ask for this connection to be remembered? *)
Definition wanted (mode passive : Z) (ts : ci_tcp_state) : Prop :=
  mode = 1 /\ (passive <> 0 \/ Z.land (tcpflags ts) CI_TCPT_FLAG_PASSIVE_OPENED = 0).

(** The steps of the bag. *)
Inductive sspec (offset mode passive : Z) : sevent -> Z -> list seqrec -> sout -> Z -> list seqrec -> Prop :=
| SpTime t now B : sspec offset mode passive (STime t) now B OTime t B
| SpUnwanted ts mem now B : ~ wanted mode passive ts ->
    sspec offset mode passive (SRemember ts mem) now B (OFlags (tcpflags ts)) now B
| SpSafe ts mem now B : wanted mode passive ts ->
    sspec offset mode passive (SRemember ts mem) now B (OFlags (tcpflags ts)) now B
| SpRemember ts mem now B B' : wanted mode passive ts -> remembers now (conn_ts ts) (next_seq offset ts) B B' ->
    sspec offset mode passive (SRemember ts mem) now B (OFlags (Z.lor (tcpflags ts) CI_TCPT_FLAG_SEQNO_REMEMBERED)) now B'
| SpFound ts mem now B r B' : B ≡ₚ r :: B' -> r_conn r = conn_ts ts ->
    sspec offset mode passive (SLookup ts mem) now B (OSeq (r_seq r)) now B'
| SpMissing ts mem now B : Forall (fun r => r_conn r <> conn_ts ts) B ->
    sspec offset mode passive (SLookup ts mem) now B (OSeq 0) now B.

Inductive sspecs (offset mode passive : Z) : list sevent -> Z -> list seqrec -> list sout -> Z -> list seqrec -> Prop :=
| SsNil now B : sspecs offset mode passive [] now B [] now B
| SsCons ev evs now B o now1 B1 os now2 B2 : sspec offset mode passive ev now B o now1 B1 ->
    sspecs offset mode passive evs now1 B1 os now2 B2 -> sspecs offset mode passive (ev :: evs) now B (o :: os) now2 B2.

(** A connection has a local address. *)
Definition event_ok (ev : sevent) : Prop :=
  match ev with SRemember ts _ | SLookup ts _ => tcp_laddr ts <> 0 | STime _ => True end.

(** * Refinement *)

Definition bag (m : gmap Z seqrec) : list seqrec := (map_to_list m).*2.

Lemma bag_insert m s r : m !! s = None -> bag (<[s := r]> m) ≡ₚ r :: bag m.
Proof. intros E. unfold bag. by rewrite map_to_list_insert. Qed.

Lemma bag_delete m s r : m !! s = Some r -> bag m ≡ₚ r :: bag (delete s m).
Proof. intros E. rewrite <- (insert_delete_id m s r E) at 1. apply bag_insert, lookup_delete_eq. Qed.

Lemma elem_of_bag m r : r ∈ bag m <-> exists s, m !! s = Some r.
Proof.
  unfold bag. rewrite list_elem_of_fmap. split.
  - intros ([s r'] & -> & E%elem_of_map_to_list). eauto.
  - intros [s E]. exists (s, r). split; [done|]. by apply elem_of_map_to_list.
Qed.

Section refinement.
Context (k : Z) (Hk : 4 <= k <= 31).

(** The fifteen neighbours of the oldest record on a full walk. *)
Lemma crowded_bag val ni m o : crowded k val ni m o ->
  exists r L B0, m !! cwalk k (conn_of val) o = Some r /\ bag (delete (cwalk k (conn_of val) o) m) ≡ₚ L ++ B0 /\
    length L = 15%nat /\ Forall (fun r => ~ expired (ci_ip_time_now ni) r) (r :: L) /\
    Forall (fun r' => u32 (r_expiry r - ci_ip_time_now ni) <= u32 (r_expiry r' - ci_ip_time_now ni)) L.
Proof.
  intros (Ho & Hall & Hold). pose proof (cap k Hk) as Hcap.
  assert (Hlive : forall j, 0 <= j < 16 -> exists r, m !! cwalk k (conn_of val) j = Some r /\ ~ expired (ci_ip_time_now ni) r).
  { intros j Hj. pose proof (Hall j Hj) as Hr. unfold reusable in Hr.
    destruct (m !! cwalk k (conn_of val) j) as [r|]; [by exists r|tauto]. }
  destruct (Hlive o Ho) as (r & Er & Hne).
  set (others := filter (fun j => j <> o) (seqZ 0 16)).
  set (mL := filter (fun e => e.1 ∈ cwalk k (conn_of val) <$> others) m).
  assert (Hin : forall s r', mL !! s = Some r' <-> m !! s = Some r' /\ exists j, s = cwalk k (conn_of val) j /\ 0 <= j < 16 /\ j <> o).
  { intros s r'. unfold mL. rewrite map_lookup_filter_Some. cbn. rewrite list_elem_of_fmap. unfold others.
    split; intros [H1 (j & H2)]; (split; [done|]); exists j; rewrite list_elem_of_filter, elem_of_seqZ in *; intuition lia. }
  assert (Hsub : mL ⊆ delete (cwalk k (conn_of val) o) m).
  { apply map_subseteq_spec. intros s r' (E & j & -> & Hj & Hjo)%Hin. rewrite lookup_delete_ne; [done|].
    intros Ew. apply cwalk_inj in Ew; lia. }
  apply map_to_list_submseteq, (fmap_submseteq snd), submseteq_Permutation in Hsub as [B0 HB].
  exists r, (bag mL), B0. split; [done|]. split; [exact HB|]. split; [|split].
  - unfold bag. rewrite length_fmap, length_map_to_list, <- size_dom.
    replace (dom mL) with (list_to_set (C := gset Z) (cwalk k (conn_of val) <$> others)).
    + rewrite size_list_to_set; [rewrite length_fmap|].
      * unfold others. rewrite <- (Z2Nat.id o) by lia. assert (Hob : (Z.to_nat o < 16)%nat) by lia.
        revert Hob. generalize (Z.to_nat o) as n. intros n Hn. do 16 (destruct n as [|n]; [reflexivity|]). lia.
      * apply NoDup_fmap_2_strong; [|apply NoDup_filter, NoDup_seqZ].
        intros i j. unfold others. rewrite !list_elem_of_filter, !elem_of_seqZ. intros. eapply cwalk_inj; eauto; lia.
    + apply set_eq. intros s. rewrite elem_of_list_to_set, elem_of_dom. split.
      * intros (j & -> & Hj)%list_elem_of_fmap. unfold others in Hj. rewrite list_elem_of_filter, elem_of_seqZ in Hj.
        destruct (Hlive j ltac:(lia)) as (r' & E' & _). exists r'. apply Hin. split; [done|]. exists j. split; [done|]. lia.
      * intros [r' (_ & j & -> & Hj & Hjo)%Hin]. apply list_elem_of_fmap. exists j. split; [done|].
        unfold others. rewrite list_elem_of_filter, elem_of_seqZ. lia.
  - constructor; [done|]. apply Forall_forall. intros r' [s (E & j & -> & Hj & _)%Hin]%elem_of_bag.
    destruct (Hlive j Hj) as (r2 & E2 & Hne2). rewrite E in E2. by injection E2 as ->.
  - apply Forall_forall. intros r' [s (E & j & -> & Hj & _)%Hin]%elem_of_bag. apply (Hold r j r' Er Hj E).
Qed.

Lemma from_ts_spec ni ts mem :
  let p := ci_tcp_prev_seq_from_ts ni ts mem in
  conn_of p = conn_ts ts /\ seq_no p = next_seq (tcp_isn_offset ni) ts /\ ps_laddr p = tcp_laddr ts.
Proof.
  cbv zeta. unfold ci_tcp_prev_seq_from_ts, next_seq, conn_of. cbn.
  by destruct (u32 (tcp_enq_nxt ts + tcp_isn_offset ni) =? 0).
Qed.

(** Adding a record to the map is adding it to the bag. *)
Lemma stores_bag val ni m m' : stores k val ni m m' ->
  remembers (ci_ip_time_now ni) (conn_of val) (seq_no val) (bag m) (bag m').
Proof.
  intros (j & x & Hj & Hre & ->). unfold reusable in Hre. set (s := cwalk k (conn_of val) j) in *.
  destruct (m !! s) as [r|] eqn:E.
  - apply (RExpired _ _ _ _ r (bag (delete s m)) x); [by apply bag_delete|done|].
    rewrite <- insert_delete_eq. apply bag_insert, lookup_delete_eq.
  - apply (RAdd _ _ _ _ x). by apply bag_insert.
Qed.

Lemma crowded_remembers val ni m o m' : crowded k val ni m o ->
  (m' = delete (cwalk k (conn_of val) o) m \/
   exists x, m' = <[cwalk k (conn_of val) o := mk_rec (conn_of val) (seq_no val) x]> m) ->
  remembers (ci_ip_time_now ni) (conn_of val) (seq_no val) (bag m) (bag m').
Proof.
  intros Hc Hm'. destruct (crowded_bag val ni m o Hc) as (r & L & B0 & Er & HB & HL & Hl & Hold).
  set (s := cwalk k (conn_of val) o) in *.
  assert (Hb : bag m ≡ₚ r :: L ++ B0) by (rewrite (bag_delete m s r Er); by rewrite HB).
  destruct Hm' as [->|[x ->]].
  - apply (RPurged _ _ _ _ r L B0 []); try done. by left.
  - apply (RPurged _ _ _ _ r L B0 [mk_rec (conn_of val) (seq_no val) x]); try done; [right; by exists x|].
    rewrite <- insert_delete_eq, bag_insert by apply lookup_delete_eq. by rewrite HB.
Qed.

Lemma same_now ni ni' : same_cfg ni ni' -> ci_ip_time_now ni' = ci_ip_time_now ni.
Proof. unfold ci_ip_time_now. by intros (_ & -> & _). Qed.

Lemma remember_refines ni m ts mem : seq_inv k ni m (fun _ => 0) -> tcp_laddr ts <> 0 ->
  exists ni' ts' m', ci_tcp_prev_seq_remember frc64 2 ts mem ni = Some (ni', ts') /\ same_cfg ni ni' /\
    seq_inv k ni' m' (fun _ => 0) /\
    sspec (tcp_isn_offset ni) (tcp_isn_mode ni) (tcp_isn_include_passive ni) (SRemember ts mem) (ci_ip_time_now ni) (bag m)
      (OFlags (tcpflags ts')) (ci_ip_time_now ni) (bag m').
Proof.
  intros Hi Hla. unfold ci_tcp_prev_seq_remember.
  destruct (Z.eqb_spec (tcp_isn_mode ni) 1) as [Em|Em]; cbn [negb].
  2:{ exists ni, ts, m. split_and!; try done. apply SpUnwanted. unfold wanted. tauto. }
  destruct (negb (nz (tcp_isn_include_passive ni)) && nz (Z.land (tcpflags ts) CI_TCPT_FLAG_PASSIVE_OPENED)) eqn:Ep.
  { exists ni, ts, m. split_and!; try done. apply SpUnwanted. unfold wanted. unfold nz in Ep.
    apply andb_true_iff in Ep as [E1 E2]. rewrite negb_involutive in E1. apply Z.eqb_eq in E1.
    apply negb_true_iff, Z.eqb_neq in E2. tauto. }
  assert (Hw : wanted (tcp_isn_mode ni) (tcp_isn_include_passive ni) ts).
  { split; [done|]. unfold nz in Ep. apply andb_false_iff in Ep as [E1|E2].
    - rewrite negb_involutive in E1. apply Z.eqb_neq in E1. by left.
    - apply negb_false_iff, Z.eqb_eq in E2. by right. }
  destruct (from_ts_spec ni ts mem) as (Hc & Hs & Hl). set (p := ci_tcp_prev_seq_from_ts ni ts mem) in *.
  destruct (remember_spec k Hk frc64 p ltac:(by rewrite Hl) ni m Hi) as (ni' & kept & m' & E & Hcfg & Hi' & Hres).
  rewrite E. cbn [mbind option_bind]. eexists ni', _, m'. split; [reflexivity|]. split; [done|]. split; [done|].
  destruct kept; [|subst m'; by apply SpSafe]. apply SpRemember; [done|]. rewrite <- Hc, <- Hs.
  destruct Hres as [Hst|(o & Hcr & Hm')]; [by apply stores_bag|]. by apply (crowded_remembers p ni m o).
Qed.

Lemma lookup_refines ni m ts mem : seq_inv k ni m (fun _ => 0) -> tcp_laddr ts <> 0 ->
  exists ni' n m', ci_tcp_prev_seq_lookup ts mem ni = (ni', n) /\ same_cfg ni ni' /\ seq_inv k ni' m' (fun _ => 0) /\
    sspec (tcp_isn_offset ni) (tcp_isn_mode ni) (tcp_isn_include_passive ni) (SLookup ts mem) (ci_ip_time_now ni) (bag m)
      (OSeq n) (ci_ip_time_now ni) (bag m').
Proof.
  intros Hi Hla. unfold ci_tcp_prev_seq_lookup. destruct (from_ts_spec ni ts mem) as (Hc & _ & Hl).
  set (p := ci_tcp_prev_seq_from_ts ni ts mem) in *.
  pose proof (seq_lookup_spec k Hk p ltac:(by rewrite Hl) ni m Hi) as Hlk.
  destruct (__ci_tcp_prev_seq_lookup p ni) as [s|].
  - destruct Hlk as (r & Er & Ec). destruct (drop_inv k Hk s r ni m _ Hi Er ltac:(lia)) as [Hi' Hcfg].
    eexists _, _, (delete s m). split; [reflexivity|]. split; [by apply same_cfg_hits|]. split; [by apply seq_inv_hits|].
    replace (seq_no (seq_at ni s)) with (r_seq r) by (destruct (q_some _ _ _ _ Hi _ _ Er) as (_ & _ & _ & <-); done).
    apply SpFound; [by apply bag_delete|]. by rewrite Ec.
  - exists ni, 0, m. split_and!; try done. apply SpMissing, Forall_forall. intros r [s Er]%elem_of_bag.
    rewrite <- Hc. by apply (Hlk s r).
Qed.

(** A walk over all events. *)
Lemma srun_refines evs ni m : seq_inv k ni m (fun _ => 0) -> Forall event_ok evs ->
  exists ni' os m', srun evs ni = Some (ni', os) /\ seq_inv k ni' m' (fun _ => 0) /\
    sspecs (tcp_isn_offset ni) (tcp_isn_mode ni) (tcp_isn_include_passive ni) evs (ci_ip_time_now ni) (bag m) os
      (ci_ip_time_now ni') (bag m').
Proof.
  revert ni m. induction evs as [|ev evs IH]; intros ni m Hi Hok.
  { exists ni, [], m. split; [done|]. split; [done|]. constructor. }
  apply Forall_cons in Hok as [Hev Hok].
  assert (Hstep : exists ni1 o m1, sstep ev ni = Some (ni1, o) /\ seq_inv k ni1 m1 (fun _ => 0) /\
    tcp_isn_offset ni1 = tcp_isn_offset ni /\ tcp_isn_mode ni1 = tcp_isn_mode ni /\
    tcp_isn_include_passive ni1 = tcp_isn_include_passive ni /\
    sspec (tcp_isn_offset ni) (tcp_isn_mode ni) (tcp_isn_include_passive ni) ev (ci_ip_time_now ni) (bag m) o
      (ci_ip_time_now ni1) (bag m1)).
  { destruct ev as [ts mem|ts mem|t]; cbn [sstep].
    - destruct (remember_refines ni m ts mem Hi Hev) as (ni1 & ts' & m1 & E & Hcfg & Hi1 & Hs). rewrite E.
      exists ni1, (OFlags (tcpflags ts')), m1. rewrite (same_now _ _ Hcfg). destruct Hcfg as (_ & _ & _ & -> & -> & ->).
      by split_and!.
    - destruct (lookup_refines ni m ts mem Hi Hev) as (ni1 & n & m1 & E & Hcfg & Hi1 & Hs). rewrite E.
      exists ni1, (OSeq n), m1. rewrite (same_now _ _ Hcfg). destruct Hcfg as (_ & _ & _ & -> & -> & ->). by split_and!.
    - eexists _, OTime, m. split; [done|]. split; [by destruct Hi; split|]. split_and!; try done. apply SpTime. }
  destruct Hstep as (ni1 & o & m1 & E & Hi1 & E1 & E2 & E3 & Hs).
  destruct (IH ni1 m1 Hi1 Hok) as (ni' & os & m' & E' & Hi' & Hs').
  exists ni', (o :: os), m'. cbn [srun]. rewrite E. cbn [mbind option_bind]. rewrite E'. split; [done|]. split; [done|].
  rewrite E1, E2, E3 in Hs'. by econstructor.
Qed.

Lemma zero_inv ni : seq_table_entries_n ni = 2 ^ k ->
  (forall s, 0 <= s < 2 ^ k -> seq_at ni s = mk_pseq 0 0 0 0 0 0 0) -> seq_inv k ni ∅ (fun _ => 0).
Proof.
  intros En Hz. split; [done| | |].
  - intros s Hs. by rewrite Hz.
  - intros s r. by rewrite lookup_empty.
  - intros s Hs _. by rewrite Hz.
Qed.

End refinement.
End system.

(** C6: The cache of old sequence numbers is a bag of records.  Starting from zeroed
    memory, in a table of at least sixteen slots, every call returns (a purge is
    followed by at most one more round); a lookup gives the sequence number of a
    record of the connection and takes it out, or 0 exactly when there is none;
    remembering adds the number, and what it drops for it is one record that has
    expired, or the one with the least time left of sixteen that have not.  When
    the last record is gone all route counts are zero again. *)
Theorem prev_seq_cache_refines frc64 k ni evs :
  4 <= k <= 31 -> seq_table_entries_n ni = 2 ^ k ->
  (forall s, 0 <= s < 2 ^ k -> seq_at ni s = mk_pseq 0 0 0 0 0 0 0) -> Forall event_ok evs ->
  exists ni' os B, srun frc64 evs ni = Some (ni', os) /\
    sspecs (tcp_isn_offset ni) (tcp_isn_mode ni) (tcp_isn_include_passive ni) evs (ci_ip_time_now ni) [] os
      (ci_ip_time_now ni') B /\
    (B = [] -> forall s, 0 <= s < 2 ^ k -> ps_route_count (seq_at ni' s) = 0).
Proof.
  intros Hk En Hz Hok. destruct (srun_refines frc64 k Hk evs ni ∅ (zero_inv k ni En Hz) Hok) as (ni' & os & m' & E & Hi & Hs).
  exists ni', os, (bag m'). split; [done|]. split; [exact Hs|]. intros Hb s Hr.
  assert (m' = ∅) as ->.
  { apply map_empty. intros t. destruct (m' !! t) as [r|] eqn:Er; [|done].
    assert (Hin : r ∈ bag m') by (apply elem_of_bag; eauto). rewrite Hb in Hin. by apply elem_of_nil in Hin. }
  rewrite (q_count _ _ _ _ Hi s Hr). done.
Qed.

(** * Examples *)

(** A stack of a 2.6 GHz machine, 16 slots, 2 MSL of 150000 ticks. *)
Definition ex_isn (n : Z) : isn_netif :=
  mk_isn n ∅ (mk_ipts 0 0 0 0 22 12 10 2600000 0 [] ∅ ∅) 150000 65537 1 1 O 0 0 0 0 0 0 0.

(** Connections to one server from several ports, [d] ahead of the clock. *)
Definition ex_conn (port : Z) : ci_tcp_state :=
  mk_tcp 0x0100a8c0 0x0200a8c0 port 0x5000 (u32 (onload_hash3 0x0100a8c0 port 0x0200a8c0 0x5000 6 + 1000)) 0.
Definition ex_var : ci_tcp_prev_seq_t := mk_pseq 0 0 0 0 0 0 0.
Definition ex_seq (port : Z) : Z := next_seq 65537 (ex_conn port).

Definition ex_evs : list sevent :=
  [SRemember (ex_conn 1) ex_var; SRemember (ex_conn 2) ex_var; SLookup (ex_conn 1) ex_var; SLookup (ex_conn 1) ex_var;
   SLookup (ex_conn 2) ex_var].

Lemma ex_zero n s : seq_at (ex_isn n) s = mk_pseq 0 0 0 0 0 0 0.
Proof. unfold seq_at. change (seq_table (ex_isn n)) with (∅ : gmap Z ci_tcp_prev_seq_t). by rewrite lookup_total_empty. Qed.

Lemma prev_seq_cache_refines_witness : exists ni' B,
  srun (fun _ => 0) ex_evs (ex_isn 16) = Some (ni', [OFlags 0x400000; OFlags 0x400000; OSeq (ex_seq 1); OSeq 0; OSeq (ex_seq 2)]) /\
  sspecs 65537 1 1 ex_evs 0 [] [OFlags 0x400000; OFlags 0x400000; OSeq (ex_seq 1); OSeq 0; OSeq (ex_seq 2)]
    (ci_ip_time_now ni') B.
Proof.
  destruct (prev_seq_cache_refines (fun _ => 0) 4 (ex_isn 16) ex_evs) as (ni' & os & B & E & Hs & Hz);
    [lia|done|intros; apply ex_zero|by repeat constructor|].
  assert (Eo : snd <$> srun (fun _ => 0) ex_evs (ex_isn 16) =
    Some [OFlags 0x400000; OFlags 0x400000; OSeq (ex_seq 1); OSeq 0; OSeq (ex_seq 2)]) by (vm_compute; reflexivity).
  rewrite E in Eo. cbn [fmap option_fmap option_map snd] in Eo. injection Eo as ->. exists ni', B. exact (conj E Hs).
Defined.

(** With fewer slots than probes the rollback of a full walk takes back only one
    count per slot: with two slots a third connection leaves counts behind that
    nothing ever takes off. *)
Lemma small_table_leaks : exists ni',
  srun (fun _ => 0) [SRemember (ex_conn 1) ex_var; SRemember (ex_conn 2) ex_var; SRemember (ex_conn 3) ex_var;
    SLookup (ex_conn 1) ex_var; SLookup (ex_conn 2) ex_var; SLookup (ex_conn 3) ex_var] (ex_isn 2) =
    Some (ni', [OFlags 0x400000; OFlags 0x400000; OFlags 0x400000; OSeq 0; OSeq (ex_seq 2); OSeq (ex_seq 3)]) /\
  ps_laddr (seq_at ni' 0) = 0 /\ ps_laddr (seq_at ni' 1) = 0 /\
  ps_route_count (seq_at ni' 0) = 7.
Proof. eexists. split; [vm_compute; reflexivity|]. by vm_compute. Qed.
