(* ===== verification/PrevSeqClock.v ===== *)
(** Clock-driven sequence numbers and the cache of old ones: when the clock is
    trusted, and when a remembered number may be dropped. *)

From stdpp Require Import base gmap list.
From S2P Require Import Prelude OnloadHash Dllist TimerWheel Iptimer TimerClock PrevSeq PrevSeqTable.

Open Scope Z_scope.

(** * Sequence space *)

(** [a] is at or after [b]. *)
Definition SEQ_GE (a b : Z) : bool := 0 <=? s32 (u32 (a - b)).

Lemma s32_u32 z : s32 (u32 z) = s32 z.
Proof. unfold s32. by rewrite u32_idemp. Qed.

Lemma s32_pos z : (0 <? s32 z) = true <-> 0 < u32 z < 2147483648.
Proof. unfold s32. pose proof (u32_range z). rewrite Z.ltb_lt. destruct (Z.ltb_spec (u32 z) 2147483648); lia. Qed.

Lemma s32_nonneg z : (0 <=? s32 z) = true <-> 0 <= u32 z < 2147483648.
Proof. unfold s32. pose proof (u32_range z). rewrite Z.leb_le. destruct (Z.ltb_spec (u32 z) 2147483648); lia. Qed.

Lemma seq_gt_iff a b : SEQ_GT a b = true <-> 0 < u32 (a - b) < 2147483648.
Proof. unfold SEQ_GT. by rewrite s32_u32, s32_pos. Qed.

Lemma seq_ge_iff a b : SEQ_GE a b = true <-> 0 <= u32 (a - b) < 2147483648.
Proof. unfold SEQ_GE. by rewrite s32_u32, s32_nonneg. Qed.

(** * The clock *)

Section clock.
Context (c : conn) (i t : Z) (Hi : 0 <= i) (Ht : 0 <= t).

(** The clock-driven number of a connection at cycle [f]. *)
Definition isn_at (f : Z) : Z :=
  u32 (onload_hash3 (c_laddr c) (c_lport c) (c_raddr c) (c_rport c) 6 + f / 2 ^ i).

Lemma isn_step f g : u32 (isn_at g - isn_at f) = u32 (g / 2 ^ i - f / 2 ^ i).
Proof. unfold isn_at. rewrite u32_sub_l, u32_sub_r. f_equal. lia. Qed.

(** Between two readings less than half the sequence space apart, both after
    [n], every number is after [n]. *)
Lemma isn_between n f0 f1 f : 0 <= f0 <= f -> f <= f1 -> f1 / 2 ^ i - f0 / 2 ^ i < 2147483648 ->
  SEQ_GT (isn_at f0) n = true -> SEQ_GT (isn_at f1) n = true -> SEQ_GT (isn_at f) n = true.
Proof.
  rewrite !seq_gt_iff. intros H0 H1 Hw G0 G1. assert (Hp : 0 < 2 ^ i) by (by apply pow2_pos).
  pose proof (Z.div_le_mono f0 f (2 ^ i) Hp ltac:(lia)). pose proof (Z.div_le_mono f f1 (2 ^ i) Hp ltac:(lia)).
  pose proof (isn_step f0 f1) as E1. pose proof (isn_step f0 f) as E2.
  set (a := isn_at f0) in *. set (b := isn_at f1) in *. set (d := isn_at f) in *.
  set (x := f0 / 2 ^ i) in *. set (y := f1 / 2 ^ i) in *. set (z := f / 2 ^ i) in *.
  replace (u32 (b - n)) with (u32 (u32 (a - n) + u32 (b - a))) in G1 by (rewrite u32_add_l, u32_add_r; f_equal; lia).
  replace (u32 (d - n)) with (u32 (u32 (a - n) + u32 (d - a))) by (rewrite u32_add_l, u32_add_r; f_equal; lia).
  rewrite E1, (u32_small (y - x)) in G1 by lia. rewrite E2, (u32_small (z - x)) by lia.
  revert G1. generalize (u32 (a - n)) G0. intros w Hw0 G1. rewrite u32_small in G1 by lia. rewrite u32_small; lia.
Qed.

(** A number the clock has not reached at [f0] but has at [f1]: so many cycles
    before [f1] it was not yet reached, and afterwards it stays reached. *)
Lemma isn_caught_up n f0 f1 f : 0 <= f0 -> f <= f1 -> 0 <= f -> SEQ_GT (isn_at f1) n = true ->
  f1 - u32 (isn_at f1 - n) * 2 ^ i < f -> SEQ_GE (isn_at f) n = true.
Proof.
  rewrite seq_gt_iff, seq_ge_iff. intros H0 H1 Hf0 G1 Hf. assert (Hp : 0 < 2 ^ i) by (by apply pow2_pos).
  pose proof (isn_step f f1) as E. set (d := u32 (isn_at f1 - n)) in *.
  assert (Hlo : f1 / 2 ^ i - d <= f / 2 ^ i).
  { replace (f1 / 2 ^ i - d) with ((f1 - d * 2 ^ i) / 2 ^ i); [apply Z.div_le_mono; lia|].
    replace (f1 - d * 2 ^ i) with (f1 + (- d) * 2 ^ i) by lia. rewrite Z.div_add by lia. lia. }
  pose proof (Z.div_le_mono f f1 (2 ^ i) Hp H1) as Hhi.
  replace (u32 (isn_at f - n)) with (u32 (d - u32 (isn_at f1 - isn_at f)))
    by (unfold d; rewrite u32_sub_l, u32_sub_r; f_equal; lia).
  rewrite E, (u32_small (f1 / 2 ^ i - f / 2 ^ i)) by lia. rewrite u32_small; lia.
Qed.

(** How far the clock is ahead bounds how early the record may go. *)
Lemma reduce_bound n f0 f1 D : 0 <= f0 -> f0 <= f1 -> 0 <= D -> (f1 + D) / 2 ^ i - f0 / 2 ^ i < 2147483648 ->
  SEQ_GT n (isn_at f0) = true -> SEQ_GT (isn_at (f1 + D)) n = true ->
  u32 (isn_at (f1 + D) - n) * 2 ^ i < f1 - f0 + D.
Proof.
  rewrite !seq_gt_iff. intros H0 H1 HD Hw G0 G1. assert (Hp : 0 < 2 ^ i) by (by apply pow2_pos).
  pose proof (isn_step f0 (f1 + D)) as E. pose proof (Z.div_le_mono f0 (f1 + D) (2 ^ i) Hp ltac:(lia)).
  set (d := u32 (isn_at (f1 + D) - n)) in *. set (e := u32 (n - isn_at f0)) in *.
  assert (Hs : u32 (d + e) = u32 ((f1 + D) / 2 ^ i - f0 / 2 ^ i)).
  { rewrite <- E. unfold d, e. rewrite u32_add_l, u32_add_r. f_equal. lia. }
  rewrite !u32_small in Hs by lia. pose proof (Z.mul_div_le (f1 + D) (2 ^ i) Hp). pose proof (Z.mul_succ_div_gt f0 (2 ^ i) Hp).
  nia.
Qed.

End clock.

(** * The two tests of the code *)

Section code.
Context (frc64 : nat -> Z) (ni : isn_netif).

#[local] Abbreviation t := (ci_ip_time_frc2tick (iptimer_state ni)).
#[local] Abbreviation i := (ci_ip_time_frc2isn (iptimer_state ni)).
#[local] Abbreviation P := (tconst_peer2msl_time ni).
#[local] Abbreviation f0 := (frc64 (frc_reads ni)).
#[local] Abbreviation f1 := (frc64 (S (frc_reads ni))).

Context (Hi : 0 <= i) (Ht : 0 <= t).

Lemma tick_pos : 0 < 2 ^ t.
Proof using Ht. by apply pow2_pos. Qed.

(** A number computed from the reading [f]. *)
Lemma future_isn_eq la lp ra rp f delta n : iptimer_state n = iptimer_state ni -> frc64 (frc_reads n) = f ->
  0 <= f -> 0 <= delta -> f + delta * 2 ^ t < 18446744073709551616 ->
  ci_tcp_future_isn frc64 la lp ra rp delta n =
  (n <| frc_reads ::= S |>, isn_at (mk_conn la lp ra rp) i (f + delta * 2 ^ t)).
Proof using Hi Ht.
  intros E <- H0 Hd Hm. pose proof tick_pos. unfold ci_tcp_future_isn, ci_frc64.
  change (iptimer_state (n <| frc_reads ::= S |>)) with (iptimer_state n). rewrite E.
  rewrite Z.shiftl_mul_pow2, (u64_small (delta * 2 ^ t)), u64_small by nia.
  rewrite Z.shiftr_div_pow2 by lia. done.
Qed.

Lemma initial_seqno_eq la lp ra rp f n : iptimer_state n = iptimer_state ni -> frc64 (frc_reads n) = f ->
  0 <= f < 18446744073709551616 ->
  ci_tcp_initial_seqno frc64 la lp ra rp n = (n <| frc_reads ::= S |>, isn_at (mk_conn la lp ra rp) i f).
Proof using Hi Ht.
  intros E Ef H0. unfold ci_tcp_initial_seqno. rewrite (future_isn_eq _ _ _ _ f 0 n) by (done || lia).
  by rewrite Z.mul_0_l, Z.add_0_r.
Qed.

(** The time peers stay in TIME_WAIT, and two readings of the counter, the second
    less than a tick after the first. *)
Context (HP : 0 < P < 2147483648) (Hf : 0 <= f0 <= f1) (Hgap : f1 - f0 < 2 ^ t).
Context (Hmax : f1 + P * 2 ^ t < 18446744073709551616).
Context (Hwin : (f1 + P * 2 ^ t) / 2 ^ i - f0 / 2 ^ i < 2147483648).

Lemma clock_safe_eq val : ci_tcp_clock_isn_safe frc64 val ni =
  (ni <| frc_reads ::= S |> <| frc_reads ::= S |>,
   SEQ_GT (isn_at (conn_of val) i f0) (seq_no val) && SEQ_GT (isn_at (conn_of val) i (f1 + P * 2 ^ t)) (seq_no val)).
Proof using Hi Ht HP Hf Hmax Hgap.
  pose proof tick_pos. unfold ci_tcp_clock_isn_safe, ci_tcp_prev_seq_initial_seqno, ci_tcp_prev_seq_future_isn.
  rewrite (initial_seqno_eq _ _ _ _ f0 ni) by (done || nia). cbv beta iota.
  change (tconst_peer2msl_time (ni <| frc_reads ::= S |>)) with P.
  rewrite (future_isn_eq _ _ _ _ f1 P (ni <| frc_reads ::= S |>)) by (done || lia). done.
Qed.

(** When the clock is trusted, it stays ahead of the number for the whole of the
    peer's TIME_WAIT. *)
Lemma clock_trusted val f : (ci_tcp_clock_isn_safe frc64 val ni).2 = true -> f0 <= f <= f1 + P * 2 ^ t ->
  SEQ_GT (isn_at (conn_of val) i f) (seq_no val) = true.
Proof using Hi Ht HP Hf Hmax Hgap Hwin.
  rewrite clock_safe_eq. cbn [snd]. rewrite andb_true_iff. intros [G0 G1] Hin. pose proof tick_pos.
  apply (isn_between _ _ Hi _ f0 (f1 + P * 2 ^ t)); (done || lia).
Qed.

(** The time at which a record of [val] expires. *)
Definition expiry_of (val : ci_tcp_prev_seq_t) : Z :=
  let n := seq_no val in
  let d := u32 (isn_at (conn_of val) i (f1 + P * 2 ^ t) - n) in
  let reduce := if SEQ_GT n (isn_at (conn_of val) i f0) && SEQ_GT (isn_at (conn_of val) i (f1 + P * 2 ^ t)) n
    then u64 (d * 2 ^ i) / 2 ^ t else 0 in
  u32 (u32 (ci_ip_time_now ni + P) - u32 reduce).

Lemma remember_at_expiry val s :
  expiry (seq_at (ci_tcp_prev_seq_remember_at frc64 val s ni) s) = expiry_of val.
Proof using Hi Ht HP Hf Hmax Hgap.
  pose proof tick_pos. unfold ci_tcp_prev_seq_remember_at, expiry_of. set (ni1 := seq_upd s _ ni).
  assert (Es : seq_at ni1 s = mk_pseq (ps_laddr val) (ps_raddr val) (ps_lport val) (ps_rport val) (seq_no val)
    (u32 (ci_ip_time_now ni + P)) (ps_route_count (seq_at ni s))).
  { unfold ni1. rewrite seq_at_upd. by destruct (decide (s = s)). }
  assert (Ei : iptimer_state ni1 = iptimer_state ni) by done. assert (Er : frc_reads ni1 = frc_reads ni) by done.
  assert (Ep : tconst_peer2msl_time ni1 = P) by done. clearbody ni1. cbv zeta. rewrite Es.
  cbn [ps_laddr ps_raddr ps_lport ps_rport seq_no].
  rewrite (initial_seqno_eq _ _ _ _ f0 ni1) by (done || (by rewrite Er) || nia). cbv beta iota.
  fold (conn_of val). destruct (SEQ_GT (seq_no val) _); cbn [andb].
  2:{ change (expiry (seq_at ni1 s) = u32 (u32 (ci_ip_time_now ni + P) - u32 0)). rewrite Es. cbn [expiry].
      change (u32 0) with 0. by rewrite Z.sub_0_r, u32_idemp. }
  set (ni2 := ni1 <| frc_reads ::= S |>).
  assert (Es2 : seq_at ni2 s = seq_at ni1 s) by done. change (tconst_peer2msl_time ni2) with (tconst_peer2msl_time ni1).
  rewrite Ep. assert (Ei2 : iptimer_state ni2 = iptimer_state ni) by done.
  assert (Er2 : frc_reads ni2 = S (frc_reads ni)) by (unfold ni2; cbn; by rewrite Er). clearbody ni2.
  rewrite (future_isn_eq _ _ _ _ f1 P ni2) by (done || (by rewrite Er2) || lia). cbv beta iota. fold (conn_of val).
  set (ni3 := ni2 <| frc_reads ::= S |>). assert (Es3 : seq_at ni3 s = seq_at ni1 s) by done.
  assert (Ei3 : iptimer_state ni3 = iptimer_state ni) by done. clearbody ni3.
  destruct (SEQ_GT (isn_at _ _ _) _).
  - unfold ci_tcp_isn2tick. rewrite Ei3, Z.shiftl_mul_pow2, Z.shiftr_div_pow2 by lia.
    set (r := u32 (_ / _)). clearbody r.
    match goal with |- expiry (seq_at (?n <| tcp_seq_table_short_expiry ::= _ |> <| tcp_seq_table_insertions ::= _ |>) s) = _ =>
      change (expiry (seq_at n s) = u32 (u32 (ci_ip_time_now ni + P) - r)) end.
    rewrite seq_at_upd. destruct (decide (s = s)); [|done]. rewrite Es3, Es. done.
  - change (expiry (seq_at ni3 s) = u32 (u32 (ci_ip_time_now ni + P) - u32 0)). rewrite Es3, Es. cbn [expiry].
    change (u32 0) with 0. by rewrite Z.sub_0_r, u32_idemp.
Qed.

(** The time taken off the 2 MSL is at most all of it, and then the number is
    behind the clock at the end of it. *)
Lemma expiry_reduced val : exists r, expiry_of val = u32 (ci_ip_time_now ni + P - r) /\ 0 <= r <= P /\
  (r = 0 \/ exists d, r = d * 2 ^ i / 2 ^ t /\ 0 < d /\
    d = u32 (isn_at (conn_of val) i (f1 + P * 2 ^ t) - seq_no val) /\
    SEQ_GT (isn_at (conn_of val) i (f1 + P * 2 ^ t)) (seq_no val) = true).
Proof using Hi Ht HP Hf Hmax Hgap Hwin.
  pose proof tick_pos as Hp. unfold expiry_of. cbv zeta. rewrite u32_sub_l, u32_sub_r. eexists. split; [done|].
  destruct (_ && _) eqn:E; [|by split; [lia|left]]. apply andb_true_iff in E as [G0 G1].
  pose proof (reduce_bound (conn_of val) i Hi (seq_no val) f0 f1 (P * 2 ^ t) ltac:(lia) ltac:(lia) ltac:(lia) Hwin G0 G1) as Hb.
  pose proof G1 as G1'. rewrite seq_gt_iff in G1'.
  set (d := u32 (isn_at (conn_of val) i (f1 + P * 2 ^ t) - seq_no val)) in *. assert (0 < 2 ^ i) by (by apply pow2_pos).
  rewrite u64_small by (split; [nia|lia]). split; [|right; exists d; split_and!; (done || lia)].
  split; [apply Z.div_pos; nia|]. apply Z.lt_succ_r, Z.div_lt_upper_bound; nia.
Qed.

(** The record is dropped only when its number has been reached, or will be in
    the [K] ticks by which the time of the stack was behind. *)
Lemma dropped_late val s K f : 0 <= K <= P -> K <= f1 / 2 ^ t ->
  ci_ip_time_now ni = u32 (f1 / 2 ^ t - K) -> f1 <= f -> f + K * 2 ^ t <= f1 + P * 2 ^ t ->
  ci_ip_time_before (expiry (seq_at (ci_tcp_prev_seq_remember_at frc64 val s ni) s)) (u32 (f / 2 ^ t)) = true ->
  SEQ_GE (isn_at (conn_of val) i (f + K * 2 ^ t)) (seq_no val) = true.
Proof using Hi Ht HP Hf Hmax Hgap Hwin.
  intros HK HK1 Hnow Hf1 Hf2. rewrite remember_at_expiry, time_before_iff, Z.leb_le.
  destruct (expiry_reduced val) as (r & -> & Hr & Hcase). rewrite Hnow. pose proof tick_pos as Hp.
  assert (HT : f1 / 2 ^ t <= f / 2 ^ t <= f1 / 2 ^ t + P - K).
  { split; [by apply Z.div_le_mono|]. replace (f1 / 2 ^ t + P - K) with ((f1 + (P - K) * 2 ^ t) / 2 ^ t)
      by (rewrite Z.div_add; lia). apply Z.div_le_mono; lia. }
  rewrite <- Z.add_sub_assoc, u32_add_l, u32_sub_l, u32_sub_r.
  intros Hexp. assert (Hlt : f1 / 2 ^ t - K + P - r < f / 2 ^ t).
  { destruct (decide (f / 2 ^ t <= f1 / 2 ^ t - K + P - r)); [|lia]. rewrite u32_small in Hexp; lia. }
  destruct Hcase as [->|(d & Er & Hd & Ed & G1)]; [lia|].
  apply (isn_caught_up _ _ Hi _ f0 (f1 + P * 2 ^ t)); [lia..|done|]. rewrite <- Ed.
  pose proof (Z.mul_div_le (d * 2 ^ i) (2 ^ t) Hp). pose proof (Z.mul_div_le f (2 ^ t) Hp).
  pose proof (Z.mul_succ_div_gt f1 (2 ^ t) Hp). rewrite <- Er in *. nia.
Qed.
End code.

(** * The clock as it is initialised *)

Definition CITP_TCP_ISN_2MSL_MAX := 480.

(** [ni] runs on a clock of [khz] kHz, with [secs] seconds of TIME_WAIT. *)
Record clocked (khz secs : Z) (ni : isn_netif) : Prop := {
  cl_mode : tcp_isn_mode ni <> 0;
  cl_init : exists frc0 mem, let its := ci_ip_timer_state_init (tcp_isn_mode ni) khz frc0 mem in
    ci_ip_time_frc2tick (iptimer_state ni) = ci_ip_time_frc2tick its /\
    ci_ip_time_frc2isn (iptimer_state ni) = ci_ip_time_frc2isn its /\
    tconst_peer2msl_time ni = ci_ip_time_ms2ticks its (secs * 1000) }.

(** A step of the clock-driven number is more than 250 ns. *)
Lemma isn_shift khz : 4000 <= khz < 2 ^ 31 -> let us := shift_for_gran 1 khz in
  let i := if 2 <? us then us - 2 else 0 in 0 <= i < 32 /\ khz < 4000 * 2 ^ i.
Proof.
  intros Hk. cbv zeta. unfold shift_for_gran. change (1 <? 1000) with true. cbv iota. rewrite Z.mul_1_r.
  assert (Hq : 4 <= khz / 1000 < 2147484) by (change (2 ^ 31) with 2147483648 in Hk; div_lia). rewrite u32_small by lia.
  destruct (gran_loop_spec 32 (khz / 1000) 0 ltac:(lia) ltac:(lia) ltac:(lia)) as (H1 & H2 & _).
  revert H1 H2. generalize (gran_loop 32 (khz / 1000) 0) as us. intros us H1 H2.
  assert (Hlt : khz / 1000 < 2 ^ us).
  { destruct (decide (us < 31)); [by apply H2|]. replace us with 31 by lia. lia. }
  assert (Hus : 2 < us).
  { destruct (decide (2 < us)) as [|Hn]; [done|]. pose proof (Z.pow_le_mono_r 2 us 2 ltac:(lia) ltac:(lia)). lia. }
  destruct (Z.ltb_spec 2 us); [|lia]. split; [lia|].
  replace (2 ^ us) with (4 * 2 ^ (us - 2)) in Hlt by (change 4 with (2 ^ 2); rewrite <- Z.pow_add_r by lia; f_equal; lia).
  clear -Hlt. Z.div_mod_to_equations. lia.
Qed.

(** With two readings within a millisecond, all that the tests rely on. *)
Lemma clocked_window khz secs ni f0 f1 : 4000 <= khz < 2 ^ 31 -> 0 <= secs <= CITP_TCP_ISN_2MSL_MAX ->
  clocked khz secs ni -> 0 <= f0 <= f1 -> f1 - f0 <= khz -> f1 < 2 ^ 63 ->
  let t := ci_ip_time_frc2tick (iptimer_state ni) in let i := ci_ip_time_frc2isn (iptimer_state ni) in
  let P := tconst_peer2msl_time ni in
  0 <= i /\ 0 <= t /\ 0 < P < 2147483648 /\ f1 - f0 < 2 ^ t /\ f1 + P * 2 ^ t < 18446744073709551616 /\
  (f1 + P * 2 ^ t) / 2 ^ i - f0 / 2 ^ i < 2147483648.
Proof.
  intros Hk Hs [Hm (frc0 & mem & Et & Ei & Ep)] Hf Hgap Hmax. cbv zeta. rewrite Et, Ei, Ep. clear Et Ei Ep.
  destruct (init_shift_spec khz ltac:(lia)) as [Hsh [Hlo Hhi]]. unfold CITP_TCP_ISN_2MSL_MAX in Hs.
  destruct (ms2ticks_value (tcp_isn_mode ni) khz frc0 mem ltac:(lia) (secs * 1000) ltac:(lia)) as (-> & _ & Hq).
  pose proof (isn_shift khz Hk) as Hsi. cbv zeta in Hsi.
  change (ci_ip_time_frc2tick _) with (init_shift khz).
  change (ci_ip_time_frc2isn (ci_ip_timer_state_init (tcp_isn_mode ni) khz frc0 mem)) with
    (let us2isn := if negb (tcp_isn_mode ni =? 0) then 2 else 4 in
     let us := shift_for_gran 1 khz in if us2isn <? us then us - us2isn else 0).
  destruct (Z.eqb_spec (tcp_isn_mode ni) 0); [done|]. cbv zeta. cbn [negb].
  revert Hsi. generalize (if 2 <? shift_for_gran 1 khz then shift_for_gran 1 khz - 2 else 0) as i. intros i [Hi Hki].
  assert (Hpi : 0 < 2 ^ i) by (apply pow2_pos; lia). assert (Hpt : 0 < 2 ^ init_shift khz) by (apply pow2_pos; lia).
  assert (Hpt2 : 2 ^ init_shift khz <= 2 * khz).
  { replace (init_shift khz) with (Z.succ (init_shift khz - 1)) by lia. rewrite Z.pow_succ_r by lia. lia. }
  assert (HP : Z.max 1 (secs * 1000 * khz / 2 ^ init_shift khz) * 2 ^ init_shift khz <= 480000 * khz + 2 * khz).
  { pose proof (Z.mul_div_le (secs * 1000 * khz) _ Hpt). nia. }
  revert Hq HP. generalize (secs * 1000 * khz / 2 ^ init_shift khz) as q. intros q Hq HP.
  set (C := Z.max 1 q * 2 ^ init_shift khz) in *. split_and!; [lia..| |].
  - change (2 ^ 63) with 9223372036854775808 in Hmax. change (2 ^ 31) with 2147483648 in Hk. lia.
  - pose proof (Z.mul_div_le (f1 + C) _ Hpi). pose proof (Z.mul_succ_div_gt f0 _ Hpi). nia.
Qed.

(** C7: The decision to trust the clock, and the time a number is kept.  With the
    clock as it is initialised from a rate of at least 4 MHz, a TIME_WAIT of up
    to the documented 480 seconds, and the two readings of a call within a
    millisecond: when [ci_tcp_clock_isn_safe] says so, every number the clock
    gives from now until 2 MSL have passed is after the old one; the time taken
    off the life of a record never exceeds 2 MSL; and a record that counts as
    expired before 2 MSL (less [K] ticks) have passed since it was remembered is
    one whose number the clock has reached, or will have reached [K] ticks later
    when the time of the stack was [K] ticks old at that moment.  Nothing is said
    of a record kept for its full 2 MSL: a number further ahead than that expires
    unreached ([isn_far_ahead_unreached]). *)
Theorem isn_cache_safe frc64 khz secs ni val s :
  let f0 := frc64 (frc_reads ni) in let f1 := frc64 (S (frc_reads ni)) in
  let t := ci_ip_time_frc2tick (iptimer_state ni) in let i := ci_ip_time_frc2isn (iptimer_state ni) in
  let P := tconst_peer2msl_time ni in
  4000 <= khz < 2 ^ 31 -> 0 <= secs <= CITP_TCP_ISN_2MSL_MAX -> clocked khz secs ni ->
  0 <= f0 <= f1 -> f1 - f0 <= khz -> f1 < 2 ^ 63 ->
  ((ci_tcp_clock_isn_safe frc64 val ni).2 = true -> forall f, f0 <= f <= f1 + P * 2 ^ t ->
     SEQ_GT (isn_at (conn_of val) i f) (seq_no val) = true) /\
  let e := expiry (seq_at (ci_tcp_prev_seq_remember_at frc64 val s ni) s) in
  (exists r, 0 <= r <= P /\ e = u32 (ci_ip_time_now ni + P - r)) /\
  forall K f, 0 <= K <= P -> K <= f1 / 2 ^ t -> ci_ip_time_now ni = u32 (f1 / 2 ^ t - K) ->
    f1 <= f -> f + K * 2 ^ t <= f1 + P * 2 ^ t -> ci_ip_time_before e (u32 (f / 2 ^ t)) = true ->
    SEQ_GE (isn_at (conn_of val) i (f + K * 2 ^ t)) (seq_no val) = true.
Proof.
  cbv zeta. intros Hk Hs Hc Hf Hgap Hmax.
  destruct (clocked_window khz secs ni _ _ Hk Hs Hc Hf Hgap Hmax) as (Hi & Ht & HP & Hgap' & Hmax' & Hwin).
  split; [intros G f Hin; by apply (clock_trusted frc64 ni)|]. split.
  - rewrite remember_at_expiry by done. destruct (expiry_reduced frc64 ni Hi Ht HP Hf Hgap' Hmax' Hwin val) as (r & E & Hr & _).
    by exists r.
  - intros K f. by apply dropped_late.
Qed.

(** * Example: a 2.6 GHz machine, TIME_WAIT of 240 seconds *)

Definition ex_frc (n : nat) : Z := 2 ^ 40 + Z.of_nat n * 1000.
Definition ex_clk : isn_netif :=
  mk_isn 16 ∅ (ci_ip_timer_state_init 1 2600000 (2 ^ 40) ex_mem) 148773 65537 1 1 O 0 0 0 0 0 0 0.
Definition ex_num (d : Z) : ci_tcp_prev_seq_t :=
  mk_pseq 0x0100a8c0 0x0200a8c0 1 0x5000 (u32 (isn_at (mk_conn 0x0100a8c0 1 0x0200a8c0 0x5000) 10 (2 ^ 40) + d)) 0 0.

Lemma ex_clocked : clocked 2600000 240 ex_clk.
Proof. split; [done|]. exists (2 ^ 40), ex_mem. by vm_compute. Qed.

(** A number 1000 behind the clock is left to it; one that is 1000 ahead is kept
    for one tick, and has been reached two ticks later. *)
Lemma isn_cache_safe_witness :
  (ci_tcp_clock_isn_safe ex_frc (ex_num (-1000)) ex_clk).2 = true /\
  SEQ_GT (isn_at (conn_of (ex_num (-1000))) 10 (2 ^ 40 + 2 ^ 39)) (seq_no (ex_num (-1000))) = true /\
  expiry (seq_at (ci_tcp_prev_seq_remember_at ex_frc (ex_num 1000) 3 ex_clk) 3) = 2 ^ 18 + 1 /\
  SEQ_GE (isn_at (conn_of (ex_num 1000)) 10 (2 ^ 40 + 2 ^ 23)) (seq_no (ex_num 1000)) = true.
Proof.
  assert (Es : (ci_tcp_clock_isn_safe ex_frc (ex_num (-1000)) ex_clk).2 = true) by (vm_compute; reflexivity).
  assert (Ee : expiry (seq_at (ci_tcp_prev_seq_remember_at ex_frc (ex_num 1000) 3 ex_clk) 3) = 2 ^ 18 + 1)
    by (vm_compute; reflexivity).
  pose proof ex_clocked as Hc. assert (Hm : CITP_TCP_ISN_2MSL_MAX = 480) by done.
  destruct (isn_cache_safe ex_frc 2600000 240 ex_clk (ex_num (-1000)) 3) as (H1 & _);
    [lia|lia|exact Hc|vm_compute; by split|vm_compute; discriminate|vm_compute; reflexivity|].
  destruct (isn_cache_safe ex_frc 2600000 240 ex_clk (ex_num 1000) 3) as (_ & _ & H2);
    [lia|lia|exact Hc|vm_compute; by split|vm_compute; discriminate|vm_compute; reflexivity|].
  split; [exact Es|]. split; [apply (H1 Es); vm_compute; by split|]. split; [exact Ee|].
  specialize (H2 0 (2 ^ 40 + 2 ^ 23)). rewrite Z.mul_0_l, Z.add_0_r in H2. apply H2;
    [vm_compute; by split|vm_compute; discriminate|vm_compute; reflexivity|vm_compute; discriminate|vm_compute; discriminate|].
  rewrite Ee. vm_compute. reflexivity.
Defined.

(** A number 2^30 ahead of the clock is kept for the whole 2 MSL, and the clock
    has not reached it when the record expires. *)
Example isn_far_ahead_unreached :
  let e := expiry (seq_at (ci_tcp_prev_seq_remember_at ex_frc (ex_num (2 ^ 30)) 3 ex_clk) 3) in
  e = u32 (ci_ip_time_now ex_clk + tconst_peer2msl_time ex_clk) /\
  SEQ_GE (isn_at (conn_of (ex_num (2 ^ 30))) 10 (2 ^ 40 + (tconst_peer2msl_time ex_clk + 1) * 2 ^ 22))
    (seq_no (ex_num (2 ^ 30))) = false.
Proof. vm_compute. by split. Qed.
