(* ===== verification/Eplock.v ===== *)
(** The lock of a stack ([ci_eplock_t]): include/onload/eplock.h,
    lib/transport/ip/eplock_slow.c, lib/efthrm/eplock_resource_manager.c, and the
    code of lib/transport/ip/netif.c and lib/efthrm/tcp_helper_resource.c that
    releases it.

    The lock is one 64-bit word shared by all the processes of a stack and the
    kernel.  One bit says that it is held, one that somebody sleeps until it is
    free; twenty-one bits are the head of a list of sockets whose work has been
    left to the holder, and others are alerts to the holder.  Every change of the
    word is a compare-and-swap that others can get in the way of, so the code is
    modelled as trees of atomic actions, which file EplockSystem interleaves.
    This file holds the code; EplockLogic a logic for it; EplockCode its use on
    each function; EplockSystem the theorems. *)

From stdpp Require Import base gmap list.
From S2P Require Import Prelude.

Open Scope Z_scope.

(** * The word *)

Definition CI_EPLOCK_LOCKED := 0x20000000.
Definition CI_EPLOCK_FL_NEED_WAKE := 0x40000000.
Definition CI_EPLOCK_LOCK_FLAGS := 0x70000000.
Definition CI_EPLOCK_CALLBACK_FLAGS := 0xffffffff8fffffff.
Definition CI_EPLOCK_NETIF_SOCKET_LIST := 0x001fffff.
Definition CI_EPLOCK_NETIF_IS_PKT_WAITER := 0x80000000.
Definition CI_EPLOCK_NETIF_NEED_PRIME := 0x1000000000000000.
Definition CI_EPLOCK_NETIF_NEED_POLL := 0x2000000000000000.
Definition CI_EPLOCK_NETIF_CLOSE_ENDPOINT := 0x4000000000000000.
Definition CI_EPLOCK_NETIF_NEED_WAKE := 0x8000000000000000.
Definition CI_EPLOCK_NETIF_PKT_WAKE := 0x0100000000000000.
Definition CI_EPLOCK_NETIF_SWF_UPDATE := 0x0200000000000000.
Definition CI_EPLOCK_NETIF_MERGE_ATOMIC_COUNTERS := 0x0400000000000000.
Definition CI_EPLOCK_NETIF_NEED_PKT_SET := 0x0800000000000000.
Definition CI_EPLOCK_NETIF_PURGE_TXQS := 0x0010000000000000.
Definition CI_EPLOCK_NETIF_KERNEL_PACKETS := 0x0020000000000000.
Definition CI_EPLOCK_NETIF_FREE_READY_LIST := 0x0008000000000000.
Definition CI_EPLOCK_NETIF_HAS_DEFERRED_PKTS := 0x0004000000000000.
Definition CI_EPLOCK_NETIF_NEED_SOCK_BUFS := 0x0002000000000000.
Definition CI_EPLOCK_NETIF_UNLOCK_FLAGS := 0xff3a000000000000.

(** [v & m] as a condition. *)
Definition has (v m : Z) : bool := nz (Z.land v m).

Definition EAGAIN := 11.
Definition EINTR := 4.
Definition ETIMEDOUT := 110.
Definition ECANCELED := 125.
Definition ERESTARTSYS := 512.
Definition MAX_SCHEDULE_TIMEOUT := 0x7fffffffffffffff.

(** * Actions *)

(** Work that is done by calls into the rest of the stack and the kernel. *)
Inductive job :=
  | Crit (n : Z)              (** what a client does with the lock *)
  | DeferredWork (w : Z)      (** [citp_waitable_deferred_work] *)
  | Poll                      (** [ci_netif_poll] *)
  | DeferredSend              (** [oo_deferred_send] *)
  | MergeCounters             (** [ci_netif_merge_atomic_counters] *)
  | SwFilterApply             (** [oof_cb_sw_filter_apply] *)
  | WakeupPostPoll            (** [wakeup_post_poll_list] *)
  | MoreBufs                  (** [efab_tcp_helper_more_bufs] *)
  | MoreSocks                 (** [efab_tcp_helper_more_socks] *)
  | PurgeTxq                  (** [tcp_helper_purge_txq_locked] *)
  | InjectPackets             (** [oo_inject_packets_kernel] *)
  | FreeReadyLists            (** [ci_netif_free_ready_lists] *)
  | CloseEndpoints            (** [tcp_helper_close_pending_endpoints] *)
  | TrustedDrop               (** [oo_trusted_lock_drop] *)
  | EventqPrime (i : Z)       (** [ef_eventq_prime] *)
  | RequestWakeupNic (i : Z)  (** [tcp_helper_request_wakeup_nic] *)
  | RequestWakeup             (** [tcp_helper_request_wakeup] *)
  | PktWakeup                 (** [ci_waitq_wakeup] of the packet queue *)
  | DeferDl2Work.             (** [tcp_helper_defer_dl2work] *)

(** What the code asks of state that is not modelled. *)
Inductive query :=
  | SpinStackLock             (** the thread spins on stack locks *)
  | StillBuzzing              (** [now_frc - start_frc < buzz_cycles] *)
  | SignalPending             (** [signal_pending(current)] *)
  | TxCanAlloc                (** [ci_netif_pkt_tx_can_alloc_now] *)
  | AvoidWakeupFromDl         (** [oo_avoid_wakeup_from_dl] *)
  | Orphaned                  (** [ref_count == 0] *)
  | WantProactive             (** [want_proactive_packet_allocation] *)
  | TrustedLock               (** [oo_trusted_lock_lock_or_set_flags] *)
  | IntDriven                 (** [NI_OPTS(ni).int_driven] *)
  | PrimeDeferred (i : Z).    (** [ci_bit_test_and_clear(&evq_prime_deferred, i)] *)

Inductive stat :=
  | lock_wakes | stack_lock_buzz | defer_work_limited | deferred_work | unlock_slow_socket_list
  | unlock_slow_pkt_waiter | deferred_polls | unlock_slow_need_prime | unlock_slow_prime_ul | unlock_slow_syscall
  | unlock_slow | unlock_slow_swf_update | unlock_slow_wake | unlock_slow_close | pkt_wakes | defer_work_contended_unsafe.

Inductive task_state := TASK_RUNNING | TASK_INTERRUPTIBLE.

(** One atomic action, by the type of its result. *)
Inductive action : Set -> Type :=
  | LockLoad : action Z                              (** [l->lock] *)
  | LockCas (oldval newval : Z) : action bool        (** [ci_cas64u_succeed] *)
  | NextLoad (w : Z) : action Z                      (** [w->next_id] *)
  | NextStore (w v : Z) : action unit
  | DeferredTas (w : Z) : action bool                (** [ci_bit_test_and_set(&w->sb_aflags, DEFERRED_BIT)] *)
  | DeferredClear (w : Z) : action unit              (** [ci_bit_clear] *)
  | CountLoad : action Z                             (** [defer_work_count] *)
  | CountStore (n : Z) : action unit
  | DlFlag (set : bool) : action unit                (** [CI_NETIF_FLAG_IN_DL_CONTEXT] of [ni->flags] *)
  | AddWaitQueue : action unit                       (** [add_wait_queue(&wq, &wait)] *)
  | RemoveWaitQueue : action unit
  | SetCurrentState (s : task_state) : action unit
  | ScheduleTimeout (timeout : Z) : action Z
  | WakeUp : action unit                             (** [wake_up_interruptible(&wq)] *)
  | Stat (s : stat) : action unit
  | Ask (q : query) : action bool
  | Work (j : job) : action bool
  | Fail : action Empty_set.                         (** [CI_TEST(0)] *)

(** * Programs *)

Inductive prog (A : Type) : Type :=
  | Ret (a : A)
  | Act (R : Set) (a : action R) (k : R -> prog A)
  | Loop (S B : Set) (body : S -> prog (S + B)) (s : S) (k : B -> prog A).
Arguments Ret {A}.
Arguments Act {A R}.
Arguments Loop {A S B}.

Fixpoint pbind {A B : Type} (p : prog A) (f : A -> prog B) : prog B :=
  match p with
  | Ret a => f a
  | Act a k => Act a (fun r => pbind (k r) f)
  | Loop body s k => Loop body s (fun b => pbind (k b) f)
  end.

(** One turn of a loop. *)
Definition unroll {A : Type} {S B : Set} (body : S -> prog (S + B)) (s : S) (k : B -> prog A) : prog A :=
  pbind (body s) (fun r => match r with inl s => Loop body s k | inr b => k b end).

Declare Scope prog_scope.
Delimit Scope prog_scope with prog.
Notation "x <- p ;; q" := (pbind p (fun x => q)) (at level 100, p at next level, right associativity) : prog_scope.
Notation "p ;;; q" := (pbind p (fun _ => q)) (at level 100, right associativity) : prog_scope.
Open Scope prog_scope.

Definition act {R : Set} (a : action R) : prog R := Act a Ret.

(** [while(1)]: [None] goes round again. *)
Definition forever {B : Set} (body : prog (option B)) : prog B :=
  Loop (fun _ : unit => r <- body ;; Ret (match r with None => inl tt | Some b => inr b end)) tt Ret.

Definition when (b : bool) (p : prog unit) : prog unit := if b then p else Ret tt.
Definition work (j : job) : prog unit := act (Work j) ;;; Ret tt.
Definition for_each (l : list Z) (p : Z -> prog unit) : prog unit := foldr (fun i q => p i ;;; q) (Ret tt) l.

(** * include/onload/eplock.h *)

Definition ef_eplock_trylock : prog bool :=
  v <- act LockLoad ;;
  if negb (has v CI_EPLOCK_LOCKED) then act (LockCas v (Z.lor v CI_EPLOCK_LOCKED)) else Ret false.

Definition ef_eplock_holder_set_flag (flag : Z) : prog unit :=
  forever (
    v <- act LockLoad ;;
    if has v flag then Ret (Some tt)
    else b <- act (LockCas v (Z.lor v flag)) ;; Ret (if b then Some tt else None)).

Definition ef_eplock_holder_set_flags (flags : Z) : prog unit :=
  forever (
    v <- act LockLoad ;;
    if Z.land v flags =? flags then Ret (Some tt)
    else b <- act (LockCas v (Z.lor v flags)) ;; Ret (if b then Some tt else None)).

Definition ef_eplock_clear_flags (flags : Z) : prog Z :=
  forever (
    v <- act LockLoad ;;
    b <- act (LockCas v (Z.ldiff v flags)) ;; Ret (if b then Some v else None)).

Definition ef_eplock_set_flag_if_locked (flag : Z) : prog bool :=
  forever (
    v <- act LockLoad ;;
    if negb (has v CI_EPLOCK_LOCKED) then Ret (Some false)
    else if has v flag then Ret (Some true)
    else b <- act (LockCas v (Z.lor v flag)) ;; Ret (if b then Some true else None)).

Definition ef_eplock_set_flags_if_locked (flags : Z) : prog bool :=
  forever (
    v <- act LockLoad ;;
    if negb (has v CI_EPLOCK_LOCKED) then Ret (Some false)
    else if Z.land v flags =? flags then Ret (Some true)
    else b <- act (LockCas v (Z.lor v flags)) ;; Ret (if b then Some true else None)).

Definition ef_eplock_trylock_and_set_flags (flags : Z) : prog bool :=
  forever (
    v <- act LockLoad ;;
    b <- act (LockCas v (Z.lor (Z.lor v CI_EPLOCK_LOCKED) flags)) ;;
    Ret (if b then Some (negb (has v CI_EPLOCK_LOCKED)) else None)).

Definition ef_eplock_lock_or_set_flag (flag : Z) : prog bool :=
  forever (
    v <- act LockLoad ;;
    if negb (has v CI_EPLOCK_LOCKED) then
      b <- act (LockCas v (Z.lor v CI_EPLOCK_LOCKED)) ;; Ret (if b then Some true else None)
    else if has v flag then Ret (Some false)
    else b <- act (LockCas v (Z.lor v flag)) ;; Ret (if b then Some false else None)).

Definition ef_eplock_lock_or_set_flags (flags : Z) : prog bool :=
  forever (
    v <- act LockLoad ;;
    if negb (has v CI_EPLOCK_LOCKED) then
      b <- act (LockCas v (Z.lor v CI_EPLOCK_LOCKED)) ;; Ret (if b then Some true else None)
    else if Z.land v flags =? flags then Ret (Some false)
    else b <- act (LockCas v (Z.lor v flags)) ;; Ret (if b then Some false else None)).

(** The outcome and [*lock_val_out]. *)
Definition ef_eplock_try_unlock (flag_mask : Z) : prog (bool * Z) :=
  lv <- act LockLoad ;;
  let unlock := Z.ldiff lv (Z.lor CI_EPLOCK_LOCKED CI_EPLOCK_FL_NEED_WAKE) in
  if has lv flag_mask then Ret (false, lv) else b <- act (LockCas lv unlock) ;; Ret (b, lv).

Definition ef_eplock_flags : prog Z :=
  v <- act LockLoad ;; Ret (Z.land v (Z.lor CI_EPLOCK_FL_NEED_WAKE CI_EPLOCK_CALLBACK_FLAGS)).

Definition ef_eplock_is_locked : prog bool := v <- act LockLoad ;; Ret (has v CI_EPLOCK_LOCKED).

(** * lib/efthrm/eplock_resource_manager.c: waiting *)

Definition efab_eplock_is_unlocked_or_request_wake : prog bool :=
  forever (
    l <- act LockLoad ;;
    if has l CI_EPLOCK_LOCKED then
      if has l CI_EPLOCK_FL_NEED_WAKE then Ret (Some true)
      else b <- act (LockCas l (Z.lor l CI_EPLOCK_FL_NEED_WAKE)) ;; Ret (if b then Some true else None)
    else Ret (Some false)).

Definition oo_eplock_lock_or_request_wake : prog bool :=
  forever (
    l <- act LockLoad ;;
    if has l CI_EPLOCK_LOCKED then
      if has l CI_EPLOCK_FL_NEED_WAKE then Ret (Some true)
      else b <- act (LockCas l (Z.lor l CI_EPLOCK_FL_NEED_WAKE)) ;; Ret (if b then Some true else None)
    else b <- act (LockCas l (Z.lor l CI_EPLOCK_LOCKED)) ;; Ret (if b then Some false else None)).

Definition efab_eplock_lock_wait (maybe_wedged : bool) : prog Z :=
  act AddWaitQueue ;;;
  rc <- forever (
    act (SetCurrentState TASK_INTERRUPTIBLE) ;;;
    rc <- efab_eplock_is_unlocked_or_request_wake ;;
    if negb rc then Ret (Some 0)
    else
      act (ScheduleTimeout MAX_SCHEDULE_TIMEOUT) ;;;
      sig <- act (Ask SignalPending) ;;
      if sig then Ret (Some (- ERESTARTSYS))
      else if maybe_wedged then Ret (Some (- ECANCELED))
      else Ret None) ;;
  act RemoveWaitQueue ;;;
  act (SetCurrentState TASK_RUNNING) ;;;
  Ret rc.

(** The result and [*timeout_jiffies]. *)
Definition oo_eplock_lock (timeout_jiffies : Z) (maybe_wedged : bool) : prog (Z * Z) :=
  act AddWaitQueue ;;;
  r <- Loop (fun timeout_jiffies : Z =>
    act (SetCurrentState TASK_INTERRUPTIBLE) ;;;
    rc <- oo_eplock_lock_or_request_wake ;;
    if negb rc then Ret (inr (0, timeout_jiffies))
    else
      timeout_jiffies <- act (ScheduleTimeout timeout_jiffies) ;;
      if timeout_jiffies =? 0 then Ret (inr (- ETIMEDOUT, timeout_jiffies))
      else
        sig <- act (Ask SignalPending) ;;
        if sig then Ret (inr (- ERESTARTSYS, timeout_jiffies))
        else if maybe_wedged then Ret (inr (- ECANCELED, timeout_jiffies))
        else Ret (inl timeout_jiffies)) timeout_jiffies Ret ;;
  act RemoveWaitQueue ;;;
  act (SetCurrentState TASK_RUNNING) ;;;
  Ret r.

Definition schedule_timeout_interruptible (timeout : Z) : prog Z :=
  act (SetCurrentState TASK_INTERRUPTIBLE) ;;; act (ScheduleTimeout timeout).

Definition efab_eplock_lock_timeout (timeout_jiffies : Z) : prog Z :=
  t <- ef_eplock_trylock ;;
  if t then Ret 0
  else
    act AddWaitQueue ;;;
    rc <- Loop (fun timeout_jiffies : Z =>
      if 0 <? timeout_jiffies then
        rq <- efab_eplock_is_unlocked_or_request_wake ;;
        timeout_jiffies <- (if rq then schedule_timeout_interruptible timeout_jiffies else Ret timeout_jiffies) ;;
        t <- ef_eplock_trylock ;;
        Ret (if t then inr 0 else inl timeout_jiffies)
      else Ret (inr (- EAGAIN))) timeout_jiffies Ret ;;
    act RemoveWaitQueue ;;;
    Ret rc.

(** * Locking from user level *)

Section user.
(** The kernel's conversion. *)
Context (msecs_to_jiffies : Z -> Z).

(** The system call: a signal shows as [-EINTR]. *)
Definition oo_eplock_lock_rsop (timeout_ms : Z) : prog Z :=
  let timeout_jiffies :=
    if 0 <=? timeout_ms then Z.min (msecs_to_jiffies timeout_ms) MAX_SCHEDULE_TIMEOUT else MAX_SCHEDULE_TIMEOUT in
  r <- oo_eplock_lock timeout_jiffies false ;;
  Ret (if r.1 =? - ERESTARTSYS then - EINTR else r.1).

Definition __ef_eplock_lock_slow (timeout : Z) : prog Z :=
  spin <- act (Ask SpinStackLock) ;;
  got <- (if spin then
    act (Stat stack_lock_buzz) ;;;
    forever (
      go <- act (Ask StillBuzzing) ;;
      if negb go then Ret (Some false)
      else t <- ef_eplock_trylock ;; Ret (if t then Some true else None))
    else Ret false) ;;
  if got then Ret 0
  else forever (
    rc <- oo_eplock_lock_rsop (s32 timeout) ;;
    if (rc =? 0) || (rc =? - ETIMEDOUT) then Ret (Some rc)
    else if rc =? - EINTR then Ret None
    else act Fail ;;; Ret None).

Definition OO_EPLOCK_TIMEOUT_INFTY := -1.

Definition ef_eplock_lock : prog Z :=
  b <- act (LockCas 0 CI_EPLOCK_LOCKED) ;;
  when (negb b) (__ef_eplock_lock_slow OO_EPLOCK_TIMEOUT_INFTY ;;; Ret tt) ;;;
  Ret 0.

(** * lib/transport/ip/netif.c: work left to the holder *)

(** [++ni->state->defer_work_count]. *)
Definition count_inc : prog unit :=
  n <- act CountLoad ;; act (CountStore (u32 (n + 1))).

(** The user-level build, where [ci_netif_lock] does not fail: the branches for a
    lock not obtained, which only a signal in the kernel's build leads to, are
    those of the code and are not taken. *)
Definition ci_netif_lock_or_defer_work (defer_work_limit w : Z) : prog bool :=
  n <- act CountLoad ;;
  rc <- (if defer_work_limit <=? n then ef_eplock_lock else Ret 1) ;;
  if rc =? 0 then
    act (Stat defer_work_limited) ;;; work (DeferredWork w) ;;; Ret true
  else
    old <- act (DeferredTas w) ;;
    if old then
      rc <- ef_eplock_lock ;;
      if rc =? 0 then work (DeferredWork w) ;;; Ret true
      else act (Stat defer_work_contended_unsafe) ;;; count_inc ;;; Ret false
    else
      forever (
        v <- act LockLoad ;;
        if negb (has v CI_EPLOCK_LOCKED) then
          t <- ef_eplock_trylock ;;
          if t then act (DeferredClear w) ;;; work (DeferredWork w) ;;; Ret (Some true)
          else Ret None
        else
          act (NextStore w (Z.land v CI_EPLOCK_NETIF_SOCKET_LIST)) ;;;
          b <- act (LockCas v (Z.lor (Z.ldiff v CI_EPLOCK_NETIF_SOCKET_LIST) (w + 1))) ;;
          if b then count_inc ;;; Ret (Some false) else Ret None).

(** The list given is not empty; the turns are one per socket. *)
Definition ci_netif_perform_deferred_socket_work (sock_id : Z) : prog unit :=
  Loop (fun sock_id : Z =>
    let w := sock_id - 1 in
    sock_id <- act (NextLoad w) ;;
    act (DeferredClear w) ;;;
    act (Stat deferred_work) ;;;
    work (DeferredWork w) ;;;
    Ret (if 0 <? sock_id then inl sock_id else inr tt)) sock_id Ret.

Definition ci_netif_purge_deferred_socket_list : prog Z :=
  forever (
    l <- act LockLoad ;;
    if has l CI_EPLOCK_NETIF_SOCKET_LIST then
      b <- act (LockCas l (Z.ldiff l CI_EPLOCK_NETIF_SOCKET_LIST)) ;;
      when b (ci_netif_perform_deferred_socket_work (Z.land l CI_EPLOCK_NETIF_SOCKET_LIST)) ;;;
      Ret None
    else Ret (Some l)).

(** * Releasing the lock *)

Definition ALL_HANDLED_FLAGS : Z :=
  Z.lor (Z.lor (Z.lor CI_EPLOCK_NETIF_IS_PKT_WAITER CI_EPLOCK_NETIF_NEED_POLL) CI_EPLOCK_NETIF_HAS_DEFERRED_PKTS)
    CI_EPLOCK_NETIF_MERGE_ATOMIC_COUNTERS.

Definition ci_netif_unlock_slow_common (lock_val : Z) : prog Z :=
  when (has lock_val CI_EPLOCK_NETIF_SOCKET_LIST)
    (act (Stat unlock_slow_socket_list) ;;; ci_netif_purge_deferred_socket_list ;;; Ret tt) ;;;
  lock_val <- ef_eplock_clear_flags ALL_HANDLED_FLAGS ;;
  set_flags <- (if has lock_val CI_EPLOCK_NETIF_IS_PKT_WAITER then
      can <- act (Ask TxCanAlloc) ;;
      if can then act (Stat unlock_slow_pkt_waiter) ;;; Ret CI_EPLOCK_NETIF_PKT_WAKE
      else Ret CI_EPLOCK_NETIF_IS_PKT_WAITER
    else Ret 0) ;;
  when (has lock_val CI_EPLOCK_NETIF_NEED_POLL) (act (Stat deferred_polls) ;;; work Poll) ;;;
  set_flags <- (if has lock_val CI_EPLOCK_NETIF_HAS_DEFERRED_PKTS then
      sent <- act (Work DeferredSend) ;;
      Ret (if negb sent then Z.lor set_flags CI_EPLOCK_NETIF_HAS_DEFERRED_PKTS else set_flags)
    else Ret set_flags) ;;
  when (has lock_val CI_EPLOCK_NETIF_MERGE_ATOMIC_COUNTERS) (work MergeCounters) ;;;
  ef_eplock_holder_set_flags set_flags ;;;
  Ret (Z.ldiff (Z.lor lock_val set_flags) ALL_HANDLED_FLAGS).
(** The network interfaces of the stack. *)
Context (intfs : list Z).

Definition all_after_unlock_flags : Z := Z.lor CI_EPLOCK_NETIF_NEED_PRIME CI_EPLOCK_NETIF_PKT_WAKE.

(** Handle one of [flags_set]. *)
Definition on_flag (flags_set flag : Z) (p : prog unit) : prog Z :=
  if has flags_set flag then p ;;; Ret (Z.ldiff flags_set flag) else Ret flags_set.

(** The variables of the loop: whether [in_dl_context] is stored again (not after
    [goto again]), [lock_val], [after_unlock_flags] and [pkt_waiter_retried].  It
    ends with a value to return at once, or with the first two of the rest. *)
Definition lock_callback_body (in_dl_context : bool) (st : bool * Z * Z * bool)
    : prog ((bool * Z * Z * bool) + (Z + Z * Z)) :=
  let '(start, lock_val, after_unlock_flags, pkt_waiter_retried) := st in
  when (in_dl_context && start) (act (DlFlag true)) ;;;
  lock_val <- ci_netif_unlock_slow_common lock_val ;;
  orphaned <- act (Ask Orphaned) ;;
  let flags_set := Z.land lock_val CI_EPLOCK_NETIF_UNLOCK_FLAGS in
  ef_eplock_clear_flags flags_set ;;;
  let after_unlock_flags := Z.lor after_unlock_flags (Z.land flags_set all_after_unlock_flags) in
  let to_workitem flags :=
    ef_eplock_holder_set_flags (Z.lor after_unlock_flags flags) ;;; work DeferDl2Work ;;; Ret (inr (inl 0)) in
  flags_set <- on_flag flags_set CI_EPLOCK_NETIF_SWF_UPDATE
    (work SwFilterApply ;;; act (Stat unlock_slow_swf_update)) ;;
  avoid <- (if has flags_set CI_EPLOCK_NETIF_NEED_WAKE && in_dl_context then act (Ask AvoidWakeupFromDl) else Ret false) ;;
  if avoid then to_workitem flags_set else
  flags_set <- on_flag flags_set CI_EPLOCK_NETIF_NEED_WAKE (work WakeupPostPoll ;;; act (Stat unlock_slow_wake)) ;;
  more <- (if has flags_set CI_EPLOCK_NETIF_NEED_PKT_SET then Ret true
           else if negb orphaned then act (Ask WantProactive) else Ret false) ;;
  if more && in_dl_context then to_workitem flags_set else
  flags_set <- (if more then work MoreBufs ;;; Ret (Z.ldiff flags_set CI_EPLOCK_NETIF_NEED_PKT_SET) else Ret flags_set) ;;
  if has flags_set CI_EPLOCK_NETIF_NEED_SOCK_BUFS && in_dl_context then to_workitem flags_set else
  flags_set <- on_flag flags_set CI_EPLOCK_NETIF_NEED_SOCK_BUFS (work MoreSocks) ;;
  flags_set <- on_flag flags_set CI_EPLOCK_NETIF_PURGE_TXQS (work PurgeTxq) ;;
  flags_set <- on_flag flags_set CI_EPLOCK_NETIF_KERNEL_PACKETS (work InjectPackets) ;;
  flags_set <- on_flag flags_set CI_EPLOCK_NETIF_FREE_READY_LIST (work FreeReadyLists) ;;
  deferred <- (if has flags_set CI_EPLOCK_NETIF_CLOSE_ENDPOINT then
      both <- act (Ask TrustedLock) ;;
      if both then
        if in_dl_context then
          when (nz after_unlock_flags) (ef_eplock_holder_set_flags after_unlock_flags) ;;; work DeferDl2Work ;;; Ret true
        else work CloseEndpoints ;;; work TrustedDrop ;;; act (Stat unlock_slow_close) ;;; Ret false
      else Ret false
    else Ret false) ;;
  if deferred then Ret (inr (inl 0)) else
  again <- (if negb pkt_waiter_retried then
      v <- act LockLoad ;;
      if has v CI_EPLOCK_NETIF_IS_PKT_WAITER then act (Ask TxCanAlloc) else Ret false
    else Ret false) ;;
  if again then Ret (inl (false, lock_val, after_unlock_flags, true)) else
  when in_dl_context (act (DlFlag false)) ;;;
  r <- ef_eplock_try_unlock (Z.lor CI_EPLOCK_NETIF_UNLOCK_FLAGS CI_EPLOCK_NETIF_SOCKET_LIST) ;;
  Ret (if r.1 : bool then inr (inr (r.2, after_unlock_flags))
       else inl (true, r.2, after_unlock_flags, pkt_waiter_retried)).

Definition efab_tcp_helper_netif_lock_callback (lock_val : Z) (in_dl_context : bool) : prog Z :=
  r <- Loop (lock_callback_body in_dl_context) (true, lock_val, 0, false) Ret ;;
  match r with
  | inl rc => Ret rc
  | inr (lock_val, after_unlock_flags) =>
    act (CountStore 0) ;;;
    when (has after_unlock_flags CI_EPLOCK_NETIF_NEED_PRIME)
      (act (Stat unlock_slow_need_prime) ;;;
       int_driven <- act (Ask IntDriven) ;;
       if int_driven then
         for_each intfs (fun intf_i =>
           b <- act (Ask (PrimeDeferred intf_i)) ;; when b (work (RequestWakeupNic intf_i)))
       else work RequestWakeup) ;;;
    when (has after_unlock_flags CI_EPLOCK_NETIF_PKT_WAKE) (act (Stat pkt_wakes) ;;; work PktWakeup) ;;;
    Ret lock_val
  end.

Definition efab_eplock_unlock_and_wake (in_dl_context : bool) : prog unit :=
  l <- act LockLoad ;;
  when in_dl_context (act (DlFlag false)) ;;;
  l <- Loop (fun l : Z =>
    if has l CI_EPLOCK_CALLBACK_FLAGS then
      l <- efab_tcp_helper_netif_lock_callback l in_dl_context ;; Ret (inr l)
    else
      b <- act (LockCas l 0) ;;
      if b then Ret (inr l) else l <- act LockLoad ;; Ret (inl l)) l Ret ;;
  when (has l CI_EPLOCK_FL_NEED_WAKE) (act (Stat lock_wakes) ;;; act WakeUp).

(** User level; the system call runs [efab_eplock_unlock_and_wake(ni, 0)]. *)
Definition ci_netif_unlock_slow : prog unit :=
  l <- act LockLoad ;;
  after_unlock_flags <- ci_netif_unlock_slow_common l ;;
  act (CountStore 0) ;;;
  let prime := has after_unlock_flags CI_EPLOCK_NETIF_NEED_PRIME in
  when prime (ef_eplock_clear_flags CI_EPLOCK_NETIF_NEED_PRIME ;;; Ret tt) ;;;
  l <- act LockLoad ;;
  b <- (if negb (has l (Z.lor (Z.lor CI_EPLOCK_NETIF_UNLOCK_FLAGS CI_EPLOCK_NETIF_SOCKET_LIST) CI_EPLOCK_FL_NEED_WAKE))
        then act (LockCas l (Z.ldiff l CI_EPLOCK_LOCKED)) else Ret false) ;;
  if b then
    when prime
      (act (Stat unlock_slow_need_prime) ;;; act (Stat unlock_slow_prime_ul) ;;;
       for_each intfs (fun intf_i => work (EventqPrime intf_i)))
  else
    when prime (ef_eplock_holder_set_flag CI_EPLOCK_NETIF_NEED_PRIME) ;;;
    act (Stat unlock_slow_syscall) ;;;
    efab_eplock_unlock_and_wake false.

Definition ci_netif_unlock : prog unit :=
  v <- act LockLoad ;;
  b <- (if v =? CI_EPLOCK_LOCKED then act (LockCas CI_EPLOCK_LOCKED 0) else Ret false) ;;
  if b then Ret tt else act (Stat unlock_slow) ;;; ci_netif_unlock_slow.

(** In the kernel. *)
Definition ci_netif_unlock_kernel (in_dl_context : bool) : prog unit :=
  act (DlFlag false) ;;;
  v <- act LockLoad ;;
  b <- (if v =? CI_EPLOCK_LOCKED then act (LockCas CI_EPLOCK_LOCKED 0) else Ret false) ;;
  if b then Ret tt else act (Stat unlock_slow) ;;; efab_eplock_unlock_and_wake in_dl_context.
End user.
