(* ===== verification/EplockLogic.v ===== *)
(** Threads that run the code of file Eplock, and a logic for them: a thread's
    program is checked on its own against rules for what each action may do, and
    the rules keep an invariant of the whole system. *)

From stdpp Require Import base gmap list.
From S2P Require Import Prelude Eplock.

Open Scope Z_scope.

(** * The machine *)

(** What the threads share.  [asleep] are the tasks in state
    [TASK_INTERRUPTIBLE].  The last three fields are not in the program: the
    thread whose swap set the lock bit last, the work done, by whom and under
    whose lock, and the alerts that have been taken out of the word and not been
    handled yet. *)
Record lstate := mk_lstate {
  word : Z;
  next_id : gmap Z Z;
  deferred : gset Z;
  count : Z;
  dl_flag : bool;
  queue : gset nat;
  asleep : gset nat;
  owner : option nat;
  log : list (nat * option nat * job);
  taken : Z }.

#[global] Instance lstate_eta : Eta lstate.
Proof.
  refine {| eta := fun r => mk_lstate (word r) (next_id r) (deferred r) (count r) (dl_flag r) (queue r) (asleep r)
    (owner r) (log r) (taken r) |}. solve_eta.
Defined.

Definition next_of (s : lstate) (w : Z) : Z := default 0 (next_id s !! w).

(** The bits of the word. *)
Definition lk (v : Z) : bool := has v CI_EPLOCK_LOCKED.
Definition nw (v : Z) : bool := has v CI_EPLOCK_FL_NEED_WAKE.
Definition hd (v : Z) : Z := Z.land v CI_EPLOCK_NETIF_SOCKET_LIST.
Definition un (v : Z) : Z := Z.land v CI_EPLOCK_NETIF_UNLOCK_FLAGS.

(** The alerts that are to be handled with the lock held, and the work that does
    so.  (The others, for packet buffers and for priming event queues, are
    followed up when the lock has been let go.) *)
Definition under_lock : Z :=
  foldr Z.lor 0 [CI_EPLOCK_NETIF_NEED_POLL; CI_EPLOCK_NETIF_CLOSE_ENDPOINT; CI_EPLOCK_NETIF_NEED_WAKE;
    CI_EPLOCK_NETIF_SWF_UPDATE; CI_EPLOCK_NETIF_MERGE_ATOMIC_COUNTERS; CI_EPLOCK_NETIF_NEED_PKT_SET;
    CI_EPLOCK_NETIF_PURGE_TXQS; CI_EPLOCK_NETIF_KERNEL_PACKETS; CI_EPLOCK_NETIF_FREE_READY_LIST;
    CI_EPLOCK_NETIF_HAS_DEFERRED_PKTS; CI_EPLOCK_NETIF_NEED_SOCK_BUFS].

Definition handles (j : job) : Z :=
  match j with
  | Poll => CI_EPLOCK_NETIF_NEED_POLL
  | DeferredSend => CI_EPLOCK_NETIF_HAS_DEFERRED_PKTS
  | MergeCounters => CI_EPLOCK_NETIF_MERGE_ATOMIC_COUNTERS
  | SwFilterApply => CI_EPLOCK_NETIF_SWF_UPDATE
  | WakeupPostPoll => CI_EPLOCK_NETIF_NEED_WAKE
  | MoreBufs => CI_EPLOCK_NETIF_NEED_PKT_SET
  | MoreSocks => CI_EPLOCK_NETIF_NEED_SOCK_BUFS
  | PurgeTxq => CI_EPLOCK_NETIF_PURGE_TXQS
  | InjectPackets => CI_EPLOCK_NETIF_KERNEL_PACKETS
  | FreeReadyLists => CI_EPLOCK_NETIF_FREE_READY_LIST
  | _ => 0
  end.

(** Sockets to be closed are closed, or left to the holder of the trusted lock. *)
Definition settles (q : query) : Z := match q with TrustedLock => CI_EPLOCK_NETIF_CLOSE_ENDPOINT | _ => 0 end.

Definition cleared (old new : Z) : Z := Z.land (Z.ldiff old new) under_lock.

(** Action [a] of thread [t]; [c] is what the environment answers, [None] when it
    cannot answer that.  Memory is sequentially consistent.  A sleep can end at
    any time, by a signal, the time or a wake-up; what it returns follows the
    documentation of [schedule_timeout]. *)
Definition aexec (t : nat) {R : Set} (a : action R) (c : Z) (s : lstate) : option (R * lstate) :=
  match a in action R return option (R * lstate) with
  | LockLoad => Some (word s, s)
  | LockCas oldval newval =>
    if word s =? oldval then
      Some (true, s <| word := newval |>
                    <| owner := if lk newval then (if lk oldval then owner s else Some t) else None |>
                    <| taken ::= fun f => Z.lor f (cleared oldval newval) |>)
    else Some (false, s)
  | NextLoad w => Some (next_of s w, s)
  | NextStore w v => Some (tt, s <| next_id ::= <[w := v]> |>)
  | DeferredTas w => Some (bool_decide (w ∈ deferred s), s <| deferred ::= fun d => {[w]} ∪ d |>)
  | DeferredClear w => Some (tt, s <| deferred ::= fun d => d ∖ {[w]} |>)
  | CountLoad => Some (count s, s)
  | CountStore n => Some (tt, s <| count := n |>)
  | DlFlag b => Some (tt, s <| dl_flag := b |>)
  | AddWaitQueue => Some (tt, s <| queue ::= fun q => {[t]} ∪ q |>)
  | RemoveWaitQueue => Some (tt, s <| queue ::= fun q => q ∖ {[t]} |>)
  | SetCurrentState TASK_RUNNING => Some (tt, s <| asleep ::= fun q => q ∖ {[t]} |>)
  | SetCurrentState TASK_INTERRUPTIBLE => Some (tt, s <| asleep ::= fun q => {[t]} ∪ q |>)
  | ScheduleTimeout timeout =>
    let s' := s <| asleep ::= fun q => q ∖ {[t]} |> in
    if timeout =? MAX_SCHEDULE_TIMEOUT then Some (MAX_SCHEDULE_TIMEOUT, s')
    else if (0 <=? c) && (c <=? Z.max 0 timeout) then Some (c, s') else None
  | WakeUp => Some (tt, s <| asleep ::= fun q => q ∖ queue s |>)
  | Stat _ => Some (tt, s)
  | Ask q => Some (nz c, s <| taken ::= fun f => Z.ldiff f (settles q) |>)
  | Work j => Some (nz c, s <| log ::= cons (t, owner s, j) |> <| taken ::= fun f => Z.ldiff f (handles j) |>)
  | Fail => None
  end.

Definition config : Type := list (prog unit) * lstate.

(** Thread [t] makes a step. *)
Definition cstep (t : nat) (c : Z) (cf : config) : option config :=
  let '(ps, s) := cf in
  match ps !! t with
  | None | Some (Ret _) => None
  | Some (Act a k) => '(r, s') ← aexec t a c s; Some (<[t := k r]> ps, s')
  | Some (Loop body st k) => Some (<[t := unroll body st k]> ps, s)
  end.

(** A schedule says whose turn it is and what the environment answers. *)
Fixpoint crun (sched : list (nat * Z)) (cf : config) : option config :=
  match sched with
  | [] => Some cf
  | (t, c) :: sched => cf' ← cstep t c cf; crun sched cf'
  end.

(** * The logic *)

(** [rule a g K]: in ghost state [g] action [a] may be taken, and whatever comes
    of it, [K] holds of the result and the new ghost state.  No loop is entered
    in a ghost state that is not [calm]. *)
Section logic.
Context {G : Type} (calm : G -> Prop) (rule : forall R : Set, action R -> G -> (R -> G -> Prop) -> Prop).
Context (rule_mono : forall R (a : action R) g (K K' : R -> G -> Prop),
  (forall r g', K r g' -> K' r g') -> rule R a g K -> rule R a g K').

Fixpoint ok {A : Type} (p : prog A) (g : G) (Q : A -> G -> Prop) : Prop :=
  match p with
  | Ret a => Q a g
  | Act a k => rule _ a g (fun r g' => ok (k r) g' Q)
  | @Loop _ St B body s k => exists I : St -> G -> Prop, I s g /\
      forall s g, I s g -> calm g /\ ok (body s) g (fun r g' =>
        match r with inl s' => I s' g' | inr b => ok (k b) g' Q end)
  end.

Lemma ok_mono {A} (p : prog A) g (Q Q' : A -> G -> Prop) :
  (forall a g', Q a g' -> Q' a g') -> ok p g Q -> ok p g Q'.
Proof using rule_mono.
  revert g Q Q'. induction p as [A a|A R a k IH|A St B body IHb s k IHk]; intros g Q Q' HQ; cbn [ok].
  - apply HQ.
  - apply rule_mono. intros r g'. by apply IH.
  - intros (I & Hs & HI). exists I. split; [done|]. intros s' g' Hi. destruct (HI s' g' Hi) as [Hc Hb]. split; [done|].
    revert Hb. apply IHb. intros [s''|b] g''; [done|by apply IHk].
Qed.

Lemma ok_bind {A B} (p : prog A) (f : A -> prog B) g Q :
  ok p g (fun a g' => ok (f a) g' Q) -> ok (pbind p f) g Q.
Proof using rule_mono.
  revert g. induction p as [A a|A R a k IH|A St C body IHb s k IHk]; intros g; cbn [ok pbind].
  - done.
  - apply rule_mono. intros r g'. by apply IH.
  - intros (I & Hs & HI). exists I. split; [done|]. intros s' g' Hi. destruct (HI s' g' Hi) as [Hc Hb]. split; [done|].
    revert Hb. apply ok_mono. intros [s''|b] g''; [done|by apply IHk].
Qed.

Lemma ok_unroll {A} {St B : Set} (body : St -> prog (St + B)) s (k : B -> prog A) g Q :
  ok (Loop body s k) g Q -> ok (unroll body s k) g Q.
Proof using rule_mono.
  intros (I & Hs & HI). unfold unroll. apply ok_bind. destruct (HI s g Hs) as [_ Hb]. revert Hb. apply ok_mono.
  intros [s'|b] g' H; [by exists I|done].
Qed.

(** A loop with an invariant. *)
Lemma ok_loop {A} {St B : Set} (I : St -> G -> Prop) (body : St -> prog (St + B)) s (k : B -> prog A) g Q :
  I s g -> (forall s g, I s g -> calm g) ->
  (forall s g, I s g -> ok (body s) g (fun r g' => match r with inl s' => I s' g' | inr b => ok (k b) g' Q end)) ->
  ok (Loop body s k) g Q.
Proof using. intros Hs Hc Hb. exists I. eauto. Qed.

Lemma ok_forever {B : Set} (I : G -> Prop) (body : prog (option B)) g Q : I g -> (forall g, I g -> calm g) ->
  (forall g, I g -> ok body g (fun r g' => match r with None => I g' | Some b => Q b g' end)) ->
  ok (forever body) g Q.
Proof using rule_mono.
  intros Hg Hc Hb. unfold forever. apply (ok_loop (fun _ => I)); [done|auto|]. intros _ g' Hg'. apply ok_bind.
  generalize (Hb g' Hg'). apply ok_mono. by intros [b|] g''.
Qed.

(** A round trip back to the same ghost state. *)
Lemma ok_retry {B : Set} (body : prog (option B)) g Q : calm g ->
  ok body g (fun r g' => match r with None => g' = g | Some b => Q b g' end) -> ok (forever body) g Q.
Proof using rule_mono. intros Hc Hb. apply (ok_forever (fun g' => g' = g)); [done|by intros ? ->..]. Qed.

(** ** Soundness *)
Context (inv : list G -> lstate -> Prop).
Context (rule_sound : forall gs s t (R : Set) (a : action R) g K c r s',
  inv gs s -> gs !! t = Some g -> rule R a g K -> aexec t a c s = Some (r, s') ->
  exists g', K r g' /\ inv (<[t := g']> gs) s').

Definition threads_ok (ps : list (prog unit)) (gs : list G) (Q : G -> Prop) : Prop :=
  Forall2 (fun p g => ok p g (fun _ => Q)) ps gs.

Lemma cstep_sound ps gs s Q t c ps' s' : threads_ok ps gs Q -> inv gs s -> cstep t c (ps, s) = Some (ps', s') ->
  exists gs', threads_ok ps' gs' Q /\ inv gs' s'.
Proof using rule_mono rule_sound.
  intros Hok Hi. cbn [cstep]. destruct (ps !! t) as [p|] eqn:Et; [|done].
  destruct (Forall2_lookup_l _ _ _ _ _ Hok Et) as (g & Eg & Hp). destruct p as [u|R a k|St B body st k]; [done| |].
  - destruct (aexec t a c s) as [[r s1]|] eqn:Ea; [|done]. cbn. intros [= <- <-].
    destruct (rule_sound gs s t R a g _ c r s1 Hi Eg Hp Ea) as (g' & Hk & Hi'). exists (<[t := g']> gs). split; [|done].
    by apply Forall2_insert.
  - intros [= <- <-]. exists gs. split; [|done]. rewrite <- (list_insert_id gs t g) by done. apply Forall2_insert; [done|].
    by apply ok_unroll.
Qed.

Lemma crun_sound sched ps gs s Q cf : threads_ok ps gs Q -> inv gs s -> crun sched (ps, s) = Some cf ->
  exists gs', threads_ok cf.1 gs' Q /\ inv gs' cf.2.
Proof using rule_mono rule_sound.
  revert ps gs s. induction sched as [|[t c] sched IH]; intros ps gs s Hok Hi; cbn [crun].
  - intros [= <-]. by exists gs.
  - destruct (cstep t c (ps, s)) as [[ps1 s1]|] eqn:E; [|done]. cbn.
    destruct (cstep_sound _ _ _ _ _ _ _ _ Hok Hi E) as (gs1 & Hok1 & Hi1). by apply (IH ps1 gs1).
Qed.

End logic.
