(* ===== verification/EplockInv.v ===== *)
(** The rules of the stack lock and the invariant they keep: one thread holds the
    lock, the list of sockets in the word is well formed and no socket is lost
    from it, and whoever sleeps will be woken. *)

From stdpp Require Import base gmap list.
From S2P Require Import Prelude Eplock EplockLogic.

Open Scope Z_scope.

(** * Ghost state of a thread *)

Record ghost := mk_ghost {
  g_hold : bool;           (** it holds the lock *)
  g_claim : option Z;      (** it has set the deferred bit of this socket, which is in no list yet *)
  g_next : option Z;       (** and has stored this in its [next_id] *)
  g_priv : Z;              (** the head of the list it has taken out of the word *)
  g_cur : option Z;        (** the [next_id] of that head, when it has read it *)
  g_owe : list Z;          (** the sockets whose work it must still do or leave to others *)
  g_queued : bool;         (** it is in the wait queue *)
  g_req : bool;            (** it has seen its request to be woken in the word *)
  g_wake : bool;           (** it has to wake the others *)
  g_due : Z }.             (** the alerts it has taken out of the word and not handled *)

#[global] Instance ghost_eta : Eta ghost.
Proof.
  refine {| eta := fun r => mk_ghost (g_hold r) (g_claim r) (g_next r) (g_priv r) (g_cur r) (g_owe r) (g_queued r)
    (g_req r) (g_wake r) (g_due r) |}. solve_eta.
Defined.

Definition is_u64 (v : Z) : Prop := 0 <= v < 18446744073709551616.

(** A thread in the queue that sees the request in the word is safe to sleep. *)
Definition saw (v : Z) (g : ghost) : ghost := if g_queued g && lk v && nw v then g <| g_req := true |> else g.

(** The swaps the code makes. *)
Inductive cas_ok (g : ghost) (old new : Z) : ghost -> Prop :=
  | CasAcquire : g_hold g = false -> lk old = false -> lk new = true -> hd new = hd old -> nw new = nw old ->
      cleared old new = 0 -> cas_ok g old new (g <| g_hold := true |>)
  | CasFlags : lk old = true -> lk new = true -> hd new = hd old -> (nw old = true -> nw new = true) ->
      cleared old new = 0 -> cas_ok g old new (saw new g)
  | CasClear : g_hold g = true -> lk old = true -> lk new = true -> hd new = hd old -> (nw old = true -> nw new = true) ->
      cas_ok g old new (saw new (g <| g_due ::= fun d => Z.lor d (cleared old new) |>))
  | CasPush w o : lk old = true -> lk new = true -> (nw old = true -> nw new = true) -> 0 <= w -> hd new = w + 1 ->
      g_claim g = Some w -> g_next g = Some (hd old) -> g_owe g = w :: o -> cleared old new = 0 ->
      cas_ok g old new (g <| g_claim := None |> <| g_next := None |> <| g_owe := o |>)
  | CasTake : g_hold g = true -> g_priv g = 0 -> g_cur g = None -> lk old = true -> lk new = true -> hd new = 0 ->
      (nw old = true -> nw new = true) -> cleared old new = 0 -> cas_ok g old new (g <| g_priv := hd old |>)
  | CasRelease : g_hold g = true -> g_priv g = 0 -> g_cur g = None -> lk old = true -> lk new = false -> hd old = 0 ->
      hd new = 0 -> nw new = false -> un new = 0 -> cleared old new = 0 -> g_due g = 0 ->
      cas_ok g old new (g <| g_hold := false |> <| g_wake := nw old |>).

(** Work that needs the lock. *)
Definition locked_job (j : job) : bool :=
  match j with EventqPrime _ | RequestWakeupNic _ | RequestWakeup | PktWakeup => false | _ => true end.

(** What a thread that has to wake the others may do before. *)
Definition passing {R : Set} (a : action R) : bool :=
  match a with CountStore _ | Stat _ | Ask _ | WakeUp => true | Work j => negb (locked_job j) | _ => false end.

Definition calm (g : ghost) : Prop := g_wake g = false.

Definition rule (R : Set) (a : action R) (g : ghost) (K : R -> ghost -> Prop) : Prop :=
  (passing a = false -> calm g) /\
  match a in action R return (R -> ghost -> Prop) -> Prop with
  | LockLoad => fun K => forall v, is_u64 v -> (g_hold g = true -> lk v = true) -> K v (saw v g)
  | LockCas old new => fun K => K false g /\ exists g', is_u64 new /\ cas_ok g old new g' /\ K true g'
  | NextLoad w => fun K => 0 <= w /\ g_hold g = true /\ g_priv g = w + 1 /\ g_cur g = None /\
      forall r, 0 <= r -> K r (g <| g_cur := Some r |>)
  | NextStore w v => fun K => 0 <= w /\ g_claim g = Some w /\ K tt (g <| g_next := Some v |>)
  | DeferredTas w => fun K => g_claim g = None /\ K true g /\ K false (g <| g_claim := Some w |> <| g_next := None |>)
  | DeferredClear w => fun K =>
      (g_claim g = Some w /\ K tt (g <| g_claim := None |> <| g_next := None |>)) \/
      (0 <= w /\ g_hold g = true /\ g_priv g = w + 1 /\ exists r, g_cur g = Some r /\
        K tt (g <| g_priv := r |> <| g_cur := None |> <| g_owe ::= cons w |>))
  | CountLoad => fun K => forall n, K n g
  | AddWaitQueue => fun K => K tt (g <| g_queued := true |>)
  | RemoveWaitQueue => fun K => K tt (g <| g_queued := false |> <| g_req := false |>)
  | SetCurrentState _ => fun K => K tt (g <| g_req := false |>)
  | ScheduleTimeout timeout => fun K => g_req g = true /\
      forall r, (timeout = MAX_SCHEDULE_TIMEOUT -> r = MAX_SCHEDULE_TIMEOUT) -> K r (g <| g_req := false |>)
  | WakeUp => fun K => K tt (g <| g_wake := false |>)
  | CountStore _ | DlFlag _ | Stat _ => fun K => K tt g
  | Ask q => fun K => (settles q <> 0 -> g_hold g = true) /\
      forall b, K b (g <| g_due ::= fun d => Z.ldiff d (settles q) |>)
  | Work j => fun K =>
      (locked_job j = true -> g_hold g = true) /\
      match j with
      | DeferredWork w => exists o, g_owe g = w :: o /\ forall b, K b (g <| g_owe := o |>)
      | DeferDl2Work => False
      | _ => forall b, K b (g <| g_due ::= fun d => Z.ldiff d (handles j) |>)
      end
  | Fail => fun _ => False
  end K.

Lemma rule_mono R (a : action R) g (K K' : R -> ghost -> Prop) :
  (forall r g', K r g' -> K' r g') -> rule R a g K -> rule R a g K'.
Proof.
  intros HK [Hc H]. split; [done|]. clear Hc.
  destruct a as [| | | | | | | | | | | | | | | |j|]; cbn in *; try naive_solver.
  destruct H as [Hl H]. split; [done|]. destruct j; naive_solver.
Qed.

(** * The system *)

(** The sockets of a list, from the head as it is stored. *)
Fixpoint chain (f : Z -> Z) (h : Z) (l : list Z) : Prop :=
  match l with
  | [] => h = 0
  | w :: l => h = w + 1 /\ 0 <= w /\ chain f (f w) l
  end.

Definition occ (w : Z) (l : list Z) : nat := length (filter (eq w) l).
Definition owed (w : Z) (gs : list ghost) : nat := sum_list ((fun g => occ w (g_owe g)) <$> gs).
Definition is_work (w : Z) (e : nat * option nat * job) : Prop := e.2 = DeferredWork w.
#[global] Instance job_eq_dec : EqDecision job.
Proof. solve_decision. Defined.
#[global] Instance is_work_dec w e : Decision (is_work w e) := decide (e.2 = DeferredWork w).
Definition worked (w : Z) (s : lstate) : nat := length (filter (is_work w) (log s)).

(** Every entry of the log was made by the holder of the lock. *)
Definition log_ok (e : nat * option nat * job) : Prop := locked_job e.2 = true -> e.1.2 = Some e.1.1.

(** The lists in the word ([L]) and taken out by the holder ([R]). *)
Record lists_ok (tot : Z -> nat) (gs : list ghost) (s : lstate) (L R : list Z) : Prop := {
  l_word : chain (next_of s) (hd (word s)) L;
  l_priv t g : gs !! t = Some g -> g_hold g = true -> chain (next_of s) (g_priv g) R;
  l_none : owner s = None -> R = [];
  l_nodup : NoDup (L ++ R);
  l_claim t g w : gs !! t = Some g -> g_claim g = Some w -> w ∉ L ++ R;
  l_unique t t' g g' w : gs !! t = Some g -> gs !! t' = Some g' -> g_claim g = Some w -> g_claim g' = Some w -> t = t';
  l_bits w : w ∈ deferred s <-> w ∈ L ++ R \/ exists t g, gs !! t = Some g /\ g_claim g = Some w;
  l_count w : (occ w (L ++ R) + owed w gs + worked w s = tot w)%nat }.

Record thread_ok (s : lstate) (t : nat) (g : ghost) : Prop := {
  t_hold : g_hold g = true <-> owner s = Some t;
  t_priv : g_hold g = false -> g_priv g = 0 /\ g_cur g = None;
  t_cur r : g_cur g = Some r -> next_of s (g_priv g - 1) = r;
  t_next w v : g_claim g = Some w -> g_next g = Some v -> next_of s w = v;
  t_queued : g_queued g = true <-> t ∈ queue s;
  t_req : g_req g = true -> g_queued g = true;
  t_due : g_hold g = false -> g_due g = 0 }.

(** The alerts taken out are known to the holder. *)
Definition taken_ok (gs : list ghost) (s : lstate) : Prop :=
  match owner s with None => taken s = 0 | Some t => forall g, gs !! t = Some g -> taken s = g_due g end.

Record inv (tot : Z -> nat) (gs : list ghost) (s : lstate) : Prop := {
  i_u64 : is_u64 (word s);
  i_owner t : owner s = Some t -> is_Some (gs !! t);
  i_lk : lk (word s) = true <-> owner s <> None;
  i_free : lk (word s) = false -> hd (word s) = 0 /\ nw (word s) = false /\ un (word s) = 0;
  i_threads t g : gs !! t = Some g -> thread_ok s t g;
  i_sleep t g : gs !! t = Some g -> g_req g = true -> t ∈ asleep s ->
    (lk (word s) = true /\ nw (word s) = true) \/ exists t' g', gs !! t' = Some g' /\ g_wake g' = true;
  i_lists : exists L R, lists_ok tot gs s L R;
  i_log : Forall log_ok (log s);
  i_taken : taken_ok gs s }.

(** * Changing one thread *)

Lemma sum_list_insert {A} (f : A -> nat) l t x y : l !! t = Some x ->
  (sum_list (f <$> <[t := y]> l) + f x = sum_list (f <$> l) + f y)%nat.
Proof.
  revert t. induction l as [|z l IH]; intros [|t] Ht; [done|done| |].
  - injection Ht as ->. csimpl. lia.
  - specialize (IH t Ht). csimpl. lia.
Qed.

Section change.
Context (gs : list ghost) (t : nat) (g : ghost) (Hg : gs !! t = Some g).

Lemma ins_lookup g' u x : <[t := g']> gs !! u = Some x <-> (u = t /\ x = g') \/ (u <> t /\ gs !! u = Some x).
Proof using Hg.
  assert (Hlt : (t < length gs)%nat) by (by apply lookup_lt_is_Some; exists g).
  destruct (decide (u = t)) as [->|Hne].
  - rewrite list_lookup_insert_eq by done. naive_solver.
  - rewrite list_lookup_insert_ne by done. naive_solver.
Qed.

Lemma owed_ins g' w : (owed w (<[t := g']> gs) + occ w (g_owe g) = owed w gs + occ w (g_owe g'))%nat.
Proof using Hg.
  exact (sum_list_insert (fun g => occ w (g_owe g)) gs t g g' Hg).
Qed.

Lemma owed_same g' w : g_owe g' = g_owe g -> owed w (<[t := g']> gs) = owed w gs.
Proof using Hg. intros E. pose proof (owed_ins g' w) as H. rewrite E in H. lia. Qed.

Lemma claims_ins g' w : g_claim g' = g_claim g ->
  (exists u x, <[t := g']> gs !! u = Some x /\ g_claim x = Some w) <-> (exists u x, gs !! u = Some x /\ g_claim x = Some w).
Proof using Hg.
  intros E. split.
  - intros (u & x & [[-> ->]|[Hne Hu]]%ins_lookup & Hc); [exists t, g; by rewrite <- E|eauto].
  - intros (u & x & Hu & Hc). destruct (decide (u = t)) as [->|Hne].
    + exists t, g'. rewrite ins_lookup. replace x with g in * by congruence. rewrite E. naive_solver.
    + exists u, x. rewrite ins_lookup. naive_solver.
Qed.

(** The lists when the thread's part in them is the same. *)
Lemma lists_same tot s s' g' L R : lists_ok tot gs s L R ->
  g_hold g' = g_hold g -> g_claim g' = g_claim g -> g_priv g' = g_priv g -> g_owe g' = g_owe g ->
  hd (word s') = hd (word s) -> next_id s' = next_id s -> deferred s' = deferred s ->
  (owner s' = None -> owner s = None) -> (forall w, worked w s' = worked w s) ->
  lists_ok tot (<[t := g']> gs) s' L R.
Proof using Hg.
  intros [] Eh Ec Ep Eo Ew En Ed Eow El. assert (Ef : next_of s' = next_of s) by (unfold next_of; by rewrite En).
  split; rewrite ?Ef, ?Ew, ?Ed.
  - done.
  - intros u x [[-> ->]|[Hne Hu]]%ins_lookup Hh; [rewrite Ep; apply (l_priv0 t g Hg); congruence|by apply (l_priv0 u)].
  - auto.
  - done.
  - intros u x w [[-> ->]|[Hne Hu]]%ins_lookup Hc; [apply (l_claim0 t g); congruence|by apply (l_claim0 u x)].
  - intros u u' x x' w [[-> ->]|[Hne Hu]]%ins_lookup [[-> ->]|[Hne' Hu']]%ins_lookup; rewrite ?Ec; eauto.
  - intros w. by rewrite l_bits0, claims_ins.
  - intros w. by rewrite owed_same, El.
Qed.

End change.

Lemma taken_same gs t g g' s s' : gs !! t = Some g -> taken_ok gs s -> owner s' = owner s -> taken s' = taken s ->
  g_due g' = g_due g -> taken_ok (<[t := g']> gs) s'.
Proof.
  intros Hg Ht Eo Et Ed. unfold taken_ok in *. rewrite Eo, Et. destruct (owner s) as [u|]; [|done].
  intros x [[-> ->]|[_ Hx]]%(ins_lookup gs t g Hg); [rewrite Ed|]; auto.
Qed.

Lemma taken_mine gs t g g' s' : gs !! t = Some g -> owner s' = Some t -> taken s' = g_due g' -> taken_ok (<[t := g']> gs) s'.
Proof. intros Hg Eo Et. unfold taken_ok. rewrite Eo. by intros x [[_ ->]|[? _]]%(ins_lookup gs t g Hg). Qed.

(** What the other threads rely on. *)
Lemma thread_frame s s' u x : thread_ok s u x -> (owner s' = Some u <-> owner s = Some u) ->
  (forall w, (g_claim x = Some w \/ g_hold x = true /\ g_priv x = w + 1) -> next_of s' w = next_of s w) ->
  (u ∈ queue s' <-> u ∈ queue s) -> thread_ok s' u x.
Proof.
  intros [] Ho Hn Hq. split; [by rewrite Ho|done| | |by rewrite Hq|done|done].
  - intros r Hr. rewrite Hn; [auto|]. right. destruct (g_hold x) eqn:E; [|destruct (t_priv0 eq_refl); congruence].
    split; [done|lia].
  - intros w v Hw Hv. rewrite Hn; eauto.
Qed.

(** The word is the same but for alerts. *)
Definition word_grows (v v' : Z) : Prop :=
  v' = v \/ (is_u64 v' /\ lk v = true /\ lk v' = true /\ hd v' = hd v /\ (nw v = true -> nw v' = true)).

(** A step that leaves the lists and the log alone. *)
Lemma inv_quiet tot gs s t g g' s' : inv tot gs s -> gs !! t = Some g ->
  word_grows (word s) (word s') -> next_id s' = next_id s -> deferred s' = deferred s -> owner s' = owner s ->
  log s' = log s ->
  g_hold g' = g_hold g -> g_claim g' = g_claim g -> g_priv g' = g_priv g -> g_owe g' = g_owe g ->
  (g_wake g = true -> g_wake g' = true) ->
  thread_ok s' t g' -> (forall u, u <> t -> u ∈ queue s' <-> u ∈ queue s) ->
  (forall u, u <> t -> u ∈ asleep s' -> u ∈ asleep s) ->
  (g_req g' = true -> t ∈ asleep s' -> lk (word s') = true /\ nw (word s') = true \/ (g_req g = true /\ t ∈ asleep s)) ->
  taken_ok (<[t := g']> gs) s' -> inv tot (<[t := g']> gs) s'.
Proof.
  intros [] Hg Ew En Ed Eo El Eh Ec Ep Ew' Ewk Ht Hq Ha Hs Htk. assert (Ef : next_of s' = next_of s) by (unfold next_of; by rewrite En).
  assert (Hlk : lk (word s') = lk (word s)) by (destruct Ew as [->|(_ & -> & -> & _)]; done).
  assert (Hhd : hd (word s') = hd (word s)) by (destruct Ew as [->|(_ & _ & _ & -> & _)]; done).
  assert (Hnw : nw (word s) = true -> nw (word s') = true) by (by destruct Ew as [->|(_ & _ & _ & _ & ?)]).
  split; rewrite ?Eo, ?El.
  - by destruct Ew as [->|(? & _)].
  - intros u Hu. apply list_lookup_insert_is_Some. auto.
  - by rewrite Hlk.
  - intros Hf. destruct Ew as [Ew|(_ & ? & ? & _)]; [rewrite Ew in *; auto|congruence].
  - intros u x [[-> ->]|[Hne Hu]]%(ins_lookup gs t g Hg); [done|].
    apply (thread_frame s); [eauto|by rewrite Eo|by rewrite Ef|auto].
  - intros u x Hu Hr Hin.
    assert (Hold : (lk (word s') = true /\ nw (word s') = true) \/ exists t' g', gs !! t' = Some g' /\ g_wake g' = true).
    { assert (Hx : forall u x, gs !! u = Some x -> g_req x = true -> u ∈ asleep s ->
        (lk (word s') = true /\ nw (word s') = true) \/ exists t' g', gs !! t' = Some g' /\ g_wake g' = true).
      { intros v y Hv Hy Hvin. rewrite Hlk. destruct (i_sleep0 v y Hv Hy Hvin) as [[? ?]|?]; auto. }
      apply (ins_lookup gs t g Hg) in Hu as [[-> ->]|[Hne Hu]]; [|by apply (Hx u x); auto].
      destruct (Hs Hr Hin) as [?|[? ?]]; [by left|]. by apply (Hx t g). }
    destruct Hold as [?|(t' & x' & Ht' & Hw')]; [by left|]. right. destruct (decide (t' = t)) as [->|Hne].
    + exists t, g'. rewrite (ins_lookup gs t g Hg). replace x' with g in * by congruence. auto.
    + exists t', x'. rewrite (ins_lookup gs t g Hg). auto.
  - destruct i_lists0 as (L & R & Hl). exists L, R. apply (lists_same gs t g Hg tot s); try done; try congruence.
    intros w. unfold worked. by rewrite El.
  - done.
  - done.
Qed.

(** * The quiet rules *)

Section quiet.
Context (tot : Z -> nat) (gs : list ghost) (s : lstate) (t : nat) (g : ghost).
Context (Hi : inv tot gs s) (Hg : gs !! t = Some g).

Lemma me : thread_ok s t g.
Proof using Hi Hg. by apply (i_threads tot gs). Qed.

Lemma holder_lk : g_hold g = true -> lk (word s) = true.
Proof using Hi Hg. intros Hh. apply (i_lk _ _ _ Hi). apply (t_hold _ _ _ me) in Hh. by rewrite Hh. Qed.

Lemma saw_same x v : g_hold (saw v x) = g_hold x /\ g_claim (saw v x) = g_claim x /\ g_next (saw v x) = g_next x /\
  g_priv (saw v x) = g_priv x /\ g_cur (saw v x) = g_cur x /\ g_owe (saw v x) = g_owe x /\
  g_queued (saw v x) = g_queued x /\ g_wake (saw v x) = g_wake x /\ g_due (saw v x) = g_due x.
Proof. unfold saw. by destruct (_ && _). Qed.

Lemma saw_req x v : g_req (saw v x) = true -> (g_queued x = true /\ lk v = true /\ nw v = true) \/ g_req x = true.
Proof. unfold saw. destruct (g_queued x), (lk v), (nw v); cbn; auto. Qed.

Lemma same_taken g' s' : owner s' = owner s -> taken s' = taken s -> g_due g' = g_due g -> taken_ok (<[t := g']> gs) s'.
Proof using Hi Hg. intros. by apply (taken_same gs t g g' s); [|exact (i_taken _ _ _ Hi)|..]. Qed.

(** Looking at the word, or raising alerts in it. *)
Lemma inv_saw v : word_grows (word s) v -> inv tot (<[t := saw v g]> gs) (s <| word := v |>).
Proof using Hi Hg.
  intros Hv. destruct (saw_same g v) as (E1 & E2 & E3 & E4 & E5 & E6 & E7 & E8 & E9). pose proof me as [].
  apply (inv_quiet tot gs s t g); try done; [by rewrite E8| | |by apply same_taken].
  - split; cbn; rewrite ?E1, ?E2, ?E3, ?E4, ?E5, ?E7, ?E9; try done. intros [[? _]|?]%saw_req; auto.
  - cbn. intros [(_ & ? & ?)|?]%saw_req ?; auto.
Qed.

(** The holder taking alerts out of it. *)
Lemma inv_clear v d : word_grows (word s) v -> g_hold g = true ->
  inv tot (<[t := saw v (g <| g_due := d |>)]> gs) (s <| word := v |> <| taken := d |>).
Proof using Hi Hg.
  intros Hv Hh. set (g' := g <| g_due := d |>). destruct (saw_same g' v) as (E1 & E2 & E3 & E4 & E5 & E6 & E7 & E8 & E9).
  pose proof me as []. apply (inv_quiet tot gs s t g); try done.
  - by rewrite E8.
  - split; cbn; rewrite ?E1, ?E2, ?E3, ?E4, ?E5, ?E7, ?E9; try done.
    + intros [[? _]|?]%saw_req; [done|]. by apply t_req0.
    + intros Hn. change (g_hold g = false) in Hn. congruence.
  - cbn. intros [(_ & ? & ?)|?]%saw_req ?; auto.
  - apply (taken_mine gs t g); [done| |done]. by apply t_hold0.
Qed.

Lemma inv_load : inv tot (<[t := saw (word s) g]> gs) s.
Proof using Hi Hg. pose proof (inv_saw (word s) (or_introl eq_refl)) as H. by destruct s. Qed.

(** Nothing that matters changes. *)
Lemma inv_idle s' : word s' = word s -> next_id s' = next_id s -> deferred s' = deferred s -> owner s' = owner s ->
  log s' = log s -> queue s' = queue s -> asleep s' = asleep s -> taken s' = taken s -> inv tot gs s'.
Proof using Hi Hg.
  intros Ew En Ed Eo El Eq Ea Et. rewrite <- (list_insert_id gs t g) by done.
  apply (inv_quiet tot gs s t g); rewrite ?Ew, ?Eq, ?Ea; try done; try (by left); auto; [|by apply same_taken].
  apply (thread_frame s); [apply me|by rewrite Eo|unfold next_of; by rewrite En|by rewrite Eq].
Qed.

(** The holder has handled some alerts. *)
Lemma inv_due d : g_hold g = true -> inv tot (<[t := g <| g_due := d |>]> gs) (s <| taken := d |>).
Proof using Hi Hg.
  intros Hh. pose proof me as []. apply (inv_quiet tot gs s t g); try done; try (by left); auto.
  - split; try done. cbn. by rewrite Hh.
  - apply (taken_mine gs t g); [done| |done]. by apply t_hold0.
Qed.

Lemma inv_handled f : (f <> 0 -> g_hold g = true) ->
  inv tot (<[t := g <| g_due ::= fun d => Z.ldiff d f |>]> gs) (s <| taken ::= fun d => Z.ldiff d f |>).
Proof using Hi Hg.
  intros Hf. destruct (decide (f = 0)) as [->|Hne].
  - replace (g <| g_due ::= fun d => Z.ldiff d 0 |>) with g by (destruct g; cbn; by rewrite Z.ldiff_0_r).
    rewrite list_insert_id by done. apply inv_idle; try done. cbn. apply Z.ldiff_0_r.
  - specialize (Hf Hne). pose proof (i_taken _ _ _ Hi) as Htk. unfold taken_ok in Htk.
    rewrite (proj1 (t_hold _ _ _ me) Hf) in Htk. specialize (Htk g Hg).
    change (s <| taken ::= fun d => Z.ldiff d f |>) with (s <| taken := Z.ldiff (taken s) f |>).
    change (g <| g_due ::= fun d => Z.ldiff d f |>) with (g <| g_due := Z.ldiff (g_due g) f |>). rewrite Htk. by apply inv_due.
Qed.

Lemma inv_add_wait : inv tot (<[t := g <| g_queued := true |>]> gs) (s <| queue ::= fun q => {[t]} ∪ q |>).
Proof using Hi Hg.
  pose proof me as []. apply (inv_quiet tot gs s t g); try (by left); try done; cbn; [|set_solver|auto|by apply same_taken].
  split; cbn; try done. set_solver.
Qed.

Lemma inv_remove_wait :
  inv tot (<[t := g <| g_queued := false |> <| g_req := false |>]> gs) (s <| queue ::= fun q => q ∖ {[t]} |>).
Proof using Hi Hg.
  pose proof me as []. apply (inv_quiet tot gs s t g); try (by left); try done; cbn; [|set_solver|by apply same_taken].
  split; cbn; try done. set_solver.
Qed.

Lemma inv_asleep f : (forall u, u <> t -> u ∈ f (asleep s) -> u ∈ asleep s) ->
  inv tot (<[t := g <| g_req := false |>]> gs) (s <| asleep ::= f |>).
Proof using Hi Hg.
  intros Hf. pose proof me as []. by apply (inv_quiet tot gs s t g); try (by left); try (by apply same_taken).
Qed.

(** Every request has been answered. *)
Lemma inv_wake_up : inv tot (<[t := g <| g_wake := false |>]> gs) (s <| asleep ::= fun q => q ∖ queue s |>).
Proof using Hi Hg.
  pose proof me as Hme. destruct Hi. split; cbn; try done.
  - intros u Hu. apply list_lookup_insert_is_Some. auto.
  - intros u x [[-> ->]|[Hne Hu]]%(ins_lookup gs t g Hg).
    + by destruct Hme; split.
    + by apply (thread_frame s); [eauto|..].
  - intros u x Hu Hr Hin. exfalso. assert (Hq : u ∈ queue s); [|set_solver].
    apply (ins_lookup gs t g Hg) in Hu as [[-> ->]|[Hne Hu]].
    + by apply (t_queued _ _ _ Hme), (t_req _ _ _ Hme).
    + destruct (i_threads0 u x Hu). by apply t_queued0, t_req0.
  - destruct i_lists0 as (L & R & Hl). exists L, R. by apply (lists_same gs t g Hg tot s).
  - by apply (taken_same gs t g _ s).
Qed.

End quiet.

(** * Lists of sockets *)

Lemma socket_chain_frame f f' h l : (forall w, w ∈ l -> f' w = f w) -> chain f h l -> chain f' h l.
Proof.
  revert h. induction l as [|w l IH]; intros h Hf; cbn [chain]; [done|]. intros (-> & Hw & Hc). split_and!; [done..|].
  rewrite Hf by left. apply IH; [|done]. intros u Hu. apply Hf. by right.
Qed.

Lemma chain_nonneg f h l : chain f h l -> 0 <= h.
Proof. destruct l as [|w l]; cbn [chain]; lia. Qed.

Lemma chain_nil f l : chain f 0 l -> l = [].
Proof. destruct l as [|w l]; cbn [chain]; [done|lia]. Qed.

Lemma chain_head f w l : 0 <= w -> chain f (w + 1) l -> exists l', l = w :: l' /\ chain f (f w) l'.
Proof.
  destruct l as [|u l]; cbn [chain]; [lia|]. intros Hw (E & _ & Hc). replace u with w in * by lia. by exists l.
Qed.

Lemma occ_app w l l' : occ w (l ++ l') = (occ w l + occ w l')%nat.
Proof. unfold occ. by rewrite filter_app, length_app. Qed.

Lemma occ_cons w u l : occ w (u :: l) = ((if decide (w = u) then 1 else 0) + occ w l)%nat.
Proof. unfold occ. rewrite filter_cons. by destruct (decide (w = u)). Qed.

Lemma occ_middle w u l l' : occ w (l ++ u :: l') = occ w (u :: l ++ l').
Proof. rewrite occ_app, !occ_cons, occ_app. lia. Qed.

Section lists.
Context (tot : Z -> nat) (gs : list ghost) (s : lstate) (t : nat) (g : ghost).
Context (Hi : inv tot gs s) (Hg : gs !! t = Some g).

(** A step by thread [t] that moves sockets about: the parts of the invariant that
    are left to show. *)
Lemma inv_lists g' s' : word s' = word s -> owner s' = owner s -> queue s' = queue s -> asleep s' = asleep s ->
  Forall log_ok (log s') -> g_req g' = g_req g -> g_wake g' = g_wake g ->
  thread_ok s' t g' ->
  (forall u x, u <> t -> gs !! u = Some x ->
     forall w, (g_claim x = Some w \/ g_hold x = true /\ g_priv x = w + 1) -> next_of s' w = next_of s w) ->
  (exists L R, lists_ok tot (<[t := g']> gs) s' L R) -> taken s' = taken s -> g_due g' = g_due g ->
  inv tot (<[t := g']> gs) s'.
Proof using Hi Hg.
  intros Ew Eo Eq Ea Hlog Er Ewk Ht Hn Hl Etk Edue. destruct Hi. split; rewrite ?Ew, ?Eo, ?Ea; try done.
  - intros u Hu. apply list_lookup_insert_is_Some. auto.
  - intros u x [[-> ->]|[Hne Hu]]%(ins_lookup gs t g Hg); [done|].
    apply (thread_frame s); [eauto|by rewrite Eo|by apply (Hn u)|by rewrite Eq].
  - intros u x Hu Hr Hin.
    assert (Hold : exists u' x', gs !! u' = Some x' /\ g_req x' = true /\ u' = u).
    { apply (ins_lookup gs t g Hg) in Hu as [[-> ->]|[Hne Hu]]; [exists t, g|exists u, x]; split_and!; congruence. }
    destruct Hold as (u' & x' & Hu' & Hr' & ->). destruct (i_sleep0 u x' Hu' Hr' Hin) as [?|(v & y & Hv & Hy)]; [by left|].
    right. destruct (decide (v = t)) as [->|Hne].
    + exists t, g'. rewrite (ins_lookup gs t g Hg). replace y with g in * by congruence. rewrite Ewk. auto.
    + exists v, y. rewrite (ins_lookup gs t g Hg). auto.
  - by apply (taken_same gs t g _ s).
Qed.

(** The holder is the only one that is. *)
Lemma only_holder u x : g_hold g = true -> gs !! u = Some x -> g_hold x = true -> u = t.
Proof using Hi Hg.
  intros Hh Hu Hx. apply (t_hold _ _ _ (i_threads _ _ _ Hi u x Hu)) in Hx.
  apply (t_hold _ _ _ (i_threads _ _ _ Hi t g Hg)) in Hh. congruence.
Qed.

Lemma inv_next_load w : 0 <= w -> g_hold g = true -> g_priv g = w + 1 -> g_cur g = None ->
  0 <= next_of s w /\ inv tot (<[t := g <| g_cur := Some (next_of s w) |>]> gs) s.
Proof using Hi Hg.
  intros Hw Hh Hp Hc. pose proof (i_threads _ _ _ Hi t g Hg) as Hme. destruct (i_lists _ _ _ Hi) as (L & R & Hl).
  pose proof (l_priv _ _ _ _ _ Hl t g Hg Hh) as Hch. split.
  - rewrite Hp in Hch. apply chain_head in Hch as (R' & -> & Hch); [|done]. by apply chain_nonneg in Hch.
  - apply inv_lists; try done; [exact (i_log _ _ _ Hi)| |by exists L, R; apply (lists_same gs t g Hg tot s)].
    destruct Hme. split; try done; cbn; [by rewrite Hh|]. intros r [= <-]. f_equal. lia.
Qed.

Lemma inv_next_store w v : 0 <= w -> g_claim g = Some w ->
  inv tot (<[t := g <| g_next := Some v |>]> gs) (s <| next_id ::= <[w := v]> |>).
Proof using Hi Hg.
  intros Hw Hc. pose proof (i_threads _ _ _ Hi t g Hg) as Hme. destruct (i_lists _ _ _ Hi) as (L & R & Hl).
  pose proof (l_claim _ _ _ _ _ Hl t g w Hg Hc) as Hnot.
  set (s' := s <| next_id ::= <[w := v]> |>).
  assert (Hf : forall u, u <> w -> next_of s' u = next_of s u) by (intros u Hu; unfold next_of; cbn; by rewrite lookup_insert_ne).
  assert (Hl' : forall u, u ∈ L ++ R -> next_of s' u = next_of s u) by (intros u Hu; apply Hf; by intros ->).
  assert (Hp : forall u x, gs !! u = Some x -> g_hold x = true -> g_priv x <> w + 1).
  { intros u x Hu Hh Hpx. pose proof (l_priv _ _ _ _ _ Hl u x Hu Hh) as Hch. apply Hnot. rewrite Hpx in Hch.
    apply chain_head in Hch as (R' & -> & _); [set_solver|done]. }
  apply inv_lists; try done; [exact (i_log _ _ _ Hi)| | |].
  - destruct Hme. split; try done; cbn.
    + intros r Hr. unfold s'. rewrite Hf; [auto|]. destruct (g_hold g) eqn:Eh; [|destruct (t_priv0 eq_refl); congruence].
      specialize (Hp t g Hg Eh). lia.
    + intros u x Eu [= <-]. rewrite Eu in Hc. injection Hc as ->. unfold next_of, s'. cbn. by rewrite lookup_insert_eq.
  - intros u x Hne Hu w' Hw'. apply Hf. intros ->. destruct Hw' as [Hw'|[Hh Hpx]]; [|by apply (Hp u x)].
    apply Hne. by apply (l_unique _ _ _ _ _ Hl u t x g w).
  - exists L, R. destruct (lists_same gs t g Hg tot s s (g <| g_next := Some v |>) L R Hl) as []; try done. split; try done.
    + revert l_word0. apply socket_chain_frame. intros u Hu. apply Hl'. set_solver.
    + intros u x Hu Hh. generalize (l_priv0 u x Hu Hh). apply socket_chain_frame. intros y Hy. apply Hl'. set_solver.
Qed.

Lemma inv_tas_busy w : w ∈ deferred s -> inv tot gs (s <| deferred ::= fun d => {[w]} ∪ d |>).
Proof using Hi.
  clear t g Hg. intros Hin. replace (s <| deferred ::= fun d => {[w]} ∪ d |>) with s; [done|].
  destruct s. cbn in *. f_equal. set_solver.
Qed.

Lemma inv_tas w : w ∉ deferred s -> g_claim g = None ->
  inv tot (<[t := g <| g_claim := Some w |> <| g_next := None |>]> gs) (s <| deferred ::= fun d => {[w]} ∪ d |>).
Proof using Hi Hg.
  intros Hnot Hc. pose proof (i_threads _ _ _ Hi t g Hg) as Hme. destruct (i_lists _ _ _ Hi) as (L & R & Hl).
  assert (HLR : w ∉ L ++ R) by (intros Hin; apply Hnot, (l_bits _ _ _ _ _ Hl); by left).
  assert (Hcl : forall u x, gs !! u = Some x -> g_claim x <> Some w).
  { intros u x Hu Hx. apply Hnot, (l_bits _ _ _ _ _ Hl). right. eauto. }
  apply inv_lists; try done; [exact (i_log _ _ _ Hi)|by destruct Hme; split|].
  exists L, R. destruct Hl. split; try done.
  - intros u x [[-> ->]|[Hne Hu]]%(ins_lookup gs t g Hg); cbn; eauto.
  - intros u x y [[-> ->]|[Hne Hu]]%(ins_lookup gs t g Hg); cbn; [by intros [= ->]|eauto].
  - intros u u' x x' y [[-> ->]|[Hne Hu]]%(ins_lookup gs t g Hg) [[-> ->]|[Hne' Hu']]%(ins_lookup gs t g Hg); cbn; try done; eauto.
    + intros [= ->] Hx. by destruct (Hcl _ _ Hu' Hx).
    + intros Hx [= ->]. by destruct (Hcl _ _ Hu Hx).
  - intros y. cbn. rewrite elem_of_union, elem_of_singleton, l_bits0. split.
    + intros [->|[?|(u & x & Hu & Hx)]]; [|by left|]; right.
      * eexists t, _. rewrite (ins_lookup gs t g Hg). split; [by left|done].
      * exists u, x. rewrite (ins_lookup gs t g Hg). split; [|done]. right. split; [|done]. intros ->. congruence.
    + intros [?|(u & x & [[-> ->]|[Hne Hu]]%(ins_lookup gs t g Hg) & Hx)]; [by auto| |right; right; eauto].
      cbn in Hx. injection Hx as ->. by left.
  - intros y. rewrite (owed_same gs t g Hg) by done. apply l_count0.
Qed.
(** The claimed socket is let go. *)
Lemma inv_unclaim w : g_claim g = Some w ->
  inv tot (<[t := g <| g_claim := None |> <| g_next := None |>]> gs) (s <| deferred ::= fun d => d ∖ {[w]} |>).
Proof using Hi Hg.
  intros Hc. pose proof (i_threads _ _ _ Hi t g Hg) as Hme. destruct (i_lists _ _ _ Hi) as (L & R & Hl).
  pose proof (l_claim _ _ _ _ _ Hl t g w Hg Hc) as Hnot.
  apply inv_lists; try done; [exact (i_log _ _ _ Hi)|by destruct Hme; split|].
  exists L, R. destruct Hl. split; try done.
  - intros u x [[-> ->]|[Hne Hu]]%(ins_lookup gs t g Hg); cbn; eauto.
  - intros u x y [[-> ->]|[Hne Hu]]%(ins_lookup gs t g Hg); cbn; [done|eauto].
  - intros u u' x x' y [[-> ->]|[Hne Hu]]%(ins_lookup gs t g Hg) [[-> ->]|[Hne' Hu']]%(ins_lookup gs t g Hg); cbn; try done; eauto.
  - intros y. cbn. rewrite elem_of_difference, elem_of_singleton, l_bits0. split.
    + intros [[?|(u & x & Hu & Hx)] Hy]; [by left|right]. exists u, x. rewrite (ins_lookup gs t g Hg). split; [|done].
      right. split; [|done]. intros ->. congruence.
    + intros [Hy|(u & x & [[-> ->]|[Hne Hu]]%(ins_lookup gs t g Hg) & Hx)]; [split; [by left|by intros ->]|done|].
      split; [right; eauto|]. intros ->. apply Hne. by apply (l_unique0 u t x g w).
  - intros y. rewrite (owed_same gs t g Hg) by done. apply l_count0.
Qed.

(** The head of the list taken out goes to the thread. *)
Lemma inv_unlink w r : 0 <= w -> g_hold g = true -> g_priv g = w + 1 -> g_cur g = Some r ->
  inv tot (<[t := g <| g_priv := r |> <| g_cur := None |> <| g_owe ::= cons w |>]> gs)
    (s <| deferred ::= fun d => d ∖ {[w]} |>).
Proof using Hi Hg.
  intros Hw Hh Hp Hc. pose proof (i_threads _ _ _ Hi t g Hg) as Hme. destruct (i_lists _ _ _ Hi) as (L & R & Hl).
  pose proof (l_priv _ _ _ _ _ Hl t g Hg Hh) as Hch. pose proof (t_cur _ _ _ Hme r Hc) as Hr.
  replace (g_priv g - 1) with w in Hr by lia. rewrite Hp in Hch. apply chain_head in Hch as (R' & -> & Hch); [|done].
  rewrite Hr in Hch. pose proof (l_nodup _ _ _ _ _ Hl) as Hnd.
  assert (Hnd' : w ∉ L ++ R' /\ NoDup (L ++ R')).
  { rewrite <- Permutation_middle in Hnd. by apply NoDup_cons in Hnd. }
  apply inv_lists; try done; [exact (i_log _ _ _ Hi)|destruct Hme; split; try done; cbn; by rewrite Hh|].
  exists L, R'. destruct Hl. split; try done.
  - intros u x [[-> ->]|[Hne Hu]]%(ins_lookup gs t g Hg); cbn; [done|]. intros Hx. exfalso. apply Hne. by apply (only_holder u x).
  - intros Ho. by apply l_none0 in Ho.
  - apply Hnd'.
  - intros u x y Hu Hy Hin.
    assert (Hin' : y ∉ L ++ w :: R'); [|apply Hin'; set_solver].
    apply (ins_lookup gs t g Hg) in Hu as [[-> ->]|[Hne Hu]]; cbn in *; eauto.
  - intros u u' x x' y [[-> ->]|[Hne Hu]]%(ins_lookup gs t g Hg) [[-> ->]|[Hne' Hu']]%(ins_lookup gs t g Hg); cbn; eauto.
  - intros y. cbn. rewrite elem_of_difference, elem_of_singleton, l_bits0, (claims_ins gs t g Hg) by done. split.
    + intros [[?|?] Hy]; [left; set_solver|by right].
    + intros [Hy|(u & x & Hu & Hx)]; [split; [left; set_solver|intros ->; by apply Hnd']|].
      split; [right; eauto|]. intros ->. apply (l_claim0 u x w Hu Hx). set_solver.
  - intros y. specialize (l_count0 y).
    pose proof (owed_ins gs t g Hg (g <| g_priv := r |> <| g_cur := None |> <| g_owe ::= cons w |>) y) as E.
    change (g_owe (g <| g_priv := r |> <| g_cur := None |> <| g_owe ::= cons w |>)) with (w :: g_owe g) in E.
    rewrite occ_cons in E. rewrite occ_middle, occ_cons in l_count0.
    change (worked y (s <| deferred ::= fun d => d ∖ {[w]} |>)) with (worked y s). lia.
Qed.

Lemma worked_log e y : worked y (s <| log ::= cons e |>) = ((if decide (is_work y e) then 1 else 0) + worked y s)%nat.
Proof. clear. unfold worked. change (log (s <| log ::= cons e |>)) with (e :: log s). rewrite filter_cons. by destruct (decide (is_work y e)). Qed.

Lemma log_holder j : (locked_job j = true -> g_hold g = true) -> Forall log_ok ((t, owner s, j) :: log s).
Proof using Hi Hg.
  intros Hj. constructor; [|exact (i_log _ _ _ Hi)]. intros El. cbn in *. by apply (t_hold _ _ _ (i_threads _ _ _ Hi t g Hg)), Hj.
Qed.

Lemma inv_work_deferred w o : g_hold g = true -> g_owe g = w :: o ->
  inv tot (<[t := g <| g_owe := o |>]> gs) (s <| log ::= cons (t, owner s, DeferredWork w) |>).
Proof using Hi Hg.
  intros Hh Ho. pose proof (i_threads _ _ _ Hi t g Hg) as Hme. destruct (i_lists _ _ _ Hi) as (L & R & Hl).
  apply inv_lists; try done; [by apply log_holder|by destruct Hme; split|].
  exists L, R. destruct Hl. split; try done.
  - intros u x [[-> ->]|[Hne Hu]]%(ins_lookup gs t g Hg); cbn; eauto.
  - intros u x y [[-> ->]|[Hne Hu]]%(ins_lookup gs t g Hg); cbn; eauto.
  - intros u u' x x' y [[-> ->]|[Hne Hu]]%(ins_lookup gs t g Hg) [[-> ->]|[Hne' Hu']]%(ins_lookup gs t g Hg); cbn; eauto.
  - intros y. cbn. by rewrite l_bits0, (claims_ins gs t g Hg).
  - intros y. specialize (l_count0 y). rewrite worked_log. pose proof (owed_ins gs t g Hg (g <| g_owe := o |>) y) as E.
    change (g_owe (g <| g_owe := o |>)) with o in E. rewrite Ho, occ_cons in E. unfold is_work. cbn [snd].
    destruct (decide (y = w)) as [->|Hne]; [rewrite decide_True by done; lia|].
    rewrite decide_False by congruence. lia.
Qed.

Lemma inv_work j : (locked_job j = true -> g_hold g = true) -> (forall w, j <> DeferredWork w) ->
  inv tot gs (s <| log ::= cons (t, owner s, j) |>).
Proof using Hi Hg.
  intros Hj Hn. pose proof (i_threads _ _ _ Hi t g Hg) as Hme. destruct (i_lists _ _ _ Hi) as (L & R & Hl).
  rewrite <- (list_insert_id gs t g) by done. apply inv_lists; try done; [by apply log_holder|by destruct Hme; split|].
  exists L, R. apply (lists_same gs t g Hg tot s); try done. intros w. rewrite worked_log, decide_False; [done|apply Hn].
Qed.
End lists.

(** * Swaps *)

Section swap.
Context (tot : Z -> nat) (gs : list ghost) (s : lstate) (t : nat) (g : ghost).
Context (Hi : inv tot gs s) (Hg : gs !! t = Some g).

Definition swapped (new : Z) : lstate :=
  s <| word := new |> <| owner := if lk new then (if lk (word s) then owner s else Some t) else None |>
    <| taken ::= fun f => Z.lor f (cleared (word s) new) |>.

Definition some_wake (gs : list ghost) : Prop := exists t' g', gs !! t' = Some g' /\ g_wake g' = true.

Lemma wake_ins g' : g_wake g' = g_wake g -> some_wake gs -> some_wake (<[t := g']> gs).
Proof using Hg.
  intros E (u & x & Hu & Hx). destruct (decide (u = t)) as [->|Hne].
  - exists t, g'. rewrite (ins_lookup gs t g Hg). replace x with g in * by congruence. rewrite E. auto.
  - exists u, x. rewrite (ins_lookup gs t g Hg). auto.
Qed.

Lemma inv_swap g' new : is_u64 new -> g_req g' = g_req g -> g_queued g' = g_queued g ->
  (lk new = false -> hd new = 0 /\ nw new = false /\ un new = 0) ->
  (forall u, u <> t -> owner (swapped new) = Some u <-> owner s = Some u) ->
  (owner (swapped new) = Some t <-> g_hold g' = true) ->
  thread_ok (swapped new) t g' ->
  (lk (word s) = true /\ nw (word s) = true \/ some_wake gs ->
   lk new = true /\ nw new = true \/ some_wake (<[t := g']> gs)) ->
  (exists L R, lists_ok tot (<[t := g']> gs) (swapped new) L R) -> taken_ok (<[t := g']> gs) (swapped new) ->
  inv tot (<[t := g']> gs) (swapped new).
Proof using Hi Hg.
  intros Hu Er Eq Hfree Hothers Hself Hme Hs Hl Htk. split; try done.
  - intros u Ho. apply list_lookup_insert_is_Some. destruct (decide (u = t)) as [->|Hne]; [eauto|].
    apply (i_owner _ _ _ Hi). by apply Hothers.
  - cbn. destruct (lk new) eqn:El; [|by split]. split; [|done]. intros _. destruct (lk (word s)) eqn:Es; [|done].
    by apply (i_lk _ _ _ Hi).
  - intros u x [[-> ->]|[Hne Hx]]%(ins_lookup gs t g Hg); [done|].
    apply (thread_frame s); [by apply (i_threads _ _ _ Hi)|by apply Hothers|done|done].
  - intros u x Hx Hr Hin. apply Hs. apply (ins_lookup gs t g Hg) in Hx as [[-> ->]|[Hne Hx]].
    + apply (i_sleep _ _ _ Hi t g Hg); [congruence|done].
    + by apply (i_sleep _ _ _ Hi u x).
  - exact (i_log _ _ _ Hi).
Qed.

Lemma free_owner : lk (word s) = false -> owner s = None.
Proof using Hi.
  clear g Hg. intros Hf. destruct (owner s) as [u|] eqn:E; [|done].
  assert (lk (word s) = true) by (apply (i_lk _ _ _ Hi); by rewrite E). congruence.
Qed.

Lemma free_hold u x : lk (word s) = false -> gs !! u = Some x -> g_hold x = false.
Proof using Hi.
  clear g Hg. intros Hf Hu. destruct (g_hold x) eqn:E; [|done]. apply (t_hold _ _ _ (i_threads _ _ _ Hi u x Hu)) in E.
  rewrite (free_owner Hf) in E. done.
Qed.

Lemma swapped_taken new : cleared (word s) new = 0 -> taken (swapped new) = taken s.
Proof. clear. intros E. cbn. rewrite E. apply Z.lor_0_r. Qed.

Lemma inv_acquire new : is_u64 new -> cleared (word s) new = 0 -> lk (word s) = false -> lk new = true -> hd new = hd (word s) ->
  nw new = nw (word s) -> inv tot (<[t := g <| g_hold := true |>]> gs) (swapped new).
Proof using Hi Hg.
  intros Hu Hcl Hf Hn Hh Hnw. pose proof (i_threads _ _ _ Hi t g Hg) as Hme. pose proof (free_owner Hf) as Ho.
  pose proof (free_hold t g Hf Hg) as Hng. assert (Eo : owner (swapped new) = Some t) by (cbn; by rewrite Hn, Hf).
  destruct (t_priv _ _ _ Hme Hng) as [Hp Hc]. apply inv_swap; try done.
  - congruence.
  - intros u Hne. rewrite Eo, Ho. split; congruence.
  - destruct Hme. split; try done.
  - intros [[? _]|H]; [congruence|]. right. by apply wake_ins.
  - destruct (i_lists _ _ _ Hi) as (L & R & Hl). exists L, R. pose proof (l_none _ _ _ _ _ Hl Ho) as ->. destruct Hl. split; try done.
    + cbn. by rewrite Hh.
    + intros u x [[-> ->]|[Hne Hx]]%(ins_lookup gs t g Hg); cbn; [by rewrite Hp|]. by rewrite (free_hold u x Hf Hx).
    + intros u x y [[-> ->]|[Hne Hx]]%(ins_lookup gs t g Hg); cbn; eauto.
    + intros u u' x x' y [[-> ->]|[Hne Hx]]%(ins_lookup gs t g Hg) [[-> ->]|[Hne' Hx']]%(ins_lookup gs t g Hg); cbn; eauto.
    + intros y. cbn. by rewrite l_bits0, (claims_ins gs t g Hg).
    + intros y. rewrite (owed_same gs t g Hg) by done. apply l_count0.
  - apply (taken_mine gs t g); [done|done|]. rewrite swapped_taken by done. pose proof (i_taken _ _ _ Hi) as Htk.
    unfold taken_ok in Htk. rewrite Ho in Htk. rewrite Htk. symmetry. by apply (t_due _ _ _ Hme).
Qed.

(** The lock stays with the one that has it. *)
Lemma kept_owner new : lk (word s) = true -> lk new = true -> owner (swapped new) = owner s.
Proof. clear. intros H1 H2. cbn. by rewrite H1, H2. Qed.

Lemma kept_wake g' new : lk new = true -> (nw (word s) = true -> nw new = true) -> g_wake g' = g_wake g ->
  (lk (word s) = true /\ nw (word s) = true \/ some_wake gs -> lk new = true /\ nw new = true \/ some_wake (<[t := g']> gs)).
Proof using Hg. intros Hn Hm Hw [[_ ?]|?]; [left; auto|right; by apply wake_ins]. Qed.

Lemma kept_taken g' new : lk (word s) = true -> lk new = true -> cleared (word s) new = 0 -> g_due g' = g_due g ->
  taken_ok (<[t := g']> gs) (swapped new).
Proof using Hi Hg.
  intros Ho Hn Hcl Hd. apply (taken_same gs t g g' s); [done|exact (i_taken _ _ _ Hi)|by apply kept_owner|by apply swapped_taken|done].
Qed.

Lemma inv_push new w o : is_u64 new -> cleared (word s) new = 0 -> lk (word s) = true -> lk new = true -> (nw (word s) = true -> nw new = true) ->
  0 <= w -> hd new = w + 1 -> g_claim g = Some w -> g_next g = Some (hd (word s)) -> g_owe g = w :: o ->
  inv tot (<[t := g <| g_claim := None |> <| g_next := None |> <| g_owe := o |>]> gs) (swapped new).
Proof using Hi Hg.
  intros Hu Hcl Ho Hn Hnw Hw Hh Hc Hx Hw'. pose proof (i_threads _ _ _ Hi t g Hg) as Hme.
  pose proof (kept_owner new Ho Hn) as Eo. destruct (i_lists _ _ _ Hi) as (L & R & Hl).
  pose proof (l_claim _ _ _ _ _ Hl t g w Hg Hc) as Hnot.
  apply inv_swap; try done; [congruence|by rewrite Eo|rewrite Eo; symmetry; by destruct Hme| |by apply kept_wake| |by apply kept_taken].
  { destruct Hme. split; try done. by rewrite Eo. }
  exists (w :: L), R. destruct Hl. split; try done.
  - change (chain (next_of s) (hd new) (w :: L)). rewrite Hh. cbn [chain]. split_and!; [done..|].
    by rewrite (t_next _ _ _ Hme w (hd (word s)) Hc Hx).
  - intros u x [[-> ->]|[Hne Hx']]%(ins_lookup gs t g Hg); cbn; eauto.
  - by rewrite Eo.
  - cbn. by constructor.
  - intros u x y [[-> ->]|[Hne Hx']]%(ins_lookup gs t g Hg); cbn; [done|]. intros Hy [->|Hin]%elem_of_cons.
    + apply Hne. by apply (l_unique0 u t x g w).
    + by apply (l_claim0 u x y).
  - intros u u' x x' y [[-> ->]|[Hne Hx1]]%(ins_lookup gs t g Hg) [[-> ->]|[Hne' Hx']]%(ins_lookup gs t g Hg); cbn; try done; eauto.
  - intros y. cbn. rewrite elem_of_cons, l_bits0. split.
    + intros [?|(u & x & Hu' & Hx')]; [by auto|]. destruct (decide (u = t)) as [->|Hne].
      * left; left. congruence.
      * right. exists u, x. rewrite (ins_lookup gs t g Hg). auto.
    + intros [[->|?]|(u & x & [[-> ->]|[Hne Hu']]%(ins_lookup gs t g Hg) & Hx')]; [right; eauto|by left|done|right; eauto].
  - intros y. specialize (l_count0 y).
    pose proof (owed_ins gs t g Hg (g <| g_claim := None |> <| g_next := None |> <| g_owe := o |>) y) as E.
    change (g_owe (g <| g_claim := None |> <| g_next := None |> <| g_owe := o |>)) with o in E.
    rewrite Hw', occ_cons in E. cbn [app]. rewrite occ_cons. change (worked y (swapped new)) with (worked y s). lia.
Qed.

Lemma inv_take new : is_u64 new -> cleared (word s) new = 0 -> g_hold g = true -> g_priv g = 0 -> lk (word s) = true -> lk new = true -> hd new = 0 ->
  (nw (word s) = true -> nw new = true) -> g_cur g = None ->
  inv tot (<[t := g <| g_priv := hd (word s) |>]> gs) (swapped new).
Proof using Hi Hg.
  intros Hu Hcl Hh Hp Ho Hn Hnh Hnw Hc. pose proof (i_threads _ _ _ Hi t g Hg) as Hme.
  pose proof (kept_owner new Ho Hn) as Eo. destruct (i_lists _ _ _ Hi) as (L & R & Hl).
  pose proof (l_priv _ _ _ _ _ Hl t g Hg Hh) as HR. rewrite Hp in HR. apply chain_nil in HR as ->.
  apply inv_swap; try done; [congruence|by rewrite Eo|rewrite Eo; symmetry; by destruct Hme| |by apply kept_wake| |by apply kept_taken].
  { destruct Hme. split; try done; cbn; [by rewrite Ho, Hn|by rewrite Hh|by rewrite Hc]. }
  exists [], L. destruct Hl. rewrite app_nil_r in *. split; try done.
  - intros u x [[-> ->]|[Hne Hx']]%(ins_lookup gs t g Hg); cbn; [done|]. intros Hx. exfalso. apply Hne.
    by apply (only_holder tot gs s t g Hi Hg u x).
  - rewrite Eo. intros E. apply (t_hold _ _ _ Hme) in Hh. congruence.
  - intros u x y [[-> ->]|[Hne Hx']]%(ins_lookup gs t g Hg); cbn; eauto.
  - intros u u' x x' y [[-> ->]|[Hne Hx1]]%(ins_lookup gs t g Hg) [[-> ->]|[Hne' Hx']]%(ins_lookup gs t g Hg); cbn; eauto.
  - intros y. cbn. by rewrite l_bits0, (claims_ins gs t g Hg).
  - intros y. rewrite (owed_same gs t g Hg) by done. apply l_count0.
Qed.

Lemma inv_release new : is_u64 new -> cleared (word s) new = 0 -> calm g -> g_hold g = true -> g_priv g = 0 -> lk (word s) = true -> lk new = false ->
  hd (word s) = 0 -> hd new = 0 -> nw new = false -> un new = 0 -> g_cur g = None -> g_due g = 0 ->
  inv tot (<[t := g <| g_hold := false |> <| g_wake := nw (word s) |>]> gs) (swapped new).
Proof using Hi Hg.
  intros Hu Hcl Hcalm Hh Hp Ho Hn Hoh Hnh Hnw Hun Hc Hdue. pose proof (i_threads _ _ _ Hi t g Hg) as Hme.
  assert (Eo : owner (swapped new) = None) by (cbn; by rewrite Hn).
  pose proof (proj1 (t_hold _ _ _ Hme) Hh) as Eos. destruct (i_lists _ _ _ Hi) as (L & R & Hl).
  pose proof (l_priv _ _ _ _ _ Hl t g Hg Hh) as HR. rewrite Hp in HR. apply chain_nil in HR as ->.
  apply inv_swap; try done; [|by rewrite Eo|..].
  - intros u Hne. rewrite Eo, Eos. split; congruence.
  - destruct Hme. split; try done. by rewrite Eo.
  - intros [[_ Hw]|(u & x & Hx & Hw)]; right.
    + eexists t, _. rewrite (ins_lookup gs t g Hg). split; [by left|done].
    + exists u, x. rewrite (ins_lookup gs t g Hg). split; [|done]. right. split; [|done]. intros ->. unfold calm in Hcalm. congruence.
  - exists L, []. destruct Hl. split; try done.
    + cbn. rewrite Hnh. by rewrite Hoh in l_word0.
    + intros u x [[-> ->]|[Hne Hx']]%(ins_lookup gs t g Hg); cbn; [done|]. intros Hx. exfalso. apply Hne.
      by apply (only_holder tot gs s t g Hi Hg u x).
    + intros u x y [[-> ->]|[Hne Hx']]%(ins_lookup gs t g Hg); cbn; eauto.
    + intros u u' x x' y [[-> ->]|[Hne Hx1]]%(ins_lookup gs t g Hg) [[-> ->]|[Hne' Hx']]%(ins_lookup gs t g Hg); cbn; eauto.
    + intros y. cbn. by rewrite l_bits0, (claims_ins gs t g Hg).
    + intros y. rewrite (owed_same gs t g Hg) by done. apply l_count0.
  - unfold taken_ok. rewrite Eo, swapped_taken by done. pose proof (i_taken _ _ _ Hi) as Htk. unfold taken_ok in Htk.
    rewrite Eos in Htk. by rewrite (Htk g Hg).
Qed.

End swap.

(** * Soundness of the rules *)

Lemma cas_sound tot gs s t g new g' : inv tot gs s -> gs !! t = Some g -> calm g -> is_u64 new ->
  cas_ok g (word s) new g' -> inv tot (<[t := g']> gs) (swapped s t new).
Proof.
  intros Hi Hg Hc Hu [].
  - by apply inv_acquire.
  - replace (swapped s t new) with (s <| word := new |>).
    + apply inv_saw; [done..|]. right. by split_and!.
    + unfold swapped. rewrite H, H0, H3. destruct s. cbn. by rewrite Z.lor_0_r.
  - assert (Ht : taken s = g_due g).
    { pose proof (i_taken _ _ _ Hi) as Htk. unfold taken_ok in Htk.
      apply (t_hold _ _ _ (i_threads _ _ _ Hi t g Hg)) in H. rewrite H in Htk. auto. }
    replace (swapped s t new) with (s <| word := new |> <| taken := Z.lor (g_due g) (cleared (word s) new) |>).
    + apply inv_clear; [done..| |done]. right. by split_and!.
    + unfold swapped. rewrite H0, H1, <- Ht. by destruct s.
  - by eapply inv_push.
  - by apply inv_take.
  - by apply inv_release.
Qed.

Lemma rule_sound tot gs s t (R : Set) (a : action R) g K c r s' :
  inv tot gs s -> gs !! t = Some g -> rule R a g K -> aexec t a c s = Some (r, s') ->
  exists g', K r g' /\ inv tot (<[t := g']> gs) s'.
Proof.
  intros Hi Hg [Hc Hr] He.
  assert (Hidle : forall s', word s' = word s -> next_id s' = next_id s -> deferred s' = deferred s -> owner s' = owner s ->
    log s' = log s -> queue s' = queue s -> asleep s' = asleep s -> taken s' = taken s -> inv tot (<[t := g]> gs) s').
  { intros. rewrite list_insert_id by done. by apply (inv_idle tot gs s t g). }
  destruct a as [|old new|w|w v|w|w| |n|b| | |st|tm| |st|q|j|]; cbn in He, Hr.
  - injection He as <- <-. eexists. split; [apply Hr|by apply inv_load].
    + exact (i_u64 _ _ _ Hi).
    + by apply (holder_lk tot gs s t g).
  - destruct Hr as [Hf (g' & Hu & Hcas & Ht)]. destruct (Z.eqb_spec (word s) old) as [<-|Hne]; injection He as <- <-.
    + exists g'. split; [done|]. apply (cas_sound tot gs s t g); auto.
    + exists g. split; [done|]. by apply Hidle.
  - destruct Hr as (Hw & Hh & Hp & Hn & Hr). injection He as <- <-.
    destruct (inv_next_load tot gs s t g Hi Hg w Hw Hh Hp Hn) as [Hr0 Hi']. eauto.
  - destruct Hr as (Hw & Hcl & Hr). injection He as <- <-. eexists. split; [done|]. by apply inv_next_store.
  - destruct Hr as (Hcl & Ht & Hf). injection He as <- <-. case_bool_decide as Hin.
    + exists g. split; [done|]. rewrite list_insert_id by done. by apply inv_tas_busy.
    + eexists. split; [done|]. by apply inv_tas.
  - injection He as <- <-. destruct Hr as [[Hcl Hr]|(Hw & Hh & Hp & r' & Hcur & Hr)]; (eexists; split; [done|]).
    + by apply inv_unclaim.
    + by apply inv_unlink.
  - injection He as <- <-. exists g. split; [done|]. by apply Hidle.
  - injection He as <- <-. exists g. split; [done|]. by apply Hidle.
  - injection He as <- <-. exists g. split; [done|]. by apply Hidle.
  - injection He as <- <-. eexists. split; [done|]. by apply inv_add_wait.
  - injection He as <- <-. eexists. split; [done|]. by apply inv_remove_wait.
  - destruct st; injection He as <- <-; (eexists; split; [done|]).
    + apply (inv_asleep tot gs s t g Hi Hg (fun q => q ∖ {[t]})). set_solver.
    + apply (inv_asleep tot gs s t g Hi Hg (fun q => {[t]} ∪ q)). set_solver.
  - destruct Hr as [Hreq Hr]. exists (g <| g_req := false |>).
    assert (Hi' : inv tot (<[t := g <| g_req := false |>]> gs) (s <| asleep ::= fun q => q ∖ {[t]} |>))
      by (apply inv_asleep; [done..|set_solver]).
    destruct (Z.eqb_spec tm MAX_SCHEDULE_TIMEOUT) as [E|E].
    + injection He as <- <-. split; [by apply Hr|exact Hi'].
    + destruct (_ && _); [|done]. injection He as <- <-. split; [by apply Hr|exact Hi'].
  - injection He as <- <-. eexists. split; [done|]. by apply inv_wake_up.
  - injection He as <- <-. exists g. split; [done|]. by apply Hidle.
  - injection He as <- <-. destruct Hr as [Hq Hr]. eexists. split; [apply Hr|].
    exact (inv_handled tot gs s t g Hi Hg (settles q) Hq).
  - injection He as <- <-. destruct Hr as [Hl Hr].
    assert (Hw : (forall w, j <> DeferredWork w) ->
      K (nz c) (g <| g_due ::= fun d => Z.ldiff d (handles j) |>) -> exists g', K (nz c) g' /\
      inv tot (<[t := g']> gs) (s <| log ::= cons (t, owner s, j) |> <| taken ::= fun f => Z.ldiff f (handles j) |>)).
    { intros Hn Hk. eexists. split; [done|].
      refine (inv_handled tot gs _ t g (inv_work tot gs s t g Hi Hg j Hl Hn) Hg (handles j) _).
      intros Hz. apply Hl. by destruct j. }
    destruct j as [n|w| | | | | | | | | | | | |i|i| | |]; try (by apply Hw).
    destruct Hr as (o & Ho & Hr). eexists. split; [done|].
    match goal with |- inv _ _ ?x => replace x with (s <| log ::= cons (t, owner s, DeferredWork w) |>) end.
    2: { destruct s; cbn -[Z.ldiff]. by rewrite Z.ldiff_0_r. }
    apply inv_work_deferred; auto.
  - done.
Qed.
