(* ===== verification/EplockCode.v ===== *)
(** Each function of the stack lock against the rules of file EplockInv. *)

From stdpp Require Import base gmap list.
From S2P Require Import Prelude Eplock EplockLogic EplockInv.

Open Scope Z_scope.
Open Scope prog_scope.

(** * Bits *)

Lemma lk_bit v : lk v = Z.testbit v 29.
Proof. apply (nz_land_pow2 v 29). lia. Qed.

Lemma nw_bit v : nw v = Z.testbit v 30.
Proof. apply (nz_land_pow2 v 30). lia. Qed.

Lemma land_zero v m : Z.land v m = 0 <-> forall n, 0 <= n -> Z.testbit v n && Z.testbit m n = false.
Proof.
  split.
  - intros E n Hn. by rewrite <- Z.land_spec, E, Z.bits_0.
  - intros H. apply Z.bits_inj'. intros n Hn. by rewrite Z.land_spec, Z.bits_0, H.
Qed.

Lemma has_false v m : has v m = false <-> Z.land v m = 0.
Proof. unfold has, nz. rewrite negb_false_iff. apply Z.eqb_eq. Qed.

Lemma u64_above v n : is_u64 v -> 64 <= n -> Z.testbit v n = false.
Proof. intros Hv Hn. apply (pow2_bits_above _ 64); [exact Hv|lia]. Qed.

Lemma u64_intro v : 0 <= v -> (forall n, 64 <= n -> Z.testbit v n = false) -> is_u64 v.
Proof. intros Hv H. split; [done|]. apply (lt_pow2_bits v 64); [done|lia|done]. Qed.

Lemma u64_dec v : (0 <=? v) && (v <? 18446744073709551616) = true -> is_u64 v.
Proof. intros [H1%Z.leb_le H2%Z.ltb_lt]%andb_true_iff. by split. Qed.

Lemma u64_lor v f : is_u64 v -> is_u64 f -> is_u64 (Z.lor v f).
Proof.
  intros Hv Hf. apply u64_intro; [apply Z.lor_nonneg; split; [apply Hv|apply Hf]|]. intros n Hn.
  by rewrite Z.lor_spec, !u64_above.
Qed.

Lemma u64_ldiff v f : is_u64 v -> is_u64 (Z.ldiff v f).
Proof.
  intros Hv. apply u64_intro; [apply Z.ldiff_nonneg; left; apply Hv|]. intros n Hn. by rewrite Z.ldiff_spec, u64_above.
Qed.

Lemma u64_land v f : is_u64 f -> is_u64 (Z.land v f).
Proof.
  intros Hf. apply u64_intro; [apply Z.land_nonneg; right; apply Hf|]. intros n Hn.
  by rewrite Z.land_spec, (u64_above f), andb_false_r.
Qed.

Lemma lk_lor v f : lk (Z.lor v f) = lk v || lk f.
Proof. by rewrite !lk_bit, Z.lor_spec. Qed.
Lemma nw_lor v f : nw (Z.lor v f) = nw v || nw f.
Proof. by rewrite !nw_bit, Z.lor_spec. Qed.
Lemma lk_ldiff v f : lk (Z.ldiff v f) = lk v && negb (lk f).
Proof. by rewrite !lk_bit, Z.ldiff_spec. Qed.
Lemma nw_ldiff v f : nw (Z.ldiff v f) = nw v && negb (nw f).
Proof. by rewrite !nw_bit, Z.ldiff_spec. Qed.
Lemma hd_lor v f : hd (Z.lor v f) = Z.lor (hd v) (hd f).
Proof. apply Z.land_lor_distr_l. Qed.

Lemma hd_ldiff v f : hd f = 0 -> hd (Z.ldiff v f) = hd v.
Proof.
  unfold hd. rewrite land_zero. intros Hf. apply Z.bits_inj'. intros n Hn. rewrite !Z.land_spec, Z.ldiff_spec.
  specialize (Hf n Hn). destruct (Z.testbit v n), (Z.testbit f n), (Z.testbit CI_EPLOCK_NETIF_SOCKET_LIST n); done.
Qed.

Lemma un_ldiff v f : un v = 0 -> un (Z.ldiff v f) = 0.
Proof.
  unfold un. rewrite !land_zero. intros H n Hn. specialize (H n Hn). rewrite Z.ldiff_spec.
  by destruct (Z.testbit v n), (Z.testbit CI_EPLOCK_NETIF_UNLOCK_FLAGS n), (Z.testbit f n).
Qed.

(** Alerts are no bits of the lock itself. *)
Definition own_bits : Z := Z.lor CI_EPLOCK_LOCK_FLAGS CI_EPLOCK_NETIF_SOCKET_LIST.
Definition alert (f : Z) : Prop := is_u64 f /\ Z.land f own_bits = 0.

Lemma alert_bits f : alert f -> lk f = false /\ nw f = false /\ hd f = 0.
Proof.
  intros [_ H]. rewrite land_zero in H. split_and!.
  - rewrite lk_bit. pose proof (H 29 ltac:(lia)) as E. change (Z.testbit own_bits 29) with true in E. by rewrite andb_true_r in E.
  - rewrite nw_bit. pose proof (H 30 ltac:(lia)) as E. change (Z.testbit own_bits 30) with true in E. by rewrite andb_true_r in E.
  - apply land_zero. intros n Hn. specialize (H n Hn). unfold own_bits in H. rewrite Z.lor_spec in H.
    destruct (Z.testbit f n), (Z.testbit CI_EPLOCK_LOCK_FLAGS n), (Z.testbit CI_EPLOCK_NETIF_SOCKET_LIST n); done.
Qed.

Lemma alert_land v m : alert m -> alert (Z.land v m).
Proof.
  intros [Hu Hm]. split; [by apply u64_land|]. rewrite <- Z.land_assoc, Hm. apply Z.land_0_r.
Qed.

Lemma alert_lor f f' : alert f -> alert f' -> alert (Z.lor f f').
Proof.
  intros [Hu Hm] [Hu' Hm']. split; [by apply u64_lor|]. rewrite Z.land_lor_distr_l, Hm, Hm'. done.
Qed.

Lemma alert_0 : alert 0.
Proof. by split; [unfold is_u64; lia|]. Qed.

Lemma alert_unlock v : alert (Z.land v CI_EPLOCK_NETIF_UNLOCK_FLAGS).
Proof. apply alert_land. split; [apply u64_dec; reflexivity|reflexivity]. Qed.

(** The parts of a mask. *)
Lemma has_lor v m m' : has v (Z.lor m m') = has v m || has v m'.
Proof.
  unfold has, nz. rewrite Z.land_lor_distr_r. destruct (Z.eqb_spec (Z.land v m) 0) as [->|H]; [by rewrite Z.lor_0_l|].
  cbn. apply negb_true_iff, Z.eqb_neq. intros E. apply H. by apply Z.lor_eq_0_iff in E as [? _].
Qed.

Lemma no_callback l : has l CI_EPLOCK_CALLBACK_FLAGS = false -> hd l = 0 /\ un l = 0 /\ cleared l 0 = 0.
Proof.
  rewrite has_false. intros H.
  assert (Hm : forall m, Z.land CI_EPLOCK_CALLBACK_FLAGS m = m -> Z.land l m = 0).
  { intros m <-. by rewrite Z.land_assoc, H. }
  unfold cleared. rewrite Z.ldiff_0_r. split_and!; by apply Hm.
Qed.

(** The bits of [d] are bits of [m]. *)
Definition bits_in (d m : Z) : Prop := forall n, 0 <= n -> Z.testbit d n = true -> Z.testbit m n = true.

Lemma bits_in_0 d : bits_in d 0 -> d = 0.
Proof.
  intros H. apply Z.bits_inj'. intros n Hn. rewrite Z.bits_0. specialize (H n Hn). rewrite Z.bits_0 in H.
  by destruct (Z.testbit d n); [specialize (H eq_refl)|].
Qed.

Lemma bits_in_trans a b c : bits_in a b -> bits_in b c -> bits_in a c.
Proof. unfold bits_in. auto. Qed.

Lemma bits_in_ldiff d m f : bits_in d m -> bits_in (Z.ldiff d f) (Z.ldiff m f).
Proof. intros H n Hn. rewrite !Z.ldiff_spec, !andb_true_iff. intros [? ?]. auto. Qed.

Lemma ldiff_bits_in d f : bits_in (Z.ldiff d f) d.
Proof. intros n Hn. rewrite Z.ldiff_spec, andb_true_iff. by intros [? _]. Qed.

Lemma bits_in_land d m m' : bits_in d m -> bits_in d m' -> bits_in d (Z.land m m').
Proof. intros H H' n Hn Hd. by rewrite Z.land_spec, H, H'. Qed.

Lemma land_bits_in_l a b : bits_in (Z.land a b) a.
Proof. intros n Hn. rewrite Z.land_spec, andb_true_iff. by intros [? _]. Qed.

Lemma land_bits_in_r a b : bits_in (Z.land a b) b.
Proof. intros n Hn. rewrite Z.land_spec, andb_true_iff. by intros [_ ?]. Qed.

(** A flag that is not set in [v] is no bit of a part of [v]. *)
Lemma bits_in_absent d v m f : bits_in d v -> bits_in d m -> has v f = false -> bits_in d (Z.ldiff m f).
Proof.
  intros Hv Hm Hf%has_false n Hn Hd. rewrite land_zero in Hf. specialize (Hf n Hn). rewrite (Hv n Hn Hd), andb_true_l in Hf.
  by rewrite Z.ldiff_spec, (Hm n Hn Hd), Hf.
Qed.

(** Alerts that are not taken out. *)
Lemma cleared_0 old new : bits_in (Z.land old under_lock) new -> cleared old new = 0.
Proof.
  intros H. apply land_zero. intros n Hn. specialize (H n Hn). rewrite Z.land_spec in H. rewrite Z.ldiff_spec.
  destruct (Z.testbit old n), (Z.testbit new n), (Z.testbit under_lock n); try done. by specialize (H eq_refl).
Qed.

Lemma bits_in_lor_l a b c : bits_in a b -> bits_in a (Z.lor b c).
Proof. intros H n Hn Ha. by rewrite Z.lor_spec, H. Qed.

Lemma cleared_lor v f : cleared v (Z.lor v f) = 0.
Proof. apply cleared_0, bits_in_lor_l, land_bits_in_l. Qed.

Lemma kept_ldiff v f : Z.land f under_lock = 0 -> bits_in (Z.land v under_lock) (Z.ldiff v f).
Proof.
  rewrite land_zero. intros Hf n Hn. specialize (Hf n Hn). rewrite Z.land_spec, Z.ldiff_spec.
  by destruct (Z.testbit v n), (Z.testbit f n), (Z.testbit under_lock n).
Qed.

Lemma cleared_ldiff v f : Z.land f under_lock = 0 -> cleared v (Z.ldiff v f) = 0.
Proof. intros Hf. by apply cleared_0, kept_ldiff. Qed.

Lemma cleared_in v f : bits_in (cleared v (Z.ldiff v f)) (Z.land v (Z.land f under_lock)).
Proof.
  intros n Hn. unfold cleared. rewrite !Z.land_spec, !Z.ldiff_spec.
  by destruct (Z.testbit v n), (Z.testbit f n), (Z.testbit under_lock n).
Qed.

(** * Rules for programs *)

#[local] Notation okp := (ok calm rule).

Lemma okp_bind {A B} (p : prog A) (f : A -> prog B) g Q : okp p g (fun a g' => okp (f a) g' Q) -> okp (pbind p f) g Q.
Proof. apply ok_bind, rule_mono. Qed.

Lemma okp_mono {A} (p : prog A) g (Q Q' : A -> ghost -> Prop) :
  okp p g Q -> (forall a g', Q a g' -> Q' a g') -> okp p g Q'.
Proof. intros Hp HQ. by apply (ok_mono calm rule rule_mono _ _ Q). Qed.

Lemma okp_seq {A B} (p : prog A) (f : A -> prog B) g Q (P : A -> ghost -> Prop) :
  okp p g P -> (forall a g', P a g' -> okp (f a) g' Q) -> okp (pbind p f) g Q.
Proof. intros Hp Hf. apply okp_bind. by apply (okp_mono _ _ _ _ Hp). Qed.

Section rules.
Context (g : ghost) (Hc : calm g).

Lemma okp_load {A} (k : Z -> prog A) Q : g_queued g = false ->
  (forall v, is_u64 v -> (g_hold g = true -> lk v = true) -> okp (k v) g Q) -> okp (pbind (act LockLoad) k) g Q.
Proof using Hc. intros Hq Hk. split; [done|]. intros v Hv Hl. unfold saw. rewrite Hq. by apply Hk. Qed.

Lemma okp_cas {A} old new g' (k : bool -> prog A) Q : is_u64 new -> cas_ok g old new g' ->
  okp (k true) g' Q -> okp (k false) g Q -> okp (pbind (act (LockCas old new)) k) g Q.
Proof using Hc. intros Hu Hcas Ht Hf. split; [done|]. split; [done|]. by exists g'. Qed.

Lemma okp_stat {A} x (k : unit -> prog A) Q : okp (k tt) g Q -> okp (pbind (act (Stat x)) k) g Q.
Proof. clear Hc. intros Hk. by split. Qed.

Lemma due_same d : d = 0 -> g <| g_due ::= fun f => Z.ldiff f d |> = g.
Proof. clear Hc. intros ->. destruct g. cbn -[Z.ldiff]. by rewrite Z.ldiff_0_r. Qed.

Lemma okp_ask {A} q (k : bool -> prog A) Q : settles q = 0 -> (forall b, okp (k b) g Q) -> okp (pbind (act (Ask q)) k) g Q.
Proof. clear Hc. intros Hq Hk. split; [done|]. split; [done|]. intros b. rewrite due_same by done. apply Hk. Qed.

Lemma okp_count {A} (k : Z -> prog A) Q : (forall n, okp (k n) g Q) -> okp (pbind (act CountLoad) k) g Q.
Proof using Hc. intros Hk. by split. Qed.

Lemma okp_set_count {A} n (k : unit -> prog A) Q : okp (k tt) g Q -> okp (pbind (act (CountStore n)) k) g Q.
Proof. clear Hc. intros Hk. by split. Qed.

Lemma okp_dl {A} b (k : unit -> prog A) Q : okp (k tt) g Q -> okp (pbind (act (DlFlag b)) k) g Q.
Proof using Hc. intros Hk. by split. Qed.

Lemma okp_state {A} x (k : unit -> prog A) Q :
  okp (k tt) (g <| g_req := false |>) Q -> okp (pbind (act (SetCurrentState x)) k) g Q.
Proof using Hc. intros Hk. by split. Qed.

Lemma okp_sched {A} tm (k : Z -> prog A) Q : g_req g = true ->
  (forall r, (tm = MAX_SCHEDULE_TIMEOUT -> r = MAX_SCHEDULE_TIMEOUT) -> okp (k r) (g <| g_req := false |>) Q) ->
  okp (pbind (act (ScheduleTimeout tm)) k) g Q.
Proof using Hc. intros Hr Hk. by split. Qed.

Lemma okp_work_due {A} j (k : bool -> prog A) Q : (passing (Work j) = false -> g_hold g = true) ->
  (forall w, j <> DeferredWork w) -> j <> DeferDl2Work ->
  (forall b, okp (k b) (g <| g_due ::= fun f => Z.ldiff f (handles j) |>) Q) -> okp (pbind (act (Work j)) k) g Q.
Proof using Hc.
  intros Hj Hn Hd Hk. split; [done|]. split; [intros El; apply Hj; cbn; by rewrite El|].
  by destruct j; try done; edestruct Hn.
Qed.

Lemma okp_work {A} j (k : bool -> prog A) Q : (passing (Work j) = false -> g_hold g = true) ->
  (forall w, j <> DeferredWork w) -> j <> DeferDl2Work -> g_due g = 0 -> (forall b, okp (k b) g Q) ->
  okp (pbind (act (Work j)) k) g Q.
Proof using Hc.
  intros Hj Hn Hd E Hk. apply okp_work_due; [done..|]. intros b.
  replace (g <| g_due ::= _ |>) with g; [apply Hk|]. destruct g. cbn -[Z.ldiff] in *. by rewrite E.
Qed.

Lemma okp_deferred {A} w o (k : bool -> prog A) Q : g_hold g = true -> g_owe g = w :: o ->
  (forall b, okp (k b) (g <| g_owe := o |>) Q) -> okp (pbind (act (Work (DeferredWork w))) k) g Q.
Proof using Hc. intros Hh Ho Hk. split; [done|]. split; [done|]. by exists o. Qed.

Lemma okp_when b p Q : (b = true -> okp p g (fun _ => Q)) -> (b = false -> Q g) -> okp (when b p) g (fun _ => Q).
Proof. destruct b; cbn; auto. Qed.
End rules.

(** Ghost states: in no queue, with list [o] of work to do or leave. *)
Definition st (h : bool) (o : list Z) : ghost := mk_ghost h None None 0 None o false false false 0.

(** Raising alerts, or taking them back. *)
Lemma cas_lor g v f : lk v = true -> alert f -> g_queued g = false -> cas_ok g v (Z.lor v f) g.
Proof.
  intros Hl Hf Hq. destruct (alert_bits f Hf) as (E1 & E2 & E3).
  replace g with (saw (Z.lor v f) g) at 2 by (unfold saw; by rewrite Hq). apply CasFlags.
  - done.
  - by rewrite lk_lor, Hl.
  - by rewrite hd_lor, E3, Z.lor_0_r.
  - rewrite nw_lor. by intros ->.
  - apply cleared_lor.
Qed.

Lemma cas_ldiff g v f : g_hold g = true -> lk v = true -> alert f -> g_queued g = false ->
  cas_ok g v (Z.ldiff v f) (g <| g_due ::= fun d => Z.lor d (cleared v (Z.ldiff v f)) |>).
Proof.
  intros Hh Hl Hf Hq. destruct (alert_bits f Hf) as (E1 & E2 & E3). set (g' := g <| g_due ::= _ |>).
  replace g' with (saw (Z.ldiff v f) g') by (unfold saw; change (g_queued g') with (g_queued g); by rewrite Hq). apply CasClear.
  - done.
  - done.
  - by rewrite lk_ldiff, Hl, E1.
  - by apply hd_ldiff.
  - rewrite nw_ldiff, E2, andb_true_r. done.
Qed.

(** Setting the lock bit. *)
Lemma cas_lock g v f : g_hold g = false -> lk v = false -> alert f ->
  cas_ok g v (Z.lor (Z.lor v CI_EPLOCK_LOCKED) f) (g <| g_hold := true |>).
Proof.
  intros Hh Hl Hf. destruct (alert_bits f Hf) as (E1 & E2 & E3). apply CasAcquire; [done|done|..].
  - rewrite !lk_lor. change (lk CI_EPLOCK_LOCKED) with true. by rewrite orb_true_r.
  - rewrite !hd_lor, E3. change (hd CI_EPLOCK_LOCKED) with 0. by rewrite !Z.lor_0_r.
  - rewrite !nw_lor, E2. change (nw CI_EPLOCK_LOCKED) with false. by rewrite !orb_false_r.
  - rewrite <- Z.lor_assoc. apply cleared_lor.
Qed.

Lemma cas_lock0 g v : g_hold g = false -> lk v = false -> cas_ok g v (Z.lor v CI_EPLOCK_LOCKED) (g <| g_hold := true |>).
Proof. intros Hh Hl. rewrite <- (Z.lor_0_r (Z.lor v _)). apply cas_lock; [done|done|exact alert_0]. Qed.

Lemma u64_lock v : is_u64 v -> is_u64 (Z.lor v CI_EPLOCK_LOCKED).
Proof. intros. apply u64_lor; [done|apply u64_dec; reflexivity]. Qed.

(** * include/onload/eplock.h *)

Lemma trylock_ok g : calm g -> g_queued g = false -> g_hold g = false ->
  okp ef_eplock_trylock g (fun b g' => g' = if b then g <| g_hold := true |> else g).
Proof.
  intros Hc Hq Hh. apply okp_load; [done..|]. intros v Hv _. fold (lk v). destruct (lk v) eqn:El; cbn [negb]; [done|].
  apply (okp_cas g Hc v _ (g <| g_hold := true |>) Ret); [by apply u64_lock|by apply cas_lock0|done|done].
Qed.

Lemma okp_retry {B : Set} (body : prog (option B)) g Q : calm g ->
  okp body g (fun r g' => match r with None => g' = g | Some b => Q b g' end) -> okp (forever body) g Q.
Proof. apply ok_retry, rule_mono. Qed.

Section eplock.
Context (g : ghost) (Hc : calm g) (Hq : g_queued g = false).

Lemma swap_flags {B : Set} v f (x : B) Q : is_u64 v -> lk v = true -> alert f -> Q x g ->
  okp (b <- act (LockCas v (Z.lor v f)) ;; Ret (if b then Some x else None)) g
    (fun r g' => match r with None => g' = g | Some b => Q b g' end).
Proof using Hc Hq.
  intros Hv Hl Hf HQ. by apply (okp_cas g Hc v _ g); [apply u64_lor; [done|apply Hf]|apply cas_lor|..].
Qed.

Lemma holder_set_flag_ok flag : g_hold g = true -> alert flag ->
  okp (ef_eplock_holder_set_flag flag) g (fun _ g' => g' = g).
Proof using Hc Hq.
  intros Hh Hf. apply okp_retry; [done|]. apply okp_load; [done..|]. intros v Hv Hl. destruct (has v flag); [done|].
  apply swap_flags; auto.
Qed.

Lemma holder_set_flags_ok flags : g_hold g = true -> alert flags ->
  okp (ef_eplock_holder_set_flags flags) g (fun _ g' => g' = g).
Proof using Hc Hq.
  intros Hh Hf. apply okp_retry; [done|]. apply okp_load; [done..|]. intros v Hv Hl. destruct (_ =? _); [done|].
  apply swap_flags; auto.
Qed.

(** The alerts taken out are now due. *)
Lemma clear_flags_ok flags : g_hold g = true -> alert flags ->
  okp (ef_eplock_clear_flags flags) g
    (fun v g' => g' = g <| g_due ::= fun d => Z.lor d (cleared v (Z.ldiff v flags)) |> /\ is_u64 v).
Proof using Hc Hq.
  intros Hh Hf. apply okp_retry; [done|]. apply okp_load; [done..|]. intros v Hv Hl.
  apply (okp_cas g Hc v _ (g <| g_due ::= fun d => Z.lor d (cleared v (Z.ldiff v flags)) |>));
    [by apply u64_ldiff|apply cas_ldiff; auto|by split|done].
Qed.

Lemma set_flag_if_locked_ok flag : alert flag -> okp (ef_eplock_set_flag_if_locked flag) g (fun _ g' => g' = g).
Proof using Hc Hq.
  intros Hf. apply okp_retry; [done|]. apply okp_load; [done..|]. intros v Hv _. fold (lk v).
  destruct (lk v) eqn:El; cbn [negb]; [|done]. destruct (has v flag); [done|]. by apply swap_flags.
Qed.

Lemma set_flags_if_locked_ok flags : alert flags -> okp (ef_eplock_set_flags_if_locked flags) g (fun _ g' => g' = g).
Proof using Hc Hq.
  intros Hf. apply okp_retry; [done|]. apply okp_load; [done..|]. intros v Hv _. fold (lk v).
  destruct (lk v) eqn:El; cbn [negb]; [|done]. destruct (_ =? _); [done|]. by apply swap_flags.
Qed.

Context (Hh : g_hold g = false).

#[local] Abbreviation got b := (if b : bool then g <| g_hold := true |> else g).

Lemma trylock_and_set_flags_ok flags : alert flags ->
  okp (ef_eplock_trylock_and_set_flags flags) g (fun b g' => g' = got b).
Proof using Hc Hq Hh.
  intros Hf. apply okp_retry; [done|]. apply okp_load; [done..|]. intros v Hv _.
  assert (Hu : is_u64 (Z.lor (Z.lor v CI_EPLOCK_LOCKED) flags)) by (apply u64_lor; [by apply u64_lock|apply Hf]).
  fold (lk v). destruct (lk v) eqn:El; cbn [negb].
  - apply (okp_cas g Hc v _ g); [done| |done|done]. rewrite <- Z.lor_assoc.
    replace (Z.lor CI_EPLOCK_LOCKED flags) with (Z.lor flags CI_EPLOCK_LOCKED) by apply Z.lor_comm.
    replace (Z.lor v (Z.lor flags CI_EPLOCK_LOCKED)) with (Z.lor v flags); [by apply cas_lor|].
    apply Z.bits_inj'. intros n Hn. rewrite !Z.lor_spec. destruct (decide (n = 29)) as [->|Hne].
    + rewrite lk_bit in El. by rewrite El.
    + replace (Z.testbit CI_EPLOCK_LOCKED n) with false; [by rewrite orb_false_r|].
      change CI_EPLOCK_LOCKED with (2 ^ 29). symmetry. apply Z.pow2_bits_false. lia.
  - apply (okp_cas g Hc v _ (g <| g_hold := true |>)); [done|by apply cas_lock|done|done].
Qed.

Lemma swap_lock v : is_u64 v -> lk v = false ->
  okp (b <- act (LockCas v (Z.lor v CI_EPLOCK_LOCKED)) ;; Ret (if b then Some true else None)) g
    (fun r g' => match r with None => g' = g | Some b => g' = got b end).
Proof using Hc Hh.
  intros Hv Hl. apply (okp_cas g Hc v _ (g <| g_hold := true |>)); [by apply u64_lock|by apply cas_lock0|done|done].
Qed.

Lemma lock_or_set_flag_ok flag : alert flag -> okp (ef_eplock_lock_or_set_flag flag) g (fun b g' => g' = got b).
Proof using Hc Hq Hh.
  intros Hf. apply okp_retry; [done|]. apply okp_load; [done..|]. intros v Hv _. fold (lk v).
  destruct (lk v) eqn:El; cbn [negb]; [|by apply swap_lock]. destruct (has v flag); [done|]. by apply swap_flags.
Qed.

Lemma lock_or_set_flags_ok flags : alert flags -> okp (ef_eplock_lock_or_set_flags flags) g (fun b g' => g' = got b).
Proof using Hc Hq Hh.
  intros Hf. apply okp_retry; [done|]. apply okp_load; [done..|]. intros v Hv _. fold (lk v).
  destruct (lk v) eqn:El; cbn [negb]; [|by apply swap_lock]. destruct (_ =? _); [done|]. by apply swap_flags.
Qed.
End eplock.

(** The lock is let go: nothing is left in the word, and the others are to be
    woken if they asked. *)
Lemma try_unlock_ok g : calm g -> g_queued g = false -> g_hold g = true -> g_priv g = 0 -> g_cur g = None ->
  g_due g = 0 -> okp (ef_eplock_try_unlock (Z.lor CI_EPLOCK_NETIF_UNLOCK_FLAGS CI_EPLOCK_NETIF_SOCKET_LIST)) g
    (fun r g' => is_u64 r.2 /\ g' = if r.1 : bool then g <| g_hold := false |> <| g_wake := nw r.2 |> else g).
Proof.
  intros Hc Hq Hh Hp Hcur Hdue. apply okp_load; [done..|]. intros v Hv Hl. rewrite has_lor.
  destruct (has v CI_EPLOCK_NETIF_UNLOCK_FLAGS) eqn:Eu; [done|]. destruct (has v CI_EPLOCK_NETIF_SOCKET_LIST) eqn:El; [done|].
  cbn [orb]. apply has_false in Eu, El.
  apply (okp_cas g Hc v _ (g <| g_hold := false |> <| g_wake := nw v |>)); [by apply u64_ldiff| |done|done].
  apply CasRelease; auto.
  - rewrite lk_ldiff. change (lk (Z.lor _ _)) with true. apply andb_false_r.
  - by rewrite hd_ldiff.
  - rewrite nw_ldiff. change (nw (Z.lor _ _)) with true. apply andb_false_r.
  - by apply un_ldiff.
  - by apply cleared_ldiff.
Qed.

(** * Waiting *)

(** In the queue, the request seen or not. *)
Definition wq (h r : bool) (o : list Z) : ghost := mk_ghost h None None 0 None o true r false 0.

Lemma saw_wq v h r o : saw v (wq h r o) = wq h (r || lk v && nw v) o.
Proof. unfold saw. cbn. destruct (lk v), (nw v), r; done. Qed.

Lemma okp_load_wq {A} (k : Z -> prog A) r o Q :
  (forall v, is_u64 v -> okp (k v) (wq false (r || lk v && nw v) o) Q) -> okp (pbind (act LockLoad) k) (wq false r o) Q.
Proof. intros Hk. split; [done|]. intros v Hv _. rewrite saw_wq. by apply Hk. Qed.

(** Asking to be woken. *)
Lemma swap_request {B : Set} v r o (x : B) Q : is_u64 v -> lk v = true -> (forall r, Q None (wq false r o)) ->
  Q (Some x) (wq false true o) ->
  okp (b <- act (LockCas v (Z.lor v CI_EPLOCK_FL_NEED_WAKE)) ;; Ret (if b then Some x else None)) (wq false r o) Q.
Proof.
  intros Hv Hl Hn Hs. apply (okp_cas (wq false r o) eq_refl v _ (saw (Z.lor v CI_EPLOCK_FL_NEED_WAKE) (wq false r o)));
    [apply u64_lor; [done|apply u64_dec; reflexivity]| | |by apply Hn].
  - apply CasFlags; [done|by rewrite lk_lor, Hl|rewrite hd_lor; apply Z.lor_0_r| |apply cleared_lor].
    rewrite nw_lor. change (nw CI_EPLOCK_FL_NEED_WAKE) with true. by rewrite orb_true_r.
  - rewrite saw_wq, lk_lor, nw_lor, Hl. change (nw CI_EPLOCK_FL_NEED_WAKE) with true. by rewrite !orb_true_r.
Qed.

Lemma request_wake_ok r o : okp efab_eplock_is_unlocked_or_request_wake (wq false r o)
  (fun b g' => if b : bool then g' = wq false true o else exists r, g' = wq false r o).
Proof.
  apply (ok_forever calm rule rule_mono (fun g => exists r, g = wq false r o)); [eauto|by intros g [? ->]|].
  intros g [r' ->]. apply okp_load_wq. intros v Hv. fold (lk v) (nw v). destruct (lk v) eqn:El; [|cbn; eauto].
  destruct (nw v); cbn [andb]; [rewrite orb_true_r; done|]. apply swap_request; eauto.
Qed.

Lemma lock_or_request_wake_ok r o : okp oo_eplock_lock_or_request_wake (wq false r o)
  (fun b g' => if b : bool then g' = wq false true o else exists r, g' = wq true r o).
Proof.
  apply (ok_forever calm rule rule_mono (fun g => exists r, g = wq false r o)); [eauto|by intros g [? ->]|].
  intros g [r' ->]. apply okp_load_wq. intros v Hv. fold (lk v) (nw v). destruct (lk v) eqn:El.
  - destruct (nw v); cbn [andb]; [rewrite orb_true_r; done|]. apply swap_request; eauto.
  - cbn [andb]. rewrite orb_false_r.
    apply (okp_cas (wq false r' o) eq_refl v _ (wq false r' o <| g_hold := true |>)); [by apply u64_lock|by apply cas_lock0| |]; cbn; eauto.
Qed.

Lemma okp_add_wait {A} o (k : unit -> prog A) Q : okp (k tt) (wq false false o) Q -> okp (pbind (act AddWaitQueue) k) (st false o) Q.
Proof. intros Hk. by split. Qed.

(** The end of a wait. *)
Lemma leave_queue {A} h r o (x : A) Q : Q x (st h o) ->
  okp (act RemoveWaitQueue ;;; act (SetCurrentState TASK_RUNNING) ;;; Ret x) (wq h r o) Q.
Proof. intros Hk. split; [done|]. by split. Qed.

Lemma lock_wait_ok mw o : okp (efab_eplock_lock_wait mw) (st false o) (fun _ g' => g' = st false o).
Proof.
  apply okp_add_wait. apply okp_bind.
  apply (ok_forever calm rule rule_mono (fun g => exists r, g = wq false r o)); [by exists false|by intros g [? ->]|].
  intros g [r ->]. apply okp_state; [done|]. apply (okp_seq _ _ _ _ _ (request_wake_ok false o)).
  intros [] g' Hg'; cbn [negb].
  - subst g'. apply okp_sched; [done|done|]. intros r' _. apply okp_ask; [done|]. intros [].
    + by apply leave_queue.
    + destruct mw; [by apply leave_queue|by exists false].
  - destruct Hg' as [r' ->]. by apply leave_queue.
Qed.

(** Without a time limit, only a signal ends the wait without the lock. *)
Lemma oo_eplock_lock_ok tm o : okp (oo_eplock_lock tm false) (st false o) (fun rc g' =>
  (rc.1 = 0 /\ g' = st true o) \/ (rc.1 = - ERESTARTSYS /\ g' = st false o) \/
  (tm <> MAX_SCHEDULE_TIMEOUT /\ rc.1 = - ETIMEDOUT /\ g' = st false o)).
Proof.
  apply okp_add_wait. apply okp_bind.
  apply (ok_loop calm rule (fun tm' g => (tm = MAX_SCHEDULE_TIMEOUT -> tm' = MAX_SCHEDULE_TIMEOUT) /\ exists r, g = wq false r o));
    [by split; [|exists false]|by intros ? g [_ [? ->]]|].
  intros tm' g [Htm [r ->]]. apply okp_state; [done|]. apply (okp_seq _ _ _ _ _ (lock_or_request_wake_ok false o)).
  intros [] g' Hg'; cbn [negb].
  - subst g'. apply okp_sched; [done|done|]. intros tm2 Htm2. destruct (Z.eqb_spec tm2 0) as [->|Hne].
    + apply leave_queue. right; right. split_and!; [|done|done]. intros E. specialize (Htm2 (Htm E)). discriminate.
    + apply okp_ask; [done|]. intros []; [apply leave_queue; by right; left|]. split; [|by exists false]. intros E. by apply Htm2, Htm.
  - destruct Hg' as [r' ->]. apply leave_queue. by left.
Qed.

(** * Locking from user level *)

Section user.
Context (msecs_to_jiffies : Z -> Z).

Lemma lock_rsop_ok tm o : tm < 0 -> okp (oo_eplock_lock_rsop msecs_to_jiffies tm) (st false o) (fun rc g' =>
  (rc = 0 /\ g' = st true o) \/ (rc = - EINTR /\ g' = st false o)).
Proof.
  intros Htm. unfold oo_eplock_lock_rsop. destruct (Z.leb_spec 0 tm); [lia|].
  apply (okp_seq _ _ _ _ _ (oo_eplock_lock_ok MAX_SCHEDULE_TIMEOUT o)). intros [rc tm'] g' Hr. cbn [fst] in *.
  destruct Hr as [[-> ->]|[[-> ->]|[? _]]]; [by left|by right|done].
Qed.

Lemma lock_slow_ok o : okp (__ef_eplock_lock_slow msecs_to_jiffies OO_EPLOCK_TIMEOUT_INFTY) (st false o)
  (fun rc g' => rc = 0 /\ g' = st true o).
Proof.
  apply okp_ask; [done|]. intros spin.
  apply (okp_seq _ _ _ _ (fun b g' => g' = st b o)).
  { destruct spin; [|done]. apply okp_stat. apply okp_retry; [done|]. apply okp_ask; [done|]. intros []; cbn [negb]; [|done].
    apply (okp_seq _ _ _ _ _ (trylock_ok (st false o) eq_refl eq_refl eq_refl)). by intros [] g' ->. }
  intros [] g' ->; [done|]. apply okp_retry; [done|].
  apply (okp_seq _ _ _ _ _ (lock_rsop_ok (s32 OO_EPLOCK_TIMEOUT_INFTY) o ltac:(reflexivity))).
  intros rc g' [[-> ->]|[-> ->]]; cbn; [by split|done].
Qed.

Lemma lock_ok o : okp (ef_eplock_lock msecs_to_jiffies) (st false o) (fun rc g' => rc = 0 /\ g' = st true o).
Proof.
  apply (okp_cas (st false o) eq_refl 0 _ (st true o)); [apply u64_dec; reflexivity| |done|].
  - by apply (cas_lock0 (st false o) 0).
  - cbn [negb when]. apply okp_bind, okp_bind. apply (okp_mono _ _ _ _ (lock_slow_ok o)). by intros rc g' [-> ->].
Qed.

(** * Work left to the holder *)

(** The claimed socket, its [next_id] stored or not. *)
Definition cl (w : Z) (n : option Z) (o : list Z) : ghost := mk_ghost false (Some w) n 0 None (w :: o) false false false 0.

(** Sockets that fit the word. *)
Definition sock_ok (w : Z) : Prop := 0 <= w < CI_EPLOCK_NETIF_SOCKET_LIST.

Lemma cas_push v w o : is_u64 v -> lk v = true -> sock_ok w ->
  is_u64 (Z.lor (Z.ldiff v CI_EPLOCK_NETIF_SOCKET_LIST) (w + 1)) /\
  cas_ok (cl w (Some (hd v)) o) v (Z.lor (Z.ldiff v CI_EPLOCK_NETIF_SOCKET_LIST) (w + 1)) (st false o).
Proof.
  intros Hv Hl Hw. unfold sock_ok, CI_EPLOCK_NETIF_SOCKET_LIST in Hw.
  assert (Hb : forall n, 21 <= n -> Z.testbit (w + 1) n = false) by (intros n Hn; apply (pow2_bits_above _ 21); lia).
  split; [apply u64_lor; [by apply u64_ldiff|unfold is_u64; lia]|].
  apply (CasPush (cl w (Some (hd v)) o) v _ w o); [done|..]; try done; try lia.
  - rewrite lk_lor, lk_ldiff, Hl. done.
  - rewrite nw_lor, nw_ldiff. by intros ->.
  - change CI_EPLOCK_NETIF_SOCKET_LIST with (Z.ones 21). unfold hd. change CI_EPLOCK_NETIF_SOCKET_LIST with (Z.ones 21).
    rewrite Z.land_lor_distr_l. replace (Z.land (Z.ldiff v (Z.ones 21)) (Z.ones 21)) with 0.
    + rewrite Z.lor_0_l, Z.land_ones by lia. apply Z.mod_small. lia.
    + symmetry. apply land_zero. intros n Hn. rewrite Z.ldiff_spec. by destruct (Z.testbit v n), (Z.testbit (Z.ones 21) n).
  - by apply cleared_0, bits_in_lor_l, kept_ldiff.
Qed.

Lemma count_inc_ok {A} g (k : unit -> prog A) Q : calm g -> okp (k tt) g Q -> okp (pbind count_inc k) g Q.
Proof. intros Hc Hk. apply okp_bind. apply okp_count; [done|]. intros n. by split. Qed.

Lemma work_deferred_ok {A} w o (k : unit -> prog A) Q : okp (k tt) (st true o) Q ->
  okp (pbind (work (DeferredWork w)) k) (st true (w :: o)) Q.
Proof. intros Hk. apply okp_bind. apply (okp_deferred (st true (w :: o)) eq_refl w o); [done|done|]. by intros b. Qed.

Lemma lock_or_defer_work_ok limit w o : sock_ok w ->
  okp (ci_netif_lock_or_defer_work msecs_to_jiffies limit w) (st false (w :: o)) (fun b g' => g' = st b o).
Proof.
  intros Hw. apply okp_count; [done|]. intros n.
  apply (okp_seq _ _ _ _ (fun rc g' => g' = st (rc =? 0) (w :: o))).
  { destruct (limit <=? n); [|done]. apply (okp_mono _ _ _ _ (lock_ok (w :: o))). by intros rc g' [-> ->]. }
  intros rc g' ->. destruct (rc =? 0); [apply okp_stat; by apply work_deferred_ok|].
  split; [done|]. split; [done|]. split.
  { apply (okp_seq _ _ _ _ _ (lock_ok (w :: o))). intros rc' g' [-> ->]. by apply work_deferred_ok. }
  apply (ok_forever calm rule rule_mono (fun g => exists n, g = cl w n o)); [by exists None|by intros g [? ->]|].
  intros g [n' ->]. apply okp_load; [done..|]. intros v Hv _. fold (lk v). destruct (lk v) eqn:El; cbn [negb].
  - split; [done|]. split; [apply Hw|]. split; [done|]. destruct (cas_push v w o Hv El Hw) as [Hu Hcas].
    apply (okp_cas (cl w (Some (hd v)) o) eq_refl v _ (st false o)); [done|done|by apply count_inc_ok|by exists (Some (hd v))].
  - apply (okp_seq _ _ _ _ _ (trylock_ok (cl w n' o) eq_refl eq_refl eq_refl)). intros [] g' ->; [|by exists n'].
    split; [done|]. left. split; [done|]. by apply work_deferred_ok.
Qed.

(** The holder with a list taken out of the word. *)
Definition pv (p : Z) (o : list Z) : ghost := mk_ghost true None None p None o false false false 0.

Lemma perform_deferred_ok p o : 0 < p ->
  okp (ci_netif_perform_deferred_socket_work p) (pv p o) (fun _ g' => g' = st true o).
Proof.
  intros Hp. apply (ok_loop calm rule (fun p g => 0 < p /\ g = pv p o)); [done|by intros ? g [_ ->]|].
  intros q g [Hq ->]. cbv zeta. split; [done|]. split_and!; [lia|done|cbn; lia|done|]. intros r Hr.
  split; [done|]. right. split_and!; [lia|done|cbn; lia|]. exists r. split; [done|].
  split; [done|]. split; [done|]. split; [done|]. exists o. split; [done|]. intros b. cbn [ok].
  destruct (Z.ltb_spec 0 r); [done|]. replace r with 0 by lia. done.
Qed.

Lemma purge_ok o : okp ci_netif_purge_deferred_socket_list (st true o) (fun _ g' => g' = st true o).
Proof.
  apply okp_retry; [done|]. apply okp_load; [done..|]. intros v Hv Hl. destruct (has v _) eqn:Eh; [|done].
  apply (okp_cas (st true o) eq_refl v _ (pv (hd v) o)).
  - by apply u64_ldiff.
  - apply (CasTake (st true o) v); try done; [by apply Hl|..].
    + rewrite lk_ldiff, Hl by done. done.
    + apply land_zero. intros n Hn. rewrite Z.ldiff_spec.
      by destruct (Z.testbit v n), (Z.testbit CI_EPLOCK_NETIF_SOCKET_LIST n).
    + rewrite nw_ldiff. by intros ->.
    + by apply cleared_ldiff.
  - apply (okp_seq _ _ _ _ (fun _ g' => g' = st true o)); [|by intros _ g' ->]. apply perform_deferred_ok.
    unfold has, nz in Eh. apply negb_true_iff, Z.eqb_neq in Eh. fold (hd v) in *.
    assert (0 <= hd v) by (apply Z.land_nonneg; right; done). lia.
  - done.
Qed.

(** * Releasing the lock *)

Lemma alert_dec f : ((0 <=? f) && (f <? 18446744073709551616)) && (Z.land f own_bits =? 0) = true -> alert f.
Proof. intros [H1 H2%Z.eqb_eq]%andb_true_iff. split; [by apply u64_dec|done]. Qed.

Lemma work_ok {A} g j (k : unit -> prog A) Q : calm g -> g_hold g = true -> (forall w, j <> DeferredWork w) ->
  j <> DeferDl2Work -> g_due g = 0 -> okp (k tt) g Q -> okp (pbind (work j) k) g Q.
Proof. intros Hc Hh Hn Hd E Hk. apply okp_bind. apply okp_work; [done..|]. by intros b. Qed.

Lemma work1_ok g j : calm g -> g_hold g = true -> (forall w, j <> DeferredWork w) -> j <> DeferDl2Work -> g_due g = 0 ->
  okp (work j) g (fun _ g' => g' = g).
Proof. intros Hc Hh Hn Hd E. by apply okp_work. Qed.

Lemma when_seq {A} b p g (k : unit -> prog A) Q : (b = true -> okp p g (fun _ g' => g' = g)) -> okp (k tt) g Q ->
  okp (pbind (when b p) k) g Q.
Proof.
  intros Hp Hk. apply okp_bind. destruct b; cbn [when]; [|done]. apply (okp_mono _ _ _ _ (Hp eq_refl)). by intros [] g' ->.
Qed.

(** The holder with alerts [d] taken out of the word and still to be handled. *)
Definition hl (d : Z) (o : list Z) : ghost := mk_ghost true None None 0 None o false false false d.

Lemma done_work_ok {A} j d o (k : bool -> prog A) Q : (forall w, j <> DeferredWork w) -> j <> DeferDl2Work ->
  (forall b, okp (k b) (hl (Z.ldiff d (handles j)) o) Q) -> okp (pbind (act (Work j)) k) (hl d o) Q.
Proof. intros Hn Hd Hk. by apply okp_work_due. Qed.

(** The work for [flag] is done if it is set: it is no longer due. *)
Lemma when_due {A} v flag m p d o (k : unit -> prog A) Q : bits_in d v -> bits_in d m ->
  okp p (hl d o) (fun _ g' => g' = hl (Z.ldiff d flag) o) ->
  (forall d', bits_in d' v -> bits_in d' (Z.ldiff m flag) -> okp (k tt) (hl d' o) Q) ->
  okp (pbind (when (has v flag) p) k) (hl d o) Q.
Proof.
  intros Hv Hm Hp Hk. apply okp_bind. destruct (has v flag) eqn:E; cbn [when].
  - apply (okp_mono _ _ _ _ Hp). intros [] g' ->. apply Hk; [|by apply bits_in_ldiff].
    apply (bits_in_trans _ d); [apply ldiff_bits_in|done].
  - apply Hk; [done|by apply (bits_in_absent d v)].
Qed.

Lemma on_flag_due {A} flag fs m p d o (k : Z -> prog A) Q : bits_in d fs -> bits_in d m ->
  okp p (hl d o) (fun _ g' => g' = hl (Z.ldiff d flag) o) ->
  (forall fs' d', bits_in d' fs' -> bits_in d' (Z.ldiff m flag) -> okp (k fs') (hl d' o) Q) ->
  okp (pbind (on_flag fs flag p) k) (hl d o) Q.
Proof.
  intros Hv Hm Hp Hk. apply okp_bind. unfold on_flag. destruct (has fs flag) eqn:E.
  - apply (okp_seq _ _ _ _ _ Hp). intros _ g' ->. by apply Hk; apply bits_in_ldiff.
  - apply Hk; [done|by apply (bits_in_absent d fs)].
Qed.

Lemma unlock_slow_common_ok lv o : okp (ci_netif_unlock_slow_common lv) (st true o)
  (fun lv' g' => g' = st true o /\ has lv' ALL_HANDLED_FLAGS = false).
Proof.
  apply when_seq.
  { intros _. apply okp_stat. apply (okp_seq _ _ _ _ _ (purge_ok o)). by intros _ g' ->. }
  apply (okp_seq _ _ _ _ _ (clear_flags_ok (st true o) eq_refl eq_refl ALL_HANDLED_FLAGS eq_refl ltac:(by apply alert_dec))).
  intros v g' [-> Hv]. pose proof (cleared_in v ALL_HANDLED_FLAGS) as Hd.
  pose proof (bits_in_trans _ _ _ Hd (land_bits_in_l _ _)) as Hdv. apply (fun H => bits_in_trans _ _ _ H (land_bits_in_r _ _)) in Hd.
  apply (okp_seq _ _ _ _ (fun f g' => g' = hl (cleared v (Z.ldiff v ALL_HANDLED_FLAGS)) o /\ alert f)).
  { destruct (has v _); [|split; [done|exact alert_0]]. apply okp_ask; [done|]. intros [].
    - apply okp_stat. split; [done|by apply alert_dec].
    - split; [done|by apply alert_dec]. }
  intros f g' [-> Hf]. revert Hdv Hd. generalize (cleared v (Z.ldiff v ALL_HANDLED_FLAGS)). intros d Hdv Hd.
  apply (when_due _ _ _ _ _ _ _ _ Hdv Hd); [apply okp_stat; by apply okp_bind, done_work_ok|]. clear d Hdv Hd.
  intros d Hdv Hd.
  apply (okp_seq _ _ _ _ (fun f g' => alert f /\ exists d, g' = hl d o /\ bits_in d v /\
    bits_in d (Z.ldiff (Z.ldiff (Z.land ALL_HANDLED_FLAGS under_lock) CI_EPLOCK_NETIF_NEED_POLL) CI_EPLOCK_NETIF_HAS_DEFERRED_PKTS))).
  { destruct (has v _) eqn:E.
    - apply done_work_ok; [done..|]. intros b. split.
      + destruct b; cbn [negb]; [done|]. apply alert_lor; [done|by apply alert_dec].
      + eexists. split_and!; [done| |by apply bits_in_ldiff]. by apply (bits_in_trans _ d); [apply ldiff_bits_in|].
    - split; [done|]. exists d. split_and!; [done|done|]. by apply (bits_in_absent d v). }
  clear d Hdv Hd. intros f' g' [Hf' (d & -> & Hdv & Hd)].
  apply (when_due _ _ _ _ _ _ _ _ Hdv Hd); [by apply okp_bind, done_work_ok|]. clear d Hdv Hd.
  intros d _ Hd. change (Z.ldiff _ _) with 0 in Hd. apply bits_in_0 in Hd as ->.
  apply (okp_seq _ _ _ _ _ (holder_set_flags_ok (st true o) eq_refl eq_refl f' eq_refl Hf')). intros _ g' ->.
  split; [done|]. apply has_false, land_zero. intros n Hn. rewrite Z.ldiff_spec.
  by destruct (Z.testbit (Z.lor v f') n), (Z.testbit ALL_HANDLED_FLAGS n).
Qed.

Lemma seq_work_ok {A} j d o (k : unit -> prog A) Q : (forall w, j <> DeferredWork w) -> j <> DeferDl2Work ->
  okp (k tt) (hl (Z.ldiff d (handles j)) o) Q ->
  okp (pbind (work j) k) (hl d o) Q.
Proof. intros Hn Hd Hk. apply okp_bind. by apply done_work_ok. Qed.

(** The lock let go, the others to be woken or not. *)
Definition rl (w : bool) (o : list Z) : ghost := mk_ghost false None None 0 None o false false w 0.

(** The alerts the callback takes out. *)
Lemma callback_takes lv v d : has lv ALL_HANDLED_FLAGS = false -> d = cleared v (Z.ldiff v (Z.land lv CI_EPLOCK_NETIF_UNLOCK_FLAGS)) ->
  bits_in d (Z.land lv CI_EPLOCK_NETIF_UNLOCK_FLAGS) /\
  bits_in d (Z.ldiff (Z.land CI_EPLOCK_NETIF_UNLOCK_FLAGS under_lock) ALL_HANDLED_FLAGS).
Proof.
  intros Hl ->. pose proof (cleared_in v (Z.land lv CI_EPLOCK_NETIF_UNLOCK_FLAGS)) as H.
  apply (fun H => bits_in_trans _ _ _ H (land_bits_in_r _ _)) in H.
  pose proof (bits_in_trans _ _ _ H (land_bits_in_l _ _)) as Hf. split; [done|].
  apply (bits_in_absent _ lv); [by apply (bits_in_trans _ _ _ Hf), land_bits_in_l| |done].
  apply bits_in_land; [by apply (bits_in_trans _ _ _ Hf), land_bits_in_r|by apply (bits_in_trans _ _ _ H), land_bits_in_r].
Qed.

Lemma lock_callback_body_ok start lv after retried o :
  okp (lock_callback_body false (start, lv, after, retried)) (st true o) (fun r g' =>
    match r with
    | inl _ => g' = st true o
    | inr (inl _) => False
    | inr (inr (lv', _)) => g' = rl (nw lv') o
    end).
Proof.
  unfold lock_callback_body. cbn [andb when pbind]. apply (okp_seq _ _ _ _ _ (unlock_slow_common_ok lv o)).
  intros lv' g' [-> Hlv]. apply okp_ask; [done|]. intros orphaned. cbv zeta.
  apply (okp_seq _ _ _ _ _ (clear_flags_ok (st true o) eq_refl eq_refl _ eq_refl (alert_unlock lv'))). intros v g' [-> _].
  change (okp ?p _ ?Q) with (okp p (hl (cleared v (Z.ldiff v (Z.land lv' CI_EPLOCK_NETIF_UNLOCK_FLAGS))) o) Q).
  destruct (callback_takes lv' v _ Hlv eq_refl) as [Hf Hd]. revert Hf Hd.
  generalize (cleared v (Z.ldiff v (Z.land lv' CI_EPLOCK_NETIF_UNLOCK_FLAGS))) as d.
  generalize (Z.land lv' CI_EPLOCK_NETIF_UNLOCK_FLAGS) as fs. intros fs d Hf Hd.
  generalize (Z.lor after (Z.land fs all_after_unlock_flags)) as after'. intros after'.
  apply (on_flag_due _ _ _ _ _ _ _ _ Hf Hd); [apply seq_work_ok; [done..|]; by split|]. clear fs d Hf Hd. intros fs d Hf Hd.
  rewrite andb_false_r. cbn [pbind].
  apply (on_flag_due _ _ _ _ _ _ _ _ Hf Hd); [apply seq_work_ok; [done..|]; by split|]. clear fs d Hf Hd. intros fs d Hf Hd.
  apply (okp_seq _ _ _ _ (fun more g' => (has fs CI_EPLOCK_NETIF_NEED_PKT_SET = true -> more = true) /\ g' = hl d o)).
  { destruct (has fs _); [done|]. destruct (negb orphaned); [|done]. by apply okp_ask. }
  intros more g' [Hmore ->]. rewrite andb_false_r.
  apply (okp_seq _ _ _ _ (fun fs' g' => exists d', g' = hl d' o /\ bits_in d' fs' /\ bits_in d' (Z.ldiff
    (Z.ldiff (Z.ldiff (Z.ldiff (Z.land CI_EPLOCK_NETIF_UNLOCK_FLAGS under_lock) ALL_HANDLED_FLAGS) CI_EPLOCK_NETIF_SWF_UPDATE)
      CI_EPLOCK_NETIF_NEED_WAKE) CI_EPLOCK_NETIF_NEED_PKT_SET))).
  { destruct more.
    - apply seq_work_ok; [done..|]. eexists. split_and!; [done|by apply bits_in_ldiff..].
    - exists d. split_and!; [done..|]. apply (bits_in_absent d fs); [done..|]. by destruct (has fs _); [specialize (Hmore eq_refl)|]. }
  clear fs d Hf Hd Hmore. intros fs g' (d & -> & Hf & Hd). rewrite andb_false_r.
  do 4 (apply (on_flag_due _ _ _ _ _ _ _ _ Hf Hd); [by apply done_work_ok|]; clear fs d Hf Hd; intros fs d Hf Hd).
  match type of Hd with bits_in d ?m => change m with CI_EPLOCK_NETIF_CLOSE_ENDPOINT in Hd end.
  apply (okp_seq _ _ _ _ (fun b g' => b = false /\ g' = st true o)).
  { destruct (has fs _) eqn:E.
    - split; [done|]. split; [done|]. intros b.
      pose proof (bits_in_0 _ (bits_in_ldiff _ _ CI_EPLOCK_NETIF_CLOSE_ENDPOINT Hd)) as H0.
      match goal with |- ok _ _ ?p _ ?Q => change (okp p (hl (Z.ldiff d CI_EPLOCK_NETIF_CLOSE_ENDPOINT) o) Q) end.
      rewrite H0.
      destruct b; [by apply work_ok|done].
    - pose proof (bits_in_0 _ (bits_in_absent d fs _ _ Hf Hd E)) as ->. done. }
  intros b g' [-> ->]. apply (okp_seq _ _ _ _ (fun _ g' => g' = st true o)).
  { destruct (negb retried); [|done]. apply okp_load; [done..|]. intros w Hw _. destruct (has w _); [|done]. by apply okp_ask. }
  intros [] g' ->; [done|]. cbn [when pbind].
  apply (okp_seq _ _ _ _ _ (try_unlock_ok (st true o) eq_refl eq_refl eq_refl eq_refl eq_refl eq_refl)).
  by intros [[] w] g' [_ ->].
Qed.

(** After the lock is let go there is some work left, which needs no lock. *)
Lemma free_work_ok {A} w o j (k : unit -> prog A) Q : passing (Work j) = true -> okp (k tt) (rl w o) Q ->
  okp (pbind (work j) k) (rl w o) Q.
Proof. intros Hj Hk. apply okp_bind. split; [congruence|]. split; [cbn in Hj; by destruct (locked_job j)|]. by destruct j. Qed.

Lemma for_each1_ok g l p : (forall i, okp (p i) g (fun _ g' => g' = g)) -> okp (for_each l p) g (fun _ g' => g' = g).
Proof.
  intros Hp. induction l as [|i l IH]; [done|]. cbn [for_each foldr]. apply (okp_seq _ _ _ _ _ (Hp i)). by intros _ g' ->.
Qed.

Context (intfs : list Z).

Lemma lock_callback_ok lv o : okp (efab_tcp_helper_netif_lock_callback intfs lv false) (st true o)
  (fun l g' => g' = rl (nw l) o).
Proof.
  apply okp_bind. apply (ok_loop calm rule (fun _ g => g = st true o)); [done|by intros ? g ->|].
  intros [[[start lv'] after] retried] g ->. apply (okp_mono _ _ _ _ (lock_callback_body_ok start lv' after retried o)).
  intros [st'|[r|[l after']]] g'; [done|done|]. intros ->. cbn [ok]. apply okp_set_count. apply when_seq.
  { intros _. apply okp_stat. apply okp_ask; [done|]. intros [].
    - apply for_each1_ok. intros i. apply okp_ask; [done|]. intros [].
      + by apply free_work_ok.
      + done.
    - by apply free_work_ok. }
  apply when_seq; [|done]. intros _. apply okp_stat. by apply free_work_ok.
Qed.

Lemma wake_ok o l : okp (when (has l CI_EPLOCK_FL_NEED_WAKE) (act (Stat lock_wakes) ;;; act WakeUp)) (rl (nw l) o)
  (fun _ g' => g' = st false o).
Proof. fold (nw l). destruct (nw l); cbn [when]; [|done]. apply okp_stat. by split. Qed.

Lemma unlock_and_wake_ok o : okp (efab_eplock_unlock_and_wake intfs false) (st true o) (fun _ g' => g' = st false o).
Proof.
  apply okp_load; [done..|]. intros v Hv Hl. apply when_seq; [done|]. apply okp_bind.
  apply (ok_loop calm rule (fun l g => is_u64 l /\ lk l = true /\ g = st true o));
    [by split_and!; [|apply Hl|]|by intros ? g (_ & _ & ->)|].
  intros l g (Hu & Hlk & ->). destruct (has l CI_EPLOCK_CALLBACK_FLAGS) eqn:Ec.
  - apply (okp_seq _ _ _ _ _ (lock_callback_ok l o)). intros l' g' ->. apply wake_ok.
  - apply no_callback in Ec as (Eh & Eu & Ecl). apply (okp_cas (st true o) eq_refl l _ (rl (nw l) o)).
    + by apply u64_dec.
    + by apply (CasRelease (st true o) l 0).
    + apply wake_ok.
    + apply okp_load; [done..|]. intros l' Hu' Hl'. split_and!; auto.
Qed.

Lemma unlock_slow_ok o : okp (ci_netif_unlock_slow intfs) (st true o) (fun _ g' => g' = st false o).
Proof.
  apply okp_load; [done..|]. intros l0 _ _. apply (okp_seq _ _ _ _ _ (unlock_slow_common_ok l0 o)). intros after g' [-> _].
  apply okp_set_count. cbv zeta. set (prime := has after CI_EPLOCK_NETIF_NEED_PRIME).
  apply when_seq.
  { intros _. apply (okp_seq _ _ _ _ _ (clear_flags_ok (st true o) eq_refl eq_refl CI_EPLOCK_NETIF_NEED_PRIME eq_refl ltac:(by apply alert_dec))).
    intros v g' [-> _]. by rewrite cleared_ldiff. }
  apply okp_load; [done..|]. intros l Hv Hl.
  apply (okp_seq _ _ _ _ (fun b g' => g' = st (negb b) o)).
  { destruct (has l _) eqn:Eh; cbn [negb]; [done|]. rewrite !has_lor, !orb_false_iff in Eh. destruct Eh as [[Eu Es] En].
    apply has_false in Eu, Es. fold (nw l) in En.
    apply (okp_cas (st true o) eq_refl l _ (rl (nw l) o) Ret); [by apply u64_ldiff| |by rewrite En|done].
    apply (CasRelease (st true o) l); try done; [by apply Hl|..].
    - rewrite lk_ldiff. apply andb_false_r.
    - by rewrite hd_ldiff.
    - by rewrite nw_ldiff, En.
    - by apply un_ldiff.
    - by apply cleared_ldiff. }
  intros [] g' ->; cbn [negb].
  - destruct prime; cbn [when]; [|done]. apply okp_stat, okp_stat. apply for_each1_ok. intros i. by apply (free_work_ok false).
  - apply when_seq; [intros _; apply holder_set_flag_ok; [done..|by apply alert_dec]|]. apply okp_stat, unlock_and_wake_ok.
Qed.

(** The fast path: nothing but the lock bit is set. *)
Lemma fast_unlock_ok {A} o (k : bool -> prog A) Q : okp (k true) (st false o) Q -> okp (k false) (st true o) Q ->
  okp (v <- act LockLoad ;; b <- (if v =? CI_EPLOCK_LOCKED then act (LockCas CI_EPLOCK_LOCKED 0) else Ret false) ;; k b)
    (st true o) Q.
Proof.
  intros Ht Hf. apply okp_load; [done..|]. intros v _ _. destruct (v =? CI_EPLOCK_LOCKED); [|done].
  apply (okp_cas (st true o) eq_refl CI_EPLOCK_LOCKED 0 (st false o)); [by apply u64_dec| |done|done].
  by apply (CasRelease (st true o) CI_EPLOCK_LOCKED 0).
Qed.

Lemma unlock_ok o : okp (ci_netif_unlock intfs) (st true o) (fun _ g' => g' = st false o).
Proof. apply fast_unlock_ok; [done|]. apply okp_stat, unlock_slow_ok. Qed.

Lemma unlock_kernel_ok o : okp (ci_netif_unlock_kernel intfs false) (st true o) (fun _ g' => g' = st false o).
Proof. apply okp_dl; [done|]. apply fast_unlock_ok; [done|]. apply okp_stat, unlock_and_wake_ok. Qed.
End user.
