(* ===== verification/EplockSystem.v ===== *)
(** The stack lock as a whole: any number of threads, in processes and in the
    kernel, that take it, leave work and alerts to its holder, and let it go, in
    any interleaving of their atomic actions. *)

From stdpp Require Import base gmap list.
From S2P Require Import Prelude Eplock EplockLogic EplockInv EplockCode.

Open Scope Z_scope.
Open Scope prog_scope.

(** * What threads do *)

(** With the lock held. *)
Inductive hop :=
  | Do (n : Z)                (** anything that needs the lock *)
  | RaiseOne (flag : Z)       (** [ef_eplock_holder_set_flag] *)
  | Raise (flags : Z)         (** [ef_eplock_holder_set_flags] *)
  | Purge.                    (** [ci_netif_purge_deferred_socket_list] *)

Inductive call :=
  | Locked (ops : list hop)                        (** lock, use, unlock *)
  | Try (ops : list hop)                           (** [ef_eplock_trylock] *)
  | Defer (w : Z) (ops : list hop)                 (** [ci_netif_lock_or_defer_work] *)
  | AlertOne (flag : Z)                            (** [ef_eplock_set_flag_if_locked] *)
  | Alert (flags : Z)                              (** [ef_eplock_set_flags_if_locked] *)
  | LockOrAlertOne (flag : Z) (ops : list hop)     (** [ef_eplock_lock_or_set_flag] *)
  | LockOrAlert (flags : Z) (ops : list hop)       (** [ef_eplock_lock_or_set_flags] *)
  | TryAlert (flags : Z) (ops : list hop)          (** [ef_eplock_trylock_and_set_flags] *)
  | WaitFree (maybe_wedged : bool)                 (** [efab_eplock_lock_wait] *)
  | KernelLocked (timeout : Z) (ops : list hop).   (** [oo_eplock_lock] in the kernel, and the kernel's unlock *)

Section calls.
Context (msecs_to_jiffies : Z -> Z) (intfs : list Z) (defer_work_limit : Z).

Definition hop_prog (h : hop) : prog unit :=
  match h with
  | Do n => work (Crit n)
  | RaiseOne flag => ef_eplock_holder_set_flag flag
  | Raise flags => ef_eplock_holder_set_flags flags
  | Purge => ci_netif_purge_deferred_socket_list ;;; Ret tt
  end.

Definition use (ops : list hop) : prog unit := foldr (fun h p => hop_prog h ;;; p) (ci_netif_unlock intfs) ops.
Definition kernel_use (ops : list hop) : prog unit :=
  foldr (fun h p => hop_prog h ;;; p) (ci_netif_unlock_kernel intfs false) ops.

Definition call_prog (c : call) : prog unit :=
  match c with
  | Locked ops => ef_eplock_lock msecs_to_jiffies ;;; use ops
  | Try ops => b <- ef_eplock_trylock ;; when b (use ops)
  | Defer w ops => b <- ci_netif_lock_or_defer_work msecs_to_jiffies defer_work_limit w ;; when b (use ops)
  | AlertOne flag => ef_eplock_set_flag_if_locked flag ;;; Ret tt
  | Alert flags => ef_eplock_set_flags_if_locked flags ;;; Ret tt
  | LockOrAlertOne flag ops => b <- ef_eplock_lock_or_set_flag flag ;; when b (use ops)
  | LockOrAlert flags ops => b <- ef_eplock_lock_or_set_flags flags ;; when b (use ops)
  | TryAlert flags ops => b <- ef_eplock_trylock_and_set_flags flags ;; when b (use ops)
  | WaitFree mw => efab_eplock_lock_wait mw ;;; Ret tt
  | KernelLocked timeout ops => r <- oo_eplock_lock timeout false ;; when (r.1 =? 0) (kernel_use ops)
  end.

Definition thread_prog (cs : list call) : prog unit := foldr (fun c p => call_prog c ;;; p) (Ret tt) cs.

(** Flags are alerts, and sockets fit the word. *)
Definition hop_ok (h : hop) : Prop := match h with RaiseOne f | Raise f => alert f | _ => True end.
Definition call_ok (c : call) : Prop :=
  match c with
  | Locked ops | Try ops | KernelLocked _ ops => Forall hop_ok ops
  | Defer w ops => sock_ok w /\ Forall hop_ok ops
  | AlertOne f | Alert f => alert f
  | LockOrAlertOne f ops | LockOrAlert f ops | TryAlert f ops => alert f /\ Forall hop_ok ops
  | WaitFree _ => True
  end.

(** The socket whose work a call is about. *)
Definition call_owe (c : call) : list Z := match c with Defer w _ => [w] | _ => [] end.
Definition calls_owe (cs : list call) : list Z := cs ≫= call_owe.

#[local] Notation okp := (ok calm rule).

Lemma hop_prog_ok h o : hop_ok h -> okp (hop_prog h) (st true o) (fun _ g' => g' = st true o).
Proof.
  destruct h as [n|f|f|]; cbn [hop_prog hop_ok]; intros Hh.
  - by apply work1_ok.
  - by apply holder_set_flag_ok.
  - by apply holder_set_flags_ok.
  - apply (okp_seq _ _ _ _ _ (purge_ok o)). by intros _ g' ->.
Qed.

Lemma ops_ok (fin : prog unit) ops o : Forall hop_ok ops -> okp fin (st true o) (fun _ g' => g' = st false o) ->
  okp (foldr (fun h p => hop_prog h ;;; p) fin ops) (st true o) (fun _ g' => g' = st false o).
Proof.
  intros Hops Hfin. induction Hops as [|h ops Hh _ IH]; cbn [foldr]; [done|].
  apply (okp_seq _ _ _ _ _ (hop_prog_ok h o Hh)). by intros _ g' ->.
Qed.

Lemma got_ok (b : bool) ops o : Forall hop_ok ops -> okp (when b (use ops)) (st b o) (fun _ g' => g' = st false o).
Proof. intros Hops. destruct b; cbn [when]; [|done]. apply ops_ok; [done|]. apply unlock_ok. Qed.

Lemma call_prog_ok c o : call_ok c -> okp (call_prog c) (st false (call_owe c ++ o)) (fun _ g' => g' = st false o).
Proof.
  destruct c as [ops|ops|w ops|f|f|f ops|f ops|f ops|mw|tm ops]; cbn [call_prog call_ok call_owe app].
  - intros Hops. apply (okp_seq _ _ _ _ _ (lock_ok msecs_to_jiffies o)). intros _ g' [_ ->]. by apply (got_ok true).
  - intros Hops. apply (okp_seq _ _ _ _ _ (trylock_ok (st false o) eq_refl eq_refl eq_refl)). intros b g' ->.
    destruct b; by apply (got_ok _ ops).
  - intros [Hw Hops]. apply (okp_seq _ _ _ _ _ (lock_or_defer_work_ok msecs_to_jiffies defer_work_limit w o Hw)).
    intros b g' ->. by apply got_ok.
  - intros Hf. apply (okp_seq _ _ _ _ _ (set_flag_if_locked_ok (st false o) eq_refl eq_refl f Hf)). by intros _ g' ->.
  - intros Hf. apply (okp_seq _ _ _ _ _ (set_flags_if_locked_ok (st false o) eq_refl eq_refl f Hf)). by intros _ g' ->.
  - intros [Hf Hops]. apply (okp_seq _ _ _ _ _ (lock_or_set_flag_ok (st false o) eq_refl eq_refl eq_refl f Hf)).
    intros b g' ->. destruct b; by apply (got_ok _ ops).
  - intros [Hf Hops]. apply (okp_seq _ _ _ _ _ (lock_or_set_flags_ok (st false o) eq_refl eq_refl eq_refl f Hf)).
    intros b g' ->. destruct b; by apply (got_ok _ ops).
  - intros [Hf Hops]. apply (okp_seq _ _ _ _ _ (trylock_and_set_flags_ok (st false o) eq_refl eq_refl eq_refl f Hf)).
    intros b g' ->. destruct b; by apply (got_ok _ ops).
  - intros _. apply (okp_seq _ _ _ _ _ (lock_wait_ok mw o)). by intros _ g' ->.
  - intros Hops. apply (okp_seq _ _ _ _ _ (oo_eplock_lock_ok tm o)). intros [rc tm'] g' Hr. cbn [fst] in *.
    destruct Hr as [[-> ->]|[[-> ->]|(_ & -> & ->)]]; cbn; [|done|done].
    apply ops_ok; [done|]. apply unlock_kernel_ok.
Qed.

Lemma thread_prog_ok cs : Forall call_ok cs -> okp (thread_prog cs) (st false (calls_owe cs)) (fun _ g' => g' = st false []).
Proof.
  induction 1 as [|c cs Hc _ IH]; cbn [thread_prog foldr]; [done|].
  apply (okp_seq _ _ _ _ _ (call_prog_ok c (calls_owe cs) Hc)). by intros _ g' ->.
Qed.

(** * The system *)

(** [eplock_ctor]; the sockets are new. *)
Definition eplock_ctor (s : lstate) : lstate := s <| word := 0 |> <| queue := ∅ |>.
Definition start_state (next : gmap Z Z) (n : Z) (dl : bool) : lstate :=
  eplock_ctor (mk_lstate 0 next ∅ n dl ∅ ∅ None [] 0).

(** How often the work of socket [w] is asked for. *)
Definition asked (w : Z) (css : list (list call)) : nat := sum_list ((fun cs => occ w (calls_owe cs)) <$> css).

Lemma start_inv css next n dl :
  inv (fun w => asked w css) ((fun cs => st false (calls_owe cs)) <$> css) (start_state next n dl).
Proof.
  assert (Hst : forall t g, ((fun cs => st false (calls_owe cs)) <$> css) !! t = Some g -> exists o, g = st false o).
  { intros t g Ht. rewrite list_lookup_fmap in Ht. destruct (css !! t) as [cs|]; [|done]. injection Ht as <-. eauto. }
  split; try done.
  - intros t g [o ->]%Hst. by split.
  - exists [], []. split; try done.
    + intros t g [o ->]%Hst. done.
    + by constructor.
    + intros t g w [o ->]%Hst. done.
    + intros t t' g g' w [o ->]%Hst. done.
    + intros w. cbn. split; [set_solver|]. intros [H|(t & g & [o ->]%Hst & ?)]; [|done]. by apply elem_of_nil in H.
    + intros w. change (worked w (start_state next n dl)) with 0%nat. unfold owed, asked.
      change (occ w ([] ++ [])) with 0%nat. rewrite <- list_fmap_compose. unfold compose. cbn [g_owe st]. lia.
Qed.

(** Whatever has happened, the invariant holds of what the threads go on to do. *)
Lemma reachable css next n dl sched ps s : Forall (Forall call_ok) css ->
  crun sched (thread_prog <$> css, start_state next n dl) = Some (ps, s) ->
  exists gs, threads_ok calm rule ps gs (fun g => g = st false []) /\ inv (fun w => asked w css) gs s.
Proof.
  intros Hok Hrun.
  destruct (crun_sound calm rule rule_mono (inv (fun w => asked w css)) (rule_sound (fun w => asked w css)) sched
    (thread_prog <$> css) ((fun cs => st false (calls_owe cs)) <$> css) (start_state next n dl) (fun g => g = st false [])
    (ps, s)) as (gs & Ht & Hi); [|apply start_inv|done|by exists gs].
  apply Forall2_fmap. apply Forall_Forall2_diag. apply (Forall_impl _ _ _ Hok). intros cs Hcs. by apply thread_prog_ok.
Qed.

(** * Theorems *)

(** What is free of all claims on the holder. *)
Definition clean (v : Z) : Prop :=
  Z.land v (Z.lor (Z.lor CI_EPLOCK_NETIF_UNLOCK_FLAGS CI_EPLOCK_NETIF_SOCKET_LIST)
    (Z.lor CI_EPLOCK_LOCKED CI_EPLOCK_FL_NEED_WAKE)) = 0.

Lemma clean_free v : lk v = false -> hd v = 0 -> nw v = false -> un v = 0 -> clean v.
Proof.
  unfold lk, nw. rewrite !has_false. unfold hd, un, clean. intros H1 H2 H3 H4. by rewrite !Z.land_lor_distr_r, H1, H2, H3, H4.
Qed.

(** C8: The stack lock excludes.  However threads of processes and of the kernel
    take it (at once, by spinning, by sleeping, or as a side effect of leaving an
    alert or work), use it and let it go, and however their atomic actions are
    interleaved: all work that needs the lock, be it of the client, deferred by
    others or found in the alerts on the way out, is done by the thread whose own
    swap set the lock bit last; the bit is set exactly while there is such a
    thread; and when it is clear, no alert that must be handled first, no socket
    and no request for a wake-up is in the word. *)
Theorem eplock_excludes css next n dl sched ps s : Forall (Forall call_ok) css ->
  crun sched (thread_prog <$> css, start_state next n dl) = Some (ps, s) ->
  (forall t o j, (t, o, j) ∈ log s -> locked_job j = true -> o = Some t) /\
  (lk (word s) = true <-> owner s <> None) /\ (lk (word s) = false -> clean (word s)).
Proof using.
  intros Hok Hrun. destruct (reachable css next n dl sched ps s Hok Hrun) as (gs & _ & Hi). split_and!.
  - intros t o j Hin Hj. pose proof (i_log _ _ _ Hi) as Hl. rewrite Forall_forall in Hl. exact (Hl (t, o, j) Hin Hj).
  - exact (i_lk _ _ _ Hi).
  - intros Hf. destruct (i_free _ _ _ Hi Hf) as (? & ? & ?). by apply clean_free.
Qed.

(** The thread wakes the queue, whatever it is told on the way, without a loop or
    a wait before. *)
Fixpoint must_wake {A : Type} (p : prog A) : Prop :=
  match p with
  | Ret _ | Loop _ _ _ => False
  | Act a k => match a with WakeUp => True | _ => passing a = true /\ forall r, must_wake (k r) end
  end.

Lemma ok_must_wake {A} (p : prog A) g Q : okp p g Q -> g_wake g = true -> (forall a g, Q a g -> g_wake g = false) -> must_wake p.
Proof.
  revert g Q. induction p as [A a|A R a k IH|A St B body IHb s k IHk]; intros g Q Hp Hg HQ; cbn [ok must_wake] in *.
  - apply HQ in Hp. congruence.
  - destruct Hp as [Hc Hr]. assert (Ha : passing a = true).
    { destruct (passing a) eqn:E; [done|]. specialize (Hc eq_refl). unfold calm in Hc. congruence. }
    destruct a; try done; (split; [done|]); intros r; cbn in Hr.
    + destruct r. by apply (IH tt g Q).
    + destruct r. by apply (IH tt g Q).
    + by apply (IH r _ Q (proj2 Hr r)).
    + destruct Hr as [_ Hr]. destruct j; try done; by apply (IH r _ Q (Hr r)).
  - destruct Hp as (I & Hs & HI). destruct (HI s g Hs) as [Hc _]. unfold calm in Hc. congruence.
Qed.

(** The thread is asleep in the kernel: off the run queue, with [schedule] to
    return. *)
Definition sleeping (t : nat) (ps : list (prog unit)) (s : lstate) : Prop :=
  t ∈ asleep s /\ exists tm k, ps !! t = Some (Act (ScheduleTimeout tm) k).


(** ** Alerts *)

(** The alerts answered by a job of the holder. *)
Definition answered : Z :=
  foldr Z.lor 0 [CI_EPLOCK_NETIF_NEED_POLL; CI_EPLOCK_NETIF_NEED_WAKE; CI_EPLOCK_NETIF_SWF_UPDATE;
    CI_EPLOCK_NETIF_MERGE_ATOMIC_COUNTERS; CI_EPLOCK_NETIF_NEED_PKT_SET; CI_EPLOCK_NETIF_NEED_SOCK_BUFS;
    CI_EPLOCK_NETIF_PURGE_TXQS; CI_EPLOCK_NETIF_KERNEL_PACKETS; CI_EPLOCK_NETIF_FREE_READY_LIST].

(** They are the alerts that the lock is not let go with, except those followed up
    when it has been let go (priming, packet buffers freed) and the sockets to be
    closed, which may be left to the holder of the trusted lock. *)
Lemma answered_flags :
  answered = Z.ldiff (Z.land CI_EPLOCK_NETIF_UNLOCK_FLAGS under_lock) CI_EPLOCK_NETIF_CLOSE_ENDPOINT /\
  Z.ldiff CI_EPLOCK_NETIF_UNLOCK_FLAGS answered =
    Z.lor CI_EPLOCK_NETIF_NEED_PRIME (Z.lor CI_EPLOCK_NETIF_PKT_WAKE CI_EPLOCK_NETIF_CLOSE_ENDPOINT).
Proof. by split. Qed.

Definition pending (b : Z) (s : lstate) : Prop := Z.testbit (word s) b = true \/ Z.testbit (taken s) b = true.
Definition answers (b : Z) (e : nat * option nat * job) : Prop := Z.testbit (handles e.2) b = true.

(** An alert stays in the word, or among those taken out, until its job is done. *)
Definition follows (b : Z) (s s' : lstate) : Prop :=
  exists l, log s' = l ++ log s /\ (pending b s -> pending b s' \/ Exists (answers b) l).

Lemma follows_quiet b s s' : word s' = word s -> taken s' = taken s -> log s' = log s -> follows b s s'.
Proof. intros Ew Et El. exists []. split; [done|]. unfold pending. rewrite Ew, Et. auto. Qed.

Lemma follows_refl b s : follows b s s.
Proof. by apply follows_quiet. Qed.

Lemma follows_trans b s1 s2 s3 : follows b s1 s2 -> follows b s2 s3 -> follows b s1 s3.
Proof.
  intros (l & E & H) (l' & E' & H'). exists (l' ++ l). rewrite E', E, app_assoc. split; [done|].
  intros Hp. rewrite Exists_app. destruct (H Hp) as [Hp'|?]; [|auto]. destruct (H' Hp'); auto.
Qed.

Lemma answered_bits b : 0 <= b -> Z.testbit answered b = true ->
  Z.testbit under_lock b = true /\ Z.testbit CI_EPLOCK_NETIF_UNLOCK_FLAGS b = true /\
  Z.testbit CI_EPLOCK_NETIF_CLOSE_ENDPOINT b = false.
Proof. intros Hb. rewrite (proj1 answered_flags), Z.ldiff_spec, Z.land_spec, !andb_true_iff, negb_true_iff. intros [[H1 H2] H3]. exact (conj H2 (conj H1 H3)). Qed.

Lemma action_follows b t (R : Set) (a : action R) c s r s' : 0 <= b -> Z.testbit answered b = true ->
  aexec t a c s = Some (r, s') -> follows b s s'.
Proof.
  intros Hb Ha He. destruct (answered_bits b Hb Ha) as (Hu & _ & Hc). clear Ha.
  destruct a as [|old new|w|w v|w|w| |n|f| | |st|tm| |st|q|j|]; cbn [aexec] in He;
    try (injection He as <- <-; by apply follows_quiet).
  - destruct (Z.eqb_spec (word s) old) as [<-|]; injection He as <- <-; [|apply follows_refl].
    exists []. split; [done|]. unfold pending. cbn -[Z.lor cleared]. rewrite Z.lor_spec. unfold cleared.
    rewrite Z.land_spec, Z.ldiff_spec, Hu. intros [Hw|Ht]; [|rewrite Ht; auto].
    rewrite Hw. destruct (Z.testbit new b); [auto|]. left; right. apply orb_true_r.
  - destruct st; injection He as <- <-; by apply follows_quiet.
  - destruct (tm =? _); [injection He as <- <-; by apply follows_quiet|]. destruct (_ && _); [|done].
    injection He as <- <-. by apply follows_quiet.
  - injection He as <- <-. exists []. split; [done|]. unfold pending. cbn -[Z.ldiff settles]. rewrite Z.ldiff_spec.
    intros [Hw|Ht]; [auto|]. rewrite Ht. left; right. destruct q; cbn [settles]; rewrite ?Hc, ?Z.bits_0; reflexivity.
  - injection He as <- <-. exists [(t, owner s, j)]. split; [done|]. unfold pending. cbn -[Z.ldiff handles].
    rewrite Z.ldiff_spec. destruct (Z.testbit (handles j) b) eqn:E; [right; constructor; exact E|].
    rewrite andb_true_r. auto.
  - discriminate He.
Qed.

Lemma run_follows b sched ps s ps' s' : 0 <= b -> Z.testbit answered b = true ->
  crun sched (ps, s) = Some (ps', s') -> follows b s s'.
Proof.
  intros Hb Ha. revert ps s. induction sched as [|[t c] sched IH]; intros ps s; cbn [crun].
  - intros [= <- <-]. apply follows_refl.
  - unfold cstep. destruct (ps !! t) as [[u|R a k|St B body x k]|] eqn:Et; try done.
    + destruct (aexec t a c s) as [[r s1]|] eqn:E; cbn; [|done]. intros Hrun.
      apply (follows_trans b s s1); [by apply (action_follows b t R a c s r)|by apply (IH (<[t := k r]> ps))].
    + apply IH.
Qed.

Lemma crun_app sched sched' cf : crun (sched ++ sched') cf = cf' ← crun sched cf; crun sched' cf'.
Proof. revert cf. induction sched as [|[t c] sched IH]; intros cf; cbn; [done|]. destruct (cstep t c cf); cbn; auto. Qed.

(** C11: None of the nine alerts to the holder that a job answers is lost.  An
    alert to poll, to wake sockets, to update the software filters, to merge
    counters, to get packet or socket buffers, to purge transmit queues, to take
    packets from the kernel or to free ready lists, in the word at some time,
    whoever put it there, is answered by its job, done by the thread that holds the
    lock, before the lock is free.  The alerts to prime event queues and of packet
    buffers freed, which are followed up after the lock has been let go, the mark of
    a waiter for packet buffers, which may stay, and the sockets to be closed are
    not among them. *)
Theorem eplock_alerts_answered css next n dl sched ps s sched' ps' s' b : Forall (Forall call_ok) css ->
  crun sched (thread_prog <$> css, start_state next n dl) = Some (ps, s) -> 0 <= b ->
  Z.testbit answered b = true -> Z.testbit (word s) b = true ->
  crun sched' (ps, s) = Some (ps', s') -> lk (word s') = false ->
  exists l t j, log s' = l ++ log s /\ (t, Some t, j) ∈ l /\ Z.testbit (handles j) b = true.
Proof using.
  intros Hok Hrun Hb Ha Hw Hrun' Hf. destruct (run_follows b sched' ps s ps' s' Hb Ha Hrun') as (l & El & Hl).
  destruct (reachable css next n dl (sched ++ sched') ps' s' Hok) as (gs & _ & Hi); [rewrite crun_app, Hrun; exact Hrun'|].
  destruct Hl as [[Hw'|Ht']|Hl]; [by left| | |].
  - destruct (i_free _ _ _ Hi Hf) as (_ & _ & Hu). destruct (answered_bits b Hb Ha) as (_ & Hb' & _).
    unfold un in Hu. rewrite land_zero in Hu. specialize (Hu b Hb). rewrite Hw', Hb' in Hu. discriminate Hu.
  - pose proof (i_taken _ _ _ Hi) as Ht. unfold taken_ok in Ht. rewrite (free_owner _ _ _ Hi Hf) in Ht.
    rewrite Ht, Z.bits_0 in Ht'. discriminate Ht'.
  - apply Exists_exists in Hl as ([[t o] j] & Hin & Hj). exists l, t, j. split_and!; [done| |done].
    pose proof (i_log _ _ _ Hi) as Hlog. rewrite Forall_forall in Hlog.
    assert (Ho : log_ok (t, o, j)) by (apply Hlog; rewrite El; apply elem_of_app; by left).
    unfold log_ok in Ho. cbn in Ho. rewrite <- Ho; [done|]. unfold answers in Hj. cbn in Hj.
    by destruct j; cbn in Hj; rewrite ?Z.bits_0 in Hj.
Qed.
End calls.

(** * Examples *)

#[local] Abbreviation ex_thread := (thread_prog (fun ms => ms) [0] 100).
#[local] Abbreviation ex_start := (start_state ∅ 0 false).

Definition turns (t n : nat) : list (nat * Z) := repeat (t, 0) n.
Definition finished (p : prog unit) : bool := match p with Ret _ => true | _ => false end.
Definition at_schedule (p : prog unit) : bool :=
  match p with Act a _ => match a with ScheduleTimeout _ => true | _ => false end | _ => false end.

Lemma finished_all ps : forallb finished ps = true -> Forall (fun p => p = Ret tt) ps.
Proof.
  induction ps as [|p ps IH]; cbn; [constructor|]. intros [Hp Hps]%andb_true_iff. constructor; [|by apply IH].
  by destruct p as [[]|R a k|St B body s k].
Qed.

Lemma at_schedule_inv p : at_schedule p = true -> exists tm k, p = Act (ScheduleTimeout tm) k.
Proof. destruct p as [u|R a k|St B body s k]; [done| |done]. destruct a; try done. eauto. Qed.

(** What can be read off a configuration. *)
Definition view (cf : config) : list bool * list bool * Z * list nat * list (nat * option nat * job) :=
  (finished <$> cf.1, at_schedule <$> cf.1, word cf.2, elements (asleep cf.2), log cf.2).

(** One thread has the lock, another leaves the work of socket 5 to it. *)
Definition ex_calls : list (list call) := [[Locked [Do 1]]; [Defer 5 []]].
Definition ex_sched : list (nat * Z) := turns 0 1 ++ turns 1 8 ++ turns 0 23.
#[local] Abbreviation ex_config := (crun ex_sched (ex_thread <$> ex_calls, ex_start)).

Lemma ex_view : view <$> ex_config = Some ([true; true], [false; false], 0, [],
  [(0%nat, Some 0%nat, DeferredWork 5); (0%nat, Some 0%nat, Crit 1)]).
Proof. vm_compute. reflexivity. Qed.

Lemma ex_calls_ok : Forall (Forall call_ok) ex_calls.
Proof. repeat constructor; done. Qed.

Lemma eplock_excludes_witness : exists ps s, ex_config = Some (ps, s) /\
  log s = [(0%nat, Some 0%nat, DeferredWork 5); (0%nat, Some 0%nat, Crit 1)] /\ clean (word s).
Proof.
  pose proof ex_view as Hv. destruct ex_config as [[ps s]|] eqn:E; [|discriminate Hv]. injection Hv as _ _ Hw _ Hl.
  destruct (eplock_excludes (fun ms => ms) [0] 100 ex_calls ∅ 0 false ex_sched ps s ex_calls_ok E) as (_ & _ & Hc).
  exists ps, s. split; [reflexivity|]. split; [exact Hl|]. apply Hc. rewrite Hw. reflexivity.
Defined.


(** A second thread finds the lock taken and goes to sleep. *)
Definition ex_wait_calls : list (list call) := [[Locked [Do 1]]; [Locked [Do 2]]].
Definition ex_wait_sched : list (nat * Z) := turns 0 1 ++ turns 1 9.
#[local] Abbreviation ex_wait_config := (crun ex_wait_sched (ex_thread <$> ex_wait_calls, ex_start)).

Lemma ex_wait_view : view <$> ex_wait_config = Some ([false; false], [false; true], 0x60000000, [1%nat], []).
Proof. vm_compute. reflexivity. Qed.

Lemma ex_wait_calls_ok : Forall (Forall call_ok) ex_wait_calls.
Proof. repeat constructor. Qed.


(** A second thread asks the holder to poll. *)
Definition ex_alert_calls : list (list call) := [[Locked [Do 1]]; [Alert CI_EPLOCK_NETIF_NEED_POLL]].
Definition ex_alert_sched : list (nat * Z) := turns 0 1 ++ turns 1 3.
#[local] Abbreviation ex_alert_config := (crun ex_alert_sched (ex_thread <$> ex_alert_calls, ex_start)).

Lemma ex_alert_view : (fun cf => (word cf.2, (fun cf' => (word cf'.2, log cf'.2)) <$> crun (turns 0 14) cf)) <$> ex_alert_config =
  Some (0x2000000020000000, Some (0, [(0%nat, Some 0%nat, Poll); (0%nat, Some 0%nat, Crit 1)])).
Proof. vm_compute. reflexivity. Qed.

Lemma ex_alert_calls_ok : Forall (Forall call_ok) ex_alert_calls.
Proof. repeat constructor; done. Qed.

Lemma eplock_alerts_answered_witness : exists ps s ps' s', ex_alert_config = Some (ps, s) /\
  crun (turns 0 14) (ps, s) = Some (ps', s') /\ log s' = [(0%nat, Some 0%nat, Poll); (0%nat, Some 0%nat, Crit 1)] /\
  exists l t j, log s' = l ++ log s /\ (t, Some t, j) ∈ l /\ Z.testbit (handles j) 61 = true.
Proof.
  pose proof ex_alert_view as Hv. destruct ex_alert_config as [[ps s]|] eqn:E; [|discriminate Hv].
  change (Some (word s, (fun cf' => (word cf'.2, log cf'.2)) <$> crun (turns 0 14) (ps, s)) =
    Some (0x2000000020000000, Some (0, [(0%nat, Some 0%nat, Poll); (0%nat, Some 0%nat, Crit 1)]))) in Hv.
  destruct (crun (turns 0 14) (ps, s)) as [[ps' s']|] eqn:E'; [|discriminate Hv]. injection Hv as Hw Hw' Hl.
  exists ps, s, ps', s'. split; [reflexivity|]. split; [exact E'|]. split; [exact Hl|].
  apply (eplock_alerts_answered (fun ms => ms) [0] 100 ex_alert_calls ∅ 0 false ex_alert_sched ps s (turns 0 14) ps' s' 61);
    [exact ex_alert_calls_ok|exact E|lia|reflexivity|rewrite Hw; reflexivity|exact E'|].
  rewrite Hw'. reflexivity.
Defined.

(** [efab_eplock_lock_timeout] asks to be woken before it is marked as sleeping
    ([schedule_timeout_interruptible] does that), so a wake-up in between is
    lost: the lock is free, nobody else runs, and the thread sleeps out its
    time. *)
Lemma lock_timeout_loses_wakeup : exists ps s,
  crun (turns 0 1 ++ turns 1 6 ++ turns 0 17 ++ turns 1 1)
    ([ex_thread [Locked [Do 1]]; efab_eplock_lock_timeout 100 ;;; Ret tt], ex_start) = Some (ps, s) /\
  (finished <$> ps) = [true; false] /\ sleeping 1 ps s /\ word s = 0.
Proof.
  assert (Hv : view <$> crun (turns 0 1 ++ turns 1 6 ++ turns 0 17 ++ turns 1 1)
    ([ex_thread [Locked [Do 1]]; efab_eplock_lock_timeout 100 ;;; Ret tt], ex_start) =
    Some ([true; false], [false; true], 0, [1%nat], [(0%nat, Some 0%nat, Crit 1)])) by (vm_compute; reflexivity).
  destruct (crun _ _) as [[ps s]|]; [|discriminate Hv]. injection Hv as Hf Hs Hw Ha _.
  exists ps, s. split_and!; [done|done| |done]. split; [apply elem_of_elements; rewrite Ha; left|].
  destruct ps as [|p1 [|p2 [|]]]; try discriminate Hs. injection Hs as _ H2.
  destruct (at_schedule_inv p2 H2) as (tm & k & ->). by exists tm, k.
Qed.

(** The list holds the number of a socket plus one in 21 bits, one too few for the
    last of [CI_CFG_NETIF_MAX_ENDPOINTS_MAX] (1 << 21) sockets: its work is lost
    and a stray bit stays in the word. *)
Lemma last_socket_lost : let w := 2 ^ 21 - 1 in
  (fun cf => (forallb finished cf.1, worked w cf.2, word cf.2, bool_decide (w ∈ deferred cf.2))) <$>
    crun (turns 0 1 ++ turns 1 8 ++ turns 0 12) ([ex_thread [Locked [Do 1]]; ex_thread [Defer w []]], ex_start) =
  Some (true, 0%nat, 0x200000, true).
Proof. vm_compute. reflexivity. Qed.
