(* ===== verification/Filter.v ===== *)
(** Receive filters: lib/ciul/filter.c.

    An [ef_filter_spec] is a bit set of criteria and twelve words of data whose
    meaning depends on them; the setters add criteria, [ef_filter_add] turns the
    spec into the request the kernel sees.  The kernel's answer is a parameter.
    The refinement theorem follows the criteria a client asked for through any
    sequence of setters to the fields of that request. *)

From stdpp Require Import base list numbers.
From S2P Require Import Prelude.

Open Scope Z_scope.

(** * Constants *)

(** [enum ef_filter_type] *)
Definition EF_FILTER_MAC := 1.
Definition EF_FILTER_IP4 := 2.
Definition EF_FILTER_ALL_UNICAST := 4.
Definition EF_FILTER_ALL_MULTICAST := 8.
Definition EF_FILTER_VLAN := 16.
Definition EF_FILTER_MISMATCH_UNICAST := 32.
Definition EF_FILTER_MISMATCH_MULTICAST := 64.
Definition EF_FILTER_PORT_SNIFF := 128.
Definition EF_FILTER_BLOCK_KERNEL := 256.
Definition EF_FILTER_BLOCK_KERNEL_UNICAST := 512.
Definition EF_FILTER_BLOCK_KERNEL_MULTICAST := 1024.
Definition EF_FILTER_TX_PORT_SNIFF := 2048.
Definition EF_FILTER_IP_PROTO := 4096.
Definition EF_FILTER_ETHER_TYPE := 8192.
Definition EF_FILTER_IP6 := 16384.

Definition EF_FILTER_FLAG_MCAST_LOOP_RECEIVE := 2.
Definition CI_RSOP_FILTER_ADD_FLAG_MCAST_LOOP_RECEIVE := 2.
Definition EF_FILTER_DATA_INDEX_IPPROTO_OR_ETHERTYPE := 3.

(** The operations a [ci_resource_op_t] asks of the kernel. *)
Inductive rsop :=
| CI_RSOP_FILTER_ADD_IP4 | CI_RSOP_FILTER_ADD_MAC
| CI_RSOP_FILTER_ADD_ALL_UNICAST | CI_RSOP_FILTER_ADD_ALL_MULTICAST | CI_RSOP_FILTER_DEL
| CI_RSOP_FILTER_ADD_IP4_VLAN
| CI_RSOP_FILTER_ADD_MISMATCH_UNICAST | CI_RSOP_FILTER_ADD_MISMATCH_MULTICAST
| CI_RSOP_FILTER_ADD_MISMATCH_UNICAST_VLAN | CI_RSOP_FILTER_ADD_MISMATCH_MULTICAST_VLAN
| CI_RSOP_PT_SNIFF | CI_RSOP_FILTER_ADD_BLOCK_KERNEL
| CI_RSOP_FILTER_ADD_BLOCK_KERNEL_UNICAST | CI_RSOP_FILTER_ADD_BLOCK_KERNEL_MULTICAST
| CI_RSOP_TX_PT_SNIFF | CI_RSOP_FILTER_ADD_MAC_IP_PROTO | CI_RSOP_FILTER_ADD_MAC_ETHER_TYPE
| CI_RSOP_FILTER_ADD_IP_PROTO_VLAN | CI_RSOP_FILTER_ADD_ETHER_TYPE_VLAN
| CI_RSOP_FILTER_ADD_IP_PROTO | CI_RSOP_FILTER_ADD_ETHER_TYPE.

(** * Data *)

Record ef_filter_spec := mk_fs { fs_type : Z; fs_flags : Z; fs_data : list Z }.

Record ef_filter_cookie := mk_cookie { filter_id : Z; filter_type : Z }.

#[global] Instance fs_eta : Eta ef_filter_spec.
Proof. refine {| eta := fun r => mk_fs (fs_type r) (fs_flags r) (fs_data r) |}. solve_eta. Defined.

(** The members of [ci_resource_op_t] that filters use.  The C object is an
    uninitialised local: members not assigned keep what the stack held. *)
Record ci_resource_op_t := mk_op {
  op_id : Z; op_op : rsop;
  op_flags : Z;
  ip4_protocol : Z; ip4_host_be32 : Z; ip4_port_be16 : Z; ip4_rhost_be32 : Z; ip4_rport_be16 : Z;
  mac_vlan_id : Z; mac_mac : list Z;
  in_ether_type_be16 : Z;
  sniff_enable : Z; sniff_promiscuous : Z; tx_sniff_enable : Z;
  del_filter_id : Z }.

#[global] Instance op_eta : Eta ci_resource_op_t.
Proof.
  refine {| eta := fun r => mk_op (op_id r) (op_op r) (op_flags r) (ip4_protocol r)
    (ip4_host_be32 r) (ip4_port_be16 r) (ip4_rhost_be32 r) (ip4_rport_be16 r) (mac_vlan_id r)
    (mac_mac r) (in_ether_type_be16 r) (sniff_enable r) (sniff_promiscuous r) (tx_sniff_enable r)
    (del_filter_id r) |}. solve_eta.
Defined.

(** The members of [ci_filter_add_t] that are assigned. *)
Record ci_filter_add_t := mk_add {
  a_res_id : Z; a_protocol : Z; a_daddr : list Z; a_dest : Z; a_saddr : list Z; a_source : Z;
  a_vid : Z }.

(** [ci_int16] *)
Definition s16 (z : Z) : Z := let r := u16 z in if r <? 32768 then r else r - 65536.

(** * Building a spec *)

Definition ef_filter_spec_init (fs : ef_filter_spec) (flags : Z) : ef_filter_spec :=
  fs <| fs_type := 0 |> <| fs_flags := u32 flags |>.

Definition add_type (t : Z) (fs : ef_filter_spec) : ef_filter_spec :=
  fs <| fs_type ::= fun ty => Z.lor ty t |>.
Definition set_data (i v : Z) (fs : ef_filter_spec) : ef_filter_spec :=
  fs <| fs_data ::= fun d => aset d i (u32 v) |>.
Definition data (fs : ef_filter_spec) (i : Z) : Z := aget (fs_data fs) i.

(** The word four bytes make, and the bytes of a word. *)
Definition word_of (bs : list Z) (i : nat) : Z := get32 bs i.
Definition bytes_of (w : Z) : list Z := [u8 w; u8 (Z.shiftr w 8); u8 (Z.shiftr w 16); u8 (Z.shiftr w 24)].

(** [memcpy(&fs->data[i], p, 16)] and [memcpy(&fs->data[i], mac, 6)] *)
Definition copy16 (i : Z) (p : list Z) (fs : ef_filter_spec) : ef_filter_spec :=
  set_data (i + 3) (word_of p 12) (set_data (i + 2) (word_of p 8)
    (set_data (i + 1) (word_of p 4) (set_data i (word_of p 0) fs))).
Definition copy6 (i : Z) (p : list Z) (fs : ef_filter_spec) : ef_filter_spec :=
  let fs := set_data i (word_of p 0) fs in
  set_data (i + 1) (Z.shiftr (data fs (i + 1)) 16 * 65536 + get16 p 4) fs.

Definition is_type (fs : ef_filter_spec) (ts : list Z) : bool :=
  existsb (fun t => fs_type fs =? t) ts.

Definition ef_filter_spec_set_ip4_local (fs : ef_filter_spec) (protocol host_be32 port_be16 : Z)
    : ef_filter_spec * Z :=
  if negb (is_type fs [0; EF_FILTER_VLAN]) then (fs, - EPROTONOSUPPORT)
  else
    let fs := add_type EF_FILTER_IP4 fs in
    let fs := set_data 0 protocol fs in
    let fs := set_data 1 host_be32 fs in
    let fs := set_data 2 port_be16 fs in
    let fs := set_data 3 0 fs in
    (set_data 4 0 fs, 0).

Definition ef_filter_spec_set_ip4_full (fs : ef_filter_spec)
    (protocol host_be32 port_be16 rhost_be32 rport_be16 : Z) : ef_filter_spec * Z :=
  if negb (is_type fs [0; EF_FILTER_VLAN]) then (fs, - EPROTONOSUPPORT)
  else
    let fs := add_type EF_FILTER_IP4 fs in
    let fs := set_data 0 protocol fs in
    let fs := set_data 1 host_be32 fs in
    let fs := set_data 2 port_be16 fs in
    let fs := set_data 3 rhost_be32 fs in
    (set_data 4 rport_be16 fs, 0).

Definition ef_filter_spec_set_ip6_local (fs : ef_filter_spec) (protocol : Z) (host : list Z)
    (port_be16 : Z) : ef_filter_spec * Z :=
  if negb (is_type fs [0; EF_FILTER_VLAN]) then (fs, - EPROTONOSUPPORT)
  else
    let fs := add_type EF_FILTER_IP6 fs in
    let fs := set_data 0 protocol fs in
    let fs := copy16 1 host fs in
    let fs := set_data 6 port_be16 fs in
    let fs := copy16 7 (replicate 16 0) fs in
    (set_data 11 0 fs, 0).

Definition ef_filter_spec_set_ip6_full (fs : ef_filter_spec) (protocol : Z) (host : list Z)
    (port_be16 : Z) (rhost : list Z) (rport_be16 : Z) : ef_filter_spec * Z :=
  if negb (is_type fs [0; EF_FILTER_VLAN]) then (fs, - EPROTONOSUPPORT)
  else
    let fs := add_type EF_FILTER_IP6 fs in
    let fs := set_data 0 protocol fs in
    let fs := copy16 1 host fs in
    let fs := set_data 6 port_be16 fs in
    let fs := copy16 7 rhost fs in
    (set_data 11 rport_be16 fs, 0).

Definition ef_filter_spec_set_vlan (fs : ef_filter_spec) (vlan_id : Z) : ef_filter_spec * Z :=
  if negb (is_type fs [0; EF_FILTER_IP4; EF_FILTER_MISMATCH_MULTICAST;
             EF_FILTER_MISMATCH_UNICAST; EF_FILTER_IP_PROTO; EF_FILTER_ETHER_TYPE; EF_FILTER_IP6])
  then (fs, - EPROTONOSUPPORT)
  else (set_data 5 vlan_id (add_type EF_FILTER_VLAN fs), 0).

Definition ef_filter_spec_set_eth_local (fs : ef_filter_spec) (vlan_id : Z) (mac : list Z)
    : ef_filter_spec * Z :=
  if negb (is_type fs [0; EF_FILTER_IP_PROTO; EF_FILTER_ETHER_TYPE]) then (fs, - EPROTONOSUPPORT)
  else
    let fs := add_type EF_FILTER_MAC fs in
    let fs := set_data 0 vlan_id fs in
    (copy6 1 mac fs, 0).

(** The setters that only set a bit, accepted on the types listed. *)
Definition set_type_only (t : Z) (ok : list Z) (fs : ef_filter_spec) : ef_filter_spec * Z :=
  if negb (is_type fs ok) then (fs, - EPROTONOSUPPORT) else (add_type t fs, 0).

Definition ef_filter_spec_set_unicast_all := set_type_only EF_FILTER_ALL_UNICAST [0].
Definition ef_filter_spec_set_multicast_all := set_type_only EF_FILTER_ALL_MULTICAST [0].
Definition ef_filter_spec_set_unicast_mismatch :=
  set_type_only EF_FILTER_MISMATCH_UNICAST [0; EF_FILTER_VLAN].
Definition ef_filter_spec_set_multicast_mismatch :=
  set_type_only EF_FILTER_MISMATCH_MULTICAST [0; EF_FILTER_VLAN].
Definition ef_filter_spec_set_tx_port_sniff := set_type_only EF_FILTER_TX_PORT_SNIFF [0].
Definition ef_filter_spec_set_block_kernel := set_type_only EF_FILTER_BLOCK_KERNEL [0].
Definition ef_filter_spec_set_block_kernel_multicast :=
  set_type_only EF_FILTER_BLOCK_KERNEL_MULTICAST [0].
Definition ef_filter_spec_set_block_kernel_unicast :=
  set_type_only EF_FILTER_BLOCK_KERNEL_UNICAST [0].

Definition ef_filter_spec_set_port_sniff (fs : ef_filter_spec) (promiscuous : Z)
    : ef_filter_spec * Z :=
  if negb (is_type fs [0]) then (fs, - EPROTONOSUPPORT)
  else (set_data 0 promiscuous (add_type EF_FILTER_PORT_SNIFF fs), 0).

Definition ef_filter_spec_set_ip_proto (fs : ef_filter_spec) (ip_proto : Z) : ef_filter_spec * Z :=
  if negb (is_type fs [0; EF_FILTER_VLAN; EF_FILTER_MAC]) then (fs, - EPROTONOSUPPORT)
  else (set_data EF_FILTER_DATA_INDEX_IPPROTO_OR_ETHERTYPE (u8 ip_proto)
          (add_type EF_FILTER_IP_PROTO fs), 0).

Definition ef_filter_spec_set_eth_type (fs : ef_filter_spec) (ether_type_be16 : Z)
    : ef_filter_spec * Z :=
  if negb (is_type fs [0; EF_FILTER_VLAN; EF_FILTER_MAC]) then (fs, - EPROTONOSUPPORT)
  else (set_data EF_FILTER_DATA_INDEX_IPPROTO_OR_ETHERTYPE (u16 ether_type_be16)
          (add_type EF_FILTER_ETHER_TYPE fs), 0).

(** * Adding and removing *)

Definition has (fs : ef_filter_spec) (t : Z) : bool := nz (Z.land (fs_type fs) t).

(** The fields filled in from the data, by the criteria present. *)
Definition fill_op (resource_id : Z) (fs : ef_filter_spec) (op : ci_resource_op_t)
    : ci_resource_op_t :=
  let op := op <| op_id := resource_id |> in
  let op := op <| op_flags := if nz (Z.land (fs_flags fs) EF_FILTER_FLAG_MCAST_LOOP_RECEIVE)
                              then CI_RSOP_FILTER_ADD_FLAG_MCAST_LOOP_RECEIVE else 0 |> in
  let op :=
    if has fs EF_FILTER_MAC then
      op <| mac_vlan_id := s16 (data fs 0) |>
         <| mac_mac := take 6 (bytes_of (data fs 1) ++ bytes_of (data fs 2)) |>
    else
      let op :=
        if has fs EF_FILTER_IP4 then
          op <| ip4_protocol := u8 (data fs 0) |> <| ip4_host_be32 := data fs 1 |>
             <| ip4_port_be16 := s16 (data fs 2) |> <| ip4_rhost_be32 := data fs 3 |>
             <| ip4_rport_be16 := s16 (data fs 4) |>
        else op in
      if has fs EF_FILTER_VLAN then op <| mac_vlan_id := s16 (data fs 5) |> else op in
  if has fs EF_FILTER_IP_PROTO then op <| ip4_protocol := u8 (data fs 3) |>
  else if has fs EF_FILTER_ETHER_TYPE then op <| in_ether_type_be16 := u16 (data fs 3) |>
  else op.

(** The [switch (fs->type)]. *)
Definition op_of_type (t : Z) : option rsop :=
  if t =? Z.lor EF_FILTER_IP4 EF_FILTER_VLAN then Some CI_RSOP_FILTER_ADD_IP4_VLAN
  else if t =? EF_FILTER_IP4 then Some CI_RSOP_FILTER_ADD_IP4
  else if t =? EF_FILTER_MAC then Some CI_RSOP_FILTER_ADD_MAC
  else if t =? Z.lor EF_FILTER_MAC EF_FILTER_IP_PROTO then Some CI_RSOP_FILTER_ADD_MAC_IP_PROTO
  else if t =? Z.lor EF_FILTER_MAC EF_FILTER_ETHER_TYPE then Some CI_RSOP_FILTER_ADD_MAC_ETHER_TYPE
  else if t =? Z.lor EF_FILTER_IP_PROTO EF_FILTER_VLAN then Some CI_RSOP_FILTER_ADD_IP_PROTO_VLAN
  else if t =? Z.lor EF_FILTER_ETHER_TYPE EF_FILTER_VLAN then Some CI_RSOP_FILTER_ADD_ETHER_TYPE_VLAN
  else if t =? EF_FILTER_IP_PROTO then Some CI_RSOP_FILTER_ADD_IP_PROTO
  else if t =? EF_FILTER_ETHER_TYPE then Some CI_RSOP_FILTER_ADD_ETHER_TYPE
  else if t =? EF_FILTER_ALL_UNICAST then Some CI_RSOP_FILTER_ADD_ALL_UNICAST
  else if t =? EF_FILTER_ALL_MULTICAST then Some CI_RSOP_FILTER_ADD_ALL_MULTICAST
  else if t =? Z.lor EF_FILTER_MISMATCH_UNICAST EF_FILTER_VLAN
  then Some CI_RSOP_FILTER_ADD_MISMATCH_UNICAST_VLAN
  else if t =? EF_FILTER_MISMATCH_UNICAST then Some CI_RSOP_FILTER_ADD_MISMATCH_UNICAST
  else if t =? Z.lor EF_FILTER_MISMATCH_MULTICAST EF_FILTER_VLAN
  then Some CI_RSOP_FILTER_ADD_MISMATCH_MULTICAST_VLAN
  else if t =? EF_FILTER_MISMATCH_MULTICAST then Some CI_RSOP_FILTER_ADD_MISMATCH_MULTICAST
  else if t =? EF_FILTER_PORT_SNIFF then Some CI_RSOP_PT_SNIFF
  else if t =? EF_FILTER_TX_PORT_SNIFF then Some CI_RSOP_TX_PT_SNIFF
  else if t =? EF_FILTER_BLOCK_KERNEL then Some CI_RSOP_FILTER_ADD_BLOCK_KERNEL
  else if t =? EF_FILTER_BLOCK_KERNEL_UNICAST then Some CI_RSOP_FILTER_ADD_BLOCK_KERNEL_UNICAST
  else if t =? EF_FILTER_BLOCK_KERNEL_MULTICAST then Some CI_RSOP_FILTER_ADD_BLOCK_KERNEL_MULTICAST
  else None.

(** The request, or [None] for the default case's [-EINVAL]. *)
Definition filter_request (resource_id : Z) (fs : ef_filter_spec) (op : ci_resource_op_t)
    : option ci_resource_op_t :=
  let op := fill_op resource_id fs op in
  match op_of_type (fs_type fs) with
  | None => None
  | Some o =>
    let op := op <| op_op := o |> in
    Some (if fs_type fs =? EF_FILTER_PORT_SNIFF
          then op <| sniff_enable := 1 |> <| sniff_promiscuous := u8 (data fs 0) |>
          else if fs_type fs =? EF_FILTER_TX_PORT_SNIFF then op <| tx_sniff_enable := 1 |>
          else op)
  end.

Section kernel.
(** The kernel's answers: a return code and, for an addition, a filter id. *)
Context (ci_resource_op : ci_resource_op_t -> Z * Z) (ci_filter_add : ci_filter_add_t -> Z * Z).

(** [cookie] is [filter_cookie_out], [None] for NULL. *)
Definition ef_filter_add (resource_id : Z) (fs : ef_filter_spec) (stack : ci_resource_op_t)
    (cookie : option ef_filter_cookie) : Z * option ef_filter_cookie :=
  match filter_request resource_id fs stack with
  | None => (- EINVAL, cookie)
  | Some op =>
    let '(rc, out_filter_id) := ci_resource_op op in
    if rc =? 0 then
      (rc, option_map (fun _ =>
         mk_cookie (if (fs_type fs =? EF_FILTER_PORT_SNIFF) || (fs_type fs =? EF_FILTER_TX_PORT_SNIFF)
                    then -1 else s32 out_filter_id) (fs_type fs)) cookie)
    else (rc, cookie)
  end.

Definition filter_request_ip6 (resource_id : Z) (fs : ef_filter_spec) : ci_filter_add_t :=
  let addr i := bytes_of (data fs i) ++ bytes_of (data fs (i + 1)) ++
                bytes_of (data fs (i + 2)) ++ bytes_of (data fs (i + 3)) in
  mk_add resource_id (u8 (data fs 0)) (addr 1) (u16 (data fs 6)) (addr 7) (u16 (data fs 11))
    (if has fs EF_FILTER_VLAN then u16 (data fs 5) else 65535).

Definition ef_filter_add_ip6 (resource_id : Z) (fs : ef_filter_spec)
    (cookie : option ef_filter_cookie) : Z * option ef_filter_cookie :=
  let '(rc, out_filter_id) := ci_filter_add (filter_request_ip6 resource_id fs) in
  match cookie with
  | Some _ =>
    if rc =? 0 then (rc, Some (mk_cookie (s32 out_filter_id) (fs_type fs)))
    else if rc =? - ENOTTY then (- EOPNOTSUPP, cookie) else (rc, cookie)
  | None => if rc =? - ENOTTY then (- EOPNOTSUPP, cookie) else (rc, cookie)
  end.

Definition filter_del_request (resource_id : Z) (cookie : ef_filter_cookie) (op : ci_resource_op_t)
    : ci_resource_op_t :=
  if filter_type cookie =? EF_FILTER_PORT_SNIFF then
    op <| op_op := CI_RSOP_PT_SNIFF |> <| op_id := resource_id |> <| sniff_enable := 0 |>
  else if filter_type cookie =? EF_FILTER_TX_PORT_SNIFF then
    op <| op_op := CI_RSOP_TX_PT_SNIFF |> <| op_id := resource_id |> <| tx_sniff_enable := 0 |>
  else
    op <| op_op := CI_RSOP_FILTER_DEL |> <| op_id := resource_id |>
       <| del_filter_id := filter_id cookie |>.

Definition ef_filter_del (resource_id : Z) (cookie : ef_filter_cookie) (stack : ci_resource_op_t)
    : Z := (ci_resource_op (filter_del_request resource_id cookie stack)).1.

Definition ef_vi_filter_add (vi_clustered vi_resource_id : Z) (fs : ef_filter_spec)
    (stack : ci_resource_op_t) (cookie : option ef_filter_cookie) : Z * option ef_filter_cookie :=
  if negb (nz vi_clustered) then
    if has fs EF_FILTER_IP6 then ef_filter_add_ip6 vi_resource_id fs cookie
    else ef_filter_add vi_resource_id fs stack cookie
  else (0, cookie).

Definition ef_vi_filter_del (vi_clustered vi_resource_id : Z) (cookie : ef_filter_cookie)
    (stack : ci_resource_op_t) : Z :=
  if negb (nz vi_clustered) then ef_filter_del vi_resource_id cookie stack else 0.

Definition ef_vi_set_filter_add (vis_res_id : Z) (fs : ef_filter_spec) (stack : ci_resource_op_t)
    (cookie : option ef_filter_cookie) : Z * option ef_filter_cookie :=
  ef_filter_add vis_res_id fs stack cookie.

Definition ef_vi_set_filter_del (vis_res_id : Z) (cookie : ef_filter_cookie)
    (stack : ci_resource_op_t) : Z := ef_filter_del vis_res_id cookie stack.

End kernel.

(** * What a client asks for *)

Inductive criterion :=
| Ip4Local (protocol host_be32 port_be16 : Z)
| Ip4Full (protocol host_be32 port_be16 rhost_be32 rport_be16 : Z)
| Ip6Local (protocol : Z) (host : list Z) (port_be16 : Z)
| Ip6Full (protocol : Z) (host : list Z) (port_be16 : Z) (rhost : list Z) (rport_be16 : Z)
| Vlan (vlan_id : Z) | Mac (vlan_id : Z) (mac : list Z)
| UnicastAll | MulticastAll | UnicastMismatch | MulticastMismatch
| PortSniff (promiscuous : Z) | TxPortSniff
| BlockKernel | BlockKernelMulticast | BlockKernelUnicast
| IpProto (ip_proto : Z) | EtherType (ether_type_be16 : Z).

(** The call that asks for it. *)
Definition set_criterion (fs : ef_filter_spec) (c : criterion) : ef_filter_spec * Z :=
  match c with
  | Ip4Local p h pt => ef_filter_spec_set_ip4_local fs p h pt
  | Ip4Full p h pt rh rp => ef_filter_spec_set_ip4_full fs p h pt rh rp
  | Ip6Local p h pt => ef_filter_spec_set_ip6_local fs p h pt
  | Ip6Full p h pt rh rp => ef_filter_spec_set_ip6_full fs p h pt rh rp
  | Vlan v => ef_filter_spec_set_vlan fs v
  | Mac v m => ef_filter_spec_set_eth_local fs v m
  | UnicastAll => ef_filter_spec_set_unicast_all fs
  | MulticastAll => ef_filter_spec_set_multicast_all fs
  | UnicastMismatch => ef_filter_spec_set_unicast_mismatch fs
  | MulticastMismatch => ef_filter_spec_set_multicast_mismatch fs
  | PortSniff p => ef_filter_spec_set_port_sniff fs p
  | TxPortSniff => ef_filter_spec_set_tx_port_sniff fs
  | BlockKernel => ef_filter_spec_set_block_kernel fs
  | BlockKernelMulticast => ef_filter_spec_set_block_kernel_multicast fs
  | BlockKernelUnicast => ef_filter_spec_set_block_kernel_unicast fs
  | IpProto p => ef_filter_spec_set_ip_proto fs p
  | EtherType t => ef_filter_spec_set_eth_type fs t
  end.

(** ** Which criteria go together *)

Inductive kind :=
| KIp4 | KIp6 | KVlan | KMac | KUAll | KMAll | KUMis | KMMis | KSniff | KTxSniff
| KBlock | KBlockM | KBlockU | KProto | KEther.

#[global] Instance kind_eq_dec : EqDecision kind.
Proof. solve_decision. Defined.

Definition all_kinds : list kind :=
  [KIp4; KIp6; KVlan; KMac; KUAll; KMAll; KUMis; KMMis; KSniff; KTxSniff; KBlock; KBlockM; KBlockU;
   KProto; KEther].

Definition kind_of (c : criterion) : kind :=
  match c with
  | Ip4Local _ _ _ | Ip4Full _ _ _ _ _ => KIp4
  | Ip6Local _ _ _ | Ip6Full _ _ _ _ _ => KIp6
  | Vlan _ => KVlan | Mac _ _ => KMac
  | UnicastAll => KUAll | MulticastAll => KMAll
  | UnicastMismatch => KUMis | MulticastMismatch => KMMis
  | PortSniff _ => KSniff | TxPortSniff => KTxSniff
  | BlockKernel => KBlock | BlockKernelMulticast => KBlockM | BlockKernelUnicast => KBlockU
  | IpProto _ => KProto | EtherType _ => KEther
  end.

(** Two criteria can be asked for together: a VLAN with an address, mismatch,
    protocol or EtherType criterion, a MAC address with a protocol or EtherType. *)
Definition together (k1 k2 : kind) : bool :=
  match k1, k2 with
  | KVlan, (KIp4 | KIp6 | KUMis | KMMis | KProto | KEther)
  | (KIp4 | KIp6 | KUMis | KMMis | KProto | KEther), KVlan
  | KMac, (KProto | KEther) | (KProto | KEther), KMac => true
  | _, _ => false
  end.

Definition accepts (acc : list criterion) (c : criterion) : bool :=
  match acc with
  | [] => true
  | [c1] => together (kind_of c1) (kind_of c)
  | _ => false
  end.

(** The operation the kernel should be asked for; [None] when nothing, or
    nothing but a VLAN, was asked for, and for IPv6, which has its own call. *)
Definition op_for (ks : list kind) : option rsop :=
  match ks with
  | [KIp4; KVlan] | [KVlan; KIp4] => Some CI_RSOP_FILTER_ADD_IP4_VLAN
  | [KIp4] => Some CI_RSOP_FILTER_ADD_IP4
  | [KMac] => Some CI_RSOP_FILTER_ADD_MAC
  | [KMac; KProto] | [KProto; KMac] => Some CI_RSOP_FILTER_ADD_MAC_IP_PROTO
  | [KMac; KEther] | [KEther; KMac] => Some CI_RSOP_FILTER_ADD_MAC_ETHER_TYPE
  | [KProto; KVlan] | [KVlan; KProto] => Some CI_RSOP_FILTER_ADD_IP_PROTO_VLAN
  | [KEther; KVlan] | [KVlan; KEther] => Some CI_RSOP_FILTER_ADD_ETHER_TYPE_VLAN
  | [KProto] => Some CI_RSOP_FILTER_ADD_IP_PROTO
  | [KEther] => Some CI_RSOP_FILTER_ADD_ETHER_TYPE
  | [KUAll] => Some CI_RSOP_FILTER_ADD_ALL_UNICAST
  | [KMAll] => Some CI_RSOP_FILTER_ADD_ALL_MULTICAST
  | [KUMis; KVlan] | [KVlan; KUMis] => Some CI_RSOP_FILTER_ADD_MISMATCH_UNICAST_VLAN
  | [KUMis] => Some CI_RSOP_FILTER_ADD_MISMATCH_UNICAST
  | [KMMis; KVlan] | [KVlan; KMMis] => Some CI_RSOP_FILTER_ADD_MISMATCH_MULTICAST_VLAN
  | [KMMis] => Some CI_RSOP_FILTER_ADD_MISMATCH_MULTICAST
  | [KSniff] => Some CI_RSOP_PT_SNIFF
  | [KTxSniff] => Some CI_RSOP_TX_PT_SNIFF
  | [KBlock] => Some CI_RSOP_FILTER_ADD_BLOCK_KERNEL
  | [KBlockU] => Some CI_RSOP_FILTER_ADD_BLOCK_KERNEL_UNICAST
  | [KBlockM] => Some CI_RSOP_FILTER_ADD_BLOCK_KERNEL_MULTICAST
  | _ => None
  end.

(** The criteria granted by a sequence of calls. *)
Fixpoint granted (acc : list criterion) (cs : list criterion) : list criterion :=
  match cs with
  | [] => acc
  | c :: cs => granted (if accepts acc c then acc ++ [c] else acc) cs
  end.

(** The calls, with their return codes. *)
Fixpoint set_all (fs : ef_filter_spec) (cs : list criterion) : ef_filter_spec * list Z :=
  match cs with
  | [] => (fs, [])
  | c :: cs =>
    let '(fs, rc) := set_criterion fs c in
    let '(fs, rcs) := set_all fs cs in (fs, rc :: rcs)
  end.

Fixpoint codes (acc : list criterion) (cs : list criterion) : list Z :=
  match cs with
  | [] => []
  | c :: cs =>
    (if accepts acc c then 0 else - EPROTONOSUPPORT) ::
    codes (if accepts acc c then acc ++ [c] else acc) cs
  end.

(** ** What the kernel should be told *)

Definition told (op : ci_resource_op_t) (c : criterion) : Prop :=
  match c with
  | Ip4Local p h pt =>
      ip4_protocol op = u8 p /\ ip4_host_be32 op = u32 h /\ ip4_port_be16 op = s16 pt /\
      ip4_rhost_be32 op = 0 /\ ip4_rport_be16 op = 0
  | Ip4Full p h pt rh rp =>
      ip4_protocol op = u8 p /\ ip4_host_be32 op = u32 h /\ ip4_port_be16 op = s16 pt /\
      ip4_rhost_be32 op = u32 rh /\ ip4_rport_be16 op = s16 rp
  | Vlan v => mac_vlan_id op = s16 v
  | Mac v m => mac_vlan_id op = s16 v /\ mac_mac op = m
  | PortSniff p => sniff_enable op = 1 /\ sniff_promiscuous op = u8 p
  | TxPortSniff => tx_sniff_enable op = 1
  | IpProto p => ip4_protocol op = u8 p
  | EtherType t => in_ether_type_be16 op = u16 t
  | _ => True
  end.

Definition told_ip6 (op : ci_filter_add_t) (c : criterion) : Prop :=
  match c with
  | Ip6Local p h pt =>
      a_protocol op = u8 p /\ a_daddr op = h /\ a_dest op = u16 pt /\
      a_saddr op = replicate 16 0 /\ a_source op = 0
  | Ip6Full p h pt rh rp =>
      a_protocol op = u8 p /\ a_daddr op = h /\ a_dest op = u16 pt /\
      a_saddr op = rh /\ a_source op = u16 rp
  | Vlan v => a_vid op = u16 v
  | _ => True
  end.

(** Addresses are given as the bytes the caller's pointers lead to. *)
Definition wf_criterion (c : criterion) : Prop :=
  match c with
  | Ip6Local _ h _ => length h = 16%nat /\ Forall byte_ok h
  | Ip6Full _ h _ rh _ =>
      length h = 16%nat /\ Forall byte_ok h /\ length rh = 16%nat /\ Forall byte_ok rh
  | Mac _ m => length m = 6%nat /\ Forall byte_ok m
  | _ => True
  end.

(** * Proofs *)

Definition bit (k : kind) : Z :=
  match k with
  | KIp4 => EF_FILTER_IP4 | KIp6 => EF_FILTER_IP6 | KVlan => EF_FILTER_VLAN | KMac => EF_FILTER_MAC
  | KUAll => EF_FILTER_ALL_UNICAST | KMAll => EF_FILTER_ALL_MULTICAST
  | KUMis => EF_FILTER_MISMATCH_UNICAST | KMMis => EF_FILTER_MISMATCH_MULTICAST
  | KSniff => EF_FILTER_PORT_SNIFF | KTxSniff => EF_FILTER_TX_PORT_SNIFF
  | KBlock => EF_FILTER_BLOCK_KERNEL | KBlockM => EF_FILTER_BLOCK_KERNEL_MULTICAST
  | KBlockU => EF_FILTER_BLOCK_KERNEL_UNICAST | KProto => EF_FILTER_IP_PROTO
  | KEther => EF_FILTER_ETHER_TYPE
  end.

Definition type_of (ks : list kind) : Z := fold_left (fun t k => Z.lor t (bit k)) ks 0.

(** The types on which a criterion's setter succeeds. *)
Definition setter_ok (k : kind) : list Z :=
  match k with
  | KIp4 | KIp6 | KUMis | KMMis => [0; EF_FILTER_VLAN]
  | KVlan => [0; EF_FILTER_IP4; EF_FILTER_MISMATCH_MULTICAST; EF_FILTER_MISMATCH_UNICAST;
              EF_FILTER_IP_PROTO; EF_FILTER_ETHER_TYPE; EF_FILTER_IP6]
  | KMac => [0; EF_FILTER_IP_PROTO; EF_FILTER_ETHER_TYPE]
  | KProto | KEther => [0; EF_FILTER_VLAN; EF_FILTER_MAC]
  | _ => [0]
  end.

(** At most two criteria, and two only if they go together. *)
Definition shape (ks : list kind) : bool :=
  match ks with
  | [] | [_] => true
  | [k1; k2] => together k1 k2
  | _ => false
  end.

Definition kind_accepts (ks : list kind) (k : kind) : bool :=
  match ks with [] => true | [k1] => together k1 k | _ => false end.

(** The setters' conditions on the type word are the table of what goes together. *)
Lemma setter_table ks k : shape ks = true ->
  existsb (fun t => type_of ks =? t) (setter_ok k) = kind_accepts ks k.
Proof.
  destruct ks as [|k1 [|k2 [|? ?]]]; cbn [shape]; [|destruct k1|destruct k1, k2; try done|done];
    intros _; destruct k; vm_compute; reflexivity.
Qed.

(** The switch is the table of operations. *)
Lemma switch_table ks : shape ks = true -> op_of_type (type_of ks) = op_for ks.
Proof.
  destruct ks as [|k1 [|k2 [|? ?]]]; cbn [shape]; [|destruct k1|destruct k1, k2; try done|done];
    intros _; vm_compute; reflexivity.
Qed.

(** ** The data words *)

Lemma data_set_eq fs i v : 0 <= i < Z.of_nat (length (fs_data fs)) -> data (set_data i v fs) i = u32 v.
Proof. intros. unfold data, set_data. cbn. by rewrite aget_aset_eq. Qed.
Lemma data_set_ne fs i j v : 0 <= i -> 0 <= j -> i <> j -> data (set_data i v fs) j = data fs j.
Proof. intros. unfold data, set_data. cbn. by rewrite aget_aset_ne. Qed.
Lemma data_add_type fs t j : data (add_type t fs) j = data fs j.
Proof. done. Qed.
Lemma length_set_data fs i v : length (fs_data (set_data i v fs)) = length (fs_data fs).
Proof. unfold set_data. cbn. apply length_aset. Qed.
Lemma length_add_type fs t : length (fs_data (add_type t fs)) = length (fs_data fs).
Proof. done. Qed.
Lemma type_set_data fs i v : fs_type (set_data i v fs) = fs_type fs.
Proof. done. Qed.

Ltac fs_len := rewrite ?length_set_data, ?length_add_type; lia.
Ltac fs_read :=
  repeat first [rewrite data_set_ne by lia | rewrite data_set_eq by fs_len | rewrite data_add_type].

(** What a granted criterion left in the spec. *)
Definition stored (fs : ef_filter_spec) (c : criterion) : Prop :=
  match c with
  | Ip4Local p h pt =>
      data fs 0 = u32 p /\ data fs 1 = u32 h /\ data fs 2 = u32 pt /\ data fs 3 = 0 /\ data fs 4 = 0
  | Ip4Full p h pt rh rp =>
      data fs 0 = u32 p /\ data fs 1 = u32 h /\ data fs 2 = u32 pt /\ data fs 3 = u32 rh /\
      data fs 4 = u32 rp
  | Ip6Local p h pt =>
      data fs 0 = u32 p /\ data fs 6 = u32 pt /\ data fs 11 = 0 /\
      (forall i, (i < 4)%nat -> data fs (1 + Z.of_nat i) = u32 (word_of h (4 * i)) /\
                                data fs (7 + Z.of_nat i) = u32 (word_of (replicate 16 0) (4 * i)))
  | Ip6Full p h pt rh rp =>
      data fs 0 = u32 p /\ data fs 6 = u32 pt /\ data fs 11 = u32 rp /\
      (forall i, (i < 4)%nat -> data fs (1 + Z.of_nat i) = u32 (word_of h (4 * i)) /\
                                data fs (7 + Z.of_nat i) = u32 (word_of rh (4 * i)))
  | Vlan v => data fs 5 = u32 v
  | Mac v m => data fs 0 = u32 v /\ data fs 1 = u32 (word_of m 0) /\ u16 (data fs 2) = u16 (get16 m 4)
  | PortSniff p => data fs 0 = u32 p
  | IpProto p => data fs 3 = u32 (u8 p)
  | EtherType t => data fs 3 = u32 (u16 t)
  | _ => True
  end.

Ltac unfold_setters :=
  unfold ef_filter_spec_set_ip4_local, ef_filter_spec_set_ip4_full,
    ef_filter_spec_set_ip6_local, ef_filter_spec_set_ip6_full, ef_filter_spec_set_vlan,
    ef_filter_spec_set_eth_local, ef_filter_spec_set_unicast_all, ef_filter_spec_set_multicast_all,
    ef_filter_spec_set_unicast_mismatch, ef_filter_spec_set_multicast_mismatch,
    ef_filter_spec_set_port_sniff, ef_filter_spec_set_tx_port_sniff, ef_filter_spec_set_block_kernel,
    ef_filter_spec_set_block_kernel_multicast, ef_filter_spec_set_block_kernel_unicast,
    ef_filter_spec_set_ip_proto, ef_filter_spec_set_eth_type, set_type_only, copy16, copy6.

(** A refused call leaves the spec alone. *)
Lemma set_criterion_refused fs c :
  is_type fs (setter_ok (kind_of c)) = false -> set_criterion fs c = (fs, - EPROTONOSUPPORT).
Proof.
  destruct c; cbn [kind_of setter_ok set_criterion]; intros E; unfold_setters; by rewrite E.
Qed.

(** A granted call sets the type bit and stores its parameters. *)
Lemma set_criterion_granted fs c :
  is_type fs (setter_ok (kind_of c)) = true -> length (fs_data fs) = 12%nat ->
  exists fs', set_criterion fs c = (fs', 0) /\
    fs_type fs' = Z.lor (fs_type fs) (bit (kind_of c)) /\ length (fs_data fs') = 12%nat /\
    stored fs' c.
Proof.
  intros E Hlen. destruct c; cbn [kind_of setter_ok set_criterion] in *; unfold_setters; rewrite E;
    cbn [negb]; eexists; (split; [reflexivity|]; split; [reflexivity|]; split;
      [by rewrite ?length_set_data|]); cbn [stored];
    unfold EF_FILTER_DATA_INDEX_IPPROTO_OR_ETHERTYPE; fs_read; try done.
  - split_and!; [done..|]. intros i Hi.
    destruct i as [|[|[|[|]]]]; [..|lia]; cbn [Z.of_nat Pos.of_succ_nat Nat.mul Nat.add Z.add Pos.add];
      fs_read; done.
  - split_and!; [done..|]. intros i Hi.
    destruct i as [|[|[|[|]]]]; [..|lia]; cbn [Z.of_nat Pos.of_succ_nat Nat.mul Nat.add Z.add Pos.add];
      fs_read; done.
  - change (1 + 1) with 2. fs_read. split_and!; [done..|]. word_lia.
Qed.

(** It does not disturb a criterion granted before. *)
Lemma set_criterion_keeps fs c c1 :
  is_type fs (setter_ok (kind_of c)) = true -> together (kind_of c1) (kind_of c) = true ->
  stored fs c1 -> stored (set_criterion fs c).1 c1.
Proof.
  intros E Ht Hs. destruct c1; destruct c; try discriminate Ht;
    cbn [kind_of setter_ok set_criterion] in *; unfold_setters; rewrite E; cbn [negb fst];
    cbn [stored] in *; unfold EF_FILTER_DATA_INDEX_IPPROTO_OR_ETHERTYPE; fs_read; try done.
  - split_and!; try apply Hs. intros i Hi. fs_read. by apply Hs.
  - split_and!; try apply Hs. intros i Hi. fs_read. by apply Hs.
Qed.

(** The spec holds exactly the criteria granted. *)
Record enc (fs : ef_filter_spec) (acc : list criterion) : Prop := mk_enc {
  e_shape : shape (kind_of <$> acc) = true;
  e_type : fs_type fs = type_of (kind_of <$> acc);
  e_len : length (fs_data fs) = 12%nat;
  e_stored : Forall (stored fs) acc }.

Lemma accepts_kind acc c : accepts acc c = kind_accepts (kind_of <$> acc) (kind_of c).
Proof. by destruct acc as [|? [|? ?]]. Qed.

Lemma enc_is_type fs acc c : enc fs acc -> is_type fs (setter_ok (kind_of c)) = accepts acc c.
Proof.
  intros He. unfold is_type. rewrite (e_type _ _ He), accepts_kind. apply setter_table, He.
Qed.

Lemma enc_step fs acc c : enc fs acc ->
  if accepts acc c
  then (set_criterion fs c).2 = 0 /\ enc (set_criterion fs c).1 (acc ++ [c])
  else set_criterion fs c = (fs, - EPROTONOSUPPORT).
Proof.
  intros He. pose proof (enc_is_type fs acc c He) as Hty. destruct (accepts acc c) eqn:Ea.
  - destruct (set_criterion_granted fs c Hty (e_len _ _ He)) as (fs' & Es & Ht & Hl & Hst).
    assert (Hkeep : Forall (stored fs') acc).
    { destruct acc as [|c1 [|c2 acc]]; [constructor| |done].
      pose proof (Forall_cons_1 _ _ _ (e_stored _ _ He)) as [H1 _].
      pose proof (set_criterion_keeps fs c c1 Hty Ea H1) as Hk. rewrite Es in Hk. by repeat constructor. }
    rewrite Es. split; [done|]. constructor; [| |done|].
    + destruct acc as [|c1 [|c2 acc]]; [done|exact Ea|done].
    + cbn [fst]. rewrite Ht, (e_type _ _ He), fmap_app. unfold type_of. by rewrite fold_left_app.
    + apply Forall_app_2; [done|]. by repeat constructor.
  - by apply set_criterion_refused.
Qed.

Lemma set_all_enc cs fs acc : enc fs acc ->
  (set_all fs cs).2 = codes acc cs /\ enc (set_all fs cs).1 (granted acc cs).
Proof.
  revert fs acc. induction cs as [|c cs IH]; intros fs acc He; [done|]. cbn [set_all codes granted].
  pose proof (enc_step fs acc c He) as Hs. destruct (accepts acc c).
  - destruct (set_criterion fs c) as [fs' rc]. cbn in Hs. destruct Hs as [-> He'].
    destruct (IH _ _ He') as [E1 E2]. destruct (set_all fs' cs) as [fs2 rcs]. cbn in *. by rewrite E1.
  - rewrite Hs. destruct (IH _ _ He) as [E1 E2]. destruct (set_all fs cs) as [fs2 rcs]. cbn in *.
    by rewrite E1.
Qed.

(** ** Reading the criteria back *)

Lemma has_table fs acc k : enc fs acc ->
  has fs (bit k) = existsb (fun k' => bool_decide (k = k')) (kind_of <$> acc).
Proof.
  intros He. unfold has. rewrite (e_type _ _ He). pose proof (e_shape _ _ He) as Hs. revert Hs.
  generalize (kind_of <$> acc) as ks. intros ks.
  destruct ks as [|k1 [|k2 [|? ?]]]; cbn [shape]; [|destruct k1|destruct k1, k2; try done|done];
    intros _; destruct k; vm_compute; reflexivity.
Qed.

Lemma type_table fs acc k : enc fs acc -> k = KSniff \/ k = KTxSniff ->
  (fs_type fs =? bit k) = bool_decide (kind_of <$> acc = [k]).
Proof.
  intros He Hk. rewrite (e_type _ _ He). pose proof (e_shape _ _ He) as Hs. revert Hs.
  generalize (kind_of <$> acc) as ks. intros ks.
  destruct ks as [|k1 [|k2 [|? ?]]]; cbn [shape]; [|destruct k1|destruct k1, k2; try done|done];
    intros _; destruct Hk as [-> | ->]; vm_compute; reflexivity.
Qed.

Lemma u8_u32 z : u8 (u32 z) = u8 z.
Proof. unfold u8, u32. apply Z.mod_mod_divide. by exists 16777216. Qed.
Lemma u16_u32 z : u16 (u32 z) = u16 z.
Proof. unfold u16, u32. apply Z.mod_mod_divide. by exists 65536. Qed.
Lemma s16_u32 z : s16 (u32 z) = s16 z.
Proof. unfold s16. by rewrite u16_u32. Qed.
Lemma u8_u8 z : u8 (u8 z) = u8 z.
Proof. apply Z.mod_mod. lia. Qed.
Lemma u16_u16 z : u16 (u16 z) = u16 z.
Proof. apply Z.mod_mod. lia. Qed.

Lemma bytes_of_word bs i : Forall byte_ok bs ->
  bytes_of (u32 (word_of bs i)) = [get8 bs i; get8 bs (S i); get8 bs (S (S i)); get8 bs (S (S (S i)))].
Proof.
  intros Hb. unfold bytes_of, word_of, get32, get16.
  pose proof (get8_range bs i Hb). pose proof (get8_range bs (S i) Hb).
  pose proof (get8_range bs (S (S i)) Hb). pose proof (get8_range bs (S (S (S i))) Hb).
  rewrite !Z.shiftr_div_pow2 by lia. repeat f_equal; word_lia.
Qed.

Lemma mac_bytes m d : length m = 6%nat -> Forall byte_ok m -> u16 d = u16 (get16 m 4) ->
  take 6 (bytes_of (u32 (word_of m 0)) ++ bytes_of d) = m.
Proof.
  intros Hl Hb Hd. rewrite bytes_of_word by done. unfold bytes_of.
  assert (E : u8 d = get8 m 4 /\ u8 (Z.shiftr d 8) = get8 m 5).
  { pose proof (get8_range m 4 Hb). pose proof (get8_range m 5 Hb). unfold get16 in Hd.
    rewrite Z.shiftr_div_pow2 by lia. split; word_lia. }
  destruct E as [-> ->]. cbn [app take].
  destruct m as [|? [|? [|? [|? [|? [|? [|? ?]]]]]]]; try discriminate Hl. reflexivity.
Qed.

Lemma addr_bytes h (w : Z -> Z) i : length h = 16%nat -> Forall byte_ok h ->
  (forall j, (j < 4)%nat -> w (i + Z.of_nat j) = u32 (word_of h (4 * j))) ->
  bytes_of (w i) ++ bytes_of (w (i + 1)) ++ bytes_of (w (i + 2)) ++ bytes_of (w (i + 3)) = h.
Proof.
  intros Hl Hb Hw.
  pose proof (Hw 0%nat ltac:(lia)) as H0. pose proof (Hw 1%nat ltac:(lia)) as H1.
  pose proof (Hw 2%nat ltac:(lia)) as H2. pose proof (Hw 3%nat ltac:(lia)) as H3.
  change (Z.of_nat 0) with 0 in H0. change (Z.of_nat 1) with 1 in H1.
  change (Z.of_nat 2) with 2 in H2. change (Z.of_nat 3) with 3 in H3. rewrite Z.add_0_r in H0.
  rewrite H0, H1, H2, H3, !bytes_of_word by done. cbn [Nat.mul Nat.add app].
  do 16 (destruct h as [|? h]; [discriminate Hl|]). destruct h; [reflexivity|discriminate Hl].
Qed.

(** The members a request takes from the data, by the criteria present. *)
Record filled (r : Z) (fs : ef_filter_spec) (op : ci_resource_op_t) : Prop := mk_filled {
  f_id : op_id op = r;
  f_flags : op_flags op = if nz (Z.land (fs_flags fs) EF_FILTER_FLAG_MCAST_LOOP_RECEIVE) then 2 else 0;
  f_mac : has fs EF_FILTER_MAC = true ->
    mac_vlan_id op = s16 (data fs 0) /\
    mac_mac op = take 6 (bytes_of (data fs 1) ++ bytes_of (data fs 2));
  f_ip4 : has fs EF_FILTER_MAC = false -> has fs EF_FILTER_IP_PROTO = false ->
    has fs EF_FILTER_IP4 = true ->
    ip4_protocol op = u8 (data fs 0) /\ ip4_host_be32 op = data fs 1 /\
    ip4_port_be16 op = s16 (data fs 2) /\ ip4_rhost_be32 op = data fs 3 /\
    ip4_rport_be16 op = s16 (data fs 4);
  f_vlan : has fs EF_FILTER_MAC = false -> has fs EF_FILTER_VLAN = true ->
    mac_vlan_id op = s16 (data fs 5);
  f_proto : has fs EF_FILTER_IP_PROTO = true -> ip4_protocol op = u8 (data fs 3);
  f_ether : has fs EF_FILTER_IP_PROTO = false -> has fs EF_FILTER_ETHER_TYPE = true ->
    in_ether_type_be16 op = u16 (data fs 3) }.

Lemma fill_op_filled r fs op0 : filled r fs (fill_op r fs op0).
Proof.
  unfold fill_op.
  destruct (has fs EF_FILTER_MAC) eqn:E1, (has fs EF_FILTER_IP4) eqn:E2, (has fs EF_FILTER_VLAN) eqn:E3,
    (has fs EF_FILTER_IP_PROTO) eqn:E4, (has fs EF_FILTER_ETHER_TYPE) eqn:E5;
    constructor; intros; try congruence; split_and?; reflexivity.
Qed.

Lemma filter_request_filled r fs op0 op : filter_request r fs op0 = Some op ->
  op_of_type (fs_type fs) = Some (op_op op) /\ filled r fs op /\
  ((fs_type fs =? EF_FILTER_PORT_SNIFF) = true ->
     sniff_enable op = 1 /\ sniff_promiscuous op = u8 (data fs 0)) /\
  ((fs_type fs =? EF_FILTER_PORT_SNIFF) = false -> (fs_type fs =? EF_FILTER_TX_PORT_SNIFF) = true ->
     tx_sniff_enable op = 1).
Proof.
  unfold filter_request. pose proof (fill_op_filled r fs op0) as [].
  generalize dependent (fill_op r fs op0). intros o1 *.
  destruct (op_of_type (fs_type fs)) as [o|]; [|done].
  destruct (fs_type fs =? EF_FILTER_PORT_SNIFF), (fs_type fs =? EF_FILTER_TX_PORT_SNIFF);
    intros ? ? ? ? ? ? ? E; injection E as <-; (split; [reflexivity|]); (split; [by constructor|]);
    split; intros; try congruence; split_and?; reflexivity.
Qed.

Lemma in_kinds (acc : list criterion) c : c ∈ acc ->
  existsb (fun k' => bool_decide (kind_of c = k')) (kind_of <$> acc) = true.
Proof.
  intros Hc. apply existsb_exists. exists (kind_of c). split; [|by apply bool_decide_eq_true_2].
  apply list_elem_of_In. by apply list_elem_of_fmap_2.
Qed.

(** Criteria that would use the same members are never granted together. *)
Lemma excluded acc c k : shape (kind_of <$> acc) = true -> c ∈ acc ->
  kind_of c <> k -> together (kind_of c) k = false -> together k (kind_of c) = false ->
  existsb (fun k' => bool_decide (k = k')) (kind_of <$> acc) = false.
Proof.
  intros Hs Hc Hne H1 H2. destruct acc as [|c1 [|c2 [|? ?]]]; [by apply elem_of_nil in Hc| | |done].
  - apply list_elem_of_singleton in Hc as ->. cbn. by rewrite bool_decide_eq_false_2.
  - cbn in Hs |- *. apply elem_of_cons in Hc as [->|Hc%list_elem_of_singleton]; [|subst c].
    + rewrite !bool_decide_eq_false_2; [done|intros ->; congruence|done].
    + rewrite !bool_decide_eq_false_2; [done|done|intros ->; congruence].
Qed.

Lemma has_in fs acc c : enc fs acc -> c ∈ acc -> has fs (bit (kind_of c)) = true.
Proof. intros He Hc. rewrite (has_table fs acc) by done. by apply in_kinds. Qed.

Lemma has_not fs acc c k : enc fs acc -> c ∈ acc ->
  kind_of c <> k -> together (kind_of c) k = false -> together k (kind_of c) = false ->
  has fs (bit k) = false.
Proof.
  intros He Hc ???. rewrite (has_table fs acc) by done. by apply (excluded acc c); [apply He|..].
Qed.

Lemma type_alone fs acc c : enc fs acc -> c ∈ acc -> (forall k, together (kind_of c) k = false) ->
  (forall k, together k (kind_of c) = false) -> fs_type fs = bit (kind_of c).
Proof.
  intros He Hc H1 H2. rewrite (e_type _ _ He). pose proof (e_shape _ _ He) as Hs.
  destruct acc as [|c1 [|c2 [|? ?]]]; [by apply elem_of_nil in Hc| | |done].
  - apply list_elem_of_singleton in Hc as ->. cbn. by destruct (kind_of c1).
  - exfalso. cbn in Hs. apply elem_of_cons in Hc as [->|Hc%list_elem_of_singleton]; [|subst c].
    + by rewrite H1 in Hs. + by rewrite H2 in Hs.
Qed.

Ltac told_rewrite :=
  repeat match goal with H : data _ _ = _ |- _ => rewrite H end;
  rewrite ?u8_u32, ?u16_u32, ?s16_u32, ?u8_u8, ?u16_u16.

Lemma told_one fs acc r op0 op c :
  enc fs acc -> c ∈ acc -> wf_criterion c -> filter_request r fs op0 = Some op -> told op c.
Proof.
  intros He Hc Hwf E. destruct (filter_request_filled r fs op0 op E) as (_ & Hf & Hsn & Htx).
  pose proof (has_in fs acc c He Hc) as Hin.
  pose proof (proj1 (Forall_forall _ _) (e_stored _ _ He) c) as Hst.
  specialize (Hst (proj1 (list_elem_of_In _ _) Hc)).
  assert (Hno : forall k, kind_of c <> k -> together (kind_of c) k = false ->
    together k (kind_of c) = false -> has fs (bit k) = false) by (intros; by apply (has_not fs acc c)).
  pose proof (type_alone fs acc c He Hc) as Hal.
  destruct c; cbn [told kind_of bit stored wf_criterion] in *; try done.
  - destruct (f_ip4 _ _ _ Hf (Hno KMac ltac:(done) eq_refl eq_refl)
      (Hno KProto ltac:(done) eq_refl eq_refl) Hin) as (-> & -> & -> & -> & ->).
    destruct Hst as (? & ? & ? & ? & ?). told_rewrite. done.
  - destruct (f_ip4 _ _ _ Hf (Hno KMac ltac:(done) eq_refl eq_refl)
      (Hno KProto ltac:(done) eq_refl eq_refl) Hin) as (-> & -> & -> & -> & ->).
    destruct Hst as (? & ? & ? & ? & ?). told_rewrite. done.
  - rewrite (f_vlan _ _ _ Hf (Hno KMac ltac:(done) eq_refl eq_refl) Hin). by told_rewrite.
  - destruct (f_mac _ _ _ Hf Hin) as [-> ->]. destruct Hst as (? & ? & ?). told_rewrite.
    split; [done|]. apply mac_bytes; [apply Hwf|apply Hwf|done].
  - destruct Hsn as [-> ->]; [by rewrite Hal by (by intros [])|]. by told_rewrite.
  - apply Htx; by rewrite Hal by (by intros []).
  - rewrite (f_proto _ _ _ Hf Hin). by told_rewrite.
  - rewrite (f_ether _ _ _ Hf (Hno KProto ltac:(done) eq_refl eq_refl) Hin). by told_rewrite.
Qed.

Lemma told_ip6_one fs acc r c :
  enc fs acc -> c ∈ acc -> wf_criterion c -> told_ip6 (filter_request_ip6 r fs) c.
Proof.
  intros He Hc Hwf. pose proof (proj1 (Forall_forall _ _) (e_stored _ _ He) c) as Hst.
  specialize (Hst (proj1 (list_elem_of_In _ _) Hc)). pose proof (has_in fs acc c He Hc) as Hin.
  destruct c; cbn [told_ip6 kind_of bit stored wf_criterion filter_request_ip6 a_protocol a_daddr a_dest
    a_saddr a_source a_vid] in *; try done.
  - destruct Hst as (-> & -> & -> & Hw). rewrite u8_u32, u16_u32. split_and!; try done.
    + apply (addr_bytes host (data fs) 1); [apply Hwf..|]. intros j Hj. by apply Hw.
    + apply (addr_bytes (replicate 16 0) (data fs) 7); [done| |intros j Hj; by apply Hw].
      apply Forall_replicate. unfold byte_ok. lia.
  - destruct Hst as (-> & -> & -> & Hw). rewrite u8_u32, !u16_u32. split_and!; try done.
    + apply (addr_bytes host (data fs) 1); [apply Hwf..|]. intros j Hj. by apply Hw.
    + apply (addr_bytes rhost (data fs) 7); [apply Hwf..|]. intros j Hj. by apply Hw.
  - rewrite Hin, Hst. by rewrite u16_u32.
Qed.

(** * The theorems *)

(** A client that initialises a spec and calls setters. *)
Definition build (fs0 : ef_filter_spec) (flags : Z) (cs : list criterion) : ef_filter_spec * list Z :=
  set_all (ef_filter_spec_init fs0 flags) cs.

Lemma build_enc fs0 flags cs : length (fs_data fs0) = 12%nat ->
  (build fs0 flags cs).2 = codes [] cs /\ enc (build fs0 flags cs).1 (granted [] cs).
Proof. intros Hl. apply set_all_enc. constructor; [done|done|done|constructor]. Qed.

Lemma granted_wf acc cs : Forall wf_criterion acc -> Forall wf_criterion cs ->
  Forall wf_criterion (granted acc cs).
Proof.
  revert acc. induction cs as [|c cs IH]; intros acc Ha Hcs; [done|].
  apply Forall_cons_1 in Hcs as [Hc Hcs]. cbn. apply IH; [|done].
  destruct (accepts acc c); [|done]. apply Forall_app_2; [done|by constructor].
Qed.

Lemma filter_request_none fs acc r op0 : enc fs acc ->
  (filter_request r fs op0 = None <-> op_for (kind_of <$> acc) = None) /\
  forall op, filter_request r fs op0 = Some op -> op_for (kind_of <$> acc) = Some (op_op op).
Proof.
  intros He. split.
  - unfold filter_request. rewrite (e_type _ _ He), switch_table by apply He.
    by destruct (op_for (kind_of <$> acc)).
  - intros op E. destruct (filter_request_filled _ _ _ _ E) as [Eo _].
    by rewrite (e_type _ _ He), switch_table in Eo by apply He.
Qed.

(** Without IPv6, a request is refused only if nothing but a VLAN was granted. *)
Lemma op_for_complete ks : shape ks = true -> KIp6 ∉ ks ->
  (op_for ks = None <-> ks = [] \/ ks = [KVlan]).
Proof.
  intros Hs H6. destruct ks as [|k1 [|k2 [|? ?]]]; [| | |done].
  - split; [by left|done].
  - destruct k1; try (split; [intros; by (done || right)|by intros [|]]). exfalso. apply H6. left.
  - destruct k1, k2; try discriminate Hs; try (split; [done|by intros [|]]);
      exfalso; apply H6; first [left|right; left].
Qed.

(** C18: whatever sequence of setters a client calls on an initialised spec, each
    call succeeds exactly when its criterion goes together with those granted
    before (and otherwise changes nothing), and adding the filter to a VI asks
    the kernel for the operation that belongs to the criteria granted, on that
    VI, with the parameters of every one of them: no criterion overwrites
    another's data.  Only a spec with no criterion but perhaps a VLAN is refused,
    with [-EINVAL], before the kernel is asked. *)
Theorem filter_request_refines ci_resource_op ci_filter_add fs0 flags cs vi_resource_id stack cookie :
  length (fs_data fs0) = 12%nat -> Forall wf_criterion cs ->
  let '(fs, rcs) := build fs0 flags cs in
  let acc := granted [] cs in
  let ks := kind_of <$> acc in
  let add := ef_vi_filter_add ci_resource_op ci_filter_add 0 vi_resource_id fs stack cookie in
  rcs = codes [] cs /\
  if bool_decide (KIp6 ∈ ks) then
    exists op, add.1 = (let rc := (ci_filter_add op).1 in if rc =? - ENOTTY then - EOPNOTSUPP else rc) /\
      a_res_id op = vi_resource_id /\ Forall (told_ip6 op) acc /\
      (KVlan ∉ ks -> a_vid op = 65535)
  else if bool_decide (ks = [] \/ ks = [KVlan]) then add = (- EINVAL, cookie)
  else
    exists op, add.1 = (ci_resource_op op).1 /\ op_id op = vi_resource_id /\
      op_for ks = Some (op_op op) /\ Forall (told op) acc.
Proof.
  intros Hl Hwf. destruct (build_enc fs0 flags cs Hl) as [Hrc He].
  pose proof (granted_wf [] cs ltac:(constructor) Hwf) as Hw.
  destruct (build fs0 flags cs) as [fs rcs]. cbn [fst snd] in Hrc, He. cbv zeta.
  generalize dependent (granted [] cs). intros acc He Hw. split; [done|].
  unfold ef_vi_filter_add. cbn [nz Z.eqb negb].
  pose proof (has_table fs acc KIp6 He) as H6. cbn [bit] in H6. rewrite H6. clear H6.
  case_bool_decide as H6.
  - rewrite (proj2 (existsb_exists _ _)).
    2:{ exists KIp6. split; [by apply list_elem_of_In|by apply bool_decide_eq_true_2]. }
    exists (filter_request_ip6 vi_resource_id fs). split_and!.
    + unfold ef_filter_add_ip6. destruct (ci_filter_add _) as [rc id]. cbn [fst]. cbv zeta.
      destruct (Z.eqb_spec rc (- ENOTTY)) as [->|]; [by destruct cookie|].
      destruct cookie; [|done]. by destruct (rc =? 0).
    + done.
    + apply Forall_forall. intros c Hc%list_elem_of_In. apply (told_ip6_one fs acc); [done..|].
      apply (proj1 (Forall_forall _ _) Hw). by apply list_elem_of_In.
    + intros Hv. cbn. pose proof (has_table fs acc KVlan He) as Ht. cbn [bit] in Ht. rewrite Ht.
      destruct (existsb _ _) eqn:Ex; [|done]. apply existsb_exists in Ex as (k & Hk & Ek).
      apply bool_decide_eq_true_1 in Ek as <-. by apply list_elem_of_In in Hk.
  - destruct (existsb _ _) eqn:Ex.
    { apply existsb_exists in Ex as (k & Hk & Ek). apply bool_decide_eq_true_1 in Ek as <-.
      by apply list_elem_of_In in Hk. }
    destruct (filter_request_none fs acc vi_resource_id stack He) as [Hnone Hsome].
    pose proof (op_for_complete _ (e_shape _ _ He) H6) as Hcomp. unfold ef_filter_add.
    case_bool_decide as Hb.
    + by rewrite (proj2 Hnone (proj2 Hcomp Hb)).
    + destruct (filter_request vi_resource_id fs stack) as [op|] eqn:Er.
      * exists op. split_and!.
        -- destruct (ci_resource_op op) as [rc id]. by destruct (rc =? 0).
        -- by destruct (filter_request_filled _ _ _ _ Er) as (_ & [] & _).
        -- by apply Hsome.
        -- apply Forall_forall. intros c Hc%list_elem_of_In. apply (told_one fs acc vi_resource_id stack); try done.
           apply (proj1 (Forall_forall _ _) Hw). by apply list_elem_of_In.
      * exfalso. apply Hb, Hcomp, Hnone, eq_refl.
Qed.

(** A stack frame with nothing in it, and a spec. *)
Definition ex_op : ci_resource_op_t :=
  mk_op 0 CI_RSOP_FILTER_DEL 0 0 0 0 0 0 0 [] 0 0 0 0 0.
Definition ex_fs : ef_filter_spec := mk_fs 77 1 (replicate 12 9).

(** A VLAN, then an address on it; a MAC address is refused afterwards. *)
Definition ex_criteria : list criterion :=
  [Vlan 100; Ip4Full 17 3232235777 13330 3232235778 20480; Mac 5 [1; 2; 3; 4; 5; 6]].

Lemma filter_request_refines_witness :
  (build ex_fs 0 ex_criteria).2 = [0; 0; - EPROTONOSUPPORT] /\
  exists op, (ef_vi_filter_add (fun _ => (0, 5)) (fun _ => (0, 6)) 0 42 (build ex_fs 0 ex_criteria).1
               ex_op None).1 = 0 /\
    op_op op = CI_RSOP_FILTER_ADD_IP4_VLAN /\ op_id op = 42 /\ mac_vlan_id op = 100.
Proof.
  pose proof (filter_request_refines (fun _ => (0, 5)) (fun _ => (0, 6)) ex_fs 0 ex_criteria 42 ex_op None
    eq_refl) as H.
  assert (Hwf : Forall wf_criterion ex_criteria).
  { repeat constructor; cbv; intuition discriminate. }
  specialize (H Hwf). destruct (build ex_fs 0 ex_criteria) as [fs rcs]. destruct H as [Hrc H].
  split; [exact Hrc|]. destruct H as (op & Hrc' & Hid & Hop & Htold). exists op.
  split_and!; [exact Hrc'| |exact Hid|].
  - by injection Hop.
  - apply Forall_cons_1 in Htold as [Hv _]. exact Hv.
Defined.

(** An IPv6 filter cannot be added to a VI set: its entry point has no case for
    it and returns [-EINVAL] without asking the kernel. *)
Lemma vi_set_refuses_ip6 kernel fs0 flags p host port vis_res_id stack cookie :
  length (fs_data fs0) = 12%nat ->
  ef_vi_set_filter_add kernel vis_res_id (build fs0 flags [Ip6Local p host port]).1 stack cookie =
  (- EINVAL, cookie).
Proof.
  intros Hl. destruct (build_enc fs0 flags [Ip6Local p host port] Hl) as [_ He].
  unfold ef_vi_set_filter_add, ef_filter_add.
  destruct (filter_request_none _ _ vis_res_id stack He) as [Hn _]. by rewrite (proj2 Hn).
Qed.

(** The cookie of a successful addition makes the deletion undo it. *)
Lemma filter_cookie_deletes kernel vi_resource_id fs stack c0 rc cookie stack' :
  ef_filter_add kernel vi_resource_id fs stack (Some c0) = (rc, Some cookie) -> rc = 0 ->
  exists op, filter_request vi_resource_id fs stack = Some op /\
    let del := filter_del_request vi_resource_id cookie stack' in
    op_id del = vi_resource_id /\
    match op_op op with
    | CI_RSOP_PT_SNIFF => op_op del = CI_RSOP_PT_SNIFF /\ sniff_enable del = 0
    | CI_RSOP_TX_PT_SNIFF => op_op del = CI_RSOP_TX_PT_SNIFF /\ tx_sniff_enable del = 0
    | _ => op_op del = CI_RSOP_FILTER_DEL /\ del_filter_id del = s32 (kernel op).2
    end.
Proof.
  unfold ef_filter_add. destruct (filter_request vi_resource_id fs stack) as [op|] eqn:E;
    [|by intros [= <- _]].
  destruct (filter_request_filled _ _ _ _ E) as (Ho & _).
  destruct (kernel op) as [rc' id] eqn:Ek. intros H ->. exists op. split; [done|].
  destruct (Z.eqb_spec rc' 0) as [->|]; [|congruence]. cbn in H. injection H as <-.
  unfold filter_del_request. cbn [filter_type filter_id snd].
  destruct (fs_type fs =? EF_FILTER_PORT_SNIFF) eqn:E1;
    [|destruct (fs_type fs =? EF_FILTER_TX_PORT_SNIFF) eqn:E2].
  - apply Z.eqb_eq in E1. rewrite E1 in Ho. apply (inj Some) in Ho as <-. done.
  - apply Z.eqb_eq in E2. rewrite E2 in Ho. apply (inj Some) in Ho as <-. done.
  - unfold op_of_type in Ho. rewrite E1, E2 in Ho.
    repeat (destruct (fs_type fs =? _) in Ho; [apply (inj Some) in Ho as <-; by rewrite ?Ek|]).
    discriminate Ho.
Qed.
